(* ===== verification/_CoqProject ===== *)
-Q . S2P
Prelude.v
RustStr.v
RustNet.v
Output.v
RustPath.v
Domain.v
Reducer.v
ReducerSnooze.v
ReducerNotify.v
Config.v
Tunnel.v
Process.v
Protocol.v
Client.v
ClientTime.v
Runtime.v
Notification.v
StateFile.v
Persistence.v
Tray.v
Projection.v
Geometry.v
System.v
Supervision.v
Shutdown.v
Desktop.v
Io.v
Atomic.v
ImportState.v
Store.v
Cli.v
Setup.v
Reinstall.v
Autostart.v
Migration.v
Rollback.v
MigrationOrder.v
BearerToken.v
Flash.v
App.v
Session.v
Durable.v
Run.v
Crash.v
