(* ===== verification/Prelude.v ===== *)
(** * Montray UI: a verification development

    Montray UI ([src/cmd/montray-ui/src/]) is a desktop client that watches several
    Montray servers. This library models its core in Rocq and proves the properties
    that make it correct.

    ** The program

    For every configured server a network client keeps a WebSocket open, if need be
    through a tunnel process that a supervisor owns. Both send events to one event
    pump, which is the only owner of the domain state: it hands each event to a
    reducer, carries out the effects the reducer asks for (desktop notifications,
    durable snooze writes) and publishes a snapshot, which is projected into the
    window and the tray icon. Snoozes, preferences and window geometry are kept in
    one state file. Around this, the application shell starts and stops the parts and
    handles the tray, and the command line installs the desktop integration, migrates
    an installation of the former Salmon Watch, and creates bearer tokens.

    ** The files

    - [Prelude]: results and error chains ([anyhow]), sorted maps, the shared tactics,
      hints and lemmas.
    - [RustStr], [RustNet], [RustPath]: what the sources use of the Rust standard
      library on strings (UTF-8 bytes, characters, trimming, splitting, integer
      parsing), textual IP addresses and paths.
    - [Io]: a file tree with links and modes, and a monad of programs on it in which
      every call may fail, also halfway through a write, and other processes may
      create files in between; it keeps every tree passed through, so that a property
      can speak of every moment at which the process may be killed.
    - [Atomic]: files written under a temporary name and moved to their path, on [Io].
    - [Domain] ([domain/model.rs], [event.rs], [effect.rs]): the state, the events and
      effects, and the snapshot at an instant. An [OffsetDateTime] is its number of
      nanoseconds; the RFC 3339 format is the class [Rfc3339] with its laws.
    - [Reducer], [ReducerSnooze], [ReducerNotify] ([domain/reducer.rs]): the handler
      [reduce], with the panic of its formatter as [None]; the state invariant; the
      two-phase snooze protocol; incident lists and desktop notifications.
    - [Config] ([config.rs]): validation, the allocation of tunnel endpoints, loading.
    - [Output], [Tunnel] ([network/tunnel.rs]): the readiness matcher, the bounded
      output buffer and the pipe readers; the command line, the spawned command and the
      supervisor.
    - [Process] (the Unix side of [network/tunnel.rs]): a process table with groups, on
      which the supervisor spawns, waits and signals while other processes come and go.
    - [Protocol] ([network/protocol.rs]): JSON values, the derived deserializers and
      [decode_text_message].
    - [Client], [ClientTime] ([network/client.rs]): connection set-up and the reconnect
      loop; the same loop with the clocks of its timers.
    - [Runtime] ([runtime.rs]): the event pump, its effects and its log lines.
    - [Notification] ([notification.rs]): the bounded queue and its worker.
    - [StateFile], [Persistence] ([persistence.rs]): the state file as data and as
      JSON, and its operations as sequences of file-system states, any of which may be
      the last before a failure: the specification of the store.
    - [Store] ([persistence.rs]): the same operations on [Io], with the buffered writer
      of the standard library, refining that specification.
    - [ImportState] ([persistence.rs]): the choice of the state file and the import of
      the former one, over [Io].
    - [Tray] ([tray.rs]): the flash controller and the composition of icons.
    - [Projection] ([ui/projection.rs]): rows, list models, times and the tray state.
    - [Geometry] ([window_geometry.rs]): the window geometry manager.
    - [System]: what configuration, client, reducer and pump guarantee jointly.
    - [Supervision] ([tunnel.rs] with [client.rs]): the tunnel supervisor and the client
      it owns as one machine, followed into the reducer.
    - [Shutdown] (the end of [run_async] in [runtime.rs]): the drain that joins the
      network tasks, against the class [WindsDown] with its instance for both kinds of
      task.
    - [Desktop], [Setup], [Reinstall], [Autostart] ([setup.rs]): desktop entries and
      their quoting; installation of files, the setup command and the autostart switch
      over [Io]; the backups of a reinstallation.
    - [Migration], [Rollback], [MigrationOrder] ([setup.rs]): the migration from Salmon
      Watch with its journal, the rollback and the order of its steps. The import of
      the state, injected in the code, is the class [StateImport], whose instance is
      [default_state_path] of [ImportState].
    - [BearerToken] ([bearer_token.rs]): the token file and the printed instructions.
    - [Cli] ([cli.rs], [logging.rs], [build_info.rs], [build.rs]): the meaning of parsed
      arguments, log records and the version text.
    - [Flash] ([app.rs]): the timers that flash the tray icon, around [Tray].
    - [App] ([app.rs], [main.rs]): the modes of the process, the startup configuration,
      the callbacks of window and tray as one handler, signals and the teardown.
    - [Session]: all writers of the state file together: the snoozes of the pump, the
      preferences and the window placement, through [Store::update], on the
      specification of [Persistence].
    - [Durable]: the same session on the file tree, through [Store].
    - [Run] ([app.rs], [runtime.rs]): [run] from the start to the return, the handle of
      the runtime thread, and the replacement of the process.
    - [Crash]: a session that is killed at any moment, and the start after it.

    ** How code is modelled

    Pure functions are functions under the names of the code. An error is a value of
    [Result] with its chain of messages; a panic is [None] of an [option]. Asynchronous
    code (the tunnel supervisor, the client, the notification worker) is a step
    function: a state is one [await], an input is what that await can deliver, and a
    step does everything up to the next await; a run is a list of inputs with their
    instants. The pump consumes a list of turns; each turn holds its event, its clocks
    and the outcome of its write. 64-bit counters, 8-bit channels and saturating
    arithmetic are written out where the code depends on them. The YAML and JSON
    parsers, TLS and HTTP, the local time zone, floating-point arithmetic and the native
    window are parameters or inputs; what is needed of them is a named class with an
    instance ([Rfc3339Laws], [JsonLaws], [JsonChunks]).

    ** What is proved

    - Domain and reducer: the change flag is complete ([reduce_unchanged]); every
      reachable state is well formed ([run_wf]); the snapshot partitions the incidents
      and its severity follows the tray's precedence; server messages are
      authoritative; an outage is announced once; snooze actions are proposals, and
      committing an expiry is invisible; the connection status refines a three-phase
      machine.
    - Durability: the live snoozes are the last written ones ([snoozes_durable]); failed
      expiry waits ten seconds; a transaction on the file tree has the result and the
      versions of the state file of a run of the specification ([store_update_refines]),
      and transactions serialize, with a committed state to be read at every moment
      ([store_crash_consistent]); importing replaces nothing and is atomic
      ([import_preserves]); the state survives its JSON form with unknown fields; over
      any session the file holds what the application shows, at every moment
      ([session_on_disk]), and the next start restores it, also after a crash
      ([crash_restart]).
    - Network: the supervisor never leaks or overlaps generations, and it joins the client
      before it signals the group or kills the child; no process of a tunnel that stays
      in its group outlives it, and no other is signalled unless an id is
      reused in between ([tunnel_processes]); the streaming matcher
      is exact for every split; the client's events form a session with linear backoff;
      a silent server is reported and a lost one tried again in bounded time
      ([client_timely]); the wire format round-trips.
    - Configuration: validation accepts exactly the valid configurations; allocation
      keeps them valid; the ssh command line is safe.
    - Presentation: the window shows the snapshot and keeps its list models; of all
      pending flash timers one counts, and the icon turns over every period
      ([flash_round]); the overlay paints only its square, and the pie mixes the pixels of
      two icons without leaving their range; a maximized size is never
      restored as the normal one; the log details stay on one line.
    - Setup: installation is atomic and replaces nothing it was not asked to
      ([install_file_atomic], [setup_undisturbed]); during a reinstallation every file
      that was there is unchanged or in the backup, at every moment
      ([reinstall_backed_up]); after a switch of the autostart that succeeds the reading
      agrees with it, except for off at a dangling link, and only Montray's entry is
      removed; the command line of a desktop entry reads back as it was meant, for paths
      without line breaks ([newline_adds_key] shows what a line break does).
    - Migration: it touches only what it says, links where copies go included; a failed
      one leaves no file behind when there was no link below the destination
      ([migration_rolled_back]; [rollback_removes_link] shows what happens to a link);
      and nothing of the former installation goes before the new desktop files are in
      place and a valid new configuration is there ([migration_order]).
    - Tokens: the file is never readable by others and replaces nothing; it is complete
      when the command succeeds and absent when it fails, unless the removal of a partial
      one fails as well ([partial_token_left]); what is printed depends on the token only
      through its digest; the client reads back the token that was written.
    - Application: a restart needs a configuration that loads; a termination signal
      ends the event loop, and a second one the process at once, also in the teardown
      ([signal_ends]); the runtime is started at most once and joined
      before a return and before the process is replaced ([run_owns_runtime]); the
      command queue is bounded; preferences persist.
    - Together: incident keys of a validated configuration never collide
      ([validated_keys_disjoint]); the shown status is that of the client's session
      ([status_follows_session]), also inside a tunnel, and a tunnel and a connection
      incident of one server never stand side by side ([one_root_cause]); the shutdown
      of all network tasks always has a next step that comes by itself, except while it
      only waits for tunnel commands that closed their pipes before they were ready and
      that nothing kills ([shutdown_drains], [closed_pipes_ignore_shutdown]).

    ** Termination and bounds

    Recursion is structural on lists, characters or inputs, with three exceptions that
    take fuel. [Io.resolve] follows at most 41 links, one more than the 40 after which
    the kernel gives up, and then fails as the kernel does. [Io.ancestors] takes one
    unit per parent and is called with the length of the path, which no chain of
    parents exceeds. The directory copy of a migration recurses at most [PATH_MAX] =
    4096 levels, since each level adds at least two bytes to a path that the system
    limits to that length, and then fails as an overlong path does. Loops of the code
    that wait for the outside world are runs over lists of inputs, and are shown to end
    where they should: the pump handles every turn ([run_async_total]); the supervisor
    takes at most eight inputs after shutdown ([supervisor_winds_down]), a connection
    loop two, and the drain of all tasks a number linear in the servers, plus three for
    each time a select takes another branch than the one that ends the task, of which
    there is no bound ([shutdown_drains]). The supervisor and the drain may stay where
    they wait for a child that closed its pipes and is not killed: that it exits is not
    assumed.

    ** What is not modelled

    What libraries do inside: decoding of images, the grammar of the argument parser,
    TCP, TLS and the WebSocket handshake, the notification service, the toolkit's window
    and event loop; their results are inputs. Processes and signals are those of Unix;
    the branches for other systems are not modelled. Tokio's timers are assumed to be
    punctual up to a bound that is a parameter of [ClientTime], where an await of the
    code without a timer ends within that bound as well. Signals are those between the
    start of the event loop and the end of the teardown; before and after, they are not
    modelled. Paths are compared as keys, so that two spellings of one file are two
    files, and a call that creates or renames does not look whether the parent directory
    is there: that it fails then is one of the failures any call may have. What is shown
    of the store on the file tree is for a state file that is not a link and that no
    other process creates. The mutex of the store is the order of its transactions.
    Messages of the log are modelled where they belong to a function's behaviour, not
    everywhere. *)

From stdpp Require Import base gmap strings list sorting pretty option.
From Stdlib Require Import ZArith Lia.

(** Loading stdpp leaves several goal selectors open; the development focuses
    every goal with bullets or braces. *)
#[export] Set Default Goal Selector "!".

(** ** Results and error chains

    [anyhow::Error] is a chain of messages, the outermost context first:
    [to_string] shows the head, [{:#}] the whole chain joined by a colon. *)

Inductive result (E A : Type) : Type :=
| Ok (value : A)
| Err (error : E).
Arguments Ok {E A} value.
Arguments Err {E A} error.

Abbreviation anyhow := (list string).
Abbreviation Result := (result anyhow).

#[global] Instance result_ret {E} : MRet (result E) := fun A a => Ok a.
#[global] Instance result_bind {E} : MBind (result E) := fun A B f r =>
  match r with
  | Ok a => f a
  | Err e => Err e
  end.
#[global] Instance result_fmap {E} : FMap (result E) := fun A B f r =>
  match r with
  | Ok a => Ok (f a)
  | Err e => Err e
  end.
#[global] Instance result_eq_dec {E A} `{EqDecision E, EqDecision A} :
  EqDecision (result E A).
Proof. solve_decision. Defined.

(** [?] after [.context(c)] / [.with_context(|| c)]: an error gains one outer
    message, a success is unchanged. *)
Definition with_context {A} (c : string) (r : Result A) : Result A :=
  match r with
  | Ok a => Ok a
  | Err e => Err (c :: e)
  end.

(** [Option::context]: absence becomes an error with that one message. *)
Definition opt_context {A} (c : string) (o : option A) : Result A :=
  match o with
  | Some a => Ok a
  | None => Err [c]
  end.

Definition bail {A} (c : string) : Result A := Err [c].

Definition is_ok {E A} (r : result E A) : bool :=
  match r with Ok _ => true | Err _ => false end.
Definition is_err {E A} (r : result E A) : bool := negb (is_ok r).

Definition result_ok {E A} (r : result E A) : option A :=
  match r with Ok a => Some a | Err _ => None end.

(** [slice::join]. *)
Fixpoint join (sep : string) (parts : list string) : string :=
  match parts with
  | [] => ""
  | [p] => p
  | p :: rest => p +:+ sep +:+ join sep rest
  end.

(** [format!("{error:#}")]. *)
Definition alternate (e : anyhow) : string := join ": " e.

Lemma bind_Ok {E A B} (f : A -> result E B) (r : result E A) (b : B) :
  r ≫= f = Ok b <-> exists a, r = Ok a /\ f a = Ok b.
Proof. destruct r as [a|e]; simpl; naive_solver. Qed.

Lemma bind_Err {E A B} (f : A -> result E B) (r : result E A) (e : E) :
  r ≫= f = Err e <-> r = Err e \/ exists a, r = Ok a /\ f a = Err e.
Proof. destruct r as [a|e']; simpl; naive_solver. Qed.

Lemma with_context_Ok {A} (c : string) (r : Result A) (a : A) :
  with_context c r = Ok a <-> r = Ok a.
Proof. destruct r; simpl; naive_solver. Qed.

Lemma opt_context_Ok {A} (c : string) (o : option A) (a : A) :
  opt_context c o = Ok a <-> o = Some a.
Proof. destruct o; simpl; naive_solver. Qed.

(** ** Tactics of the development *)

(** Splits every monadic success hypothesis into its steps. *)
Ltac inv_ok :=
  repeat match goal with
  | H : _ ≫= _ = Ok _ |- _ => apply bind_Ok in H; destruct H as (? & ? & ?)
  | H : with_context _ _ = Ok _ |- _ => apply with_context_Ok in H
  | H : opt_context _ _ = Ok _ |- _ => apply opt_context_Ok in H
  | H : bail _ = Ok _ |- _ => discriminate H
  | H : Err _ = Ok _ |- _ => discriminate H
  | H : Ok _ = Ok _ |- _ => injection H as H
  end.

(** Case analysis on the scrutinees of the goal and the hypotheses, then
    simplification, until no match is left. *)
Ltac crush_match := repeat (case_match || simplify_eq/=); try done.

Ltac destruct_if :=
  match goal with
  | |- context [if ?b then _ else _] => destruct b eqn:?
  | H : context [if ?b then _ else _] |- _ => destruct b eqn:?
  end.

Create HintDb montray.

(** ** Booleans *)

Lemma bool_decide_false_ne {A} `{EqDecision A} (x y : A) :
  bool_decide (x = y) = false <-> x <> y.
Proof. apply bool_decide_eq_false. Qed.

Lemma negb_bool_decide (P : Prop) `{Decision P} :
  negb (bool_decide P) = bool_decide (~ P).
Proof. by rewrite bool_decide_not. Qed.

(** ** Ordered maps

    A [BTreeMap<String, V>] is a [gmap string V]; what its iteration order
    adds is [btree_iter], the entries in ascending byte order of their keys. *)

Definition key_le {A} (p q : string * A) : Prop := String.le p.1 q.1.

#[global] Instance key_le_dec {A} : RelDecision (@key_le A).
Proof. intros p q. unfold key_le. apply _. Defined.
#[global] Instance key_le_total {A} : Total (@key_le A).
Proof. intros p q. apply String.le_total. Qed.
#[global] Instance key_le_trans {A} : Transitive (@key_le A).
Proof. intros p q r H1 H2. unfold key_le in *. by etrans. Qed.

Definition btree_iter {A} (m : gmap string A) : list (string * A) :=
  merge_sort key_le (map_to_list m).
Definition btree_keys {A} (m : gmap string A) : list string := (btree_iter m).*1.
Definition btree_values {A} (m : gmap string A) : list A := (btree_iter m).*2.

Lemma btree_iter_Permutation {A} (m : gmap string A) :
  btree_iter m ≡ₚ map_to_list m.
Proof. apply merge_sort_Permutation. Qed.

Lemma elem_of_btree_iter {A} (m : gmap string A) (k : string) (v : A) :
  (k, v) ∈ btree_iter m <-> m !! k = Some v.
Proof. rewrite btree_iter_Permutation. apply elem_of_map_to_list. Qed.

Lemma btree_iter_sorted {A} (m : gmap string A) :
  StronglySorted key_le (btree_iter m).
Proof. apply StronglySorted_merge_sort; apply _. Qed.

Lemma NoDup_btree_keys {A} (m : gmap string A) : NoDup (btree_keys m).
Proof.
  unfold btree_keys. rewrite btree_iter_Permutation.
  apply NoDup_fst_map_to_list.
Qed.

Lemma elem_of_btree_keys {A} (m : gmap string A) (k : string) :
  k ∈ btree_keys m <-> is_Some (m !! k).
Proof.
  unfold btree_keys. rewrite list_elem_of_fmap. split.
  - intros ([k' v] & -> & H%elem_of_btree_iter). by exists v.
  - intros [v H]. exists (k, v). by rewrite elem_of_btree_iter.
Qed.

Lemma elem_of_btree_values {A} (m : gmap string A) (v : A) :
  v ∈ btree_values m <-> exists k, m !! k = Some v.
Proof.
  unfold btree_values. rewrite list_elem_of_fmap. split.
  - intros ([k v'] & -> & H%elem_of_btree_iter). by exists k.
  - intros [k H]. exists (k, v). by rewrite elem_of_btree_iter.
Qed.

#[export] Hint Resolve NoDup_btree_keys btree_iter_sorted : montray.

(** ** Lists *)

(** [Iterator::enumerate], from a given index. *)
Fixpoint enumerate_from {A} (i : nat) (l : list A) : list (nat * A) :=
  match l with
  | [] => []
  | x :: l => (i, x) :: enumerate_from (S i) l
  end.
Definition enumerate {A} (l : list A) : list (nat * A) := enumerate_from 0 l.

Lemma elem_of_enumerate_from {A} (l : list A) (i j : nat) (x : A) :
  (j, x) ∈ enumerate_from i l <-> exists k, j = i + k /\ l !! k = Some x.
Proof.
  revert i. induction l as [|y l IH]; intros i; simpl.
  - set_solver.
  - rewrite elem_of_cons, IH. split.
    + intros [[= -> ->] | (k & -> & Hk)]; [exists 0; split; [lia|done]|].
      exists (S k). split; [lia|done].
    + intros ([|k] & -> & Hk); simpl in Hk.
      * left. f_equal; [lia|congruence].
      * right. exists k. split; [lia|done].
Qed.

Lemma elem_of_enumerate {A} (l : list A) (j : nat) (x : A) :
  (j, x) ∈ enumerate l <-> l !! j = Some x.
Proof.
  unfold enumerate. rewrite elem_of_enumerate_from. naive_solver.
Qed.

Lemma filter_complement_Permutation {A} (P : A -> Prop)
    `{forall x, Decision (P x)} (l : list A) :
  filter P l ++ filter (fun x => ~ P x) l ≡ₚ l.
Proof.
  induction l as [|x l IH]; [done|].
  destruct (decide (P x)).
  - rewrite filter_cons_True by done.
    rewrite (filter_cons_False (fun x => ~ P x)) by tauto.
    simpl. by rewrite IH.
  - rewrite filter_cons_False by done.
    rewrite (filter_cons_True (fun x => ~ P x)) by done.
    by rewrite <-Permutation_middle, IH.
Qed.

(** [filter] with a boolean test. *)
Lemma filter_bool_cons {A} (f : A -> bool) (x : A) (l : list A) :
  filter f (x :: l) = if f x then x :: filter f l else filter f l.
Proof.
  destruct (f x) eqn:H.
  - apply filter_cons_True. by rewrite H.
  - apply filter_cons_False. rewrite H. by intros [].
Qed.

(** Mapping the selected elements, as one pass. *)
Lemma fmap_filter_omap {A B} (f : A -> bool) (g : A -> B) (l : list A) :
  g <$> filter f l = omap (fun x => if f x then Some (g x) else None) l.
Proof.
  induction l as [|x l IH]; [done|]. rewrite filter_bool_cons. simpl.
  destruct (f x); simpl; [by f_equal|done].
Qed.

Lemma filter_length_eq {A} (P : A -> Prop) `{forall x, Decision (P x)}
    (l : list A) :
  length (filter P l) = length l -> filter P l = l.
Proof.
  induction l as [|x l IH]; [done|]. destruct (decide (P x)).
  - rewrite filter_cons_True by done. simpl. intros. f_equal. apply IH. lia.
  - rewrite filter_cons_False by done. simpl. intros Hl.
    pose proof (length_filter P l). lia.
Qed.

(** The last [n] elements of a list. *)
Definition last_n {A} (n : nat) (l : list A) : list A := drop (length l - n) l.

Lemma length_last_n {A} (n : nat) (l : list A) :
  length (last_n n l) = Nat.min n (length l).
Proof. unfold last_n. rewrite length_drop. lia. Qed.

Lemma last_n_app_l {A} (n : nat) (l k : list A) :
  last_n n (last_n n l ++ k) = last_n n (l ++ k).
Proof.
  unfold last_n. rewrite !length_app, length_drop.
  destruct (decide (length l <= n)) as [Hle|Hgt].
  - replace (length l - n) with 0 by lia. by rewrite drop_0, Nat.sub_0_r.
  - replace (l ++ k) with
      (take (length l - n) l ++ drop (length l - n) l ++ k)
      by (by rewrite app_assoc, take_drop).
    rewrite (drop_app_ge (take _ _)); [|rewrite length_take; lia].
    rewrite length_take. f_equal. lia.
Qed.

Lemma last_n_all {A} (n : nat) (l : list A) : length l <= n -> last_n n l = l.
Proof. intros. unfold last_n. by replace (length l - n) with 0 by lia. Qed.
