(* ===== verification/RustStr.v ===== *)
(** * Rust strings

    What the sources use of [str] and [String] from the Rust standard library.
    A string is its UTF-8 bytes ([string] of the Standard Library); a [char] is
    the string of its one to four bytes, so that character-wise operations
    ([chars], [trim], [lines]) act on whole scalar values. *)

From stdpp Require Import base strings list pretty option.
From Stdlib Require Import ZArith Lia Ascii.
From S2P Require Import Prelude.

#[global] Arguments String.append : simpl nomatch.

(** ** Bytes *)

Definition byte (c : ascii) : N := N_of_ascii c.
Definition of_byte (n : N) : string := String (ascii_of_N n) "".
Definition of_bytes (l : list N) : string := String.string_of_list_ascii (ascii_of_N <$> l).

Definition in_range (lo hi : N) (c : ascii) : bool :=
  (N.leb lo (byte c) && N.leb (byte c) hi)%bool.

Definition is_ascii_digit : ascii -> bool := in_range 48 57.
Definition is_ascii_upper : ascii -> bool := in_range 65 90.
Definition is_ascii_lower : ascii -> bool := in_range 97 122.
Definition is_ascii_alphanumeric (c : ascii) : bool :=
  (is_ascii_digit c || is_ascii_upper c || is_ascii_lower c)%bool.
(** Space, tab, line feed, form feed, carriage return; not vertical tab. *)
Definition is_ascii_whitespace (c : ascii) : bool :=
  existsb (N.eqb (byte c)) [32; 9; 10; 12; 13]%N.

Fixpoint all_bytes (f : ascii -> bool) (s : string) : bool :=
  match s with
  | EmptyString => true
  | String c s => f c && all_bytes f s
  end.
Fixpoint any_byte (f : ascii -> bool) (s : string) : bool :=
  match s with
  | EmptyString => false
  | String c s => f c || any_byte f s
  end.
Fixpoint map_bytes (f : ascii -> ascii) (s : string) : string :=
  match s with
  | EmptyString => EmptyString
  | String c s => String (f c) (map_bytes f s)
  end.

Definition to_ascii_lowercase : string -> string :=
  map_bytes (fun c => if is_ascii_upper c then ascii_of_N (byte c + 32) else c).
Definition to_ascii_uppercase : string -> string :=
  map_bytes (fun c => if is_ascii_lower c then ascii_of_N (byte c - 32) else c).

Definition is_empty (s : string) : bool := bool_decide (s = "").

(** ** Searching and splitting *)

Fixpoint strip_prefix (p s : string) : option string :=
  match p, s with
  | EmptyString, _ => Some s
  | String a p, String b s => if Ascii.eqb a b then strip_prefix p s else None
  | String _ _, EmptyString => None
  end.

Definition starts_with (p s : string) : bool :=
  match strip_prefix p s with Some _ => true | None => false end.

Definition strip_suffix (p s : string) : option string :=
  String.rev <$> strip_prefix (String.rev p) (String.rev s).
Definition ends_with (p s : string) : bool :=
  match strip_suffix p s with Some _ => true | None => false end.

(** Splits at the first occurrence of [pat]. *)
Fixpoint split_once (pat s : string) : option (string * string) :=
  match strip_prefix pat s with
  | Some rest => Some (EmptyString, rest)
  | None =>
      match s with
      | EmptyString => None
      | String c s =>
          match split_once pat s with
          | Some (before, rest) => Some (String c before, rest)
          | None => None
          end
      end
  end.

(** Splits at the last occurrence of [pat]. *)
Fixpoint rsplit_once (pat s : string) : option (string * string) :=
  match s with
  | EmptyString =>
      match strip_prefix pat s with
      | Some rest => Some (EmptyString, rest)
      | None => None
      end
  | String c s' =>
      match rsplit_once pat s' with
      | Some (before, rest) => Some (String c before, rest)
      | None =>
          match strip_prefix pat s with
          | Some rest => Some (EmptyString, rest)
          | None => None
          end
      end
  end.

Definition contains (pat s : string) : bool :=
  match split_once pat s with Some _ => true | None => false end.

(** [str::split] for a nonempty pattern: the pieces between non-overlapping
    occurrences; [skip] counts the bytes of an occurrence still to pass. *)
Fixpoint split_go (pat : string) (skip : nat) (s : string) : list string :=
  match s with
  | EmptyString => [EmptyString]
  | String c s' =>
      match skip with
      | S k => split_go pat k s'
      | O =>
          if starts_with pat s
          then EmptyString :: split_go pat (String.length pat - 1) s'
          else
            match split_go pat 0 s' with
            | p :: ps => String c p :: ps
            | [] => [String c EmptyString]
            end
      end
  end.
Definition split (pat s : string) : list string := split_go pat 0 s.

(** [str::replace] for a nonempty pattern. *)
Definition replace (from to s : string) : string := join to (split from s).

(** [rsplit(pat).next()] for a one-byte pattern: the last piece. *)
Definition rsplit_next (pat s : string) : string :=
  match rsplit_once pat s with Some (_, rest) => rest | None => s end.

(** ** Characters *)

Definition is_continuation (c : ascii) : bool := in_range 128 191 c.

(** The scalar values of a valid UTF-8 string, each as its bytes. *)
Fixpoint chars (s : string) : list string :=
  match s with
  | EmptyString => []
  | String c rest =>
      match rest with
      | EmptyString => [String c EmptyString]
      | String d _ =>
          if is_continuation d then
            match chars rest with
            | x :: xs => String c x :: xs
            | [] => [String c EmptyString]
            end
          else String c EmptyString :: chars rest
      end
  end.

(** [Iterator<Item = char>::collect::<String>]. *)
Definition concat_chars (l : list string) : string := foldr String.append "" l.

(** [char::is_control]: the general category Cc, U+0000 to U+001F and U+007F
    to U+009F. *)
Definition is_control (ch : string) : bool :=
  match ch with
  | String c EmptyString => in_range 0 31 c || in_range 127 127 c
  | String c (String d EmptyString) => in_range 194 194 c && in_range 128 159 d
  | _ => false
  end.

Definition u2028 : string := of_bytes [226; 128; 168]%N.
Definition u2029 : string := of_bytes [226; 128; 169]%N.
Definition ellipsis : string := of_bytes [226; 128; 166]%N.

(** The characters of the Unicode property White_Space. *)
Definition white_space : list string :=
  (of_byte <$> [9; 10; 11; 12; 13; 32]%N) ++
  (of_bytes <$> [[194; 133]; [194; 160]; [225; 154; 128]; [226; 128; 128];
    [226; 128; 129]; [226; 128; 130]; [226; 128; 131]; [226; 128; 132];
    [226; 128; 133]; [226; 128; 134]; [226; 128; 135]; [226; 128; 136];
    [226; 128; 137]; [226; 128; 138]; [226; 128; 168]; [226; 128; 169];
    [226; 128; 175]; [226; 129; 159]; [227; 128; 128]]%N).
Definition is_whitespace (ch : string) : bool := bool_decide (ch ∈ white_space).

Fixpoint drop_while {A} (f : A -> bool) (l : list A) : list A :=
  match l with
  | [] => []
  | x :: l' => if f x then drop_while f l' else l
  end.

Definition trim_chars (f : string -> bool) (s : string) : string :=
  concat_chars (reverse (drop_while f (reverse (drop_while f (chars s))))).
Definition trim : string -> string := trim_chars is_whitespace.

Definition newline : string := of_byte 10.
Definition carriage_return : string := of_byte 13.

(** [str::lines]: a line ends at a line feed, of which a preceding carriage
    return is part; a final line without terminator counts if nonempty. *)
Fixpoint lines_of (pieces : list string) : list string :=
  match pieces with
  | [] => []
  | [last] => if is_empty last then [] else [last]
  | p :: rest =>
      match strip_suffix carriage_return p with Some q => q | None => p end
        :: lines_of rest
  end.
Definition lines (s : string) : list string := lines_of (split newline s).

(** [split_whitespace().next()]. *)
Fixpoint take_while {A} (f : A -> bool) (l : list A) : list A :=
  match l with
  | [] => []
  | x :: l' => if f x then x :: take_while f l' else []
  end.
Definition first_word (s : string) : option string :=
  match drop_while is_whitespace (chars s) with
  | [] => None
  | l => Some (concat_chars (take_while (fun ch => negb (is_whitespace ch)) l))
  end.

(** ** Integers *)

Definition digit (c : ascii) : option N :=
  if is_ascii_digit c then Some (byte c - 48)%N else None.

Fixpoint parse_digits (acc : N) (s : string) : option N :=
  match s with
  | EmptyString => Some acc
  | String c s => d ← digit c; parse_digits (10 * acc + d) s
  end.

(** [parse::<uN>()]: an optional plus sign, at least one digit, no overflow. *)
Definition parse_unsigned (max : N) (s : string) : option N :=
  let digits := match strip_prefix "+" s with Some rest => rest | None => s end in
  if is_empty digits then None
  else n ← parse_digits 0 digits; if (n <=? max)%N then Some n else None.

Definition u16_max : N := 65535.
Definition parse_u16 : string -> option N := parse_unsigned u16_max.

(** [parse::<i64>()]. *)
Definition parse_i64 (s : string) : option Z :=
  match strip_prefix "-" s with
  | Some rest =>
      if starts_with "+" rest then None
      else Z.opp ∘ Z.of_N <$> parse_unsigned 9223372036854775808 rest
  | None => Z.of_N <$> parse_unsigned 9223372036854775807 s
  end.

(** ** Lemmas *)

Lemma append_nil_r (s : string) : s +:+ "" = s.
Proof. induction s as [|c s IH]; simpl; [done|]. by rewrite IH. Qed.

Lemma append_assoc (a b c : string) : (a +:+ b) +:+ c = a +:+ b +:+ c.
Proof. induction a as [|x a IH]; simpl; [done|]. by rewrite IH. Qed.

Lemma length_append (a b : string) :
  String.length (a +:+ b) = String.length a + String.length b.
Proof. induction a as [|x a IH]; simpl; [done|]. by rewrite IH. Qed.

Lemma strip_prefix_Some (p s rest : string) :
  strip_prefix p s = Some rest <-> s = p +:+ rest.
Proof.
  revert s. induction p as [|a p IH]; intros s; simpl; [naive_solver|].
  destruct s as [|b s]; [naive_solver|].
  destruct (Ascii.eqb_spec a b) as [->|Hne]; [rewrite IH|]; naive_solver.
Qed.

Lemma strip_prefix_app (p s : string) : strip_prefix p (p +:+ s) = Some s.
Proof. by apply strip_prefix_Some. Qed.

Lemma starts_with_true (p s : string) :
  starts_with p s = true <-> exists rest, s = p +:+ rest.
Proof.
  unfold starts_with. destruct (strip_prefix p s) as [rest|] eqn:H.
  - apply strip_prefix_Some in H. naive_solver.
  - split; [done|]. intros [rest ->]. by rewrite strip_prefix_app in H.
Qed.

Lemma starts_with_app (p s : string) : starts_with p (p +:+ s) = true.
Proof. apply starts_with_true. by exists s. Qed.

Lemma split_once_Some (pat s before rest : string) :
  split_once pat s = Some (before, rest) -> s = before +:+ pat +:+ rest.
Proof.
  revert before. induction s as [|c s IH]; intros before; simpl.
  - destruct (strip_prefix pat "") as [r|] eqn:H; [|done].
    intros [= <- <-]. by apply strip_prefix_Some in H.
  - destruct (strip_prefix pat (String c s)) as [r|] eqn:H.
    + intros [= <- <-]. by apply strip_prefix_Some in H.
    + destruct (split_once pat s) as [[b r]|] eqn:Hs; [|done].
      intros [= <- <-]. simpl. f_equal. by apply IH.
Qed.

Lemma split_once_None (pat s before rest : string) :
  split_once pat s = None -> s <> before +:+ pat +:+ rest.
Proof.
  revert before. induction s as [|c s IH]; intros before; simpl.
  - destruct (strip_prefix pat "") as [r|] eqn:H; [done|]. intros _ Heq.
    destruct before; simpl in Heq; [|done].
    rewrite Heq, strip_prefix_app in H. done.
  - destruct (strip_prefix pat (String c s)) as [r|] eqn:H; [done|].
    destruct (split_once pat s) as [[b r]|] eqn:Hs; [done|]. intros _ Heq.
    destruct before as [|x before]; simpl in Heq.
    + rewrite Heq, strip_prefix_app in H. done.
    + injection Heq as _ Heq. by eapply (IH before).
Qed.

Lemma contains_true (pat s : string) :
  contains pat s = true <-> exists before rest, s = before +:+ pat +:+ rest.
Proof.
  unfold contains. destruct (split_once pat s) as [[b r]|] eqn:H.
  - apply split_once_Some in H. naive_solver.
  - split; [done|]. intros (b & r & Heq). by eapply split_once_None in H.
Qed.

Lemma rsplit_once_Some (pat s before rest : string) :
  rsplit_once pat s = Some (before, rest) -> s = before +:+ pat +:+ rest.
Proof.
  revert before. induction s as [|c s IH]; intros before; simpl.
  - destruct (strip_prefix pat "") as [r|] eqn:H; [|done].
    intros [= <- <-]. by apply strip_prefix_Some in H.
  - destruct (rsplit_once pat s) as [[b r]|] eqn:Hs.
    + intros [= <- <-]. simpl. f_equal. by apply IH.
    + destruct (strip_prefix pat (String c s)) as [r|] eqn:H; [|done].
      intros [= <- <-]. by apply strip_prefix_Some in H.
Qed.

Lemma rsplit_once_None (pat s before rest : string) :
  rsplit_once pat s = None -> s <> before +:+ pat +:+ rest.
Proof.
  revert before. induction s as [|c s IH]; intros before; simpl.
  - destruct (strip_prefix pat "") as [r|] eqn:H; [done|]. intros _ Heq.
    destruct before; simpl in Heq; [|done].
    rewrite Heq, strip_prefix_app in H. done.
  - destruct (rsplit_once pat s) as [[b r]|] eqn:Hs; [done|].
    destruct (strip_prefix pat (String c s)) as [r|] eqn:H; [done|].
    intros _ Heq. destruct before as [|x before]; simpl in Heq.
    + rewrite Heq, strip_prefix_app in H. done.
    + injection Heq as _ Heq. by eapply (IH before).
Qed.

Lemma chars_cons2 (c d : ascii) (s : string) :
  chars (String c (String d s)) =
    if is_continuation d then
      match chars (String d s) with
      | x :: xs => String c x :: xs
      | [] => [String c EmptyString]
      end
    else String c EmptyString :: chars (String d s).
Proof. reflexivity. Qed.

Lemma concat_chars_chars (s : string) : concat_chars (chars s) = s.
Proof.
  unfold concat_chars. induction s as [|c s IH]; [done|].
  destruct s as [|d s]; [done|].
  rewrite chars_cons2. revert IH. generalize (chars (String d s)).
  intros l IH. destruct (is_continuation d); [destruct l as [|x xs]|];
    simpl in *; by rewrite <-IH.
Qed.

Lemma all_bytes_append (f : ascii -> bool) (a b : string) :
  all_bytes f (a +:+ b) = (all_bytes f a && all_bytes f b)%bool.
Proof.
  induction a as [|x a IH]; simpl; [done|]. rewrite IH. by destruct (f x).
Qed.

Lemma any_byte_append (f : ascii -> bool) (a b : string) :
  any_byte f (a +:+ b) = (any_byte f a || any_byte f b)%bool.
Proof.
  induction a as [|x a IH]; simpl; [done|]. rewrite IH. by destruct (f x).
Qed.

(** A separator that occurs in neither left part determines the split. *)
Lemma append_sep_inj (sep : ascii) (a1 a2 b1 b2 : string) :
  any_byte (Ascii.eqb sep) a1 = false ->
  any_byte (Ascii.eqb sep) a2 = false ->
  a1 +:+ String sep b1 = a2 +:+ String sep b2 -> a1 = a2 /\ b1 = b2.
Proof.
  revert a2. induction a1 as [|x a1 IH]; intros [|y a2]; simpl; intros H1 H2 Heq.
  - naive_solver.
  - injection Heq as <- _. by rewrite Ascii.eqb_refl in H2.
  - injection Heq as -> _. by rewrite Ascii.eqb_refl in H1.
  - injection Heq as -> Heq. apply orb_false_elim in H1 as [_ H1].
    apply orb_false_elim in H2 as [_ H2].
    destruct (IH a2 H1 H2 Heq) as [-> ->]. done.
Qed.

Lemma digit_pretty_N_char (n : N) :
  (n < 10)%N -> digit (pretty_N_char n) = Some n.
Proof.
  intros H.
  assert (Forall (fun m => digit (pretty_N_char m) = Some m) (N.of_nat <$> seq 0 10))
    as HF by (repeat constructor).
  rewrite List.Forall_forall in HF. apply HF, list_elem_of_In, list_elem_of_fmap.
  exists (N.to_nat n). split; [lia|]. apply elem_of_seq. lia.
Qed.

Lemma parse_digits_pretty_N_go (n : N) (s : string) :
  parse_digits 0 (pretty_N_go n s) = parse_digits n s.
Proof.
  revert s. induction (N.lt_wf_0 n) as [n _ IH]. intros s.
  destruct (decide (n = 0)%N) as [->|Hn]; [by rewrite pretty_N_go_0|].
  rewrite pretty_N_go_step by lia. rewrite IH by (apply N.div_lt; lia).
  simpl. rewrite digit_pretty_N_char by (apply N.mod_lt; lia). simpl.
  f_equal. pose proof (N.div_mod n 10). lia.
Qed.

Lemma pretty_N_head_digit (n : N) (c : ascii) (rest : string) :
  pretty n = String c rest -> is_ascii_digit c = true.
Proof.
  assert (forall m s c r, s <> String c r \/ is_ascii_digit c = true ->
    pretty_N_go m s = String c r -> is_ascii_digit c = true) as Hgo.
  { clear. intros m. induction (N.lt_wf_0 m) as [m _ IH]. intros s c r Hs.
    destruct (decide (m = 0)%N) as [->|Hm].
    - rewrite pretty_N_go_0. naive_solver.
    - rewrite pretty_N_go_step by lia. apply IH; [apply N.div_lt; lia|].
      assert (digit (pretty_N_char (m `mod` 10)) = Some (m `mod` 10)%N) as Hp
        by (apply digit_pretty_N_char, N.mod_lt; lia).
      unfold digit in Hp. destruct (is_ascii_digit (pretty_N_char (m `mod` 10))) eqn:Hd;
        [|done].
      destruct (decide (pretty_N_char (m `mod` 10) = c)) as [<-|Hne];
        [by right|left; congruence]. }
  unfold pretty, pretty_N. case_decide; [by intros [= <- <-]|].
  intros Heq. apply Hgo in Heq; [done|]. by left.
Qed.

Lemma pretty_N_strip_sign (n : N) (c : ascii) :
  is_ascii_digit c = false -> strip_prefix (String c "") (pretty n) = None.
Proof.
  intros Hc. destruct (strip_prefix _ _) as [rest|] eqn:Hp; [|done].
  apply strip_prefix_Some in Hp. apply pretty_N_head_digit in Hp. congruence.
Qed.

Lemma pretty_N_nonempty (n : N) : pretty n <> "".
Proof.
  unfold pretty, pretty_N. case_decide; [done|].
  intros Heq. pose proof (parse_digits_pretty_N_go n "") as Hp.
  rewrite Heq in Hp. simpl in Hp. congruence.
Qed.

(** Decimal printing and parsing are inverse. *)
Lemma parse_unsigned_pretty (max n : N) :
  (n <= max)%N -> parse_unsigned max (pretty n) = Some n.
Proof.
  intros Hle. unfold parse_unsigned.
  rewrite pretty_N_strip_sign by done.
  unfold is_empty. rewrite bool_decide_eq_false_2 by apply pretty_N_nonempty.
  assert (parse_digits 0 (pretty n) = Some n) as ->.
  { unfold pretty, pretty_N. case_decide; [by subst|].
    by rewrite parse_digits_pretty_N_go. }
  simpl. by apply N.leb_le in Hle as ->.
Qed.

Lemma is_empty_true (s : string) : is_empty s = true <-> s = "".
Proof. apply bool_decide_eq_true. Qed.
Lemma is_empty_false (s : string) : is_empty s = false <-> s <> "".
Proof. apply bool_decide_eq_false. Qed.

Lemma pretty_N_all_digits (n : N) : all_bytes is_ascii_digit (pretty n) = true.
Proof.
  assert (forall m s, all_bytes is_ascii_digit s = true ->
    all_bytes is_ascii_digit (pretty_N_go m s) = true) as Hgo.
  { clear. intros m. induction (N.lt_wf_0 m) as [m _ IH]. intros s Hs.
    destruct (decide (m = 0)%N) as [->|Hm]; [by rewrite pretty_N_go_0|].
    rewrite pretty_N_go_step by lia. apply IH; [apply N.div_lt; lia|].
    pose proof (digit_pretty_N_char (m `mod` 10)) as Hp.
    unfold digit in Hp. simpl.
    destruct (is_ascii_digit (pretty_N_char (m `mod` 10))); [done|].
    discriminate Hp. apply N.mod_lt. lia. }
  unfold pretty, pretty_N. case_decide; [done|]. by apply Hgo.
Qed.

(** The bytes of a parsed unsigned number are digits, or the plus sign. *)
Lemma parse_digits_all (s : string) (acc n : N) :
  parse_digits acc s = Some n -> all_bytes is_ascii_digit s = true.
Proof.
  revert acc. induction s as [|c s IH]; intros acc; simpl; [done|].
  unfold digit. destruct (is_ascii_digit c); [|done]. simpl. apply IH.
Qed.

Definition sign_or_digit (c : ascii) : bool := Ascii.eqb c "+" || is_ascii_digit c.

Lemma all_bytes_impl (f g : ascii -> bool) (s : string) :
  (forall c, f c = true -> g c = true) -> all_bytes f s = true -> all_bytes g s = true.
Proof.
  intros Hfg. induction s as [|c s IH]; simpl; [done|].
  intros [H1 H2]%andb_prop. by rewrite Hfg, IH.
Qed.

Lemma parse_unsigned_bytes (max : N) (s : string) (n : N) :
  parse_unsigned max s = Some n ->
  all_bytes sign_or_digit s = true /\ (n <= max)%N.
Proof.
  unfold parse_unsigned.
  set (digits := match strip_prefix "+" s with Some r => r | None => s end).
  destruct (is_empty digits); [done|].
  intros (m & Hp & Hm)%bind_Some. destruct (m <=? max)%N eqn:Hle; [|done].
  injection Hm as ->. apply N.leb_le in Hle. split; [|done].
  apply parse_digits_all in Hp.
  apply (all_bytes_impl _ sign_or_digit) in Hp;
    [|intros c Hc; unfold sign_or_digit; rewrite Hc; by rewrite orb_true_r].
  subst digits. destruct (strip_prefix "+" s) as [r|] eqn:Hs; [|done].
  apply strip_prefix_Some in Hs as ->. simpl. by rewrite Hp.
Qed.

(** Absence of a byte, by a property of all the bytes that are there. *)
Lemma any_byte_excluded (f g : ascii -> bool) (s : string) :
  (forall c, f c = true -> g c = false) -> all_bytes f s = true -> any_byte g s = false.
Proof.
  intros Hfg. induction s as [|c s IH]; simpl; [done|].
  intros [H1 H2]%andb_prop. by rewrite Hfg, IH.
Qed.

Lemma all_bytes_any (f : ascii -> bool) (s : string) :
  all_bytes f s = negb (any_byte (fun c => negb (f c)) s).
Proof. induction s as [|c s IH]; simpl; [done|]. rewrite IH. by destruct (f c). Qed.

(** A one-byte pattern occurs exactly when the byte does. *)
Lemma contains_byte (c : ascii) (s : string) :
  contains (String c "") s = any_byte (Ascii.eqb c) s.
Proof.
  unfold contains. induction s as [|d s IH]; [done|]. simpl.
  destruct (Ascii.eqb c d); [done|]. simpl. rewrite <-IH.
  by destruct (split_once _ s) as [[??]|].
Qed.

Lemma rsplit_once_absent (c : ascii) (s : string) :
  any_byte (Ascii.eqb c) s = false -> rsplit_once (String c "") s = None.
Proof.
  induction s as [|d s IH]; [done|]. simpl.
  intros [H1 H2]%orb_false_elim. by rewrite H1, IH.
Qed.

Lemma rsplit_once_last (c : ascii) (before rest : string) :
  any_byte (Ascii.eqb c) rest = false ->
  rsplit_once (String c "") (before +:+ String c rest) = Some (before, rest).
Proof.
  intros Hr. induction before as [|d before IH]; simpl.
  - rewrite rsplit_once_absent by done. by rewrite Ascii.eqb_refl.
  - by rewrite IH.
Qed.

Lemma parse_i64_pretty (z : Z) :
  (- 9223372036854775808 <= z <= 9223372036854775807)%Z ->
  parse_i64 (pretty z) = Some z.
Proof.
  intros Hz. unfold parse_i64. destruct z as [|p|p].
  - done.
  - change (pretty (Zpos p)) with (pretty (Npos p)).
    rewrite pretty_N_strip_sign by done.
    rewrite parse_unsigned_pretty by lia. done.
  - change (pretty (Zneg p)) with ("-" +:+ pretty (Npos p)).
    rewrite strip_prefix_app. unfold starts_with.
    rewrite pretty_N_strip_sign by done.
    rewrite parse_unsigned_pretty by lia. done.
Qed.

(** ** Characters of a concatenation *)

(** A character: a first byte, then continuation bytes. *)
Definition tail_ok (ch : string) : Prop :=
  match ch with EmptyString => False | String _ rest => all_bytes is_continuation rest = true end.
Definition char_ok (ch : string) : Prop :=
  match ch with
  | EmptyString => False
  | String c rest => is_continuation c = false /\ all_bytes is_continuation rest = true
  end.

Lemma char_ok_tail (ch : string) : char_ok ch -> tail_ok ch.
Proof. destruct ch; simpl; tauto. Qed.

(** The characters after the first start with a byte that is no continuation. *)
Lemma chars_ok (s : string) :
  match chars s with [] => s = "" | ch :: rest => tail_ok ch /\ Forall char_ok rest /\
    (match s with String c _ => is_continuation c = false | _ => True end -> char_ok ch) end.
Proof.
  induction s as [|c s IH]; [done|]. destruct s as [|d s]; [done|].
  rewrite chars_cons2. destruct (is_continuation d) eqn:Hd.
  - destruct (chars (String d s)) as [|x xs] eqn:Hc; [done|].
    destruct IH as (Hx & Hxs & _).
    assert (exists x', x = String d x') as [x' ->].
    { destruct s as [|e s]; simpl in Hc; [by injection Hc as <- _; eexists|].
      destruct (is_continuation e); [|by injection Hc as <- _; eexists].
      change (match chars (String e s) with
        | [] => [String d ""] | x :: xs => String d x :: xs end = x :: xs) in Hc.
      destruct (chars (String e s)); injection Hc as <- _; by eexists. }
    simpl in Hx |- *. rewrite Hd. naive_solver.
  - destruct (chars (String d s)) as [|x xs] eqn:Hc; [done|].
    destruct IH as (Hx & Hxs & Hfirst). simpl. split; [done|]. split; [|done].
    constructor; [by apply Hfirst|done].
Qed.

Lemma chars_append_char (ch : string) (s : string) :
  tail_ok ch -> match s with String c _ => is_continuation c = false | _ => True end ->
  chars (ch +:+ s) = ch :: chars s.
Proof.
  destruct ch as [|c rest]; [done|]. intros Ht Hs. revert c Ht.
  induction rest as [|d rest IH]; intros c Ht; simpl in Ht.
  - destruct s as [|d s]; [done|]. simpl (String c "" +:+ _).
    rewrite chars_cons2. by rewrite Hs.
  - apply andb_prop in Ht as [Hd Ht].
    change (String c (String d rest) +:+ s) with (String c (String d (rest +:+ s))).
    rewrite chars_cons2, Hd.
    change (String d (rest +:+ s)) with (String d rest +:+ s). by rewrite IH.
Qed.

Lemma concat_chars_head (l : list string) :
  Forall char_ok l ->
  match concat_chars l with String c _ => is_continuation c = false | _ => True end.
Proof. destruct 1 as [|x l Hx Hl]; [done|]. destruct x; [done|]. by destruct Hx. Qed.

Lemma chars_concat (l : list string) : Forall char_ok l -> chars (concat_chars l) = l.
Proof.
  induction 1 as [|x l Hx Hl IH]; [done|]. simpl.
  rewrite chars_append_char; [by f_equal|by apply char_ok_tail|by apply concat_chars_head].
Qed.

Lemma chars_concat_tail (x : string) (l : list string) :
  tail_ok x -> Forall char_ok l -> chars (concat_chars (x :: l)) = x :: l.
Proof.
  intros Hx Hl. simpl. rewrite chars_append_char; [|done|by apply concat_chars_head].
  by rewrite chars_concat.
Qed.

Lemma concat_chars_app (l k : list string) :
  concat_chars (l ++ k) = concat_chars l +:+ concat_chars k.
Proof.
  induction l as [|x l IH]; simpl; [done|]. by rewrite IH, append_assoc.
Qed.

(** Any list of characters that comes from [chars], mapped by a function that
    keeps the shape and cut, reads back. *)
Definition chars_shape (l : list string) : Prop :=
  match l with [] => True | x :: l => tail_ok x /\ Forall char_ok l end.

Lemma chars_chars_shape (s : string) : chars_shape (chars s).
Proof. pose proof (chars_ok s). destruct (chars s); simpl; tauto. Qed.

Lemma chars_of_shape (l : list string) : chars_shape l -> chars (concat_chars l) = l.
Proof. destruct l; [done|]. intros [H1 H2]. by apply chars_concat_tail. Qed.

Lemma chars_shape_take (n : nat) (l : list string) : chars_shape l -> chars_shape (take n l).
Proof.
  destruct l, n; simpl; [done..|]. intros [H1 H2]. split; [done|]. by apply Forall_take.
Qed.

Lemma chars_shape_app (l k : list string) :
  chars_shape l -> Forall char_ok k -> chars_shape (l ++ k).
Proof.
  destruct l as [|x l]; simpl; intros Hl Hk.
  - destruct Hk as [|y k Hy Hk]; [done|]. split; [by apply char_ok_tail|done].
  - destruct Hl as [Hx Hl]. split; [done|]. by apply Forall_app.
Qed.

Lemma chars_shape_fmap (f : string -> string) (l : list string) :
  (forall x, tail_ok x -> tail_ok (f x)) -> (forall x, char_ok x -> char_ok (f x)) ->
  chars_shape l -> chars_shape (f <$> l).
Proof.
  intros Hf Hg. destruct l as [|x l]; [done|]. intros [H1 H2]. csimpl. split; [by apply Hf|].
  induction H2; csimpl; constructor; auto.
Qed.

Create Rewrite HintDb montray_str.
#[export] Hint Rewrite append_nil_r append_assoc : montray_str.
#[export] Hint Resolve starts_with_app strip_prefix_app : montray.
