(* ===== verification/RustNet.v ===== *)
(** * Textual IP addresses

    [str::parse::<IpAddr>()] and [IpAddr::is_loopback] of the Rust standard
    library, which configuration validation uses: the recursive-descent parser
    over the remaining input, with the standard library's rules on digit counts,
    zero prefixes and the [::] abbreviation. *)

From stdpp Require Import base strings list.
From Stdlib Require Import ZArith Lia Ascii.
From S2P Require Import Prelude RustStr.

(** One digit in the given radix. *)
Definition digit_value (radix : N) (c : ascii) : option N :=
  let v :=
    if is_ascii_digit c then Some (byte c - 48)%N
    else if in_range 97 102 c then Some (byte c - 87)%N
    else if in_range 65 70 c then Some (byte c - 55)%N
    else None in
  match v with
  | Some d => if N.ltb d radix then Some d else None
  | None => None
  end.

(** Reads the digits at the front: value, digit count, rest. *)
Fixpoint read_digits (radix acc : N) (count : nat) (s : string) : N * nat * string :=
  match s with
  | EmptyString => (acc, count, s)
  | String c rest =>
      match digit_value radix c with
      | Some d => read_digits radix (acc * radix + d) (S count) rest
      | None => (acc, count, s)
      end
  end.

(** [read_number]: between one and [max_digits] digits, a value up to [max]; a
    zero prefix only where allowed. *)
Definition read_number (radix : N) (max_digits : nat) (allow_zero_prefix : bool)
    (max : N) (s : string) : option (N * string) :=
  let '(v, count, rest) := read_digits radix 0 0 s in
  if Nat.eqb count 0 || Nat.ltb max_digits count then None
  else if negb allow_zero_prefix && starts_with "0" s && Nat.ltb 1 count then None
  else if N.ltb max v then None
  else Some (v, rest).

(** [read_separator]: the separator precedes every element but the first. *)
Definition read_separator (sep : string) (index : nat) (s : string) : option string :=
  match index with O => Some s | S _ => strip_prefix sep s end.

Fixpoint read_octets (n : nat) (index : nat) (s : string) : option (list N * string) :=
  match n with
  | O => Some ([], s)
  | S n =>
      s ← read_separator "." index s;
      '(v, s) ← read_number 10 3 false 255 s;
      '(vs, s) ← read_octets n (S index) s;
      Some (v :: vs, s)
  end.
Definition read_ipv4 (s : string) : option (list N * string) := read_octets 4 0 s.

(** [read_groups]: fills at most [limit] 16-bit groups; an embedded IPv4 address
    fills two and ends the groups. Returns the groups, whether they end with
    IPv4, and the rest. *)
Fixpoint read_groups (limit : nat) (index : nat) (s : string) : list N * bool * string :=
  match limit with
  | O => ([], false, s)
  | S limit' =>
      let v4 :=
        match limit' with
        | O => None
        | S _ => s' ← read_separator ":" index s; read_ipv4 s'
        end in
      match v4 with
      | Some ([a; b; c; d], rest) => ([a * 256 + b; c * 256 + d]%N, true, rest)
      | _ =>
          match (s' ← read_separator ":" index s; read_number 16 4 true 65535 s') with
          | Some (g, rest) =>
              let '(gs, v4, rest) := read_groups limit' (S index) rest in
              (g :: gs, v4, rest)
          | None => ([], false, s)
          end
      end
  end.

Definition read_ipv6 (s : string) : option (list N * string) :=
  let '(head, head_v4, rest) := read_groups 8 0 s in
  if Nat.eqb (length head) 8 then Some (head, rest)
  else if head_v4 then None
  else
    rest ← strip_prefix "::" rest;
    let limit := 8 - (length head + 1) in
    let '(tail, _, rest) := read_groups limit 0 rest in
    Some (head ++ replicate (8 - length head - length tail) 0%N ++ tail, rest).

Inductive IpAddr : Set :=
| V4 (octets : list N)
| V6 (groups : list N).

(** The whole input must be one address. *)
Definition parse_ip (s : string) : option IpAddr :=
  match read_ipv4 s with
  | Some (octets, EmptyString) => Some (V4 octets)
  | _ =>
      match read_ipv6 s with
      | Some (groups, EmptyString) => Some (V6 groups)
      | _ => None
      end
  end.

(** 127.0.0.0/8, or ::1. *)
Definition is_loopback (a : IpAddr) : bool :=
  match a with
  | V4 octets => bool_decide (head octets = Some 127%N)
  | V6 groups => bool_decide (groups = [0; 0; 0; 0; 0; 0; 0; 1]%N)
  end.

Example parse_ip_v4 : parse_ip "127.0.0.1" = Some (V4 [127; 0; 0; 1]%N).
Proof. reflexivity. Qed.
Example parse_ip_v4_zero : parse_ip "127.0.0.01" = None.
Proof. reflexivity. Qed.
Example parse_ip_v6 : parse_ip "::1" = Some (V6 [0; 0; 0; 0; 0; 0; 0; 1]%N).
Proof. reflexivity. Qed.
Example parse_ip_v6_full :
  parse_ip "2001:db8:0:0:1:0:0:1" = Some (V6 [8193; 3512; 0; 0; 1; 0; 0; 1]%N).
Proof. reflexivity. Qed.
Example parse_ip_v6_mapped :
  parse_ip "::ffff:10.0.0.1" = Some (V6 [0; 0; 0; 0; 0; 65535; 2560; 1]%N).
Proof. reflexivity. Qed.
Example parse_ip_bad : parse_ip "1:2:3:4:5:6:7:8:9" = None.
Proof. reflexivity. Qed.
