(* ===== verification/Output.v ===== *)
(** * Captured process output

    The pure part of [src/cmd/montray-ui/src/network/tunnel.rs]: the streaming
    readiness matcher, the bounded tail buffer, the pipe reader over a sequence
    of reads, and the selection of diagnostics for a failure message. Bytes
    ([Vec<u8>]) are lists of [ascii]; text is a [string]. *)

From Stdlib Require Import ZArith Lia Ascii.
From stdpp Require Import base sets strings list option.
From S2P Require Import Prelude RustStr.

Abbreviation bytes := (list ascii).

Definition as_bytes (s : string) : bytes := String.list_ascii_of_string s.
Definition as_str (b : bytes) : string := String.string_of_list_ascii b.

(** ** Lossy decoding, [String::from_utf8_lossy]

    Each maximal invalid subpart becomes one replacement character. *)

Definition replacement : string := of_bytes [239; 191; 189]%N.

(** The second byte a three- or four-byte lead admits. *)
Definition second3 (lead : ascii) : ascii -> bool :=
  if N.eqb (byte lead) 224 then in_range 160 191
  else if N.eqb (byte lead) 237 then in_range 128 159
  else in_range 128 191.
Definition second4 (lead : ascii) : ascii -> bool :=
  if N.eqb (byte lead) 240 then in_range 144 191
  else if N.eqb (byte lead) 244 then in_range 128 143
  else in_range 128 191.

Fixpoint from_utf8_lossy (b : bytes) : string :=
  match b with
  | [] => ""
  | a :: b1 =>
      if in_range 0 127 a then String a (from_utf8_lossy b1)
      else if in_range 194 223 a then
        match b1 with
        | c :: b2 =>
            if is_continuation c then String a (String c (from_utf8_lossy b2))
            else replacement +:+ from_utf8_lossy b1
        | [] => replacement
        end
      else if in_range 224 239 a then
        match b1 with
        | c :: b2 =>
            if second3 a c then
              match b2 with
              | d :: b3 =>
                  if is_continuation d
                  then String a (String c (String d (from_utf8_lossy b3)))
                  else replacement +:+ from_utf8_lossy b2
              | [] => replacement
              end
            else replacement +:+ from_utf8_lossy b1
        | [] => replacement
        end
      else if in_range 240 244 a then
        match b1 with
        | c :: b2 =>
            if second4 a c then
              match b2 with
              | d :: b3 =>
                  if is_continuation d then
                    match b3 with
                    | e :: b4 =>
                        if is_continuation e
                        then String a (String c (String d (String e (from_utf8_lossy b4))))
                        else replacement +:+ from_utf8_lossy b3
                    | [] => replacement
                    end
                  else replacement +:+ from_utf8_lossy b2
              | [] => replacement
              end
            else replacement +:+ from_utf8_lossy b1
        | [] => replacement
        end
      else replacement +:+ from_utf8_lossy b1
  end.

(** ** Readiness matcher *)

(** [slice::windows]. *)
Fixpoint windows {A} (n : nat) (l : list A) : list (list A) :=
  match l with
  | [] => []
  | _ :: l' => if Nat.leb n (length l) then take n l :: windows n l' else []
  end.

Record ProbeMatcher := {
  pm_probe : bytes;
  pm_tail : bytes;
  pm_complete : bool;
}.

Definition ProbeMatcher_new (probe : bytes) : ProbeMatcher :=
  {| pm_probe := probe; pm_tail := []; pm_complete := bool_decide (probe = []) |}.

(** Feeds one chunk and returns true exactly once when the probe first appears. *)
Definition matcher_push (m : ProbeMatcher) (chunk : bytes) : ProbeMatcher * bool :=
  if pm_complete m then (m, false)
  else
    let combined := pm_tail m ++ chunk in
    if existsb (fun window => bool_decide (window = pm_probe m))
         (windows (length (pm_probe m)) combined)
    then ({| pm_probe := pm_probe m; pm_tail := []; pm_complete := true |}, true)
    else
      let keep := Nat.min (length (pm_probe m) - 1) (length combined) in
      ({| pm_probe := pm_probe m; pm_tail := drop (length combined - keep) combined;
          pm_complete := false |}, false).

(** ** Tail buffer *)

Definition MAX_FAILURE_OUTPUT_BYTES : nat := 1024.

Record TailBuffer := {
  tb_bytes : bytes;
  tb_truncated : bool;
}.
Definition TailBuffer_default : TailBuffer := {| tb_bytes := []; tb_truncated := false |}.

Definition tail_push (t : TailBuffer) (chunk : bytes) : TailBuffer :=
  if Nat.leb MAX_FAILURE_OUTPUT_BYTES (length chunk) then
    {| tb_bytes := drop (length chunk - MAX_FAILURE_OUTPUT_BYTES) chunk;
       tb_truncated := true |}
  else
    let overflow := length (tb_bytes t) + length chunk - MAX_FAILURE_OUTPUT_BYTES in
    if Nat.ltb 0 overflow then
      {| tb_bytes := drop overflow (tb_bytes t) ++ chunk; tb_truncated := true |}
    else
      {| tb_bytes := tb_bytes t ++ chunk; tb_truncated := tb_truncated t |}.

Definition tail_text (t : TailBuffer) : string :=
  let text := trim (from_utf8_lossy (tb_bytes t)) in
  if tb_truncated t && negb (is_empty text) then ellipsis +:+ text else text.

(** ** Pipe reader *)

(** What one [read] on a child pipe returned. *)
Inductive ReadResult :=
| Read (chunk : bytes)
| ReadError (error : string).

(** The capture loop over the reads a pipe delivers; [matched] counts the ready
    signals sent. An empty read is the end of the stream; so is the end of the
    list, for a reader still blocked. *)
Fixpoint capture_loop (reads : list ReadResult) (tail : TailBuffer)
    (matcher : option ProbeMatcher) (matched : nat) : TailBuffer * nat :=
  match reads with
  | [] => (tail, matched)
  | Read [] :: _ => (tail, matched)
  | Read chunk :: reads =>
      let tail := tail_push tail chunk in
      match matcher with
      | Some m =>
          let '(m, hit) := matcher_push m chunk in
          capture_loop reads tail (Some m) (if hit then S matched else matched)
      | None => capture_loop reads tail None matched
      end
  | ReadError error :: _ =>
      (tail_push tail (as_bytes (newline +:+ "reading tunnel output failed: " +:+ error)),
       matched)
  end.

Definition capture_output (reads : list ReadResult) (probe : option string)
    : TailBuffer * nat :=
  capture_loop reads TailBuffer_default (ProbeMatcher_new ∘ as_bytes <$> probe) 0.

(** ** Draining and the failure message *)

(** How a reader task ended within the drain deadline. *)
Inductive ReaderOutcome :=
| ReaderFinished (output : TailBuffer)
| ReaderPanicked
| ReaderTimedOut.

Definition drain_output_reader (task : ReaderOutcome) : TailBuffer * bool :=
  match task with
  | ReaderFinished output => (output, false)
  | ReaderPanicked => (TailBuffer_default, false)
  | ReaderTimedOut => (TailBuffer_default, true)
  end.

Record DrainedOutput := {
  dr_stdout : TailBuffer;
  dr_stderr : TailBuffer;
  dr_timed_out : bool;
}.

Definition drain_output_readers (stdout_task stderr_task : ReaderOutcome) : DrainedOutput :=
  let stdout := drain_output_reader stdout_task in
  let stderr := drain_output_reader stderr_task in
  {| dr_stdout := stdout.1; dr_stderr := stderr.1; dr_timed_out := stdout.2 || stderr.2 |}.

Definition clean (output : string) (probe : option string) : string :=
  trim (join newline
    (filter (fun line => Some (trim line) <> probe) (lines output))).

Definition failure_output (stderr stdout : string) (readiness_probe : option string) : string :=
  let stderr := clean stderr readiness_probe in
  if is_empty stderr then clean stdout readiness_probe else stderr.

(** [std::process::ExitStatus]: whether it is a success, and its text. *)
Record ExitStatus := {
  success : bool;
  status_text : string;
}.

Definition failure_details (status : result string ExitStatus)
    (stdout_task stderr_task : ReaderOutcome) (readiness_probe : option string) : string :=
  let output := drain_output_readers stdout_task stderr_task in
  let details :=
    match status with
    | Ok status =>
        if success status then "Tunnel command exited unexpectedly"
        else "Tunnel command exited: " +:+ status_text status
    | Err error => "Waiting for tunnel command failed: " +:+ error
    end in
  let details :=
    if dr_timed_out output
    then details +:+ newline +:+ newline +:+
           "Tunnel output pipes remained open after the command exited"
    else details in
  let failure := failure_output (tail_text (dr_stderr output)) (tail_text (dr_stdout output))
                   readiness_probe in
  if negb (is_empty failure) then details +:+ newline +:+ newline +:+ failure else details.

(** ** Reference definitions *)

(** [p] is a contiguous part of [l]. *)
Definition occurs {A} (p l : list A) : Prop := exists b r, l = b ++ p ++ r.

(** The chunks a reader passes on: those before the first empty read or error. *)
Fixpoint delivered (reads : list ReadResult) : list bytes :=
  match reads with
  | Read (c :: chunk) :: reads => (c :: chunk) :: delivered reads
  | _ => []
  end.

(** The chunks recorded in the tail: an error adds its message. *)
Fixpoint recorded (reads : list ReadResult) : list bytes :=
  match reads with
  | Read (c :: chunk) :: reads => (c :: chunk) :: recorded reads
  | ReadError error :: _ =>
      [as_bytes (newline +:+ "reading tunnel output failed: " +:+ error)]
  | _ => []
  end.

Definition feed (m : ProbeMatcher) (chunks : list bytes) : ProbeMatcher :=
  foldl (fun m chunk => (matcher_push m chunk).1) m chunks.

(** ** Lemmas on occurrences *)

Lemma windows_spec {A} (p l : list A) : p <> [] -> p ∈ windows (length p) l <-> occurs p l.
Proof.
  intros Hp. induction l as [|x l IH]; cbn [windows].
  { rewrite elem_of_nil. split; [done|]. intros (b & r & H).
    symmetry in H. apply app_eq_nil in H as [_ [H _]%app_eq_nil]. done. }
  destruct (Nat.leb_spec (length p) (length (x :: l))) as [Hle|Hgt].
  - rewrite elem_of_cons, IH. split.
    + intros [Ht|(b & r & ->)].
      * exists [], (drop (length p) (x :: l)). rewrite Ht at 1. simpl.
        by rewrite take_drop.
      * by exists (x :: b), r.
    + intros ([|y b] & r & Heq); simpl in Heq.
      * left. by rewrite Heq, take_app_length.
      * right. injection Heq as _ ->. by exists b, r.
  - rewrite elem_of_nil. split; [done|]. intros (b & r & Heq).
    apply (f_equal length) in Heq. rewrite !length_app in Heq. lia.
Qed.

Lemma occurs_app {A} (p l k : list A) :
  p <> [] ->
  occurs p (l ++ k) <-> occurs p l \/ occurs p (last_n (length p - 1) l ++ k).
Proof.
  intros Hp. split.
  - intros (b & r & Heq). destruct (decide (length b + length p <= length l)) as [Hle|Hgt].
    + left. exists b, (drop (length b + length p) l).
      rewrite <-(take_drop (length b + length p) l) at 1.
      assert (take (length b + length p) l = b ++ p) as ->; [|by rewrite <-app_assoc].
      apply (f_equal (take (length b + length p))) in Heq.
      rewrite take_app_le in Heq by done. rewrite Heq, app_assoc.
      rewrite take_app_le by (rewrite length_app; lia).
      apply take_ge. rewrite length_app. lia.
    + right. unfold last_n. destruct p as [|x p]; [done|]. simpl in *.
      exists (drop (length l - (length p - 0)) b), r.
      rewrite <-drop_app_le by lia. rewrite Heq, drop_app_le by lia. done.
  - intros [(b & r & ->)|(b & r & Heq)].
    + exists b, (r ++ k). by rewrite <-!app_assoc.
    + unfold last_n in Heq.
      exists (take (length l - (length p - 1)) l ++ b), r.
      by rewrite <-app_assoc, <-Heq, app_assoc, take_drop.
Qed.

(** ** The matcher *)

(** What the matcher knows after the input [seen]. *)
Record tracks (probe seen : bytes) (m : ProbeMatcher) : Prop := {
  tracks_probe : pm_probe m = probe;
  tracks_complete : pm_complete m = true <-> occurs probe seen;
  tracks_tail : pm_complete m = false -> pm_tail m = last_n (length probe - 1) seen;
}.

Lemma tracks_new (probe : bytes) : probe <> [] -> tracks probe [] (ProbeMatcher_new probe).
Proof.
  intros Hp. split; [done| |done]. simpl. rewrite bool_decide_eq_true. split; [done|].
  intros (b & r & H). symmetry in H. by apply app_eq_nil in H as [_ [H _]%app_eq_nil].
Qed.

Lemma matcher_scan (probe seen chunk : bytes) (m : ProbeMatcher) :
  probe <> [] -> tracks probe seen m -> pm_complete m = false ->
  existsb (fun window => bool_decide (window = pm_probe m))
    (windows (length (pm_probe m)) (pm_tail m ++ chunk)) = true <->
  occurs probe (seen ++ chunk).
Proof.
  intros Hp [Hprobe Hc Ht] Hf. rewrite Hprobe, Ht, occurs_app by done.
  rewrite existsb_exists, <-(windows_spec probe (last_n _ _ ++ chunk)) by done. split.
  - intros (w & Hin & ->%bool_decide_eq_true). right. by apply list_elem_of_In.
  - intros [Ho|Hin]; [by rewrite <-Hc, Hf in Ho|].
    exists probe. split; [by apply list_elem_of_In|]. by apply bool_decide_eq_true.
Qed.

Lemma matcher_push_spec (probe seen chunk : bytes) (m m' : ProbeMatcher) (hit : bool) :
  probe <> [] -> tracks probe seen m -> matcher_push m chunk = (m', hit) ->
  tracks probe (seen ++ chunk) m' /\
  (hit = true <-> occurs probe (seen ++ chunk) /\ ~ occurs probe seen).
Proof.
  intros Hp Htr. pose proof (matcher_scan probe seen chunk m Hp Htr) as Hscan.
  destruct Htr as [Hprobe Hc Ht]. unfold matcher_push.
  destruct (pm_complete m) eqn:Hm.
  - intros [= <- <-]. assert (occurs probe seen) as Ho by (by apply Hc).
    split; [|naive_solver]. split; [done| |congruence].
    split; [|done]. intros _. apply occurs_app; [done|]. by left.
  - specialize (Hscan eq_refl). destruct (existsb _ _).
    + intros [= <- <-]. assert (occurs probe (seen ++ chunk)) as Ho by (by apply Hscan).
      split; [split; simpl; [done|done|done]|]. split; [|done].
      intros _. split; [done|]. intros Hs%Hc. done.
    + intros [= <- <-]. split; [split; simpl; [done| |]|].
      * by rewrite <-Hscan.
      * intros _. rewrite Hprobe, Ht by done.
        rewrite <-(last_n_app_l _ seen chunk).
        generalize (last_n (length probe - 1) seen ++ chunk). intros combined.
        unfold last_n. f_equal. lia.
      * rewrite <-Hscan. naive_solver.
Qed.

Lemma feed_tracks (probe seen : bytes) (chunks : list bytes) (m : ProbeMatcher) :
  probe <> [] -> tracks probe seen m ->
  tracks probe (seen ++ mjoin chunks) (feed m chunks).
Proof.
  intros Hp. revert seen m. induction chunks as [|c chunks IH]; intros seen m Htr; simpl.
  { by rewrite app_nil_r. }
  rewrite app_assoc. apply IH.
  destruct (matcher_push m c) as [m' hit] eqn:Hpush. simpl.
  by apply (matcher_push_spec probe seen c m m' hit).
Qed.

(** ** The tail buffer *)

Lemma tail_push_bytes (t : TailBuffer) (seen chunk : bytes) :
  tb_bytes t = last_n MAX_FAILURE_OUTPUT_BYTES seen ->
  tb_bytes (tail_push t chunk) = last_n MAX_FAILURE_OUTPUT_BYTES (seen ++ chunk).
Proof.
  intros Ht. rewrite <-last_n_app_l, <-Ht. unfold tail_push, last_n.
  destruct (Nat.leb_spec MAX_FAILURE_OUTPUT_BYTES (length chunk)); simpl.
  - rewrite length_app, drop_app_ge by lia. f_equal. lia.
  - rewrite length_app. destruct (Nat.ltb_spec 0
      (length (tb_bytes t) + length chunk - MAX_FAILURE_OUTPUT_BYTES)); simpl.
    + by rewrite drop_app_le by lia.
    + by replace (_ + _ - _) with 0 by lia.
Qed.

Lemma tail_push_truncated (t : TailBuffer) (seen chunk : bytes) :
  tb_bytes t = last_n MAX_FAILURE_OUTPUT_BYTES seen ->
  (MAX_FAILURE_OUTPUT_BYTES < length seen -> tb_truncated t = true) ->
  tb_truncated (tail_push t chunk) = true <->
  MAX_FAILURE_OUTPUT_BYTES <= length chunk \/
  MAX_FAILURE_OUTPUT_BYTES < length (seen ++ chunk) \/ tb_truncated t = true.
Proof.
  intros Ht Hlost. unfold tail_push. rewrite Ht, length_last_n, length_app.
  destruct (Nat.leb_spec MAX_FAILURE_OUTPUT_BYTES (length chunk)); cbn [tb_truncated];
    [intuition lia|].
  destruct (Nat.ltb_spec 0
    (Nat.min MAX_FAILURE_OUTPUT_BYTES (length seen) + length chunk -
     MAX_FAILURE_OUTPUT_BYTES)); cbn [tb_truncated];
    [split; [intros _; right; left; lia|done]|].
  split; [tauto|]. intros [Hc|[Hl|Hl]]; [lia| |done]. apply Hlost. lia.
Qed.

Lemma tail_feed (chunks : list bytes) (t : TailBuffer) (seen : bytes) :
  tb_bytes t = last_n MAX_FAILURE_OUTPUT_BYTES seen ->
  (MAX_FAILURE_OUTPUT_BYTES < length seen -> tb_truncated t = true) ->
  tb_bytes (foldl tail_push t chunks) = last_n MAX_FAILURE_OUTPUT_BYTES (seen ++ mjoin chunks) /\
  (tb_truncated (foldl tail_push t chunks) = true <->
   tb_truncated t = true \/ MAX_FAILURE_OUTPUT_BYTES < length (seen ++ mjoin chunks) \/
   exists chunk, chunk ∈ chunks /\ MAX_FAILURE_OUTPUT_BYTES <= length chunk).
Proof.
  revert t seen. induction chunks as [|c chunks IH]; intros t seen Hb Ht; simpl.
  { rewrite app_nil_r. split; [done|]. set_solver. }
  pose proof (tail_push_truncated t seen c Hb Ht) as Htr.
  destruct (IH (tail_push t c) (seen ++ c)) as [IH1 IH2].
  { by apply tail_push_bytes. }
  { rewrite Htr. tauto. }
  rewrite <-app_assoc in IH1, IH2. split; [done|]. rewrite IH2, Htr.
  rewrite !length_app in *. split.
  - intros [[H|[H|H]]|[H|(x & Hx & Hl)]]; [|right; left; lia|by left|right; left; lia|].
    + right; right. exists c. set_solver.
    + right; right. exists x. set_solver.
  - intros [H|[H|(x & Hx & Hl)]]; [tauto|right; left; lia|].
    apply elem_of_cons in Hx as [->|Hx]; [tauto|]. right; right. eauto.
Qed.

(** ** The reader *)

Lemma capture_loop_tail (reads : list ReadResult) (t : TailBuffer) (m : option ProbeMatcher)
    (n : nat) :
  (capture_loop reads t m n).1 = foldl tail_push t (recorded reads).
Proof.
  revert t m n. induction reads as [|[[|c chunk]|error] reads IH]; intros t m n;
    cbn [capture_loop recorded foldl]; [done|done| |done].
  destruct m as [m|]; [|apply IH].
  destruct (matcher_push m (c :: chunk)). apply IH.
Qed.

Lemma capture_loop_ready (reads : list ReadResult) (t : TailBuffer) (probe seen : bytes)
    (m : ProbeMatcher) (n : nat) :
  probe <> [] -> tracks probe seen m ->
  (occurs probe seen -> (capture_loop reads t (Some m) n).2 = n) /\
  (~ occurs probe seen ->
     (occurs probe (seen ++ mjoin (delivered reads)) ->
        (capture_loop reads t (Some m) n).2 = S n) /\
     (~ occurs probe (seen ++ mjoin (delivered reads)) ->
        (capture_loop reads t (Some m) n).2 = n)).
Proof.
  intros Hp. revert t seen m n.
  induction reads as [|[[|c chunk]|error] reads IH]; intros t seen m n Htr;
    cbn [capture_loop delivered mjoin list_join snd]; [by rewrite app_nil_r..| |by rewrite app_nil_r].
  destruct (matcher_push m (c :: chunk)) as [m' hit] eqn:Hpush.
  destruct (matcher_push_spec _ _ _ _ _ _ Hp Htr Hpush) as [Htr' Hhit].
  destruct (IH (tail_push t (c :: chunk)) _ _ (if hit then S n else n) Htr') as [IH1 IH2].
  rewrite app_assoc.
  assert (forall x, occurs probe seen -> occurs probe (seen ++ x)) as Hmono.
  { intros x Hs. apply occurs_app; [done|]. by left. }
  assert (occurs probe (seen ++ c :: chunk) ->
    occurs probe ((seen ++ c :: chunk) ++ mjoin (delivered reads))) as Hmono2.
  { intros Hs. apply occurs_app; [done|]. by left. }
  destruct hit.
  - destruct (proj1 Hhit eq_refl) as [H1 H2]. rewrite IH1 by done.
    split; [done|]. intros _. split; [done|]. intros H. by apply Hmono2 in H1.
  - assert (occurs probe (seen ++ c :: chunk) -> occurs probe seen) as Hback.
    { intros H. destruct (decide (pm_complete m = true)) as [Hc|Hc];
        [by apply (tracks_complete _ _ _ Htr)|].
      assert (~ occurs probe seen) as Hn by (by rewrite <-(tracks_complete _ _ _ Htr)).
      discriminate (proj2 Hhit (conj H Hn)). }
    split; [intros Hs; by apply IH1, Hmono|].
    intros Hs. apply IH2. intros H. by apply Hs, Hback.
Qed.

(** ** Properties *)

(** C20: The streaming matcher signals readiness on a chunk exactly when the
    probe has occurred in the whole output up to and including the chunk and had
    not occurred before it, however the output is split into chunks. *)
Theorem matcher_exact (probe chunk : bytes) (chunks : list bytes) :
  probe <> [] ->
  (matcher_push (feed (ProbeMatcher_new probe) chunks) chunk).2 = true <->
  occurs probe (mjoin chunks ++ chunk) /\ ~ occurs probe (mjoin chunks).
Proof.
  intros Hp. pose proof (feed_tracks probe [] chunks _ Hp (tracks_new probe Hp)) as Htr.
  simpl in Htr. destruct (matcher_push _ chunk) as [m' hit] eqn:Hpush. simpl.
  by apply (matcher_push_spec _ _ _ _ _ _ Hp Htr Hpush).
Qed.

Lemma matcher_exact_witness :
  occurs (as_bytes "READY") (mjoin [as_bytes "xREA"] ++ as_bytes "DYy").
Proof. apply (matcher_exact (as_bytes "READY")); [done|]. by vm_compute. Defined.

(** A reader sends the ready signal once if the probe occurs in the output it
    was given before the end of the stream, and otherwise never; it keeps the
    last 1024 bytes of that output, followed by the message of a read error. *)
Theorem capture_output_spec (reads : list ReadResult) (probe : string) :
  probe <> "" ->
  (occurs (as_bytes probe) (mjoin (delivered reads)) ->
     (capture_output reads (Some probe)).2 = 1) /\
  (~ occurs (as_bytes probe) (mjoin (delivered reads)) ->
     (capture_output reads (Some probe)).2 = 0) /\
  tb_bytes (capture_output reads (Some probe)).1 =
    last_n MAX_FAILURE_OUTPUT_BYTES (mjoin (recorded reads)).
Proof.
  intros Hp. assert (as_bytes probe <> []) as Hp' by (by destruct probe).
  unfold capture_output. simpl.
  destruct (capture_loop_ready reads TailBuffer_default _ [] _ 0 Hp' (tracks_new _ Hp'))
    as [_ [H1 H2]].
  { intros (b & r & H). symmetry in H. by apply app_eq_nil in H as [_ [H _]%app_eq_nil]. }
  split; [done|]. split; [done|]. rewrite capture_loop_tail.
  apply (tail_feed (recorded reads) TailBuffer_default []); [done|].
  unfold MAX_FAILURE_OUTPUT_BYTES. simpl. lia.
Qed.

Lemma capture_output_spec_witness :
  (capture_output [Read (as_bytes "log REA"); Read (as_bytes "DY READY"); Read []]
     (Some "READY")).2 = 1.
Proof.
  apply (capture_output_spec _ "READY"); [done|].
  by exists (as_bytes "log "), (as_bytes " READY").
Defined.

(** Whatever the chunks, the buffer holds the last 1024 bytes of the output;
    its text is marked as incomplete if bytes were lost, and also when a chunk of
    at least 1024 bytes arrived, which for exactly 1024 bytes loses nothing. *)
Theorem tail_buffer_spec (chunks : list bytes) :
  let t := foldl tail_push TailBuffer_default chunks in
  tb_bytes t = last_n MAX_FAILURE_OUTPUT_BYTES (mjoin chunks) /\
  (tb_truncated t = true <->
   MAX_FAILURE_OUTPUT_BYTES < length (mjoin chunks) \/
   exists chunk, chunk ∈ chunks /\ MAX_FAILURE_OUTPUT_BYTES <= length chunk).
Proof.
  destruct (tail_feed chunks TailBuffer_default []) as [H1 H2]; [done|unfold MAX_FAILURE_OUTPUT_BYTES; simpl; lia|].
  split; [done|]. rewrite H2. simpl. naive_solver.
Qed.
