(* ===== verification/RustPath.v ===== *)
(** * Rust paths

    What the sources use of [std::path] on Unix. A path is the string of its
    bytes; paths are compared by their components, and [join] and [push] work on
    the text. *)

From Stdlib Require Import Ascii Lia.
From stdpp Require Import base strings list option.
From S2P Require Import Prelude RustStr Output.

Inductive Component :=
| RootDir
| CurDir
| ParentDir
| Normal (name : string).
#[global] Instance Component_eq_dec : EqDecision Component.
Proof. solve_decision. Defined.

Definition component (piece : string) : Component :=
  if bool_decide (piece = "..") then ParentDir else Normal piece.

(** [Path::components]: repeated separators and inner dots are skipped; a leading
    dot counts. *)
Definition components (path : string) : list Component :=
  let pieces := split "/" path in
  (if starts_with "/" path then [RootDir]
   else if bool_decide (head pieces = Some ".") then [CurDir] else []) ++
  (component <$> filter (fun piece => piece <> "" /\ piece <> ".") pieces).

(** [PartialEq] of paths. *)
Definition path_eq (p q : string) : bool := bool_decide (components p = components q).

(** [Path::starts_with]. *)
Definition path_starts_with (path base : string) : bool :=
  bool_decide (take (length (components base)) (components path) = components base).

Definition file_name (path : string) : option string :=
  match list.last (components path) with Some (Normal name) => Some name | _ => None end.

(** [PathBuf::push] and [Path::join]. *)
Definition path_join (path next : string) : string :=
  if starts_with "/" next then next
  else if is_empty path || ends_with "/" path then path +:+ next
  else path +:+ "/" +:+ next.

Definition component_text (c : Component) : string :=
  match c with RootDir => "/" | CurDir => "." | ParentDir => ".." | Normal name => name end.

(** [std::path::absolute], given the working directory. *)
Definition absolute (current_dir : Result string) (path : string) : Result string :=
  if is_empty path then bail "cannot make an empty path absolute"
  else
    let parts := filter (fun c => c <> CurDir) (components path) in
    normalized ←
      if starts_with "/" path then
        Ok (if starts_with "//" path && negb (starts_with "///" path)
            then foldl path_join "//" (component_text <$> drop 1 parts)
            else foldl path_join "" (component_text <$> parts))
      else (fun dir => foldl path_join dir (component_text <$> parts)) <$> current_dir;
    Ok (if ends_with "/" path then path_join normalized "" else normalized).

(** [Path::parent] of a path without redundant separators or trailing dots. *)
Definition path_parent (path : string) : option string :=
  if is_empty path || bool_decide (path = "/") then None
  else
    match rsplit_once "/" path with
    | Some (directory, _) => Some (if is_empty directory then "/" else directory)
    | None => Some ""
    end.

(** [Path::to_str]: lossy decoding changes exactly the invalid texts. *)
Definition to_str (path : string) : option string :=
  if bool_decide (from_utf8_lossy (as_bytes path) = path) then Some path else None.
Definition to_string_lossy (path : string) : string := from_utf8_lossy (as_bytes path).

Example absolute_relative :
  absolute (Ok "/home/me") "./conf//montray.yml" = Ok "/home/me/conf/montray.yml".
Proof. reflexivity. Qed.
Example starts_with_components :
  path_starts_with "/tmp/a/b" "/tmp//" = true /\ path_starts_with "/tmpx/a" "/tmp" = false.
Proof. split; reflexivity. Qed.

(** A component's name holds no leading separator. *)
Lemma split_piece_start (c : ascii) (s piece : string) :
  piece ∈ split (String c "") s -> starts_with (String c "") piece = false.
Proof.
  unfold split. revert piece. induction s as [|d s IH]; intros piece; simpl.
  { by intros ->%list_elem_of_singleton. }
  unfold starts_with at 1. simpl. destruct (Ascii.eqb c d) eqn:Hc.
  - destruct s; intros [->|Hin]%elem_of_cons; auto.
  - destruct (split_go (String c "") 0 s) as [|p ps].
    + intros ->%list_elem_of_singleton. unfold starts_with. simpl. by rewrite Hc.
    + intros [->|Hin]%elem_of_cons; [unfold starts_with; simpl; by rewrite Hc|].
      apply IH. by right.
Qed.

Lemma file_name_relative (p : string) : starts_with "/" (default "" (file_name p)) = false.
Proof.
  unfold file_name. destruct (list.last (components p)) as [[| | |name]|] eqn:Hl; try done.
  apply last_Some_elem_of in Hl. simpl. unfold components in Hl.
  apply elem_of_app in Hl as [Hl|Hl].
  - destruct (starts_with "/" p); [by apply list_elem_of_singleton in Hl|].
    destruct (bool_decide _); [by apply list_elem_of_singleton in Hl|by apply not_elem_of_nil in Hl].
  - apply list_elem_of_fmap in Hl as (piece & He & [_ Hin]%list_elem_of_filter).
    unfold component in He. destruct (bool_decide _); [done|]. simplify_eq.
    by eapply split_piece_start.
Qed.

Lemma path_parent_prefix (path parent : string) :
  path_parent path = Some parent -> exists rest, path = parent +:+ rest.
Proof.
  unfold path_parent. destruct (is_empty path || bool_decide (path = "/")); [done|].
  destruct (rsplit_once "/" path) as [[d rest]|] eqn:Hs; intros [= <-]; [|by exists path].
  apply rsplit_once_Some in Hs as ->. destruct (is_empty d) eqn:Hd; [|eauto].
  apply is_empty_true in Hd as ->. by exists rest.
Qed.

(** The last component of a path. *)
Lemma split_append (c : ascii) (a b : string) :
  split (String c "") (a +:+ String c b) = split (String c "") a ++ split (String c "") b.
Proof.
  unfold split. induction a as [|d a IH]; simpl.
  { unfold starts_with. simpl. by rewrite Ascii.eqb_refl. }
  unfold starts_with. simpl. destruct (Ascii.eqb c d); simpl; [by rewrite IH|]. rewrite IH.
  destruct (split_go (String c "") 0 a) as [|p ps] eqn:Hs; [|done].
  destruct a; simpl in Hs; [done|]. unfold starts_with in Hs. simpl in Hs.
  destruct (Ascii.eqb c _); [done|]. by destruct (split_go _ _ _).
Qed.

Lemma split_single (c : ascii) (s : string) :
  any_byte (Ascii.eqb c) s = false -> split (String c "") s = [s].
Proof.
  unfold split. induction s as [|d s IH]; simpl; [done|].
  intros [Hd Hs]%orb_false_iff. unfold starts_with. simpl. rewrite Hd. by rewrite IH.
Qed.

Lemma file_name_append (dir name : string) :
  any_byte (Ascii.eqb "/") name = false -> name <> "" -> name <> "." -> name <> ".." ->
  file_name (dir +:+ String "/" name) = Some name.
Proof.
  intros Hn H1 H2 H3. unfold file_name, components. rewrite split_append, (split_single _ name) by done.
  rewrite list.filter_app, fmap_app, (filter_cons_True _ name []) by done.
  change (filter _ (@nil string)) with (@nil string). simpl. rewrite app_assoc, last_snoc. unfold component. by rewrite bool_decide_eq_false_2.
Qed.

(** Paths with different endings differ. *)
Lemma append_same_length (a b x y : string) :
  a +:+ x = b +:+ y -> String.length x = String.length y -> x = y.
Proof.
  revert b. induction a as [|c a IH]; intros [|d b]; simpl; intros He Hl.
  - done.
  - subst. simpl in Hl. rewrite length_append in Hl. lia.
  - subst. simpl in Hl. rewrite length_append in Hl. lia.
  - injection He as _ He. by apply (IH b).
Qed.

Lemma path_join_ends (home relative : string) :
  starts_with "/" relative = false -> exists before, path_join home relative = before +:+ relative.
Proof.
  intros Hr. unfold path_join. rewrite Hr. destruct (_ || _); [by exists home|].
  exists (home +:+ "/"). by rewrite append_assoc.
Qed.

(** The last [n] bytes. *)
Fixpoint drop_bytes (n : nat) (s : string) : string :=
  match n, s with S n, String _ s => drop_bytes n s | _, _ => s end.
Definition ending (n : nat) (s : string) : string := drop_bytes (String.length s - n) s.

Lemma drop_bytes_suffix n s : exists before, s = before +:+ drop_bytes n s.
Proof.
  revert s. induction n as [|n IH]; intros s; [by exists ""|].
  destruct s as [|c s]; [by exists ""|]. destruct (IH s) as [before Hs].
  exists (String c before). simpl. by f_equal.
Qed.

Lemma path_join_ne (n : nat) (home home' a b : string) :
  starts_with "/" a = false -> starts_with "/" b = false ->
  String.length (ending n a) = String.length (ending n b) -> ending n a <> ending n b ->
  path_join home a <> path_join home' b.
Proof.
  intros Ha Hb Hl Hne. destruct (path_join_ends home a Ha) as [p ->].
  destruct (path_join_ends home' b Hb) as [q ->].
  destruct (drop_bytes_suffix (String.length a - n) a) as [a' Ha'].
  destruct (drop_bytes_suffix (String.length b - n) b) as [b' Hb'].
  rewrite Ha', Hb', <-!append_assoc. intros He. by apply append_same_length in He.
Qed.
