(* ===== verification/Domain.v ===== *)
(** * The domain model: [src/domain/model.rs], [event.rs], [effect.rs]

    The reducer-owned state, the events it accepts, the effects it requests and
    the projection of the state into the snapshot shown by the window and the
    tray. An [OffsetDateTime] is the instant it denotes, in nanoseconds since
    the Unix epoch: the sources compare instants, add durations to them and
    hand them to RFC 3339 formatting, nothing else. *)

From stdpp Require Import base gmap strings list sorting pretty.
From Stdlib Require Import ZArith Lia.
From S2P Require Import Prelude RustStr.

Abbreviation OffsetDateTime := Z.

(** The [time] crate's RFC 3339 formatter and parser, outside the sources. *)
Class Rfc3339 := {
  rfc3339_format : OffsetDateTime -> option string;
  rfc3339_parse : string -> option OffsetDateTime;
}.

(** Parsing a formatted instant gives the instant back. *)
Class Rfc3339Laws (R : Rfc3339) : Prop := {
  rfc3339_roundtrip (t : OffsetDateTime) (s : string) :
    rfc3339_format t = Some s -> rfc3339_parse s = Some t;
}.

(** An instance of the interface with its law, used where a concrete formatter
    is needed: decimal nanoseconds in the range of [i64]. *)
Definition decimal_rfc3339 : Rfc3339 := {|
  rfc3339_format t :=
    if (Z.leb (- 9223372036854775808) t && Z.leb t 9223372036854775807)%bool
    then Some (pretty t) else None;
  rfc3339_parse := parse_i64;
|}.

#[global] Instance decimal_rfc3339_laws : Rfc3339Laws decimal_rfc3339.
Proof.
  split. intros t s. simpl. destruct_if; [|done]. intros [= <-].
  apply parse_i64_pretty. lia.
Qed.

(** ** Data *)

Inductive IncidentState : Set :=
| IncidentOk
| IncidentWarning
| IncidentError.

Record Incident : Set := mkIncident {
  inc_key : string;
  inc_state : IncidentState;
  inc_details : string;
  inc_started_at : string;
  inc_stale : bool;
}.

Record NotificationData : Set := mkNotificationData {
  nd_total : list Incident;
  nd_added : list Incident;
  nd_removed : list Incident;
  nd_updated : list Incident;
  nd_num_items_ok : N;
}.

Record ServerStatus : Set := mkServerStatus {
  srv_id : string;
  srv_connected : bool;
  srv_initialized : bool;
  srv_connection_changed_at : option OffsetDateTime;
  srv_last_heartbeat_at : option OffsetDateTime;
}.

Inductive OverallState : Set :=
| OverallUnknown
| OverallOk
| OverallInternalError
| OverallWarning
| OverallError.

Record SnoozedIncident : Set := mkSnoozedIncident {
  sn_incident : Incident;
  sn_until : OffsetDateTime;
}.

Record UiSnapshot : Set := mkUiSnapshot {
  ui_servers : list ServerStatus;
  ui_active : list Incident;
  ui_snoozed : list SnoozedIncident;
  ui_alerting_state : OverallState;
  ui_snoozed_state : option OverallState;
  ui_unknown_server_count : nat;
}.

Record AppState : Set := mkAppState {
  server_order : list string;
  servers : gmap string ServerStatus;
  incidents : gmap string (list Incident);
  internal_incidents : gmap string Incident;
  snoozed : gmap string OffsetDateTime;
}.

Inductive Event : Set :=
| Connected (server_id : string) (at_ : OffsetDateTime)
| Disconnected (server_id : string) (at_ : OffsetDateTime) (error : string)
| TunnelReady (server_id : string) (at_ : OffsetDateTime)
| TunnelFailed (server_id : string) (at_ : OffsetDateTime) (error : string)
| Heartbeat (server_id : string) (at_ : OffsetDateTime)
| Notification (server_id : string) (data : NotificationData) (at_ : OffsetDateTime)
| Snooze (key : string) (until : OffsetDateTime)
| Unsnooze (key : string)
| SnoozesPersisted (snoozes : gmap string OffsetDateTime)
| ForgetStale (key : string)
| Tick (at_ : OffsetDateTime).

Inductive SnoozeAction : Set :=
| ActionSet (key : string) (until : OffsetDateTime)
| ActionRemove (key : string)
| ActionExpire (keys : list string).

Inductive Effect : Set :=
| Notify (title body : string)
| PersistSnoozes (snoozes : gmap string OffsetDateTime) (action : SnoozeAction).

Record Transition : Set := mkTransition {
  tr_changed : bool;
  tr_effects : list Effect;
}.

(** [Transition::default()]. *)
Definition transition_default : Transition := mkTransition false [].

#[global] Instance IncidentState_eq_dec : EqDecision IncidentState.
Proof. solve_decision. Defined.
#[global] Instance Incident_eq_dec : EqDecision Incident.
Proof. solve_decision. Defined.
#[global] Instance ServerStatus_eq_dec : EqDecision ServerStatus.
Proof. solve_decision. Defined.
#[global] Instance OverallState_eq_dec : EqDecision OverallState.
Proof. solve_decision. Defined.
#[global] Instance SnoozedIncident_eq_dec : EqDecision SnoozedIncident.
Proof. solve_decision. Defined.
#[global] Instance SnoozeAction_eq_dec : EqDecision SnoozeAction.
Proof. solve_decision. Defined.
#[global] Instance Effect_eq_dec : EqDecision Effect.
Proof. solve_decision. Defined.

(** Field assignments of the sources. *)
Definition set_inc_key (k : string) (i : Incident) : Incident :=
  mkIncident k (inc_state i) (inc_details i) (inc_started_at i) (inc_stale i).
Definition set_inc_details (d : string) (i : Incident) : Incident :=
  mkIncident (inc_key i) (inc_state i) d (inc_started_at i) (inc_stale i).
Definition set_inc_stale (b : bool) (i : Incident) : Incident :=
  mkIncident (inc_key i) (inc_state i) (inc_details i) (inc_started_at i) b.

Definition set_servers (m : gmap string ServerStatus) (s : AppState) : AppState :=
  mkAppState (server_order s) m (incidents s) (internal_incidents s) (snoozed s).
Definition set_incidents (m : gmap string (list Incident)) (s : AppState) : AppState :=
  mkAppState (server_order s) (servers s) m (internal_incidents s) (snoozed s).
Definition set_internal (m : gmap string Incident) (s : AppState) : AppState :=
  mkAppState (server_order s) (servers s) (incidents s) m (snoozed s).
Definition set_snoozed (m : gmap string OffsetDateTime) (s : AppState) : AppState :=
  mkAppState (server_order s) (servers s) (incidents s) (internal_incidents s) m.

(** ** Construction and projection *)

Definition new_server_status (id : string) : ServerStatus :=
  mkServerStatus id false false None None.

Definition AppState_new (server_ids : list string)
    (snoozed : gmap string OffsetDateTime) : AppState :=
  mkAppState server_ids
    (list_to_map ((fun id => (id, new_server_status id)) <$> server_ids))
    ∅ ∅ snoozed.

(** [AppState::snoozes]. *)
Definition snoozes (self : AppState) : gmap string OffsetDateTime := snoozed self.

Definition rank (state : OverallState) : nat :=
  match state with
  | OverallUnknown => 0
  | OverallOk => 1
  | OverallInternalError => 2
  | OverallWarning => 3
  | OverallError => 4
  end.

(** The severity one item contributes: the closure body of [overall_state]. *)
Definition item_state (item : Incident) : OverallState :=
  if starts_with "internal." (inc_key item) &&
     bool_decide (inc_state item <> IncidentOk)
  then OverallInternalError
  else
    match inc_state item with
    | IncidentOk => OverallOk
    | IncidentWarning => OverallWarning
    | IncidentError => OverallError
    end.

Definition overall_state (items : list Incident) : OverallState :=
  fold_left
    (fun overall item =>
      let current := item_state item in
      if Nat.ltb (rank overall) (rank current) then current else overall)
    items OverallOk.

(** The deadline that hides an incident at [now], if there is one. *)
Definition snooze_deadline (snoozes : gmap string OffsetDateTime)
    (now : OffsetDateTime) (key : string) : option OffsetDateTime :=
  until ← snoozes !! key;
  if Z.ltb now until then Some until else None.

(** Every incident held by the state, in display order. *)
Definition all_incidents (self : AppState) : list Incident :=
  btree_values (internal_incidents self) ++
  (server_order self ≫= fun id =>
    match incidents self !! id with Some l => l | None => [] end).

(** The loop of [AppState::snapshot] that routes each incident. *)
Definition classify (snoozes : gmap string OffsetDateTime) (now : OffsetDateTime)
    (items : list Incident) : list Incident * list SnoozedIncident :=
  fold_left
    (fun '(active, hidden) incident =>
      match snooze_deadline snoozes now (inc_key incident) with
      | Some until => (active, hidden ++ [mkSnoozedIncident incident until])
      | None => (active ++ [incident], hidden)
      end)
    items ([], []).

Definition snapshot (self : AppState) (now : OffsetDateTime) : UiSnapshot :=
  let '(active, hidden) := classify (snoozed self) now (all_incidents self) in
  let shown := omap (fun id => servers self !! id) (server_order self) in
  let unknown_server_count :=
    length (filter (fun server => srv_initialized server = false) shown) in
  let alerting :=
    let state := overall_state active in
    if bool_decide (state = OverallOk) && Nat.ltb 0 unknown_server_count
    then OverallUnknown else state in
  let snoozed_state :=
    if bool_decide (hidden = []) then None
    else Some (overall_state (sn_incident <$> hidden)) in
  mkUiSnapshot shown active hidden alerting snoozed_state unknown_server_count.

(** ** Lemmas on severities *)

Lemma rank_inj (a b : OverallState) : rank a = rank b -> a = b.
Proof. by destruct a, b. Qed.

Lemma rank_item_state_pos (i : Incident) : 1 <= rank (item_state i).
Proof. unfold item_state. destruct_if; destruct (inc_state i); simpl; lia. Qed.

Definition worst (a b : OverallState) : OverallState :=
  if Nat.ltb (rank a) (rank b) then b else a.

Lemma rank_worst (a b : OverallState) : rank (worst a b) = Nat.max (rank a) (rank b).
Proof. by destruct a, b. Qed.

Lemma rank_fold_worst (items : list Incident) (a : OverallState) :
  rank (fold_left (fun o i => worst o (item_state i)) items a) =
  foldr (fun i n => Nat.max (rank (item_state i)) n) (rank a) items.
Proof.
  revert a. induction items as [|i items IH]; intros a; simpl; [done|].
  rewrite IH, rank_worst. clear IH. revert a.
  induction items as [|j items IH]; intros a; simpl; [lia|].
  rewrite IH. lia.
Qed.

(** The rank of the aggregate is the largest rank of the items. *)
Lemma rank_overall_state (items : list Incident) :
  rank (overall_state items) =
  foldr (fun i n => Nat.max (rank (item_state i)) n) 1 items.
Proof. apply (rank_fold_worst items OverallOk). Qed.

Lemma overall_state_ge (items : list Incident) (i : Incident) :
  i ∈ items -> rank (item_state i) <= rank (overall_state items).
Proof.
  rewrite rank_overall_state.
  induction 1 as [i items|i j items _ IH]; simpl; lia.
Qed.

Lemma overall_state_attained (items : list Incident) :
  overall_state items = OverallOk \/
  exists i, i ∈ items /\ item_state i = overall_state items.
Proof.
  assert (rank (overall_state items) = 1 \/
    exists i, i ∈ items /\ rank (item_state i) = rank (overall_state items)) as H.
  { rewrite rank_overall_state.
    induction items as [|j items IH]; simpl; [by left|].
    pose proof (rank_item_state_pos j).
    set (n := foldr _ _ items) in *.
    destruct (decide (n <= rank (item_state j))).
    - right. exists j. split; [left|lia].
    - destruct IH as [IH|(i & Hi & IH)]; [lia|].
      right. exists i. split; [by right|lia]. }
  destruct H as [H|(i & Hi & H)].
  - left. by apply rank_inj.
  - right. exists i. split; [done|]. by apply rank_inj.
Qed.

Lemma overall_state_not_unknown (items : list Incident) :
  overall_state items <> OverallUnknown.
Proof.
  intros H. pose proof (rank_overall_state items) as Hr. rewrite H in Hr.
  assert (1 <= foldr (fun i n => Nat.max (rank (item_state i)) n) 1 items); [|simpl in *; lia].
  clear. induction items as [|i items IH]; simpl; lia.
Qed.

Lemma overall_state_Permutation (l k : list Incident) :
  l ≡ₚ k -> overall_state l = overall_state k.
Proof.
  intros H. apply rank_inj. rewrite !rank_overall_state.
  induction H; simpl; lia.
Qed.

#[global] Instance overall_state_Proper :
  Proper ((≡ₚ) ==> (=)) overall_state := overall_state_Permutation.

(** ** Lemmas on classification *)

Definition hidden_at (snoozes : gmap string OffsetDateTime) (now : OffsetDateTime)
    (i : Incident) : Prop :=
  is_Some (snooze_deadline snoozes now (inc_key i)).

#[global] Instance hidden_at_dec snoozes now i : Decision (hidden_at snoozes now i).
Proof. unfold hidden_at. apply _. Defined.

Lemma snooze_deadline_Some snoozes now key until :
  snooze_deadline snoozes now key = Some until <->
  snoozes !! key = Some until /\ (now < until)%Z.
Proof.
  unfold snooze_deadline. destruct (snoozes !! key) as [u|]; simpl; [|naive_solver].
  destruct (Z.ltb_spec now u); naive_solver lia.
Qed.

Lemma classify_go snoozes now (items : list Incident) active hidden :
  fold_left
    (fun '(active, hidden) incident =>
      match snooze_deadline snoozes now (inc_key incident) with
      | Some until => (active, hidden ++ [mkSnoozedIncident incident until])
      | None => (active ++ [incident], hidden)
      end)
    items (active, hidden) =
  (active ++ filter (fun i => ~ hidden_at snoozes now i) items,
   hidden ++ omap (fun i => mkSnoozedIncident i <$>
     snooze_deadline snoozes now (inc_key i)) items).
Proof.
  revert active hidden.
  induction items as [|i items IH]; intros active hidden; simpl.
  - by rewrite !app_nil_r.
  - destruct (snooze_deadline snoozes now (inc_key i)) as [u|] eqn:Hu; simpl.
    + rewrite IH. rewrite filter_cons_False by (unfold hidden_at; rewrite Hu; naive_solver).
      by rewrite <-app_assoc.
    + rewrite IH. rewrite filter_cons_True
        by (unfold hidden_at; rewrite Hu; intros [? ?]; done).
      by rewrite <-app_assoc.
Qed.

(** The loop is a stable partition. *)
Lemma classify_eq snoozes now (items : list Incident) :
  classify snoozes now items =
  (filter (fun i => ~ hidden_at snoozes now i) items,
   omap (fun i => mkSnoozedIncident i <$>
     snooze_deadline snoozes now (inc_key i)) items).
Proof. apply classify_go. Qed.

Lemma hidden_incidents snoozes now (items : list Incident) :
  sn_incident <$> omap (fun i => mkSnoozedIncident i <$>
    snooze_deadline snoozes now (inc_key i)) items =
  filter (hidden_at snoozes now) items.
Proof.
  induction items as [|i items IH]; simpl; [done|].
  destruct (snooze_deadline snoozes now (inc_key i)) as [u|] eqn:Hu; simpl.
  - rewrite filter_cons_True by (unfold hidden_at; by rewrite Hu). by f_equal.
  - rewrite filter_cons_False by (unfold hidden_at; rewrite Hu; by intros [? ?]).
    done.
Qed.

Lemma snapshot_active self now :
  ui_active (snapshot self now) =
  filter (fun i => ~ hidden_at (snoozed self) now i) (all_incidents self).
Proof. unfold snapshot. by rewrite classify_eq. Qed.

Lemma snapshot_snoozed self now :
  ui_snoozed (snapshot self now) =
  omap (fun i => mkSnoozedIncident i <$>
    snooze_deadline (snoozed self) now (inc_key i)) (all_incidents self).
Proof. unfold snapshot. by rewrite classify_eq. Qed.

Lemma snapshot_snoozed_state self now :
  ui_snoozed_state (snapshot self now) =
  if bool_decide (ui_snoozed (snapshot self now) = []) then None
  else Some (overall_state (sn_incident <$> ui_snoozed (snapshot self now))).
Proof. unfold snapshot. by rewrite classify_eq. Qed.

Lemma snapshot_alerting self now :
  ui_alerting_state (snapshot self now) =
  let state := overall_state (ui_active (snapshot self now)) in
  if bool_decide (state = OverallOk) &&
     Nat.ltb 0 (ui_unknown_server_count (snapshot self now))
  then OverallUnknown else state.
Proof. unfold snapshot. by rewrite classify_eq. Qed.

Lemma snapshot_unknown_pos self now :
  0 < ui_unknown_server_count (snapshot self now) <->
  exists s, s ∈ ui_servers (snapshot self now) /\ srv_initialized s = false.
Proof.
  unfold snapshot. rewrite classify_eq. simpl.
  set (l := omap _ _). split.
  - intros H. destruct (filter (fun s => srv_initialized s = false) l) as [|s k] eqn:Hf;
      simpl in H; [lia|].
    assert (s ∈ filter (fun s => srv_initialized s = false) l) as Hs
      by (rewrite Hf; left).
    apply list_elem_of_filter in Hs. naive_solver.
  - intros (s & Hs & Hi).
    assert (s ∈ filter (fun s => srv_initialized s = false) l) as Hf
      by (by apply list_elem_of_filter).
    destruct (filter _ l); [by apply not_elem_of_nil in Hf|simpl; lia].
Qed.

(** An item whose key lies outside the client's [internal.] namespace. *)
Definition is_internal (i : Incident) : bool := starts_with "internal." (inc_key i).

Lemma item_state_spec (i : Incident) :
  item_state i =
  match inc_state i, is_internal i with
  | IncidentOk, _ => OverallOk
  | _, true => OverallInternalError
  | IncidentWarning, false => OverallWarning
  | IncidentError, false => OverallError
  end.
Proof.
  unfold item_state, is_internal.
  destruct (starts_with "internal." (inc_key i)), (inc_state i); done.
Qed.

(** What the aggregate says about a list of items. *)
Lemma overall_state_cases (items : list Incident) :
  match overall_state items with
  | OverallUnknown => False
  | OverallOk => forall i, i ∈ items -> inc_state i = IncidentOk
  | OverallInternalError =>
      (exists i, i ∈ items /\ is_internal i = true /\ inc_state i <> IncidentOk) /\
      (forall i, i ∈ items -> is_internal i = false -> inc_state i = IncidentOk)
  | OverallWarning =>
      (exists i, i ∈ items /\ is_internal i = false /\ inc_state i = IncidentWarning) /\
      (forall i, i ∈ items -> is_internal i = false -> inc_state i <> IncidentError)
  | OverallError =>
      exists i, i ∈ items /\ is_internal i = false /\ inc_state i = IncidentError
  end.
Proof.
  pose proof (overall_state_not_unknown items) as Hu.
  pose proof (overall_state_attained items) as Ha.
  assert (forall i, i ∈ items -> rank (item_state i) <= rank (overall_state items))
    as Hge by (intros; by apply overall_state_ge).
  destruct (overall_state items); [done|..];
    (destruct Ha as [Ha|(i & Hi & Ha)]; [try discriminate Ha|]);
    repeat split;
    try (exists i; split; [done|]; revert Ha; rewrite item_state_spec;
         destruct (inc_state i), (is_internal i); done);
    intros j Hj; specialize (Hge j Hj); revert Hge; rewrite item_state_spec;
    destruct (inc_state j), (is_internal j); simpl; try done; lia.
Qed.

(** What is shown as active. *)
Lemma elem_of_snapshot_active (self : AppState) (now : OffsetDateTime) (i : Incident) :
  i ∈ ui_active (snapshot self now) <->
  i ∈ all_incidents self /\
  forall until, snoozed self !! inc_key i = Some until -> (until <= now)%Z.
Proof.
  rewrite snapshot_active, list_elem_of_filter. split; intros [H1 H2]; split; try done.
  - intros u Hu. destruct (decide (u <= now)%Z); [done|].
    destruct H1. exists u. apply snooze_deadline_Some. split; [done|lia].
  - intros [u Hu]. apply snooze_deadline_Some in Hu as [Hu ?].
    specialize (H2 u Hu). lia.
Qed.

(** ** Properties *)

(** C19: the snapshot partitions the incidents held by the state. Its active
    list and the incidents of its snoozed list are together exactly the
    incidents of the state; an incident is in the snoozed list, with the stored
    deadline, exactly when that deadline lies strictly after [now]. *)
Theorem snapshot_partition (self : AppState) (now : OffsetDateTime) :
  ui_active (snapshot self now) ++ (sn_incident <$> ui_snoozed (snapshot self now))
    ≡ₚ all_incidents self /\
  (forall i until, mkSnoozedIncident i until ∈ ui_snoozed (snapshot self now) <->
    i ∈ all_incidents self /\ snoozed self !! inc_key i = Some until /\
    (now < until)%Z) /\
  (forall i, i ∈ ui_active (snapshot self now) <->
    i ∈ all_incidents self /\
    forall until, snoozed self !! inc_key i = Some until -> (until <= now)%Z).
Proof.
  split; [|split; [|intros i; apply elem_of_snapshot_active]];
    rewrite ?snapshot_active, snapshot_snoozed, ?hidden_incidents.
  - rewrite Permutation_app_comm. apply filter_complement_Permutation.
  - intros i u. rewrite list_elem_of_omap. split.
    + intros (j & Hj & Hd).
      apply fmap_Some in Hd as (v & Hu & [= -> ->]).
      by apply snooze_deadline_Some in Hu as [? ?].
    + intros (Hi & Hs & Hlt). exists i. split; [done|].
      assert (snooze_deadline (snoozed self) now (inc_key i) = Some u) as ->
        by (by apply snooze_deadline_Some).
      done.
Qed.

(** The tray precedence. The alerting state of a snapshot is [Error] exactly
    when an active incident of a monitored system is an error; [Warning] when
    none is and one is a warning; [InternalError] when all those of monitored
    systems are fine and a client-generated one is not; [Unknown] when every
    active incident is fine and a shown server has not reported yet; [Ok]
    otherwise. *)
Theorem snapshot_alerting_spec (self : AppState) (now : OffsetDateTime) :
  let snap := snapshot self now in
  let real_error := exists i, i ∈ ui_active snap /\ is_internal i = false /\
    inc_state i = IncidentError in
  let real_warning := exists i, i ∈ ui_active snap /\ is_internal i = false /\
    inc_state i = IncidentWarning in
  let internal_failure := exists i, i ∈ ui_active snap /\ is_internal i = true /\
    inc_state i <> IncidentOk in
  let all_fine := forall i, i ∈ ui_active snap -> inc_state i = IncidentOk in
  let pending := exists s, s ∈ ui_servers snap /\ srv_initialized s = false in
  match ui_alerting_state snap with
  | OverallError => real_error
  | OverallWarning => ~ real_error /\ real_warning
  | OverallInternalError => ~ real_error /\ ~ real_warning /\ internal_failure
  | OverallUnknown => all_fine /\ pending
  | OverallOk => all_fine /\ ~ pending
  end.
Proof.
  simpl. pose proof (snapshot_unknown_pos self now) as Hp. rewrite snapshot_alerting.
  pose proof (overall_state_cases (ui_active (snapshot self now))) as H. simpl.
  destruct (overall_state _); simpl.
  - done.
  - destruct (Nat.ltb_spec 0 (ui_unknown_server_count (snapshot self now)));
      (split; [done|]); rewrite <-Hp; lia.
  - destruct H as [H1 H2]. split; [|split; [|done]]; intros (i & Hi & Hr & Hs);
      specialize (H2 i Hi Hr); congruence.
  - destruct H as [H1 H2]. split; [|done]. intros (i & Hi & Hr & Hs). naive_solver.
  - done.
Qed.
