(* ===== verification/Reducer.v ===== *)
(** * The reducer: [src/domain/reducer.rs]

    The serial state machine of the application. [reduce] consumes one event
    and returns the next state with the transition that tells the runtime what
    to publish and which effects to perform. The only way the code can fail is
    the [expect] on RFC 3339 formatting of an instant: a panic is [None]. *)

From stdpp Require Import base gmap strings list sorting.
From Stdlib Require Import ZArith Lia.
From S2P Require Import Prelude RustStr Domain.

(** ** Helpers *)

(** Qualifies a server-local wire key. *)
Definition prefixed (item : Incident) (id : string) : Incident :=
  set_inc_key (id +:+ "." +:+ inc_key item) item.

Definition state_name (state : IncidentState) : string :=
  match state with
  | IncidentOk => "ok"
  | IncidentWarning => "warning"
  | IncidentError => "error"
  end.

Definition connection_key (id : string) : string := "internal.connection." +:+ id.
Definition tunnel_key (id : string) : string := "internal.tunnel." +:+ id.

Definition is_snoozed (self : AppState) (key : string) (now : OffsetDateTime) : bool :=
  match snoozed self !! key with
  | Some until => Z.ltb now until
  | None => false
  end.

(** The loop that marks cached incidents stale; reports whether one was fresh. *)
Fixpoint mark_stale (l : list Incident) : list Incident * bool :=
  match l with
  | [] => ([], false)
  | incident :: rest =>
      let '(rest', changed) := mark_stale rest in
      if inc_stale incident then (incident :: rest', changed)
      else (set_inc_stale true incident :: rest', true)
  end.

(** The status and staleness updates shared by [disconnected] and
    [tunnel_failed]: the new state, whether the status changed, and whether a
    cached incident became stale. *)
Definition mark_offline (self : AppState) (id : string) (server : ServerStatus)
    (at_ : OffsetDateTime) : AppState * bool * bool :=
  let status_changed := negb (srv_initialized server) || srv_connected server in
  let server' := mkServerStatus (srv_id server) false true
    (if status_changed then Some at_ else srv_connection_changed_at server)
    (srv_last_heartbeat_at server) in
  let self := set_servers (<[id := server']> (servers self)) self in
  match incidents self !! id with
  | Some l =>
      let '(l', stale_changed) := mark_stale l in
      (set_incidents (<[id := l']> (incidents self)) self, status_changed, stale_changed)
  | None => (self, status_changed, false)
  end.

(** The loops over [data.added] and [data.removed]. *)
Definition added_effects (self : AppState) (server_id : string) (at_ : OffsetDateTime)
    (l : list Incident) (effects : list Effect) : list Effect :=
  fold_left
    (fun effects item =>
      let item := prefixed item server_id in
      if negb (is_snoozed self (inc_key item) at_)
      then effects ++ [Notify (state_name (inc_state item) +:+ ": " +:+ inc_key item)
                         (inc_details item)]
      else effects)
    l effects.

Definition removed_effects (self : AppState) (server_id : string) (at_ : OffsetDateTime)
    (l : list Incident) (effects : list Effect) : list Effect :=
  fold_left
    (fun effects item =>
      let item := prefixed item server_id in
      if negb (is_snoozed self (inc_key item) at_)
      then effects ++ [Notify ("OK: " +:+ inc_key item) ""]
      else effects)
    l effects.

(** [retain] of the [ForgetStale] arm. *)
Definition forget (key : string) (l : list Incident) : list Incident :=
  filter (fun item => inc_key item <> key \/ inc_stale item = false) l.

Section reducer.
Context `{R : Rfc3339}.

(** Panics, here [None], when the instant has no RFC 3339 representation. *)
Definition format_incident_time (at_ : OffsetDateTime) : option string :=
  rfc3339_format at_.

(** The [match] on [internal_incidents.get_mut(&key)] that updates the details
    of an incident or creates it: the new state, the effects, and whether
    something changed. *)
Definition raise_internal (self : AppState) (key error : string)
    (at_ : OffsetDateTime) (incident_is_snoozed : bool) :
    option (AppState * list Effect * bool) :=
  match internal_incidents self !! key with
  | Some incident =>
      if bool_decide (inc_details incident = error) then Some (self, [], false)
      else
        Some (set_internal (<[key := set_inc_details error incident]>
                (internal_incidents self)) self, [], true)
  | None =>
      let effects :=
        if negb incident_is_snoozed then [Notify ("error: " +:+ key) error] else [] in
      started_at ← format_incident_time at_;
      Some (set_internal (<[key := mkIncident key IncidentError error started_at false]>
              (internal_incidents self)) self, effects, true)
  end.

(** Removes an internal incident and reports whether it was there. *)
Definition remove_internal (self : AppState) (key : string) : AppState * bool :=
  (set_internal (delete key (internal_incidents self)) self,
   bool_decide (is_Some (internal_incidents self !! key))).

(** ** Event handlers *)

Definition connected (self : AppState) (id : string) (at_ : OffsetDateTime) :
    AppState * Transition :=
  let incident_key := connection_key id in
  let incident_is_snoozed := is_snoozed self incident_key at_ in
  match servers self !! id with
  | None => (self, transition_default)
  | Some server =>
      let changed := negb (srv_initialized server) || negb (srv_connected server) in
      let server' := mkServerStatus (srv_id server) true true
        (if changed then Some at_ else srv_connection_changed_at server)
        (if changed then None else srv_last_heartbeat_at server) in
      let self := set_servers (<[id := server']> (servers self)) self in
      let '(self, removed) := remove_internal self incident_key in
      let effects :=
        if removed && negb incident_is_snoozed
        then [Notify ("OK: " +:+ incident_key) ""] else [] in
      (self, mkTransition (changed || removed) effects)
  end.

Definition disconnected (self : AppState) (id : string) (at_ : OffsetDateTime)
    (error : string) : option (AppState * Transition) :=
  let key := connection_key id in
  let incident_is_snoozed := is_snoozed self key at_ in
  match servers self !! id with
  | None => Some (self, transition_default)
  | Some server =>
      let '(self, status_changed, stale_changed) := mark_offline self id server at_ in
      '(self, effects, internal_changed) ←
        (if is_empty error then
           let '(self, removed) := remove_internal self key in
           Some (self, [], removed)
         else raise_internal self key error at_ incident_is_snoozed);
      Some (self, mkTransition (status_changed || stale_changed || internal_changed)
                    effects)
  end.

Definition tunnel_ready (self : AppState) (id : string) (at_ : OffsetDateTime) :
    AppState * Transition :=
  match servers self !! id with
  | None => (self, transition_default)
  | Some _ =>
      let key := tunnel_key id in
      let incident_is_snoozed := is_snoozed self key at_ in
      let '(self, removed) := remove_internal self key in
      (self, mkTransition removed
        (if removed && negb incident_is_snoozed
         then [Notify ("OK: " +:+ key) ""] else []))
  end.

Definition tunnel_failed (self : AppState) (id : string) (at_ : OffsetDateTime)
    (error : string) : option (AppState * Transition) :=
  let key := tunnel_key id in
  let incident_is_snoozed := is_snoozed self key at_ in
  match servers self !! id with
  | None => Some (self, transition_default)
  | Some server =>
      let '(self, status_changed, stale_changed) := mark_offline self id server at_ in
      let '(self, connection_removed) := remove_internal self (connection_key id) in
      '(self, effects, internal_changed) ←
        raise_internal self key error at_ incident_is_snoozed;
      Some (self, mkTransition
        (status_changed || stale_changed || connection_removed || internal_changed)
        effects)
  end.

Definition heartbeat (self : AppState) (id : string) (at_ : OffsetDateTime) :
    AppState * Transition :=
  match servers self !! id with
  | None => (self, transition_default)
  | Some server =>
      let changed := bool_decide (srv_last_heartbeat_at server <> Some at_) in
      let server' := mkServerStatus (srv_id server) (srv_connected server)
        (srv_initialized server) (srv_connection_changed_at server) (Some at_) in
      (set_servers (<[id := server']> (servers self)) self, mkTransition changed [])
  end.

Definition notification (self : AppState) (server_id : string)
    (data : NotificationData) (at_ : OffsetDateTime) : AppState * Transition :=
  match servers self !! server_id with
  | None => (self, transition_default)
  | Some _ =>
      let effects := added_effects self server_id at_ (nd_added data) [] in
      let effects := removed_effects self server_id at_ (nd_removed data) effects in
      (set_incidents
         (<[server_id := (fun item => prefixed item server_id) <$> nd_total data]>
            (incidents self)) self,
       mkTransition true effects)
  end.

Definition snooze (self : AppState) (key : string) (until : OffsetDateTime) :
    AppState * Transition :=
  if bool_decide (snoozed self !! key = Some until) then (self, transition_default)
  else (self, mkTransition false
    [PersistSnoozes (<[key := until]> (snoozed self)) (ActionSet key until)]).

Definition unsnooze (self : AppState) (key : string) : AppState * Transition :=
  match snoozed self !! key with
  | None => (self, transition_default)
  | Some _ => (self, mkTransition false
      [PersistSnoozes (delete key (snoozed self)) (ActionRemove key)])
  end.

Definition snoozes_persisted (self : AppState) (m : gmap string OffsetDateTime) :
    AppState * Transition :=
  let changed := bool_decide (snoozed self <> m) in
  (if changed then set_snoozed m self else self, mkTransition changed []).

Definition forget_stale (self : AppState) (key : string) : AppState * Transition :=
  let changed :=
    existsb (fun '(_, l) => negb (Nat.eqb (length (forget key l)) (length l)))
      (map_to_list (incidents self)) in
  (set_incidents (forget key <$> incidents self) self, mkTransition changed []).

Definition tick (self : AppState) (at_ : OffsetDateTime) : AppState * Transition :=
  let keys := (filter (fun kv : string * Z => (kv.2 <= at_)%Z)
                 (btree_iter (snoozed self))).*1 in
  if bool_decide (keys = []) then (self, transition_default)
  else (self, mkTransition false
    [PersistSnoozes (filter (fun kv : string * Z => (at_ < kv.2)%Z) (snoozed self))
       (ActionExpire keys)]).

(** Applies one event. *)
Definition reduce (self : AppState) (event : Event) : option (AppState * Transition) :=
  match event with
  | Connected server_id at_ => Some (connected self server_id at_)
  | Disconnected server_id at_ error => disconnected self server_id at_ error
  | TunnelReady server_id at_ => Some (tunnel_ready self server_id at_)
  | TunnelFailed server_id at_ error => tunnel_failed self server_id at_ error
  | Heartbeat server_id at_ => Some (heartbeat self server_id at_)
  | Notification server_id data at_ => Some (notification self server_id data at_)
  | Snooze key until => Some (snooze self key until)
  | Unsnooze key => Some (unsnooze self key)
  | SnoozesPersisted m => Some (snoozes_persisted self m)
  | ForgetStale key => Some (forget_stale self key)
  | Tick at_ => Some (tick self at_)
  end.

(** Feeds a sequence of events, collecting the transitions in order. *)
Fixpoint run (self : AppState) (events : list Event) :
    option (AppState * list Transition) :=
  match events with
  | [] => Some (self, [])
  | e :: rest =>
      '(self, tr) ← reduce self e;
      '(self, trs) ← run self rest;
      Some (self, tr :: trs)
  end.
End reducer.

(** ** Lemmas *)

Lemma mark_stale_eq (l : list Incident) :
  mark_stale l = (set_inc_stale true <$> l, existsb (fun i => negb (inc_stale i)) l).
Proof.
  induction l as [|[k st d t b] l IH]; simpl; [done|].
  rewrite IH. by destruct b.
Qed.

Lemma mark_stale_unchanged (l : list Incident) :
  existsb (fun i => negb (inc_stale i)) l = false -> set_inc_stale true <$> l = l.
Proof.
  induction l as [|[k st d t b] l IH]; simpl; [done|].
  intros [Hb Hl]%orb_false_elim. destruct b; [|done]. f_equal. by apply IH.
Qed.

Lemma mark_offline_eq self id server at_ :
  mark_offline self id server at_ =
  (mkAppState (server_order self)
     (<[id := mkServerStatus (srv_id server) false true
        (if negb (srv_initialized server) || srv_connected server then Some at_
         else srv_connection_changed_at server) (srv_last_heartbeat_at server)]>
        (servers self))
     (match incidents self !! id with
      | Some l => <[id := set_inc_stale true <$> l]> (incidents self)
      | None => incidents self
      end)
     (internal_incidents self) (snoozed self),
   negb (srv_initialized server) || srv_connected server,
   match incidents self !! id with
   | Some l => existsb (fun i => negb (inc_stale i)) l
   | None => false
   end).
Proof.
  unfold mark_offline. simpl. destruct (incidents self !! id) as [l|]; [|done].
  by rewrite mark_stale_eq.
Qed.

Lemma set_internal_self self : set_internal (internal_incidents self) self = self.
Proof. by destruct self. Qed.

Lemma remove_internal_unchanged self key :
  (remove_internal self key).2 = false -> (remove_internal self key).1 = self.
Proof.
  unfold remove_internal. simpl. rewrite bool_decide_eq_false, <-eq_None_not_Some.
  intros H. by rewrite delete_id, set_internal_self.
Qed.

Lemma mark_offline_unchanged self id server at_ :
  servers self !! id = Some server ->
  (mark_offline self id server at_).1.2 = false ->
  (mark_offline self id server at_).2 = false ->
  (mark_offline self id server at_).1.1 = self.
Proof.
  rewrite mark_offline_eq. simpl. intros Hs Hc Hst. rewrite Hc.
  apply orb_false_elim in Hc as [Hi%negb_false_iff Hc].
  rewrite insert_id by (rewrite Hs; destruct server; simpl in *; by subst).
  destruct (incidents self !! id) as [l|] eqn:Hl; [|by destruct self].
  rewrite insert_id by (by rewrite Hl, mark_stale_unchanged). by destruct self.
Qed.

Lemma raise_internal_unchanged `{R : Rfc3339} self key error at_ b self' eff :
  raise_internal self key error at_ b = Some (self', eff, false) -> self' = self.
Proof.
  unfold raise_internal.
  destruct (internal_incidents self !! key); [case_bool_decide|]; simpl.
  - naive_solver.
  - done.
  - destruct (format_incident_time at_); done.
Qed.

Lemma forget_unchanged key l :
  length (forget key l) = length l -> forget key l = l.
Proof. apply filter_length_eq. Qed.

Lemma insert_server_id self id server server' :
  servers self !! id = Some server -> server' = server ->
  set_servers (<[id := server']> (servers self)) self = self.
Proof. intros Hs ->. rewrite insert_id by done. by destruct self. Qed.

Lemma connected_unchanged self id at_ :
  tr_changed (connected self id at_).2 = false -> (connected self id at_).1 = self.
Proof.
  unfold connected. destruct (servers self !! id) as [server|] eqn:Hs; [|done].
  destruct (negb (srv_initialized server) || negb (srv_connected server)) eqn:Hc; [done|].
  apply orb_false_elim in Hc as [Hi%negb_false_iff Hc%negb_false_iff].
  rewrite (insert_server_id _ _ server)
    by (done || (destruct server; simpl in *; by subst)).
  apply (remove_internal_unchanged self).
Qed.

Lemma heartbeat_unchanged self id at_ :
  tr_changed (heartbeat self id at_).2 = false -> (heartbeat self id at_).1 = self.
Proof.
  unfold heartbeat. destruct (servers self !! id) as [server|] eqn:Hs; [|done].
  simpl. rewrite bool_decide_eq_false. intros Hh%dec_stable.
  apply (insert_server_id _ _ server); [done|]. destruct server; simpl in *; by subst.
Qed.

Lemma forget_stale_unchanged self key :
  tr_changed (forget_stale self key).2 = false -> (forget_stale self key).1 = self.
Proof.
  unfold forget_stale. simpl. intros Hn.
  assert (forget key <$> incidents self = incidents self) as ->; [|by destruct self].
  apply map_eq. intros id. rewrite lookup_fmap.
  destruct (incidents self !! id) as [l|] eqn:Hl; [|done]. simpl. f_equal.
  apply forget_unchanged. destruct (decide (length (forget key l) = length l)); [done|].
  assert (existsb (fun '(_, l) => negb (Nat.eqb (length (forget key l)) (length l)))
    (map_to_list (incidents self)) = true) as Ht; [|congruence].
  apply existsb_exists. exists (id, l). split.
  - by apply list_elem_of_In, elem_of_map_to_list.
  - by apply negb_true_iff, Nat.eqb_neq.
Qed.

Section reducer_facts.
Context `{R : Rfc3339}.

Lemma disconnected_unchanged self id at_ error self' tr :
  disconnected self id at_ error = Some (self', tr) -> tr_changed tr = false ->
  self' = self.
Proof.
  unfold disconnected. destruct (servers self !! id) as [server|] eqn:Hs; [|naive_solver].
  pose proof (mark_offline_unchanged self id server at_ Hs) as Hoff.
  destruct (mark_offline self id server at_) as [[s1 c1] c2]. simpl in *.
  intros ([[s2 eff] c3] & Hi & [= <- <-])%bind_Some. simpl.
  intros [[-> ->]%orb_false_elim ->]%orb_false_elim. rewrite Hoff in Hi by done.
  destruct (is_empty error).
  - injection Hi as <- _ Hr. by apply remove_internal_unchanged.
  - by eapply raise_internal_unchanged.
Qed.

Lemma tunnel_failed_unchanged self id at_ error self' tr :
  tunnel_failed self id at_ error = Some (self', tr) -> tr_changed tr = false ->
  self' = self.
Proof.
  unfold tunnel_failed. destruct (servers self !! id) as [server|] eqn:Hs; [|naive_solver].
  pose proof (mark_offline_unchanged self id server at_ Hs) as Hoff.
  destruct (mark_offline self id server at_) as [[s1 c1] c2]. simpl in *.
  intros ([[s2 eff] c3] & Hi & [= <- <-])%bind_Some. simpl.
  intros [[[-> ->]%orb_false_elim Hr]%orb_false_elim ->]%orb_false_elim.
  rewrite Hoff in Hi, Hr by done.
  pose proof (remove_internal_unchanged self (connection_key id) Hr) as Hrem.
  unfold remove_internal in Hrem. simpl in Hrem. rewrite Hrem in Hi.
  by eapply raise_internal_unchanged.
Qed.

Lemma reduce_unchanged_handler (self self' : AppState) (event : Event) (tr : Transition) :
  reduce self event = Some (self', tr) -> tr_changed tr = false -> self' = self.
Proof.
  destruct event; simpl; intros H Hc.
  - apply (inj Some) in H. pose proof (connected_unchanged self server_id at_) as Hu.
    rewrite H in Hu. by apply Hu.
  - by eapply disconnected_unchanged.
  - apply (inj Some) in H. revert H. unfold tunnel_ready.
    destruct (servers self !! server_id); [|naive_solver].
    intros [= <- <-]. by apply (remove_internal_unchanged self).
  - by eapply tunnel_failed_unchanged.
  - apply (inj Some) in H. pose proof (heartbeat_unchanged self server_id at_) as Hu.
    rewrite H in Hu. by apply Hu.
  - apply (inj Some) in H. revert H. unfold notification.
    destruct (servers self !! server_id); naive_solver.
  - apply (inj Some) in H. revert H. unfold snooze. case_bool_decide; naive_solver.
  - apply (inj Some) in H. revert H. unfold unsnooze. case_match; naive_solver.
  - apply (inj Some) in H. revert H. unfold snoozes_persisted. case_bool_decide; naive_solver.
  - apply (inj Some) in H. pose proof (forget_stale_unchanged self key) as Hu.
    rewrite H in Hu. by apply Hu.
  - apply (inj Some) in H. revert H. unfold tick. case_bool_decide; naive_solver.
Qed.

(** C11: the change flag is complete. Whatever the event, a transition that does
    not ask for publication left the whole state as it was, so a consumer that
    refreshes only on [changed] never shows an outdated snapshot. *)
Theorem reduce_unchanged (self self' : AppState) (event : Event) (tr : Transition) :
  reduce self event = Some (self', tr) -> tr_changed tr = false -> self' = self.
Proof. apply reduce_unchanged_handler. Qed.
End reducer_facts.

(** ** The state invariant *)

(** A client-generated incident stored under [k]. *)
Record internal_ok (known : gmap string ServerStatus) (k : string) (i : Incident) : Prop := {
  internal_key : inc_key i = k;
  internal_error : inc_state i = IncidentError;
  internal_fresh : inc_stale i = false;
  internal_server : exists id, is_Some (known !! id) /\
    (k = connection_key id \/ k = tunnel_key id);
}.

Record wf (s : AppState) : Prop := {
  wf_order id : is_Some (servers s !! id) <-> id ∈ server_order s;
  wf_ids id srv : servers s !! id = Some srv -> srv_id srv = id;
  wf_changed_at id srv : servers s !! id = Some srv ->
    srv_initialized srv = true <-> is_Some (srv_connection_changed_at srv);
  wf_connected id srv : servers s !! id = Some srv -> srv_connected srv = true ->
    srv_initialized srv = true /\ internal_incidents s !! connection_key id = None;
  wf_incidents id l : incidents s !! id = Some l ->
    is_Some (servers s !! id) /\
    forall i, i ∈ l -> exists k, inc_key i = id +:+ "." +:+ k;
  wf_internal k i : internal_incidents s !! k = Some i -> internal_ok (servers s) k i;
}.

Lemma connection_key_inj id1 id2 : connection_key id1 = connection_key id2 -> id1 = id2.
Proof. unfold connection_key. intros H. by apply (inj _) in H. Qed.

Lemma tunnel_key_inj id1 id2 : tunnel_key id1 = tunnel_key id2 -> id1 = id2.
Proof. unfold tunnel_key. intros H. by apply (inj _) in H. Qed.

Lemma connection_tunnel_ne id1 id2 : connection_key id1 <> tunnel_key id2.
Proof. unfold connection_key, tunnel_key. simpl. congruence. Qed.

Lemma is_Some_insert_server (m : gmap string ServerStatus) id srv srv' j :
  m !! id = Some srv -> is_Some (<[id := srv']> m !! j) <-> is_Some (m !! j).
Proof.
  intros H. destruct (decide (id = j)) as [->|Hne].
  - rewrite lookup_insert_eq, H. split; intros; eauto.
  - by rewrite lookup_insert_ne.
Qed.

Lemma wf_new ids snoozes : wf (AppState_new ids snoozes).
Proof.
  assert (forall id srv, servers (AppState_new ids snoozes) !! id = Some srv ->
    srv = new_server_status id /\ id ∈ ids) as Hn.
  { intros id srv H%elem_of_list_to_map_2.
    apply list_elem_of_fmap in H as (id' & [= -> ->] & H'). done. }
  split; simpl.
  - intros id. rewrite <-elem_of_dom, dom_list_to_map_L, elem_of_list_to_set,
      <-list_fmap_compose, list_elem_of_fmap. naive_solver.
  - intros id srv [-> _]%Hn. done.
  - intros id srv [-> _]%Hn. simpl. split; [done|]. by intros [? ?].
  - intros id srv [-> _]%Hn. done.
  - intros id l. by rewrite lookup_empty.
  - intros k i. by rewrite lookup_empty.
Qed.

Lemma wf_set_server s id srv srv' :
  wf s -> servers s !! id = Some srv -> srv_id srv' = srv_id srv ->
  (srv_initialized srv' = true <-> is_Some (srv_connection_changed_at srv')) ->
  (srv_connected srv' = true -> srv_initialized srv' = true /\
    internal_incidents s !! connection_key id = None) ->
  wf (set_servers (<[id := srv']> (servers s)) s).
Proof.
  intros [Ho Hi Hc Hn Hinc Hint] Hs Hid Hat Hcon. split; simpl.
  - intros j. by rewrite is_Some_insert_server.
  - intros j x. rewrite lookup_insert_Some. intros [[-> <-]|[_ Hj]]; [|by apply Hi].
    rewrite Hid. by apply Hi.
  - intros j x. rewrite lookup_insert_Some. intros [[-> <-]|[_ Hj]]; [done|by apply (Hc j)].
  - intros j x. rewrite lookup_insert_Some. intros [[-> <-]|[_ Hj]]; [done|by apply Hn].
  - intros j l Hl. rewrite is_Some_insert_server by done. by apply Hinc.
  - intros k i Hk. destruct (Hint k i Hk) as [H1 H2 H3 (j & Hj & H4)].
    split; try done. exists j. by rewrite is_Some_insert_server.
Qed.

Lemma wf_delete_internal s k :
  wf s -> wf (set_internal (delete k (internal_incidents s)) s).
Proof.
  intros [Ho Hi Hc Hn Hinc Hint]. split; simpl; try done.
  - intros j x Hj Hcon. destruct (Hn j x Hj Hcon) as [H1 H2].
    split; [done|]. rewrite lookup_delete_None. by right.
  - intros k' i [_ H]%lookup_delete_Some. by apply Hint.
Qed.

Lemma wf_insert_internal s id srv k i :
  wf s -> servers s !! id = Some srv ->
  (k = tunnel_key id \/ k = connection_key id /\ srv_connected srv = false) ->
  inc_key i = k -> inc_state i = IncidentError -> inc_stale i = false ->
  wf (set_internal (<[k := i]> (internal_incidents s)) s).
Proof.
  intros [Ho Hi Hc Hn Hinc Hint] Hs Hk H1 H2 H3. split; simpl; try done.
  - intros j x Hj Hcon. destruct (Hn j x Hj Hcon) as [? Hnone]. split; [done|].
    rewrite lookup_insert_None. split; [done|]. destruct Hk as [-> |[-> Hoff]].
    + intros Heq. by eapply connection_tunnel_ne.
    + intros Heq%connection_key_inj. subst. congruence.
  - intros k' i' [[<- <-]|[_ H]]%lookup_insert_Some; [|by apply Hint].
    split; try done. exists id. split; [by eexists|]. destruct Hk as [->|[-> _]]; auto.
Qed.

Lemma wf_set_incidents s m :
  wf s ->
  (forall id l, m !! id = Some l -> is_Some (servers s !! id) /\
    forall i, i ∈ l -> exists k, inc_key i = id +:+ "." +:+ k) ->
  wf (set_incidents m s).
Proof. intros [] H. split; simpl; done. Qed.

Lemma wf_set_snoozed s m : wf s -> wf (set_snoozed m s).
Proof. intros []. split; simpl; done. Qed.

#[local] Hint Resolve wf_delete_internal wf_set_snoozed : montray.

Lemma wf_mark_offline s id srv at_ :
  wf s -> servers s !! id = Some srv -> wf (mark_offline s id srv at_).1.1.
Proof.
  intros Hwf Hs. rewrite mark_offline_eq. simpl.
  assert (wf (set_servers (<[id := mkServerStatus (srv_id srv) false true
        (if negb (srv_initialized srv) || srv_connected srv then Some at_
         else srv_connection_changed_at srv) (srv_last_heartbeat_at srv)]> (servers s)) s))
    as H1.
  { eapply wf_set_server; simpl; try done.
    split; [|done]. intros _. pose proof (wf_changed_at s Hwf id srv Hs) as Hc.
    destruct (srv_initialized srv), (srv_connected srv); simpl; try by eexists.
    by apply Hc. }
  destruct (incidents s !! id) as [l|] eqn:Hl; [|exact H1].
  apply (wf_set_incidents _ (<[id := set_inc_stale true <$> l]> (incidents s))) in H1;
    [exact H1|].
  intros j k. simpl. rewrite is_Some_insert_server by done.
  intros [[<- <-]|[_ H]]%lookup_insert_Some; [|by apply (wf_incidents s Hwf)].
  split; [by eexists|]. intros i (i' & -> & Hi')%list_elem_of_fmap. simpl.
  by apply (wf_incidents s Hwf id l).
Qed.

Lemma mark_offline_server s id srv at_ :
  exists srv', servers (mark_offline s id srv at_).1.1 !! id = Some srv' /\
    srv_connected srv' = false.
Proof.
  rewrite mark_offline_eq. simpl. rewrite lookup_insert_eq. eexists. by split.
Qed.

Lemma wf_raise_internal `{R : Rfc3339} s id srv k error at_ b s' eff c :
  wf s -> servers s !! id = Some srv -> srv_connected srv = false ->
  k = tunnel_key id \/ k = connection_key id ->
  raise_internal s k error at_ b = Some (s', eff, c) -> wf s'.
Proof.
  intros Hwf Hs Hoff Hk. unfold raise_internal.
  destruct (internal_incidents s !! k) as [i|] eqn:Hi.
  - destruct (wf_internal s Hwf k i Hi) as [H1 H2 H3 _].
    case_bool_decide; intros [= <- _ _]; [done|].
    eapply wf_insert_internal; simpl; eauto. naive_solver.
  - intros (t & Ht & [= <- _ _])%bind_Some.
    eapply wf_insert_internal; simpl; eauto. naive_solver.
Qed.

Section reducer_wf.
Context `{R : Rfc3339}.

Lemma connected_wf s id at_ : wf s -> wf (connected s id at_).1.
Proof.
  intros Hwf. unfold connected.
  destruct (servers s !! id) as [srv|] eqn:Hs; [|done]. simpl.
  match goal with |- wf (set_internal ?m (set_servers ?n _)) =>
    change (wf (set_servers n (set_internal m s))) end.
  apply (wf_set_server (set_internal (delete (connection_key id)
    (internal_incidents s)) s) id srv); simpl; auto with montray.
  - split; [|done]. intros _. pose proof (wf_changed_at s Hwf id srv Hs) as Hc.
    destruct (srv_initialized srv), (srv_connected srv); simpl; try by eexists.
    by apply Hc.
  - intros _. split; [done|]. apply lookup_delete_eq.
Qed.

Lemma disconnected_wf s id at_ error s' tr :
  wf s -> disconnected s id at_ error = Some (s', tr) -> wf s'.
Proof.
  intros Hwf. unfold disconnected.
  destruct (servers s !! id) as [srv|] eqn:Hs; [|by intros [= <- _]].
  pose proof (wf_mark_offline s id srv at_ Hwf Hs) as Hoff.
  destruct (mark_offline_server s id srv at_) as (srv' & Hs' & Hc').
  destruct (mark_offline s id srv at_) as [[s1 c1] c2]. simpl in *.
  intros ([[s2 eff] c3] & Hi & [= <- _])%bind_Some.
  destruct (is_empty error).
  - injection Hi as <- _ _. by apply wf_delete_internal.
  - eapply (wf_raise_internal s1 id); eauto.
Qed.

Lemma tunnel_failed_wf s id at_ error s' tr :
  wf s -> tunnel_failed s id at_ error = Some (s', tr) -> wf s'.
Proof.
  intros Hwf. unfold tunnel_failed.
  destruct (servers s !! id) as [srv|] eqn:Hs; [|by intros [= <- _]].
  pose proof (wf_mark_offline s id srv at_ Hwf Hs) as Hoff.
  destruct (mark_offline_server s id srv at_) as (srv' & Hs' & Hc').
  destruct (mark_offline s id srv at_) as [[s1 c1] c2]. simpl in *.
  intros ([[s2 eff] c3] & Hi & [= <- _])%bind_Some.
  eapply (wf_raise_internal (set_internal (delete (connection_key id)
    (internal_incidents s1)) s1) id srv');
    [by apply wf_delete_internal|exact Hs'|done|by left|exact Hi].
Qed.

Lemma heartbeat_wf s id at_ : wf s -> wf (heartbeat s id at_).1.
Proof.
  intros Hwf. unfold heartbeat.
  destruct (servers s !! id) as [srv|] eqn:Hs; [|done]. simpl.
  apply (wf_set_server s id srv); simpl; auto.
  - by apply (wf_changed_at s Hwf id).
  - by apply (wf_connected s Hwf id).
Qed.

Lemma notification_wf s id data at_ : wf s -> wf (notification s id data at_).1.
Proof.
  intros Hwf. unfold notification.
  destruct (servers s !! id) as [srv|] eqn:Hs; [|done]. simpl.
  apply wf_set_incidents; [done|].
  intros j l [[<- <-]|[_ H]]%lookup_insert_Some; [|by apply (wf_incidents s Hwf)].
  split; [by eexists|]. intros i (i' & -> & _)%list_elem_of_fmap.
  by exists (inc_key i').
Qed.

Lemma forget_stale_wf s key : wf s -> wf (forget_stale s key).1.
Proof.
  intros Hwf. apply wf_set_incidents; [done|].
  intros j l. rewrite lookup_fmap_Some. intros (l' & <- & H).
  destruct (wf_incidents s Hwf j l' H) as [? Hl]. split; [done|].
  intros i [_ Hi]%list_elem_of_filter. by apply Hl.
Qed.

(** Each event preserves the invariant. *)
Lemma reduce_wf s e s' tr : wf s -> reduce s e = Some (s', tr) -> wf s'.
Proof.
  intros Hwf. destruct e; simpl; intros H;
    try (eapply disconnected_wf; by eauto); try (eapply tunnel_failed_wf; by eauto);
    apply (inj Some) in H; apply (f_equal fst) in H; simpl in H; subst s'.
  - by apply connected_wf.
  - unfold tunnel_ready. case_match; [|done]. by apply wf_delete_internal.
  - by apply heartbeat_wf.
  - by apply notification_wf.
  - unfold snooze. by case_bool_decide.
  - unfold unsnooze. by case_match.
  - case_bool_decide; [by apply wf_set_snoozed|done].
  - by apply forget_stale_wf.
  - unfold tick. by case_bool_decide.
Qed.

Lemma run_wf_from s events s' trs : wf s -> run s events = Some (s', trs) -> wf s'.
Proof.
  revert s trs. induction events as [|e events IH]; intros s trs Hwf; simpl.
  - by intros [= <- _].
  - intros ([s1 tr] & H1 & H)%bind_Some.
    apply bind_Some in H as ([s2 trs2] & H2 & [= <- _]).
    eapply IH; [|done]. by eapply reduce_wf.
Qed.

(** C18: every state the reducer can reach satisfies the state invariant: the
    status table has exactly the configured servers, under their own ids; a
    server has a transition time exactly when it was seen once; an online
    server is initialized and carries no connection incident; cached incidents
    belong to known servers and carry their prefix; a client-generated incident
    is a fresh error stored under its own key, which names a known server. *)
Theorem run_wf (ids : list string) (snoozes : gmap string OffsetDateTime)
    (events : list Event) (s : AppState) (trs : list Transition) :
  run (AppState_new ids snoozes) events = Some (s, trs) -> wf s.
Proof. apply run_wf_from, wf_new. Qed.

Lemma raise_internal_None s k error at_ b :
  raise_internal s k error at_ b = None <->
  internal_incidents s !! k = None /\ rfc3339_format at_ = None.
Proof.
  unfold raise_internal, format_incident_time.
  destruct (internal_incidents s !! k) as [i|].
  - case_bool_decide; naive_solver.
  - destruct (rfc3339_format at_); simpl; naive_solver.
Qed.

Lemma reduce_panics_handler (s : AppState) (event : Event) :
  reduce s event = None <->
  exists id at_ error, rfc3339_format at_ = None /\ is_Some (servers s !! id) /\
    (event = Disconnected id at_ error /\ error <> "" /\
       internal_incidents s !! connection_key id = None \/
     event = TunnelFailed id at_ error /\
       internal_incidents s !! tunnel_key id = None).
Proof.
  destruct event; simpl;
    try (split; [done|]; intros (? & ? & ? & ? & ? & [(? & ?)|(? & ?)]); discriminate).
  - unfold disconnected. destruct (servers s !! server_id) as [srv|] eqn:Hs.
    + rewrite mark_offline_eq. simpl. unfold is_empty. rewrite bind_None.
      case_bool_decide as He; simpl.
      * split; [naive_solver|]. intros (? & ? & ? & _ & _ & Hor). naive_solver.
      * rewrite raise_internal_None. simpl. split.
        -- intros [[H1 H2]|([[? ?] ?] & _ & ?)]; [|done].
           exists server_id, at_, error. rewrite Hs. naive_solver.
        -- intros (? & ? & ? & ? & ? & Hor). naive_solver.
    + split; [done|]. intros (? & ? & ? & _ & [? ?] & Hor). naive_solver.
  - unfold tunnel_failed. destruct (servers s !! server_id) as [srv|] eqn:Hs.
    + rewrite mark_offline_eq. simpl. rewrite bind_None, raise_internal_None. simpl.
      rewrite lookup_delete_ne by apply connection_tunnel_ne. split.
      * intros [[H1 H2]|([[? ?] ?] & _ & ?)]; [|done].
        exists server_id, at_, error. rewrite Hs. naive_solver.
      * intros (? & ? & ? & ? & ? & Hor). naive_solver.
    + split; [done|]. intros (? & ? & ? & _ & [? ?] & Hor). naive_solver.
Qed.

(** The reducer panics only when it must create a client-generated incident
    at an instant with no RFC 3339 form; every other event, known or unknown
    server, is handled. *)
Theorem reduce_panics_iff (s : AppState) (event : Event) :
  reduce s event = None <->
  exists id at_ error, rfc3339_format at_ = None /\ is_Some (servers s !! id) /\
    (event = Disconnected id at_ error /\ error <> "" /\
       internal_incidents s !! connection_key id = None \/
     event = TunnelFailed id at_ error /\
       internal_incidents s !! tunnel_key id = None).
Proof. apply reduce_panics_handler. Qed.
End reducer_wf.

(** ** What one event does, handler by handler *)

Section reducer_spec.
Context `{R : Rfc3339}.

Lemma raise_internal_frame s k error at_ b s' eff c :
  raise_internal s k error at_ b = Some (s', eff, c) ->
  server_order s' = server_order s /\ servers s' = servers s /\
  incidents s' = incidents s /\ snoozed s' = snoozed s.
Proof.
  unfold raise_internal. destruct (internal_incidents s !! k); [case_bool_decide|].
  - by intros [= <- _ _].
  - by intros [= <- _ _].
  - intros (t & _ & [= <- _ _])%bind_Some. done.
Qed.

(** The incident raised under [k] carries the error; no other entry changes;
    only the creation of an entry notifies. *)
Lemma raise_internal_spec s k error at_ b s' eff c :
  raise_internal s k error at_ b = Some (s', eff, c) ->
  (exists i, internal_incidents s' !! k = Some i /\ inc_details i = error) /\
  (forall k', k' <> k -> internal_incidents s' !! k' = internal_incidents s !! k') /\
  eff = (if bool_decide (internal_incidents s !! k = None) && negb b
         then [Notify ("error: " +:+ k) error] else []).
Proof.
  unfold raise_internal.
  destruct (internal_incidents s !! k) as [i|] eqn:Hk; [case_bool_decide|].
  - intros [= <- <- _]. naive_solver.
  - intros [= <- <- _]. simpl. split; [|split; [|done]].
    + eexists. rewrite lookup_insert_eq. by split.
    + intros k' Hne. by rewrite lookup_insert_ne.
  - intros (t & _ & [= <- <- _])%bind_Some. simpl. split; [|split].
    + eexists. rewrite lookup_insert_eq. by split.
    + intros k' Hne. by rewrite lookup_insert_ne.
    + by destruct b.
Qed.

(** What taking server [id] offline does to the status table and the cached
    incidents: that server is initialized and offline, its incidents are
    retained as stale, every other server is untouched. *)
Definition taken_offline (id : string) (s s' : AppState) : Prop :=
  (exists srv, servers s' !! id = Some srv /\ srv_connected srv = false /\
     srv_initialized srv = true) /\
  incidents s' !! id = (fun l => set_inc_stale true <$> l) <$> incidents s !! id /\
  (forall j, j <> id -> servers s' !! j = servers s !! j /\
     incidents s' !! j = incidents s !! j) /\
  snoozed s' = snoozed s /\ server_order s' = server_order s.

Lemma mark_offline_taken s id srv at_ :
  taken_offline id s (mark_offline s id srv at_).1.1.
Proof.
  rewrite mark_offline_eq. unfold taken_offline. simpl.
  split; [eexists; rewrite lookup_insert_eq; by split|].
  split; [|split; [|done]].
  - destruct (incidents s !! id) as [l|] eqn:Hl; [by rewrite lookup_insert_eq|done].
  - intros j Hne. rewrite lookup_insert_ne by done. split; [done|].
    destruct (incidents s !! id); [by rewrite lookup_insert_ne|done].
Qed.

Lemma taken_offline_frame id s s1 s2 :
  taken_offline id s s1 -> server_order s2 = server_order s1 ->
  servers s2 = servers s1 -> incidents s2 = incidents s1 -> snoozed s2 = snoozed s1 ->
  taken_offline id s s2.
Proof. unfold taken_offline. intros H -> -> -> ->. exact H. Qed.

Lemma disconnected_handler (s s' : AppState) (id : string) (at_ : OffsetDateTime)
    (error : string) (tr : Transition) :
  is_Some (servers s !! id) -> disconnected s id at_ error = Some (s', tr) ->
  let k := connection_key id in
  taken_offline id s s' /\
  (if is_empty error then internal_incidents s' !! k = None
   else exists i, internal_incidents s' !! k = Some i /\ inc_details i = error) /\
  (forall k', k' <> k -> internal_incidents s' !! k' = internal_incidents s !! k') /\
  tr_effects tr =
    (if negb (is_empty error) && bool_decide (internal_incidents s !! k = None) &&
        negb (is_snoozed s k at_)
     then [Notify ("error: " +:+ k) error] else []).
Proof.
  intros [srv Hs]. unfold disconnected. rewrite Hs.
  pose proof (mark_offline_taken s id srv at_) as Hoff.
  assert (internal_incidents (mark_offline s id srv at_).1.1 = internal_incidents s)
    as Hint by (by rewrite mark_offline_eq).
  destruct (mark_offline s id srv at_) as [[s1 c1] c2]. simpl in *.
  intros ([[s2 eff] c3] & Hi & [= <- <-])%bind_Some. simpl.
  destruct (is_empty error) eqn:He; simpl.
  - injection Hi as <- <- _. simpl. rewrite <-Hint.
    split; [by eapply taken_offline_frame|]. split; [apply lookup_delete_eq|].
    split; [|done]. intros k' Hne. by rewrite lookup_delete_ne.
  - destruct (raise_internal_frame _ _ _ _ _ _ _ _ Hi) as (F1 & F2 & F3 & F4).
    apply raise_internal_spec in Hi as (H1 & H2 & H3). rewrite Hint in H2, H3.
    split; [by eapply taken_offline_frame|]. auto.
Qed.

(** Losing the connection of a known server. The server goes offline and its
    incidents are kept, all marked stale; the connection incident then carries
    the reported error, or is dropped when the error is empty because a tunnel
    failure already stands for it; nothing else changes; a notification is
    emitted only when the incident is new and its key is not snoozed. *)
Theorem disconnected_spec (s s' : AppState) (id : string) (at_ : OffsetDateTime)
    (error : string) (tr : Transition) :
  is_Some (servers s !! id) -> reduce s (Disconnected id at_ error) = Some (s', tr) ->
  let k := connection_key id in
  taken_offline id s s' /\
  (if is_empty error then internal_incidents s' !! k = None
   else exists i, internal_incidents s' !! k = Some i /\ inc_details i = error) /\
  (forall k', k' <> k -> internal_incidents s' !! k' = internal_incidents s !! k') /\
  tr_effects tr =
    (if negb (is_empty error) && bool_decide (internal_incidents s !! k = None) &&
        negb (is_snoozed s k at_)
     then [Notify ("error: " +:+ k) error] else []).
Proof. apply disconnected_handler. Qed.

Lemma tunnel_failed_handler (s s' : AppState) (id : string) (at_ : OffsetDateTime)
    (error : string) (tr : Transition) :
  is_Some (servers s !! id) -> tunnel_failed s id at_ error = Some (s', tr) ->
  let k := tunnel_key id in
  taken_offline id s s' /\
  internal_incidents s' !! connection_key id = None /\
  (exists i, internal_incidents s' !! k = Some i /\ inc_details i = error) /\
  (forall k', k' <> k -> k' <> connection_key id ->
    internal_incidents s' !! k' = internal_incidents s !! k') /\
  tr_effects tr =
    (if bool_decide (internal_incidents s !! k = None) && negb (is_snoozed s k at_)
     then [Notify ("error: " +:+ k) error] else []).
Proof.
  intros [srv Hs]. unfold tunnel_failed. rewrite Hs.
  pose proof (mark_offline_taken s id srv at_) as Hoff.
  assert (internal_incidents (mark_offline s id srv at_).1.1 = internal_incidents s)
    as Hint by (by rewrite mark_offline_eq).
  destruct (mark_offline s id srv at_) as [[s1 c1] c2]. simpl in *.
  intros ([[s2 eff] c3] & Hi & [= <- <-])%bind_Some. simpl.
  destruct (raise_internal_frame _ _ _ _ _ _ _ _ Hi) as (F1 & F2 & F3 & F4).
  apply raise_internal_spec in Hi as (H1 & H2 & H3). simpl in *. rewrite Hint in H2, H3.
  rewrite lookup_delete_ne in H3 by apply connection_tunnel_ne.
  split; [by eapply taken_offline_frame|]. split; [|split; [done|split; [|done]]].
  - rewrite H2 by apply connection_tunnel_ne. apply lookup_delete_eq.
  - intros k' Hk Hc. rewrite H2 by done. by rewrite lookup_delete_ne.
Qed.

(** A tunnel failure is the sole root cause. The server goes offline with its
    incidents kept as stale, the tunnel incident carries the error, and a
    connection incident of the same server is gone; nothing else changes; a
    notification is emitted only for a new, unsnoozed tunnel incident. *)
Theorem tunnel_failed_spec (s s' : AppState) (id : string) (at_ : OffsetDateTime)
    (error : string) (tr : Transition) :
  is_Some (servers s !! id) -> reduce s (TunnelFailed id at_ error) = Some (s', tr) ->
  let k := tunnel_key id in
  taken_offline id s s' /\
  internal_incidents s' !! connection_key id = None /\
  (exists i, internal_incidents s' !! k = Some i /\ inc_details i = error) /\
  (forall k', k' <> k -> k' <> connection_key id ->
    internal_incidents s' !! k' = internal_incidents s !! k') /\
  tr_effects tr =
    (if bool_decide (internal_incidents s !! k = None) && negb (is_snoozed s k at_)
     then [Notify ("error: " +:+ k) error] else []).
Proof. apply tunnel_failed_handler. Qed.

(** ** The life of one server as a three-phase machine *)

Inductive Phase : Set := Pending | Online | Offline.

Definition phase_of (srv : ServerStatus) : Phase :=
  if srv_connected srv then Online
  else if srv_initialized srv then Offline else Pending.

Definition phase_step (id : string) (p : Phase) (e : Event) : Phase :=
  match e with
  | Connected id' _ => if bool_decide (id = id') then Online else p
  | Disconnected id' _ _ | TunnelFailed id' _ _ =>
      if bool_decide (id = id') then Offline else p
  | _ => p
  end.

Lemma reduce_phase s e s' tr id srv :
  servers s !! id = Some srv -> reduce s e = Some (s', tr) ->
  exists srv', servers s' !! id = Some srv' /\ phase_of srv' = phase_step id (phase_of srv) e.
Proof.
  intros Hs H. destruct e; simpl in H.
  - apply (inj Some) in H. revert H. unfold connected. simpl.
    destruct (servers s !! server_id) as [srv'|] eqn:Hs'.
    2: { intros [= <- _]. rewrite bool_decide_eq_false_2 by congruence. eauto. }
    intros [= <- _]. simpl. case_bool_decide; subst.
    + rewrite lookup_insert_eq. eexists. by split.
    + rewrite lookup_insert_ne by done. eauto.
  - destruct (decide (is_Some (servers s !! server_id))) as [Hk|Hk].
    + apply disconnected_handler in H as ((H1 & _ & H2 & _) & _); [|done]. simpl.
      case_bool_decide; subst; [|rewrite (proj1 (H2 id ltac:(done))); eauto].
      destruct H1 as (srv' & H1 & Hc & Hi). exists srv'. split; [done|].
      unfold phase_of. by rewrite Hc, Hi.
    + revert H. unfold disconnected. rewrite <-eq_None_not_Some in Hk. rewrite Hk.
      intros [= <- _]. simpl. rewrite bool_decide_eq_false_2 by congruence. eauto.
  - apply (inj Some) in H. revert H. unfold tunnel_ready. simpl.
    case_match; intros [= <- _]; simpl; eauto.
  - destruct (decide (is_Some (servers s !! server_id))) as [Hk|Hk].
    + apply tunnel_failed_handler in H as ((H1 & _ & H2 & _) & _); [|done]. simpl.
      case_bool_decide; subst; [|rewrite (proj1 (H2 id ltac:(done))); eauto].
      destruct H1 as (srv' & H1 & Hc & Hi). exists srv'. split; [done|].
      unfold phase_of. by rewrite Hc, Hi.
    + revert H. unfold tunnel_failed. rewrite <-eq_None_not_Some in Hk. rewrite Hk.
      intros [= <- _]. simpl. rewrite bool_decide_eq_false_2 by congruence. eauto.
  - apply (inj Some) in H. revert H. unfold heartbeat. simpl.
    destruct (servers s !! server_id) as [srv'|] eqn:Hs'; [|naive_solver].
    intros [= <- _]. simpl. destruct (decide (id = server_id)) as [->|].
    + rewrite lookup_insert_eq. eexists. split; [done|]. by simplify_eq.
    + rewrite lookup_insert_ne by done. eauto.
  - apply (inj Some) in H. revert H. unfold notification. simpl.
    case_match; intros [= <- _]; simpl; eauto.
  - apply (inj Some) in H. revert H. unfold snooze. case_bool_decide; naive_solver.
  - apply (inj Some) in H. revert H. unfold unsnooze. case_match; naive_solver.
  - apply (inj Some) in H. revert H. unfold snoozes_persisted.
    intros [= <- _]. case_bool_decide; simpl; eauto.
  - injection H as <- _. simpl. eauto.
  - apply (inj Some) in H. revert H. unfold tick. case_bool_decide; naive_solver.
Qed.

(** Refinement of the connection life cycle. Over any sequence of events, the
    status the reducer keeps for a server is the state of the three-phase
    machine Pending, Online, Offline driven by that server's Connected,
    Disconnected and TunnelFailed events alone. *)
Theorem run_refines_phase (s s' : AppState) (events : list Event)
    (trs : list Transition) (id : string) (srv : ServerStatus) :
  servers s !! id = Some srv -> run s events = Some (s', trs) ->
  exists srv', servers s' !! id = Some srv' /\
    phase_of srv' = fold_left (phase_step id) events (phase_of srv).
Proof.
  revert s srv trs. induction events as [|e events IH]; intros s srv trs Hs; simpl.
  - intros [= <- _]. eauto.
  - intros ([s1 tr] & H1 & H)%bind_Some.
    apply bind_Some in H as ([s2 trs2] & H2 & [= <- _]).
    destruct (reduce_phase s e s1 tr id srv Hs H1) as (srv1 & Hs1 & <-).
    by eapply IH.
Qed.
End reducer_spec.

(** ** Concrete runs *)

Definition demo_start : AppState := AppState_new ["alpha"; "beta"] ∅.
Definition demo_incident (key : string) (stale : bool) : Incident :=
  mkIncident key IncidentError "disk full" "2026-01-01T00:00:00Z" stale.
Definition demo_data : NotificationData :=
  mkNotificationData [demo_incident "disk" false] [demo_incident "disk" false] [] [] 2%N.

(** The state after some events; the start state if they panic. *)
Definition after (s : AppState) (events : list Event) : AppState :=
  match run (R := decimal_rfc3339) s events with Some (s', _) => s' | None => s end.

Definition demo_online : AppState :=
  after demo_start [Connected "alpha" 10; Notification "alpha" demo_data 11].

Lemma reduce_unchanged_witness :
  let s := after demo_online [Heartbeat "alpha" 12] in
  exists tr, reduce (R := decimal_rfc3339) s (Heartbeat "alpha" 12) = Some (s, tr) /\
    tr_changed tr = false /\ s = s.
Proof.
  intros s. exists transition_default.
  assert (reduce (R := decimal_rfc3339) s (Heartbeat "alpha" 12) =
    Some (s, transition_default)) as H by (vm_compute; reflexivity).
  split; [exact H|]. split; [reflexivity|].
  exact (reduce_unchanged (R := decimal_rfc3339) s s (Heartbeat "alpha" 12)
    transition_default H eq_refl).
Defined.

Lemma run_wf_witness : wf demo_online.
Proof.
  refine (run_wf (R := decimal_rfc3339) ["alpha"; "beta"] ∅
    [Connected "alpha" 10; Notification "alpha" demo_data 11] demo_online
    [mkTransition true [];
     mkTransition true [Notify "error: alpha.disk" "disk full"]] _).
  vm_compute. reflexivity.
Defined.

Lemma disconnected_spec_witness :
  let s' := after demo_online [Disconnected "alpha" 20 "refused"] in
  taken_offline "alpha" demo_online s'.
Proof.
  intros s'. assert (reduce (R := decimal_rfc3339) demo_online
    (Disconnected "alpha" 20 "refused") =
    Some (s', mkTransition true [Notify "error: internal.connection.alpha" "refused"]))
    as H by (vm_compute; reflexivity).
  exact (proj1 (disconnected_spec (R := decimal_rfc3339) demo_online s' "alpha" 20
    "refused" _ (mk_is_Some _ _ eq_refl) H)).
Defined.

Lemma tunnel_failed_spec_witness :
  let s := after demo_online [Disconnected "alpha" 20 "refused"] in
  let s' := after s [TunnelFailed "alpha" 21 "exit 255"] in
  internal_incidents s' !! connection_key "alpha" = None.
Proof.
  intros s s'. assert (reduce (R := decimal_rfc3339) s (TunnelFailed "alpha" 21 "exit 255") =
    Some (s', mkTransition true [Notify "error: internal.tunnel.alpha" "exit 255"]))
    as H by (vm_compute; reflexivity).
  exact (proj1 (proj2 (tunnel_failed_spec (R := decimal_rfc3339) s s' "alpha" 21
    "exit 255" _ (mk_is_Some _ _ eq_refl) H))).
Defined.

Lemma run_refines_phase_witness :
  let events := [Connected "alpha" 1; Heartbeat "alpha" 2; Disconnected "alpha" 3 "x"] in
  exists srv, servers (after demo_start events) !! "alpha" = Some srv /\
    phase_of srv = Offline.
Proof.
  intros events.
  exact (run_refines_phase (R := decimal_rfc3339) demo_start (after demo_start events)
    events _ "alpha" (new_server_status "alpha") eq_refl eq_refl).
Defined.
