(* ===== verification/ReducerSnooze.v ===== *)
(** * Snoozes: the two-phase protocol of [src/domain/reducer.rs]

    A snooze action only proposes a replacement map to persist; the state
    changes when the runtime acknowledges the written map. This file states
    what is proposed, what the acknowledgement commits, and that expiring
    deadlines is invisible to the projection. *)

From stdpp Require Import base gmap strings list sorting.
From Stdlib Require Import ZArith Lia.
From S2P Require Import Prelude RustStr Domain Reducer.

Section snooze.
Context `{R : Rfc3339}.

(** The map a snooze action asks for. *)
Definition requested (s : AppState) (e : Event) : gmap string OffsetDateTime :=
  match e with
  | Snooze key until => <[key := until]> (snoozed s)
  | Unsnooze key => delete key (snoozed s)
  | Tick at_ => filter (fun kv : string * Z => (at_ < kv.2)%Z) (snoozed s)
  | _ => snoozed s
  end.

(** What the action is called in the proposal. *)
Definition describes (s : AppState) (e : Event) (a : SnoozeAction) : Prop :=
  match e with
  | Snooze key until => a = ActionSet key until
  | Unsnooze key => a = ActionRemove key
  | Tick at_ => exists keys, a = ActionExpire keys /\ NoDup keys /\
      forall k, k ∈ keys <-> exists u, snoozed s !! k = Some u /\ (u <= at_)%Z
  | _ => False
  end.

Definition snooze_event (e : Event) : Prop :=
  match e with Snooze _ _ | Unsnooze _ | Tick _ => True | _ => False end.

Lemma expired_keys s at_ k :
  k ∈ (filter (fun kv : string * Z => (kv.2 <= at_)%Z) (btree_iter (snoozed s))).*1 <->
  exists u, snoozed s !! k = Some u /\ (u <= at_)%Z.
Proof.
  rewrite list_elem_of_fmap. split.
  - intros ([k' u] & -> & [H1 H2%elem_of_btree_iter]%list_elem_of_filter). eauto.
  - intros (u & H1 & H2). exists (k, u). split; [done|].
    apply list_elem_of_filter. by rewrite elem_of_btree_iter.
Qed.

Lemma NoDup_fst_filter {A} (P : string * A -> Prop) `{forall x, Decision (P x)}
    (l : list (string * A)) : NoDup l.*1 -> NoDup (filter P l).*1.
Proof.
  induction l as [|[k v] l IH]; [done|]. simpl. rewrite NoDup_cons. intros [H1 H2].
  destruct (decide (P (k, v))).
  - rewrite filter_cons_True by done. simpl. apply NoDup_cons. split; [|by apply IH].
    intros ([k' v'] & -> & [_ Hin]%list_elem_of_filter)%list_elem_of_fmap.
    apply H1. apply list_elem_of_fmap. eexists. by split.
  - rewrite filter_cons_False by done. by apply IH.
Qed.

Lemma filter_expired_id s at_ :
  (forall k u, snoozed s !! k = Some u -> (at_ < u)%Z) <->
  filter (fun kv : string * Z => (at_ < kv.2)%Z) (snoozed s) = snoozed s.
Proof.
  split.
  - intros H. apply map_filter_id. intros k u Hu. simpl. by eapply H.
  - intros Heq k u Hu. rewrite <-Heq in Hu. by apply map_lookup_filter_Some in Hu as [_ ?].
Qed.

Lemma snooze_proposal_handler (s s' : AppState) (e : Event) (tr : Transition) :
  snooze_event e -> reduce s e = Some (s', tr) ->
  s' = s /\ tr_changed tr = false /\
  (requested s e = snoozed s /\ tr_effects tr = [] \/
   requested s e <> snoozed s /\
   exists a, tr_effects tr = [PersistSnoozes (requested s e) a] /\ describes s e a).
Proof.
  destruct e; simpl; intros Hsn H; try done; clear Hsn; apply (inj Some) in H; revert H.
  - unfold snooze. case_bool_decide as Hk; intros [= <- <-]; (split; [done|split; [done|]]).
    + left. split; [|done]. by apply insert_id.
    + right. split; [|eauto]. intros Heq. apply Hk. rewrite <-Heq. apply lookup_insert_eq.
  - unfold unsnooze. destruct (snoozed s !! key) as [u|] eqn:Hk; intros [= <- <-];
      (split; [done|split; [done|]]).
    + right. split; [|eauto]. intros Heq. rewrite <-Heq, lookup_delete_eq in Hk. done.
    + left. split; [|done]. by apply delete_id.
  - unfold tick. set (keys := (filter _ (btree_iter _)).*1).
    assert (NoDup keys) as Hnd by (apply NoDup_fst_filter, NoDup_btree_keys).
    pose proof (expired_keys s at_) as Hkeys. fold keys in Hkeys.
    case_bool_decide as Hk; intros [= <- <-]; (split; [done|split; [done|]]).
    + left. split; [|done]. apply filter_expired_id. intros k u Hu.
      destruct (decide (at_ < u)%Z); [done|].
      assert (k ∈ keys) as Hin by (apply Hkeys; exists u; split; [done|lia]).
      rewrite Hk in Hin. by apply not_elem_of_nil in Hin.
    + right. split; [|eauto 6]. rewrite <-filter_expired_id. intros Hall.
      apply Hk. apply elem_of_nil_inv. intros k (u & Hu & Hle)%Hkeys.
      specialize (Hall k u Hu). lia.
Qed.

(** Snooze actions are proposals. Setting, removing or expiring snoozes leaves
    the state untouched and asks for no publication. Exactly when the requested
    map differs from the current one is it proposed for persistence, as the
    single effect, with the action it came from; expiry names each expired key
    once. *)
Theorem snooze_proposal (s s' : AppState) (e : Event) (tr : Transition) :
  snooze_event e -> reduce s e = Some (s', tr) ->
  s' = s /\ tr_changed tr = false /\
  (requested s e = snoozed s /\ tr_effects tr = [] \/
   requested s e <> snoozed s /\
   exists a, tr_effects tr = [PersistSnoozes (requested s e) a] /\ describes s e a).
Proof. apply snooze_proposal_handler. Qed.

(** Only an acknowledgement replaces the snooze map. *)
Lemma reduce_snoozed s e s' tr :
  reduce s e = Some (s', tr) ->
  snoozed s' = match e with SnoozesPersisted m => m | _ => snoozed s end.
Proof.
  destruct e; simpl; intros H; try (apply (inj Some) in H; revert H).
  - unfold connected. case_match; by intros [= <- _].
  - destruct (decide (is_Some (servers s !! server_id))) as [Hk|Hk].
    + apply disconnected_handler in H as ((_ & _ & _ & H & _) & _); done.
    + revert H. unfold disconnected. rewrite <-eq_None_not_Some in Hk. rewrite Hk.
      by intros [= <- _].
  - unfold tunnel_ready. case_match; by intros [= <- _].
  - destruct (decide (is_Some (servers s !! server_id))) as [Hk|Hk].
    + apply tunnel_failed_handler in H as ((_ & _ & _ & H & _) & _); done.
    + revert H. unfold tunnel_failed. rewrite <-eq_None_not_Some in Hk. rewrite Hk.
      by intros [= <- _].
  - unfold heartbeat. case_match; by intros [= <- _].
  - unfold notification. case_match; by intros [= <- _].
  - unfold snooze. case_bool_decide; by intros [= <- _].
  - unfold unsnooze. case_match; by intros [= <- _].
  - unfold snoozes_persisted. intros [= <- _].
    by case_bool_decide.
  - by intros [= <- _].
  - unfold tick. case_bool_decide; by intros [= <- _].
Qed.

Lemma acknowledge s m :
  (snoozes_persisted s m).1 = set_snoozed m s.
Proof.
  unfold snoozes_persisted. simpl. case_bool_decide as Hm; [done|].
  subst. by destruct s.
Qed.

Lemma snooze_deadline_filter (m : gmap string Z) at_ now k :
  (at_ <= now)%Z ->
  snooze_deadline (filter (fun kv : string * Z => (at_ < kv.2)%Z) m) now k =
  snooze_deadline m now k.
Proof.
  intros Hle. apply option_eq. intros u. rewrite !snooze_deadline_Some.
  rewrite map_lookup_filter_Some. simpl. split; [tauto|]. intros [H1 H2].
  split; [|done]. split; [done|lia].
Qed.

(** Dropping deadlines that have passed changes no snapshot from then on. *)
Lemma snapshot_filter (s : AppState) (at_ now : OffsetDateTime) :
  (at_ <= now)%Z ->
  snapshot (set_snoozed (filter (fun kv : string * Z => (at_ < kv.2)%Z) (snoozed s)) s) now =
  snapshot s now.
Proof.
  intros Hle. unfold snapshot. rewrite !classify_eq. simpl.
  set (m := filter _ (snoozed s)).
  assert (forall k, snooze_deadline m now k = snooze_deadline (snoozed s) now k) as Hd
    by (intros k; by apply snooze_deadline_filter).
  change (all_incidents (set_snoozed m s)) with (all_incidents s).
  rewrite (list_filter_iff (fun i => ~ hidden_at m now i)
    (fun i => ~ hidden_at (snoozed s) now i))
    by (intros i; unfold hidden_at; by rewrite Hd).
  rewrite (list_omap_ext (fun i => mkSnoozedIncident i <$> snooze_deadline m now (inc_key i))
    (fun i => mkSnoozedIncident i <$> snooze_deadline (snoozed s) now (inc_key i))
    (all_incidents s) (all_incidents s)); [done|].
  apply Forall_Forall2_diag, Forall_forall. intros i _. by rewrite Hd.
Qed.

(** A tick has nothing to do when every deadline is still to come. *)
Lemma tick_quiet (s : AppState) (at_ : OffsetDateTime) :
  (forall k u, snoozed s !! k = Some u -> (at_ < u)%Z) -> tick s at_ = (s, transition_default).
Proof.
  intros Hall. unfold tick. rewrite bool_decide_eq_true_2; [done|].
  apply elem_of_nil_inv. intros k (u & Hu & Hle)%expired_keys. specialize (Hall k u Hu). lia.
Qed.

(** C28: Expiry is proposed exactly and commits unseen. A tick changes no state and asks
    for no publication. If every deadline is still to come it has no effect. Otherwise its
    one effect names each deadline that has come, once, and proposes the map of exactly the
    deadlines after the tick; and when that very map is acknowledged, every snapshot taken
    at or after the tick is the one from before, and another tick at that time has nothing
    left to do. *)
Theorem tick_commit_invisible (s s1 : AppState) (tr : Transition) (at_ : OffsetDateTime) :
  reduce s (Tick at_) = Some (s1, tr) ->
  s1 = s /\ tr_changed tr = false /\
  (((forall k u, snoozed s !! k = Some u -> (at_ < u)%Z) /\ tr_effects tr = []) \/
   exists m keys, tr_effects tr = [PersistSnoozes m (ActionExpire keys)] /\
     keys <> [] /\ NoDup keys /\
     (forall k, k ∈ keys <-> exists u, snoozed s !! k = Some u /\ (u <= at_)%Z) /\
     (forall k u, m !! k = Some u <-> snoozed s !! k = Some u /\ (at_ < u)%Z) /\
     forall s2 tr2, reduce s (SnoozesPersisted m) = Some (s2, tr2) ->
       (forall now, (at_ <= now)%Z -> snapshot s2 now = snapshot s now) /\
       reduce s2 (Tick at_) = Some (s2, mkTransition false [])).
Proof.
  intros Hr. destruct (snooze_proposal_handler s s1 (Tick at_) tr I Hr)
    as (-> & Hc & [[Heq He]|[Hne (a & He & keys & -> & Hnd & Hkeys)]]);
    (split; [done|]; split; [done|]); simpl requested in *; [left|right].
  { split; [|done]. by apply filter_expired_id. }
  eexists _, keys. split; [exact He|]. split; [|split; [done|split; [done|split]]].
  - intros ->. apply Hne, filter_expired_id. intros k u Hu. destruct (decide (at_ < u)%Z); [done|].
    assert (k ∈ []) as []%not_elem_of_nil. apply Hkeys. exists u. split; [done|lia].
  - intros k u. apply map_lookup_filter_Some.
  - intros s2 tr2 Hs. cbn [reduce] in Hs. apply (inj Some), (f_equal fst) in Hs.
    rewrite acknowledge in Hs. simpl in Hs. subst s2.
    split; [intros now; apply snapshot_filter|]. simpl. rewrite tick_quiet; [done|].
    intros k u Hu. simpl in Hu. by apply map_lookup_filter_Some in Hu as [_ ?].
Qed.
End snooze.

(** ** Concrete runs *)

Definition demo_snoozed : AppState :=
  set_snoozed {["alpha.disk" := 50%Z; "beta.raid" := 90%Z]} demo_online.

Definition demo_expiry : Transition :=
  mkTransition false
    [PersistSnoozes ({["beta.raid" := 90%Z]} : gmap string Z) (ActionExpire ["alpha.disk"])].

Lemma snooze_proposal_witness :
  snooze_event (Tick 60) /\
  requested demo_snoozed (Tick 60) <> snoozed demo_snoozed.
Proof.
  split; [exact I|].
  assert (reduce (R := decimal_rfc3339) demo_snoozed (Tick 60) =
    Some (demo_snoozed, demo_expiry)) as H by (vm_compute; reflexivity).
  destruct (snooze_proposal (R := decimal_rfc3339) demo_snoozed demo_snoozed (Tick 60)
    demo_expiry I H) as (_ & _ & [[_ He]|[He _]]).
  - discriminate He.
  - exact He.
Defined.

Lemma tick_commit_invisible_witness :
  exists m keys,
    tr_effects demo_expiry = [PersistSnoozes m (ActionExpire keys)] /\ "alpha.disk" ∈ keys /\
    m !! "beta.raid" = Some 90%Z /\
    forall s2 tr2, reduce (R := decimal_rfc3339) demo_snoozed (SnoozesPersisted m) = Some (s2, tr2) ->
      snapshot s2 70 = snapshot demo_snoozed 70.
Proof.
  assert (reduce (R := decimal_rfc3339) demo_snoozed (Tick 60) =
    Some (demo_snoozed, demo_expiry)) as H by (vm_compute; reflexivity).
  destruct (tick_commit_invisible (R := decimal_rfc3339) demo_snoozed demo_snoozed demo_expiry 60 H)
    as (_ & _ & [[_ He]|(m & keys & He & _ & _ & Hk & Hm & Hs)]); [discriminate He|].
  exists m, keys. split; [exact He|]. split; [apply Hk; exists 50%Z; split; [reflexivity|lia]|].
  split; [apply Hm; split; [reflexivity|lia]|].
  intros s2 tr2 Hr. apply (Hs s2 tr2 Hr). lia.
Defined.
