(* ===== verification/ReducerNotify.v ===== *)
(** * Notifications and incident lists: [src/domain/reducer.rs]

    What authoritative server snapshots and dismissals do to the incidents on
    display, which desktop notifications a transition emits, and that an outage
    announces itself once. Server ids are assumed to keep out of the client's
    own [internal.] namespace, which configuration validation guarantees. *)

From stdpp Require Import base gmap strings list sorting.
From Stdlib Require Import ZArith Lia Ascii.
From S2P Require Import Prelude RustStr Domain Reducer.

(** An id without dot, other than the reserved one. *)
Definition namespace_safe (id : string) : Prop :=
  any_byte (Ascii.eqb ".") id = false /\ id <> "internal".

Definition safe_servers (s : AppState) : Prop :=
  forall id, is_Some (servers s !! id) -> namespace_safe id.

(** ** Namespaces *)

Lemma prefixed_key_inj (id1 id2 k1 k2 : string) :
  namespace_safe id1 -> namespace_safe id2 ->
  id1 +:+ "." +:+ k1 = id2 +:+ "." +:+ k2 -> id1 = id2 /\ k1 = k2.
Proof. intros [H1 _] [H2 _]. by apply append_sep_inj. Qed.

Lemma prefixed_not_internal (id k rest : string) :
  namespace_safe id -> id +:+ "." +:+ k <> "internal." +:+ rest.
Proof.
  intros [H1 H2] Heq.
  change ("internal." +:+ rest) with ("internal" +:+ String "." rest) in Heq.
  by apply append_sep_inj in Heq as [? _].
Qed.

Lemma connection_key_internal id : connection_key id = "internal." +:+ "connection." +:+ id.
Proof. reflexivity. Qed.
Lemma tunnel_key_internal id : tunnel_key id = "internal." +:+ "tunnel." +:+ id.
Proof. reflexivity. Qed.

(** ** Incident lists *)

Lemma elem_of_all_incidents s i :
  i ∈ all_incidents s <->
  (exists k, internal_incidents s !! k = Some i) \/
  (exists id l, id ∈ server_order s /\ incidents s !! id = Some l /\ i ∈ l).
Proof.
  unfold all_incidents. rewrite elem_of_app, elem_of_btree_values, list_elem_of_bind.
  apply or_iff_compat_l. split.
  - intros (id & Hi & Hid). destruct (incidents s !! id) as [l|] eqn:Hl.
    + exists id, l. done.
    + by apply not_elem_of_nil in Hi.
  - intros (id & l & Hid & Hl & Hi). exists id. by rewrite Hl.
Qed.

Section notify.
Context `{R : Rfc3339}.

(** A notification's [total] list is authoritative. After it, the incidents
    on display under the server's prefix are exactly the listed ones, prefixed;
    incidents of every other origin are unchanged. *)
Theorem notification_authoritative (s s' : AppState) (id : string)
    (data : NotificationData) (at_ : OffsetDateTime) (tr : Transition) :
  wf s -> safe_servers s -> is_Some (servers s !! id) ->
  reduce s (Notification id data at_) = Some (s', tr) ->
  forall i,
    (starts_with (id +:+ ".") (inc_key i) = true ->
       i ∈ all_incidents s' <-> exists w, w ∈ nd_total data /\ i = prefixed w id) /\
    (starts_with (id +:+ ".") (inc_key i) = false ->
       i ∈ all_incidents s' <-> i ∈ all_incidents s).
Proof.
  intros Hwf Hsafe [srv Hs] H i. simpl in H. apply (inj Some) in H. revert H.
  unfold notification. rewrite Hs. intros [= <- _].
  pose proof (Hsafe id ltac:(by eexists)) as Hid.
  rewrite !elem_of_all_incidents. simpl. rewrite starts_with_true. split.
  - intros (rest & Hk). rewrite append_assoc in Hk. split.
    + intros [(k & Hint)|(j & l & Hj & Hl & Hi)].
      * destruct (wf_internal s Hwf k i Hint) as [<- _ _ (j & _ & Hjk)].
        exfalso. rewrite Hk, connection_key_internal, tunnel_key_internal in Hjk.
        destruct Hjk as [Hjk|Hjk]; by apply prefixed_not_internal in Hjk.
      * apply lookup_insert_Some in Hl as [[<- <-]|[Hne Hl]].
        -- apply list_elem_of_fmap in Hi as (w & -> & Hw). eauto.
        -- exfalso. destruct (wf_incidents s Hwf j l Hl) as [Hjs Hlk].
           destruct (Hlk i Hi) as (k & Hk'). rewrite Hk in Hk'.
           apply prefixed_key_inj in Hk' as [? _]; auto.
    + intros (w & Hw & ->). right. exists id, ((fun w => prefixed w id) <$> nd_total data).
      split; [by apply (wf_order s Hwf); eexists|]. split; [apply lookup_insert_eq|].
      apply list_elem_of_fmap. eauto.
  - intros Hno. apply or_iff_compat_l. split.
    + intros (j & l & Hj & [[<- <-]|[Hne Hl]]%lookup_insert_Some & Hi); [|eauto 6].
      exfalso. apply list_elem_of_fmap in Hi as (w & -> & _).
      apply not_true_iff_false in Hno. apply Hno. apply starts_with_true.
      exists (inc_key w). by rewrite append_assoc.
    + intros (j & l & Hj & Hl & Hi). destruct (decide (id = j)) as [<-|Hne].
      * exfalso. destruct (wf_incidents s Hwf id l Hl) as [_ Hlk].
        destruct (Hlk i Hi) as (k & Hk'). apply not_true_iff_false in Hno. apply Hno.
        apply starts_with_true. exists k. by rewrite append_assoc.
      * exists j, l. by rewrite lookup_insert_ne.
Qed.

(** Dismissing an incident removes exactly its stale copies. A fresh incident
    with the same key, any other incident and every client-generated one stay on
    display. *)
Theorem forget_stale_spec (s s' : AppState) (key : string) (tr : Transition) :
  wf s -> reduce s (ForgetStale key) = Some (s', tr) ->
  forall i, i ∈ all_incidents s' <->
    i ∈ all_incidents s /\ ~ (inc_key i = key /\ inc_stale i = true).
Proof.
  intros Hwf [= <- _] i. rewrite !elem_of_all_incidents. simpl. split.
  - intros [(k & Hk)|(id & l & Hid & Hl & Hi)].
    + split; [eauto|]. intros [_ Hst].
      pose proof (internal_fresh _ _ _ (wf_internal s Hwf k i Hk)). congruence.
    + apply lookup_fmap_Some in Hl as (l' & <- & Hl').
      apply list_elem_of_filter in Hi as [Hp Hi]. split; [eauto 6|].
      intros [Hkey Hst]. destruct Hp; congruence.
  - intros [[Hk|(id & l & Hid & Hl & Hi)] Hn]; [by left|].
    right. exists id, (forget key l). split; [done|]. rewrite lookup_fmap, Hl.
    split; [done|]. apply list_elem_of_filter. split; [|done].
    destruct (decide (inc_key i = key)); [|by left].
    right. destruct (inc_stale i); [|done]. exfalso. by apply Hn.
Qed.

(** ** Desktop notifications *)

(** The titles of the notifications among some effects. *)
Definition titles (effects : list Effect) : list string :=
  omap (fun e => match e with Notify title _ => Some title | _ => None end) effects.

Ltac fold_effects_step IH :=
  etrans; [apply IH|]; simpl; destruct (is_snoozed _ _ _); simpl;
  [done|by rewrite <-app_assoc].

Lemma added_effects_eq s id at_ l effects :
  added_effects s id at_ l effects =
  effects ++ omap (fun w =>
    let item := prefixed w id in
    if is_snoozed s (inc_key item) at_ then None
    else Some (Notify (state_name (inc_state item) +:+ ": " +:+ inc_key item)
                 (inc_details item))) l.
Proof.
  revert effects. induction l as [|w l IH]; intros effects; simpl.
  - by rewrite app_nil_r.
  - fold_effects_step IH.
Qed.

Lemma removed_effects_eq s id at_ l effects :
  removed_effects s id at_ l effects =
  effects ++ omap (fun w =>
    let item := prefixed w id in
    if is_snoozed s (inc_key item) at_ then None
    else Some (Notify ("OK: " +:+ inc_key item) "")) l.
Proof.
  revert effects. induction l as [|w l IH]; intros effects; simpl.
  - by rewrite app_nil_r.
  - fold_effects_step IH.
Qed.

Lemma notification_handler (s s' : AppState) (id : string)
    (data : NotificationData) (at_ : OffsetDateTime) (tr : Transition) :
  is_Some (servers s !! id) -> notification s id data at_ = (s', tr) ->
  let loud w := negb (is_snoozed s (id +:+ "." +:+ inc_key w) at_) in
  tr_changed tr = true /\
  tr_effects tr =
    ((fun w => Notify (state_name (inc_state w) +:+ ": " +:+ id +:+ "." +:+ inc_key w)
       (inc_details w)) <$> filter loud (nd_added data)) ++
    ((fun w => Notify ("OK: " +:+ id +:+ "." +:+ inc_key w) "") <$>
       filter loud (nd_removed data)).
Proof.
  intros [srv Hs]. unfold notification. rewrite Hs. intros [= _ <-]. simpl. split; [done|].
  rewrite removed_effects_eq, added_effects_eq, !fmap_filter_omap. simpl.
  f_equal; apply list_omap_ext, Forall_Forall2_diag, Forall_forall; intros w _; simpl;
    by destruct (is_snoozed s _ at_).
Qed.
(** Which notifications a server's message raises. They are, in order, one
    per added incident whose key is not snoozed at receipt, titled with its
    state, and one per removed incident whose key is not snoozed; the total and
    updated lists raise none. *)
Theorem notification_effects (s s' : AppState) (id : string)
    (data : NotificationData) (at_ : OffsetDateTime) (tr : Transition) :
  is_Some (servers s !! id) -> reduce s (Notification id data at_) = Some (s', tr) ->
  let loud w := negb (is_snoozed s (id +:+ "." +:+ inc_key w) at_) in
  tr_changed tr = true /\
  tr_effects tr =
    ((fun w => Notify (state_name (inc_state w) +:+ ": " +:+ id +:+ "." +:+ inc_key w)
       (inc_details w)) <$> filter loud (nd_added data)) ++
    ((fun w => Notify ("OK: " +:+ id +:+ "." +:+ inc_key w) "") <$>
       filter loud (nd_removed data)).
Proof. intros Hs H%(inj Some). by eapply notification_handler. Qed.

(** ** One announcement per outage *)

Definition occurrences (t : string) (l : list string) : nat :=
  length (filter (fun x => x = t) l).

Lemma occurrences_app t l k : occurrences t (l ++ k) = occurrences t l + occurrences t k.
Proof. unfold occurrences. by rewrite filter_app, length_app. Qed.

Lemma occurrences_absent t l : t ∉ l -> occurrences t l = 0.
Proof.
  intros H. unfold occurrences. destruct (filter _ l) as [|x k] eqn:Hf; [done|].
  assert (x ∈ filter (fun x => x = t) l) as Hx by (rewrite Hf; left).
  apply list_elem_of_filter in Hx as [-> Hx]. done.
Qed.

Lemma titles_app l k : titles (l ++ k) = titles l ++ titles k.
Proof. apply omap_app. Qed.

Lemma elem_of_titles t l : t ∈ titles l <-> exists b, Notify t b ∈ l.
Proof.
  unfold titles. rewrite list_elem_of_omap. split.
  - intros ([t' b|m a] & Hin & Heq); naive_solver.
  - intros (b & Hin). by exists (Notify t b).
Qed.

(** Events that end the outage of server [id]: its connection incident is
    resolved, or replaced by a tunnel incident. *)
Definition ends_outage (id : string) (e : Event) : Prop :=
  match e with
  | Connected id' _ | TunnelFailed id' _ _ => id' = id
  | Disconnected id' _ error => id' = id /\ error = ""
  | _ => False
  end.

(** The title that announces the connection incident of [id]. *)
Definition announcement (id : string) : string := "error: " +:+ connection_key id.
#[global] Arguments announcement : simpl never.

Lemma reduce_order s e s' tr : reduce s e = Some (s', tr) -> server_order s' = server_order s.
Proof.
  destruct e; simpl; intros H; try (apply (inj Some) in H; revert H).
  - unfold connected. case_match; by intros [= <- _].
  - destruct (decide (is_Some (servers s !! server_id))) as [Hk|Hk].
    + apply disconnected_handler in H as ((_ & _ & _ & _ & H) & _); done.
    + revert H. unfold disconnected. rewrite <-eq_None_not_Some in Hk. rewrite Hk.
      by intros [= <- _].
  - unfold tunnel_ready. case_match; by intros [= <- _].
  - destruct (decide (is_Some (servers s !! server_id))) as [Hk|Hk].
    + apply tunnel_failed_handler in H as ((_ & _ & _ & _ & H) & _); done.
    + revert H. unfold tunnel_failed. rewrite <-eq_None_not_Some in Hk. rewrite Hk.
      by intros [= <- _].
  - unfold heartbeat. case_match; by intros [= <- _].
  - unfold notification. case_match; by intros [= <- _].
  - unfold snooze. case_bool_decide; by intros [= <- _].
  - unfold unsnooze. case_match; by intros [= <- _].
  - unfold snoozes_persisted. intros [= <- _]. by case_bool_decide.
  - by intros [= <- _].
  - unfold tick. case_bool_decide; by intros [= <- _].
Qed.

Lemma reduce_safe s e s' tr :
  wf s -> safe_servers s -> reduce s e = Some (s', tr) -> safe_servers s'.
Proof.
  intros Hwf Hsafe H id Hid. apply Hsafe. apply (wf_order s Hwf).
  rewrite <-(reduce_order _ _ _ _ H). apply (wf_order s'); [by eapply reduce_wf|done].
Qed.

Lemma notification_title_ne s id data at_ s' tr j :
  namespace_safe id -> notification s id data at_ = (s', tr) ->
  announcement j ∉ titles (tr_effects tr).
Proof.
  intros Hsafe H. destruct (servers s !! id) as [srv|] eqn:Hs.
  - apply notification_handler in H as [_ ->]; [|by eexists].
    unfold announcement. rewrite connection_key_internal, elem_of_titles. intros (b & [Hin|Hin]%elem_of_app);
      apply list_elem_of_fmap in Hin as (w & [= Heq _] & _).
    destruct (inc_state w); try discriminate Heq.
    injection Heq as Heq. symmetry in Heq. by apply prefixed_not_internal in Heq.
  - revert H. unfold notification. rewrite Hs. intros [= _ <-]. apply not_elem_of_nil.
Qed.

(** What one event may do to the outage of [id]: stay silent and keep it open, or
    open and announce it. *)
Definition outage_open (s : AppState) (id : string) : Prop :=
  is_Some (internal_incidents s !! connection_key id).
Definition outage_progress (id : string) (s s' : AppState) (effects : list Effect) : Prop :=
  let n := occurrences (announcement id) (titles effects) in
  (n = 0 /\ (outage_open s id -> outage_open s' id)) \/
  (n = 1 /\ ~ outage_open s id /\ outage_open s' id).

Lemma outage_silent id s s' effects :
  announcement id ∉ titles effects ->
  internal_incidents s' !! connection_key id = internal_incidents s !! connection_key id ->
  outage_progress id s s' effects.
Proof.
  intros Hn Heq. left. split; [by apply occurrences_absent|]. unfold outage_open. by rewrite Heq.
Qed.

Lemma announcement_absent (b : bool) title body id :
  title <> announcement id -> announcement id ∉ titles (if b then [Notify title body] else []).
Proof. intros Hne. destruct b; simpl; set_solver. Qed.

Lemma outage_connected s id id' at_ s' tr :
  id' <> id -> connected s id' at_ = (s', tr) -> outage_progress id s s' (tr_effects tr).
Proof.
  intros Hne. unfold connected. destruct (servers s !! id'); intros [= <- <-].
  - apply outage_silent; simpl; [by apply announcement_absent|].
    apply lookup_delete_ne. by intros ->%connection_key_inj.
  - apply outage_silent; [apply not_elem_of_nil|done].
Qed.

Lemma outage_disconnected s id id' at_ error s' tr :
  ~ (id' = id /\ error = "") -> disconnected s id' at_ error = Some (s', tr) ->
  outage_progress id s s' (tr_effects tr).
Proof.
  intros Hend H. destruct (decide (is_Some (servers s !! id'))) as [Hk|Hk].
  2:{ revert H. unfold disconnected. rewrite <-eq_None_not_Some in Hk. rewrite Hk.
      intros [= <- <-]. apply outage_silent; [apply not_elem_of_nil|done]. }
  apply disconnected_handler in H as (_ & H1 & H2 & H3); [|done]. rewrite H3.
  destruct (decide (id' = id)) as [->|Hne].
  - unfold is_empty in *. case_bool_decide as He; [by destruct Hend|].
    destruct H1 as (i & Hi & _). unfold outage_progress, outage_open. rewrite Hi. simpl.
    case_bool_decide as Hn; simpl; [|by left]. rewrite Hn.
    destruct (is_snoozed s _ at_); simpl; [by left|right].
    unfold occurrences. rewrite filter_cons_True by done. split; [done|].
    split; [by intros [? ?]|done].
  - apply outage_silent; [|apply H2; by intros ->%connection_key_inj].
    apply announcement_absent. intros [= Heq]. by destruct Hne.
Qed.

Lemma outage_tunnel_ready s id id' at_ s' tr :
  tunnel_ready s id' at_ = (s', tr) -> outage_progress id s s' (tr_effects tr).
Proof.
  unfold tunnel_ready. destruct (servers s !! id'); intros [= <- <-].
  - apply outage_silent; simpl; [by apply announcement_absent|].
    apply lookup_delete_ne. intros Heq. symmetry in Heq. by apply connection_tunnel_ne in Heq.
  - apply outage_silent; [apply not_elem_of_nil|done].
Qed.

Lemma outage_tunnel_failed s id id' at_ error s' tr :
  id' <> id -> tunnel_failed s id' at_ error = Some (s', tr) ->
  outage_progress id s s' (tr_effects tr).
Proof.
  intros Hne H. destruct (decide (is_Some (servers s !! id'))) as [Hk|Hk].
  2:{ revert H. unfold tunnel_failed. rewrite <-eq_None_not_Some in Hk. rewrite Hk.
      intros [= <- <-]. apply outage_silent; [apply not_elem_of_nil|done]. }
  apply tunnel_failed_handler in H as (_ & _ & _ & H2 & H3); [|done]. rewrite H3.
  apply outage_silent; [by apply announcement_absent|].
  apply H2; [apply connection_tunnel_ne|]. by intros ->%connection_key_inj.
Qed.

(** One event that does not end the outage of [id]: it announces the outage only
    if it opens it, and leaves it open. *)
Lemma outage_step s e s' tr id :
  safe_servers s -> ~ ends_outage id e -> reduce s e = Some (s', tr) ->
  outage_progress id s s' (tr_effects tr).
Proof.
  intros Hsafe Hend H. destruct e; simpl in H, Hend; try (apply (inj Some) in H).
  - by eapply outage_connected.
  - eapply outage_disconnected; [|done]. naive_solver.
  - by eapply outage_tunnel_ready.
  - by eapply outage_tunnel_failed.
  - revert H. unfold heartbeat. case_match; intros [= <- <-]; by left.
  - destruct (servers s !! server_id) as [srv|] eqn:Hs.
    + apply outage_silent; [eapply notification_title_ne; [|done]; apply Hsafe; by eexists|].
      revert H. unfold notification. case_match; by intros [= <- _].
    + revert H. unfold notification. rewrite Hs. intros [= <- <-]. by left.
  - revert H. unfold snooze. case_bool_decide; intros [= <- <-]; by left.
  - revert H. unfold unsnooze. case_match; intros [= <- <-]; by left.
  - revert H. unfold snoozes_persisted. intros [= <- <-]. left. by case_bool_decide.
  - revert H. intros [= <- <-]. by left.
  - revert H. unfold tick. case_bool_decide; intros [= <- <-]; by left.
Qed.

Lemma outage_run s events s' trs id :
  wf s -> safe_servers s -> Forall (fun e => ~ ends_outage id e) events ->
  run s events = Some (s', trs) ->
  occurrences (announcement id) (titles (trs ≫= tr_effects)) +
    (if decide (is_Some (internal_incidents s !! connection_key id)) then 1 else 0) <= 1.
Proof.
  revert s trs. induction events as [|e events IH]; intros s trs Hwf Hsafe Hall; simpl.
  - intros [= <- <-]. simpl. case_decide; unfold occurrences; simpl; lia.
  - intros ([s1 tr] & H1 & H)%bind_Some.
    apply bind_Some in H as ([s2 trs2] & H2 & [= <- <-]).
    apply Forall_cons in Hall as [He Hall].
    assert (wf s1) as Hwf1 by (by apply (reduce_wf s e s1 tr)).
    assert (safe_servers s1) as Hsafe1 by (by apply (reduce_safe s e s1 tr)).
    specialize (IH s1 trs2 Hwf1 Hsafe1 Hall H2).
    pose proof (outage_step s e s1 tr id Hsafe He H1) as Hstep. simpl in Hstep.
    change ((tr :: trs2) ≫= tr_effects) with (tr_effects tr ++ (trs2 ≫= tr_effects)).
    rewrite titles_app, occurrences_app.
    destruct Hstep as [(-> & Hop)|(-> & Hn & Hop)].
    + repeat case_decide; try tauto; lia.
    + rewrite (decide_False (P := is_Some (internal_incidents s !! _))) by done.
      rewrite decide_True in IH by done. lia.
Qed.

(** C25: an outage announces itself once. Over any sequence of events without a
    reconnection, a socket loss attributed to the tunnel, or a tunnel failure of
    server [id], however many failed attempts it holds, at most one desktop
    notification announces the connection incident of [id]. *)
Theorem one_notification_per_outage (s s' : AppState) (id : string)
    (events : list Event) (trs : list Transition) :
  wf s -> safe_servers s -> Forall (fun e => ~ ends_outage id e) events ->
  run s events = Some (s', trs) ->
  occurrences (announcement id) (titles (trs ≫= tr_effects)) <= 1.
Proof.
  intros Hwf Hsafe Hall Hrun.
  pose proof (outage_run s events s' trs id Hwf Hsafe Hall Hrun). lia.
Qed.
End notify.

(** ** Concrete runs *)

Lemma demo_start_safe (s : AppState) :
  wf s -> server_order s = ["alpha"; "beta"] -> safe_servers s.
Proof.
  intros Hwf Ho id Hid. apply (wf_order s Hwf) in Hid. rewrite Ho in Hid.
  apply elem_of_cons in Hid as [->|Hid]; [by split|].
  apply list_elem_of_singleton in Hid as ->. by split.
Qed.

Lemma demo_online_wf : wf demo_online.
Proof.
  apply (run_wf_from (R := decimal_rfc3339) demo_start
    [Connected "alpha" 10; Notification "alpha" demo_data 11] demo_online
    [mkTransition true [];
     mkTransition true [Notify "error: alpha.disk" "disk full"]]).
  - apply wf_new.
  - vm_compute. reflexivity.
Qed.

Lemma notification_authoritative_witness :
  demo_incident "alpha.disk" false ∈
    all_incidents (after demo_online [Notification "alpha" demo_data 30]).
Proof.
  apply (proj1 (notification_authoritative (R := decimal_rfc3339) demo_online
    (after demo_online [Notification "alpha" demo_data 30]) "alpha" demo_data 30
    (mkTransition true [Notify "error: alpha.disk" "disk full"])
    demo_online_wf (demo_start_safe demo_online demo_online_wf eq_refl)
    (mk_is_Some _ _ eq_refl) ltac:(vm_compute; reflexivity)
    (demo_incident "alpha.disk" false))).
  - reflexivity.
  - exists (demo_incident "disk" false). split; [left|reflexivity].
Defined.

Lemma forget_stale_spec_witness :
  demo_incident "alpha.disk" false ∈
    all_incidents (after demo_online [ForgetStale "alpha.disk"]).
Proof.
  apply (forget_stale_spec (R := decimal_rfc3339) demo_online
    (after demo_online [ForgetStale "alpha.disk"]) "alpha.disk" (mkTransition false [])).
  - exact demo_online_wf.
  - vm_compute. reflexivity.
  - split; [|by intros [_ ?]]. apply elem_of_all_incidents. right.
    exists "alpha", [demo_incident "alpha.disk" false].
    split; [left|]. split; [vm_compute; reflexivity|left].
Defined.

Lemma notification_effects_witness :
  exists tr, reduce (R := decimal_rfc3339) demo_online (Notification "alpha" demo_data 30) =
    Some (demo_online, tr) /\
    tr_effects tr = [Notify "error: alpha.disk" "disk full"].
Proof.
  exists (mkTransition true [Notify "error: alpha.disk" "disk full"]).
  assert (reduce (R := decimal_rfc3339) demo_online (Notification "alpha" demo_data 30) =
    Some (demo_online, mkTransition true [Notify "error: alpha.disk" "disk full"]))
    as H by (vm_compute; reflexivity).
  split; [exact H|].
  exact (proj2 (notification_effects (R := decimal_rfc3339) demo_online demo_online "alpha"
    demo_data 30 _ (mk_is_Some _ _ eq_refl) H)).
Defined.

Lemma one_notification_per_outage_witness :
  exists trs, run (R := decimal_rfc3339) demo_online
    [Disconnected "alpha" 20 "refused"; Disconnected "alpha" 21 "timeout";
     Disconnected "alpha" 22 "refused"] = Some trs /\
  occurrences (announcement "alpha") (titles (trs.2 ≫= tr_effects)) <= 1.
Proof.
  set (events := [Disconnected "alpha" 20 "refused"; Disconnected "alpha" 21 "timeout";
     Disconnected "alpha" 22 "refused"]).
  assert (is_Some (run (R := decimal_rfc3339) demo_online events)) as Hr
    by (vm_compute; by eexists).
  destruct (run (R := decimal_rfc3339) demo_online events) as [[s' trs]|] eqn:Hrun.
  - exists (s', trs). split; [reflexivity|].
    apply (one_notification_per_outage (R := decimal_rfc3339) demo_online s' "alpha"
      events trs).
    + exact demo_online_wf.
    + apply demo_start_safe; [exact demo_online_wf|reflexivity].
    + repeat constructor; by intros [_ ?].
    + exact Hrun.
  - exfalso. by destruct Hr.
Defined.
