(* ===== verification/Config.v ===== *)
(** * Configuration

    [src/cmd/montray-ui/src/config.rs]: the YAML configuration's types, its
    validation with every check in the order of the code, the allocation of
    loopback endpoints for structured SSH tunnels, and the default paths.

    The YAML parser, the file system and the kernel's port allocation are
    parameters; so is the [{:?}] form of a string, which only appears in
    messages. *)

From stdpp Require Import base gmap strings list pretty option.
From Stdlib Require Import ZArith Lia Ascii.
From S2P Require Import Prelude RustStr RustNet RustPath.

(** ** Data *)

Record TlsConfig := {
  tls_ca_file : string;
  tls_server_name : string;
}.

Record AuthConfig := {
  bearer_token_file : string;
}.

Record TunnelReadinessProbeConfig := {
  contains_output : string;
}.

Record CustomTunnelCommandConfig := {
  cmd_command : list string;
  cmd_readiness_probe : option TunnelReadinessProbeConfig;
}.

Record SshTunnelConfig := {
  ssh_host : string;
  ssh_user : string;
  ssh_port : N;
  ssh_remote_server_addr : string;
  ssh_extra_ssh_args : list string;
}.

Record TunnelConfig := {
  tun_ssh : option SshTunnelConfig;
  tun_custom_command : option CustomTunnelCommandConfig;
}.

Record ServerConfig := {
  cfg_id : string;
  cfg_addr : string;
  cfg_tls : option TlsConfig;
  cfg_auth : option AuthConfig;
  cfg_tunnel : option TunnelConfig;
}.

Record WsClientConfig := {
  cfg_servers : list ServerConfig;
}.

Record Config := {
  ws_client : WsClientConfig;
}.

Definition set_addr (addr : string) (s : ServerConfig) : ServerConfig :=
  {| cfg_id := cfg_id s; cfg_addr := addr; cfg_tls := cfg_tls s;
     cfg_auth := cfg_auth s; cfg_tunnel := cfg_tunnel s |}.

(** ** Validation *)

(** [as_ref().is_some_and(f)]. *)
Definition is_some_and {A} (f : A -> bool) (o : option A) : bool :=
  match o with Some a => f a | None => false end.

(** [if condition { bail!(message) }]. *)
Definition ensure_not (condition : bool) (message : string) : Result unit :=
  if condition then bail message else Ok tt.

Definition has_structured_ssh_tunnel (server : ServerConfig) : bool :=
  is_some_and (fun tunnel =>
    bool_decide (is_Some (tun_ssh tunnel)) &&
    bool_decide (tun_custom_command tunnel = None)) (cfg_tunnel server).

Definition id_byte (c : ascii) : bool :=
  is_ascii_alphanumeric c || Ascii.eqb c "_" || Ascii.eqb c "-".

(** Parses a host/port pair without accepting schemes, paths, or bare IPv6. *)
Definition validate_host_port (address : string) : Result (string * N) :=
  '(host, port) ←
    match strip_prefix "[" address with
    | Some rest => opt_context "must be a valid host:port address" (split_once "]:" rest)
    | None =>
        '(host, port) ←
          opt_context "must be a valid host:port address" (rsplit_once ":" address);
        if contains ":" host
        then bail "IPv6 addresses must be enclosed in brackets"
        else Ok (host, port)
    end;
  if is_empty host then bail "host must not be empty"
  else
    port ← opt_context "port must be between 1 and 65535"
             (match parse_u16 port with
              | Some p => if negb (N.eqb p 0) then Some p else None
              | None => None
              end);
    Ok (host, port).

Definition server_path (index : nat) : string :=
  "wsClient.servers[" +:+ pretty index +:+ "]".

(** The host is loopback if it is the name or a parsed loopback address. *)
Definition loopback_host (host : string) : bool :=
  bool_decide (host = "localhost") || is_some_and is_loopback (parse_ip host).

Definition validate_ssh_tunnel (server : ServerConfig) (ssh : SshTunnelConfig)
    (index : nat) : Result unit :=
  let prefix := server_path index +:+ ".tunnel.ssh" in
  _ ← ensure_not (is_empty (ssh_host ssh)) (prefix +:+ ".host is required");
  _ ← ensure_not (starts_with "-" (ssh_host ssh))
        (prefix +:+ ".host must not start with a hyphen");
  _ ← ensure_not (is_empty (ssh_user ssh)) (prefix +:+ ".user is required");
  _ ← ensure_not (starts_with "-" (ssh_user ssh))
        (prefix +:+ ".user must not start with a hyphen");
  _ ← with_context (prefix +:+ ".remoteServerAddr")
        (validate_host_port (ssh_remote_server_addr ssh));
  if is_empty (cfg_addr server) then Ok tt
  else
    '(local_host, _) ←
      with_context (server_path index +:+ ".addr for an SSH tunnel")
        (validate_host_port (cfg_addr server));
    ensure_not (negb (loopback_host local_host))
      (server_path index +:+ ".addr must use a loopback host for an SSH tunnel").

Definition validate_tunnel (server : ServerConfig) (tunnel : TunnelConfig)
    (index : nat) : Result unit :=
  let prefix := server_path index +:+ ".tunnel" in
  match tun_ssh tunnel, tun_custom_command tunnel with
  | Some ssh, None => validate_ssh_tunnel server ssh index
  | None, Some custom =>
      _ ← ensure_not (match head (cmd_command custom) with
                      | None => true
                      | Some executable => is_empty executable
                      end)
            (prefix +:+ ".customCommand.command must start with an executable");
      ensure_not (is_some_and (fun probe => is_empty (contains_output probe))
                    (cmd_readiness_probe custom))
        (prefix +:+ ".customCommand.readinessProbe.containsOutput must not be empty")
  | _, _ => bail (prefix +:+ " must contain exactly one of ssh or customCommand")
  end.

Section Validate.
(** The [{:?}] form of a string. *)
Variable debug_str : string -> string.

Definition validate_server_id (id : string) : Result unit :=
  if is_empty id then bail "is required"
  else if negb (all_bytes id_byte id)
  then bail (debug_str id +:+ " must contain only letters, digits, underscores, or hyphens")
  else if bool_decide (id = "internal") then bail (debug_str id +:+ " is reserved")
  else Ok tt.

(** The body of the validation loop; [ids] is the set of ids already seen. *)
Definition validate_server (ids : gset string) (index : nat) (server : ServerConfig)
    : Result unit :=
  let addr := cfg_addr server in
  _ ← with_context (server_path index +:+ ".id") (validate_server_id (cfg_id server));
  _ ← ensure_not (bool_decide (cfg_id server ∈ ids))
        (server_path index +:+ ".id " +:+ debug_str (cfg_id server) +:+ " is duplicated");
  _ ← ensure_not (is_empty addr && negb (has_structured_ssh_tunnel server))
        (server_path index +:+ ".addr is required unless tunnel.ssh is configured");
  _ ← ensure_not (negb (is_empty addr) && (contains "//" addr || contains "/" addr))
        (server_path index +:+ ".addr must be a host:port address, not a URL");
  _ ← (if negb (is_empty addr)
       then _ ← with_context (server_path index +:+ ".addr") (validate_host_port addr); Ok tt
       else Ok tt);
  _ ← ensure_not (is_some_and (fun auth => is_empty (bearer_token_file auth))
                    (cfg_auth server))
        (server_path index +:+ ".auth.bearerTokenFile is required");
  match cfg_tunnel server with
  | Some tunnel => validate_tunnel server tunnel index
  | None => Ok tt
  end.

Fixpoint validate_servers (ids : gset string) (servers : list (nat * ServerConfig))
    : Result unit :=
  match servers with
  | [] => Ok tt
  | (index, server) :: rest =>
      _ ← validate_server ids index server;
      validate_servers ({[ cfg_id server ]} ∪ ids) rest
  end.

Definition validate (config : Config) : Result unit :=
  let servers := cfg_servers (ws_client config) in
  if bool_decide (servers = []) then bail "wsClient.servers must contain at least one server"
  else validate_servers ∅ (enumerate servers).

(** [read] is [fs::read], [from_slice] is [serde_yaml::from_slice]. *)
Definition load (read : string -> Result string) (from_slice : string -> Result Config)
    (path : string) : Result Config :=
  data ← with_context ("failed to read config " +:+ path) (read path);
  config ← with_context ("failed to parse config " +:+ path) (from_slice data);
  _ ← validate config;
  Ok config.
End Validate.

(** ** Endpoint allocation *)

Section Resolve.
(** Binding [127.0.0.1:0] for the server at an index, and the port that the
    listener then reports. *)
Variable bind : nat -> Result unit.
Variable local_port : nat -> Result N.

Definition loopback_address (port : N) : string := "127.0.0.1:" +:+ pretty port.

Definition allocate (index : nat) (server : ServerConfig) : Result string :=
  _ ← with_context ("allocating local tunnel address #" +:+ pretty index +:+ " ("
                      +:+ cfg_id server +:+ ")") (bind index);
  port ← with_context "reading allocated local tunnel address" (local_port index);
  Ok (loopback_address port).

(** The servers are updated in place: those before a failure keep their address. *)
Fixpoint resolve_from (index : nat) (servers : list ServerConfig)
    : list ServerConfig * Result unit :=
  match servers with
  | [] => ([], Ok tt)
  | server :: rest =>
      if negb (is_empty (cfg_addr server)) then
        let '(rest, r) := resolve_from (S index) rest in (server :: rest, r)
      else
        match allocate index server with
        | Err e => (server :: rest, Err e)
        | Ok addr =>
            let '(rest, r) := resolve_from (S index) rest in
            (set_addr addr server :: rest, r)
        end
  end.

Definition resolve_tunnel_addresses (config : Config) : Config * Result unit :=
  let '(servers, r) := resolve_from 0 (cfg_servers (ws_client config)) in
  ({| ws_client := {| cfg_servers := servers |} |}, r).
End Resolve.

(** ** Default paths *)

Section Paths.
(** [dirs::config_dir()], and [Path::exists]. *)
Variable config_dir : option string.
Variable exists_path : string -> bool.

Definition default_path : Result string :=
  directory ← opt_context "could not determine the user configuration directory" config_dir;
  Ok (path_join (path_join directory "montray-ui") "montray-ui.yml").

Definition prefer_canonical_path (canonical former : string) : string :=
  if negb (exists_path canonical) && exists_path former then former else canonical.

Definition runtime_default_path : Result string :=
  directory ← opt_context "could not determine the user configuration directory" config_dir;
  Ok (prefer_canonical_path
        (path_join (path_join directory "montray-ui") "montray-ui.yml")
        (path_join (path_join directory "salmon-watch") "salmon-watch.yml")).
End Paths.

(** ** What a valid configuration is *)

Definition valid_id (id : string) : Prop :=
  id <> "" /\ all_bytes id_byte id = true /\ id <> "internal".

(** [host:port] or [[host]:port], with a port that is not zero. *)
Definition endpoint (address host : string) (port : N) : Prop :=
  host <> "" /\ (0 < port)%N /\
  exists text, parse_u16 text = Some port /\
    ((address = "[" +:+ host +:+ "]:" +:+ text /\ contains "]:" host = false) \/
     (address = host +:+ ":" +:+ text /\ contains ":" host = false /\
      starts_with "[" host = false)).

Definition is_endpoint (address : string) : Prop :=
  exists host port, endpoint address host port.

Definition loopback_endpoint (address : string) : Prop :=
  exists host port, endpoint address host port /\ loopback_host host = true.

Record valid_ssh (addr : string) (ssh : SshTunnelConfig) : Prop := {
  valid_ssh_host : ssh_host ssh <> "" /\ starts_with "-" (ssh_host ssh) = false;
  valid_ssh_user : ssh_user ssh <> "" /\ starts_with "-" (ssh_user ssh) = false;
  valid_ssh_remote : is_endpoint (ssh_remote_server_addr ssh);
  valid_ssh_local : addr <> "" -> loopback_endpoint addr;
}.

Record valid_custom (custom : CustomTunnelCommandConfig) : Prop := {
  valid_custom_command : exists program args,
    cmd_command custom = program :: args /\ program <> "";
  valid_custom_probe : forall probe,
    cmd_readiness_probe custom = Some probe -> contains_output probe <> "";
}.

Definition valid_tunnel (addr : string) (tunnel : TunnelConfig) : Prop :=
  match tun_ssh tunnel, tun_custom_command tunnel with
  | Some ssh, None => valid_ssh addr ssh
  | None, Some custom => valid_custom custom
  | _, _ => False
  end.

Record valid_server (server : ServerConfig) : Prop := {
  valid_server_id : valid_id (cfg_id server);
  valid_server_addr :
    (cfg_addr server = "" /\ has_structured_ssh_tunnel server = true) \/
    (is_endpoint (cfg_addr server) /\ contains "/" (cfg_addr server) = false);
  valid_server_auth : forall auth,
    cfg_auth server = Some auth -> bearer_token_file auth <> "";
  valid_server_tunnel : forall tunnel,
    cfg_tunnel server = Some tunnel -> valid_tunnel (cfg_addr server) tunnel;
}.

Record valid_config (config : Config) : Prop := {
  valid_nonempty : cfg_servers (ws_client config) <> [];
  valid_unique : NoDup (cfg_id <$> cfg_servers (ws_client config));
  valid_servers : Forall valid_server (cfg_servers (ws_client config));
}.

(** ** Lemmas *)

Lemma ensure_not_Ok (b : bool) (m : string) (u : unit) :
  ensure_not b m = Ok u <-> b = false.
Proof. destruct b, u; simpl; split; done. Qed.

Lemma is_some_and_false {A} (f : A -> bool) (o : option A) :
  is_some_and f o = false <-> forall a, o = Some a -> f a = false.
Proof. destruct o; simpl; naive_solver. Qed.

Lemma port_text_no_colon (text : string) (port : N) :
  parse_u16 text = Some port -> any_byte (Ascii.eqb ":") text = false.
Proof.
  intros [H _]%parse_unsigned_bytes.
  eapply any_byte_excluded; [|exact H]. intros c Hc.
  destruct (Ascii.eqb_spec ":" c) as [<-|]; done.
Qed.

Lemma split_once_bracket (host rest : string) :
  contains "]:" host = false ->
  split_once "]:" (host +:+ "]:" +:+ rest) = Some (host, rest).
Proof.
  induction host as [|c host IH]; [done|]. intros H.
  assert (contains "]:" host = false) as H'.
  { destruct (contains "]:" host) eqn:E; [|done].
    apply contains_true in E as (b & r & ->).
    by rewrite (proj2 (contains_true _ _)) in H by (by exists (String c b), r). }
  change (String c host +:+ ?x) with (String c (host +:+ x)).
  assert (strip_prefix "]:" (String c (host +:+ "]:" +:+ rest)) = None) as Hp.
  { destruct (strip_prefix "]:" _) as [r|] eqn:E; [|done].
    apply strip_prefix_Some in E. simpl in E. injection E as -> E.
    destruct host as [|d host]; [done|]. simpl in E. injection E as -> E.
    by rewrite (proj2 (contains_true _ _)) in H by (by exists "", host). }
  change (split_once "]:" (String c (host +:+ "]:" +:+ rest)) = Some (String c host, rest)).
  simpl in Hp |- *. rewrite Hp. simpl in IH. by rewrite IH.
Qed.

Lemma split_once_minimal (pat s before rest : string) :
  split_once pat s = Some (before, rest) -> pat <> "" -> contains pat before = false.
Proof.
  intros H Hne. revert before H. induction s as [|c s IH]; intros before; simpl.
  - destruct (strip_prefix pat "") as [r|] eqn:E; [|done].
    intros [= <- <-]. destruct pat; done.
  - destruct (strip_prefix pat (String c s)) as [r|] eqn:E.
    { intros [= <- <-]. destruct pat; done. }
    destruct (split_once pat s) as [[b r]|] eqn:Hs; [|done]. intros [= <- <-].
    specialize (IH b eq_refl). apply not_true_is_false.
    intros (b' & r' & Heq)%contains_true. destruct b' as [|x b'].
    + apply split_once_Some in Hs as ->. simpl in Heq.
      change (String c (b +:+ pat +:+ r)) with (String c b +:+ pat +:+ r) in E.
      rewrite Heq in E. rewrite append_assoc in E. by rewrite strip_prefix_app in E.
    + injection Heq as -> ->.
      by rewrite (proj2 (contains_true _ _)) in IH by (by exists b', r').
Qed.

Lemma port_of (text : string) (port : N) :
  (match parse_u16 text with
   | Some p => if negb (N.eqb p 0) then Some p else None
   | None => None
   end) = Some port <-> parse_u16 text = Some port /\ (0 < port)%N.
Proof.
  destruct (parse_u16 text) as [p|]; [|naive_solver].
  destruct (N.eqb_spec p 0) as [->|Hne]; simpl; split.
  - done.
  - intros [[= <-] H]. lia.
  - intros [= <-]. split; [done|lia].
  - by intros [[= <-] _].
Qed.

Lemma endpoint_nonempty (address host : string) (port : N) :
  endpoint address host port -> address <> "".
Proof. intros (Hh & _ & text & _ & [[-> _]|[-> _]]); by destruct host. Qed.

(** The parser accepts exactly the endpoints, and returns their parts. *)
Lemma validate_host_port_iff (address host : string) (port : N) :
  validate_host_port address = Ok (host, port) <-> endpoint address host port.
Proof.
  unfold validate_host_port, endpoint. split.
  - intros H. inv_ok. destruct x as [h t]. inv_ok.
    destruct (is_empty h) eqn:Hh; [done|]. apply is_empty_false in Hh.
    inv_ok. simplify_eq. rewrite port_of in *. destruct_and!.
    split; [done|]. split; [done|]. exists t. split; [done|].
    destruct (strip_prefix "[" address) as [r|] eqn:Hb.
    + inv_ok. apply strip_prefix_Some in Hb as ->. left.
      pose proof (split_once_minimal _ _ _ _ H) as Hmin.
      apply split_once_Some in H as ->. split; [done|]. by apply Hmin.
    + inv_ok. destruct x as [h' t']. destruct (contains ":" h') eqn:Hc; [done|].
      inv_ok. simplify_eq. right. apply rsplit_once_Some in H as ->.
      split; [done|]. split; [done|]. unfold starts_with.
      destruct (strip_prefix "[" host) as [r|] eqn:E; [|done].
      apply strip_prefix_Some in E as ->. by rewrite append_assoc, strip_prefix_app in Hb.
  - intros (Hh & Hp & t & Ht & Hcase). apply is_empty_false in Hh.
    assert ((match parse_u16 t with
      | Some p => if negb (N.eqb p 0) then Some p else None
      | None => None end) = Some port) as Hport by (by apply port_of).
    destruct Hcase as [[-> Hc]|(-> & Hc & Hs)].
    + rewrite strip_prefix_app, split_once_bracket by done.
      simpl. rewrite Hh, Hport. done.
    + assert (strip_prefix "[" (host +:+ ":" +:+ t) = None) as ->.
      { destruct (strip_prefix "[" (host +:+ _)) as [r|] eqn:E; [|done].
        apply strip_prefix_Some in E. destruct host as [|c host]; [done|].
        simpl in E. injection E as -> E. done. }
      change (":" +:+ t) with (String ":" t).
      rewrite rsplit_once_last by (by eapply port_text_no_colon).
      simpl. rewrite Hc. simpl. rewrite Hh, Hport. done.
Qed.

Lemma is_endpoint_iff (address : string) :
  is_endpoint address <-> exists hp, validate_host_port address = Ok hp.
Proof.
  unfold is_endpoint. split.
  - intros (h & p & H%validate_host_port_iff). by eexists.
  - intros [[h p] H%validate_host_port_iff]. by exists h, p.
Qed.

Lemma is_endpoint_nonempty (address : string) : is_endpoint address -> address <> "".
Proof. intros (h & p & H). by eapply endpoint_nonempty. Qed.

Lemma is_endpoint_no_slash (address : string) :
  contains "/" address = false -> contains "//" address = false.
Proof.
  intros H. apply not_true_is_false. intros (b & r & ->)%contains_true.
  by rewrite (proj2 (contains_true _ _)) in H by (by exists b, ("/" +:+ r)).
Qed.

Lemma validate_server_id_iff (debug_str : string -> string) (id : string) :
  validate_server_id debug_str id = Ok tt <-> valid_id id.
Proof.
  unfold validate_server_id, valid_id.
  destruct (is_empty id) eqn:He.
  { apply is_empty_true in He as ->. naive_solver. }
  apply is_empty_false in He. destruct (all_bytes id_byte id) eqn:Hb; simpl.
  - case_bool_decide; naive_solver.
  - naive_solver.
Qed.

Lemma validate_ssh_tunnel_iff (server : ServerConfig) (ssh : SshTunnelConfig) (index : nat) :
  validate_ssh_tunnel server ssh index = Ok tt <-> valid_ssh (cfg_addr server) ssh.
Proof.
  unfold validate_ssh_tunnel. split.
  - intros H. inv_ok. rewrite ensure_not_Ok, is_empty_false in *. subst.
    split; [done..| |].
    + apply is_endpoint_iff. by eexists.
    + intros Hne%is_empty_false. rewrite Hne in *. inv_ok.
      match goal with x : string * N |- _ => destruct x as [h p] end.
      rewrite validate_host_port_iff, ensure_not_Ok, negb_false_iff in *.
      by exists h, p.
  - intros [[Hh1 Hh2] [Hu1 Hu2] Hr Hl].
    apply is_endpoint_iff in Hr as [hp Hr].
    apply is_empty_false in Hh1, Hu1. rewrite Hh1, Hh2, Hu1, Hu2, Hr. simpl.
    destruct (is_empty (cfg_addr server)) eqn:He; [done|].
    apply is_empty_false in He. destruct (Hl He) as (h & p & Hep & Hlo).
    apply validate_host_port_iff in Hep. rewrite Hep. simpl. by rewrite Hlo.
Qed.

Lemma validate_tunnel_iff (server : ServerConfig) (tunnel : TunnelConfig) (index : nat) :
  validate_tunnel server tunnel index = Ok tt <-> valid_tunnel (cfg_addr server) tunnel.
Proof.
  unfold validate_tunnel, valid_tunnel.
  destruct (tun_ssh tunnel) as [ssh|], (tun_custom_command tunnel) as [custom|];
    [done|apply validate_ssh_tunnel_iff| |done].
  split.
  - intros H. inv_ok. rewrite ensure_not_Ok, ?is_some_and_false in *. split.
    + destruct (cmd_command custom) as [|program args]; [done|]. simpl in *.
      exists program, args. by rewrite is_empty_false in *.
    + intros probe Hp. apply is_empty_false. naive_solver.
  - intros [(program & args & -> & Hne%is_empty_false) Hp]. simpl. rewrite Hne. simpl.
    apply ensure_not_Ok, is_some_and_false. intros probe H. by apply is_empty_false, Hp.
Qed.

Lemma validate_server_iff (debug_str : string -> string) (ids : gset string) (index : nat)
    (server : ServerConfig) :
  validate_server debug_str ids index server = Ok tt <->
  valid_server server /\ cfg_id server ∉ ids.
Proof.
  unfold validate_server. split.
  - intros H. inv_ok. rewrite ?ensure_not_Ok, ?is_some_and_false, ?bool_decide_eq_false in *.
    subst.
    repeat match goal with x : unit |- _ => destruct x end.
    split; [|done]. split.
    + by eapply validate_server_id_iff.
    + destruct (is_empty (cfg_addr server)) eqn:He; simpl in *.
      * left. rewrite negb_false_iff in *. by apply is_empty_true in He.
      * right. inv_ok. rewrite orb_false_iff in *. destruct_and!.
        split; [|done]. apply is_endpoint_iff. by eexists.
    + intros auth Ha. apply is_empty_false. naive_solver.
    + intros tunnel Ht. rewrite Ht in *. by eapply validate_tunnel_iff.
  - intros [[Hid Haddr Hauth Htun] Hni].
    rewrite (proj2 (validate_server_id_iff _ _) Hid). simpl.
    rewrite bool_decide_eq_false_2 by done. simpl.
    assert (is_some_and (fun auth => is_empty (bearer_token_file auth)) (cfg_auth server)
      = false) as Ha.
    { apply is_some_and_false. intros auth H. by apply is_empty_false, Hauth. }
    assert (forall A (r : Result A), (exists a, r = Ok a) ->
      exists a, with_context (server_path index +:+ ".addr") r = Ok a) as Hctx.
    { intros A r [a ->]. by exists a. }
    destruct Haddr as [[Hempty Hssh]|[Hep Hns]].
    + rewrite Hempty, Hssh. simpl. rewrite Ha. simpl.
      destruct (cfg_tunnel server) as [tunnel|]; [|done].
      apply validate_tunnel_iff. by apply Htun.
    + pose proof (is_endpoint_nonempty _ Hep) as Hne%is_empty_false.
      rewrite Hne, Hns, is_endpoint_no_slash by done. simpl.
      apply is_endpoint_iff in Hep as [hp Hep]. rewrite Hep. simpl.
      rewrite Ha. simpl. destruct (cfg_tunnel server) as [tunnel|]; [|done].
      apply validate_tunnel_iff. by apply Htun.
Qed.

Lemma validate_servers_iff (debug_str : string -> string) (servers : list ServerConfig)
    (ids : gset string) (i : nat) :
  validate_servers debug_str ids (enumerate_from i servers) = Ok tt <->
  Forall valid_server servers /\ NoDup (cfg_id <$> servers) /\
  (forall id, id ∈ cfg_id <$> servers -> id ∉ ids).
Proof.
  revert ids i. induction servers as [|server rest IH]; intros ids i; simpl.
  { split; [|done]. intros _. split; [constructor|]. split; [constructor|set_solver]. }
  rewrite bind_Ok, list.Forall_cons, list.NoDup_cons. split.
  - intros ([] & [Hv Hni]%validate_server_iff & (Hall & Hnd & Hd)%IH). set_solver.
  - intros ([Hv Hall] & [Hn Hnd] & Hd). exists tt. rewrite IH, validate_server_iff.
    set_solver.
Qed.

Lemma validate_iff (debug_str : string -> string) (config : Config) :
  validate debug_str config = Ok tt <-> valid_config config.
Proof.
  unfold validate. destruct (cfg_servers (ws_client config)) eqn:Hs.
  - rewrite bool_decide_eq_true_2 by done. split; [done|]. by intros [H _ _].
  - rewrite bool_decide_eq_false_2 by done. unfold enumerate.
    rewrite <-Hs, validate_servers_iff. split.
    + intros (Hall & Hnd & _). split; [by rewrite Hs|done..].
    + intros [_ Hnd Hall]. set_solver.
Qed.

(** ** Endpoint allocation keeps the configuration valid *)

Lemma loopback_address_endpoint (port : N) :
  (0 < port <= 65535)%N -> endpoint (loopback_address port) "127.0.0.1" port.
Proof.
  intros Hp. split; [done|]. split; [lia|]. exists (pretty port).
  split; [by apply parse_unsigned_pretty; unfold u16_max; lia|]. by right.
Qed.

Lemma loopback_address_no_slash (port : N) :
  contains "/" (loopback_address port) = false.
Proof.
  unfold loopback_address. rewrite contains_byte, any_byte_append. simpl.
  eapply any_byte_excluded; [|apply pretty_N_all_digits].
  intros c Hc. by destruct (Ascii.eqb_spec "/" c) as [<-|].
Qed.

Lemma set_addr_valid (server : ServerConfig) (port : N) :
  (0 < port <= 65535)%N -> valid_server server -> cfg_addr server = "" ->
  valid_server (set_addr (loopback_address port) server).
Proof.
  intros Hp [Hid Haddr Hauth Htun] Hempty.
  pose proof (loopback_address_endpoint port Hp) as Hep.
  split; simpl; [done| |done|].
  - right. split; [by exists "127.0.0.1", port|apply loopback_address_no_slash].
  - intros tunnel Ht. specialize (Htun tunnel Ht). unfold valid_tunnel in *.
    destruct (tun_ssh tunnel), (tun_custom_command tunnel); try done.
    destruct Htun as [Hh Hu Hr _]. split; [done..|]. intros _. by exists "127.0.0.1", port.
Qed.

(** One server before and after allocation. *)
Definition allocated (server server' : ServerConfig) : Prop :=
  server' = server \/
  (cfg_addr server = "" /\
   exists port, (0 < port <= 65535)%N /\
     server' = set_addr (loopback_address port) server).

Lemma allocated_id (server server' : ServerConfig) :
  allocated server server' -> cfg_id server' = cfg_id server.
Proof. by intros [->|(_ & port & _ & ->)]. Qed.

Lemma allocated_valid (server server' : ServerConfig) :
  allocated server server' -> valid_server server -> valid_server server'.
Proof. intros [->|(He & port & Hp & ->)] Hv; [done|]. by apply set_addr_valid. Qed.

Section ResolveLemmas.
Context (bind : nat -> Result unit) (local_port : nat -> Result N).
(** The kernel never assigns port zero. *)
Hypothesis assigned : forall i port, local_port i = Ok port -> (0 < port <= 65535)%N.

Lemma resolve_from_spec (servers servers' : list ServerConfig) (i : nat) (r : Result unit) :
  resolve_from bind local_port i servers = (servers', r) ->
  Forall2 allocated servers servers' /\
  (r = Ok tt -> Forall (fun s => cfg_addr s <> "") servers').
Proof.
  revert servers' i. induction servers as [|server rest IH]; intros servers' i; simpl.
  { intros [= <- <-]. by split. }
  destruct (is_empty (cfg_addr server)) eqn:He; simpl.
  - destruct (allocate bind local_port i server) as [addr|e] eqn:Ha.
    + destruct (resolve_from bind local_port (S i) rest) as [rest' r'] eqn:Hr.
      intros [= <- <-]. apply IH in Hr as [Hf Hok].
      unfold allocate in Ha. inv_ok. subst.
      split; [constructor; [|done]|intros; constructor; [done|auto]].
      right. split; [by apply is_empty_true|]. eauto.
    + intros [= <- <-]. split; [|done]. constructor; [by left|].
      clear. induction rest; constructor; [by left|done].
  - destruct (resolve_from bind local_port (S i) rest) as [rest' r'] eqn:Hr.
    intros [= <- <-]. apply IH in Hr as [Hf Hok]. apply is_empty_false in He.
    split; [constructor; [by left|done]|intros; constructor; auto].
Qed.

Lemma allocated_config (servers servers' : list ServerConfig) :
  Forall2 allocated servers servers' ->
  valid_config {| ws_client := {| cfg_servers := servers |} |} ->
  valid_config {| ws_client := {| cfg_servers := servers' |} |}.
Proof.
  intros Hf [Hne Hnd Hv]; simpl in *.
  assert (cfg_id <$> servers' = cfg_id <$> servers) as Hids.
  { clear -Hf. induction Hf; csimpl; [done|]. f_equal; [by apply allocated_id|done]. }
  split; simpl; [|by rewrite Hids|].
  - intros ->. by inversion Hf; subst.
  - clear -Hf Hv. induction Hf; inversion Hv; subst; constructor; [|auto].
    by eapply allocated_valid.
Qed.
End ResolveLemmas.

(** ** Properties *)

(** C17: Validation accepts exactly the valid configurations: at least one
    server; ids nonempty, of letters, digits, underscores and hyphens, not
    reserved, pairwise distinct; an address that is a host and a nonzero port
    without slash, omitted only with a structured SSH tunnel; a token file where
    authentication is configured; a tunnel that is exactly one of an SSH tunnel
    (host and user that are not options, a remote endpoint, a loopback local
    endpoint) or a command with an executable and nonempty probe. *)
Theorem validate_spec (debug_str : string -> string) (config : Config) :
  validate debug_str config = Ok tt <-> valid_config config.
Proof. apply validate_iff. Qed.

(** A host and a nonzero port survive printing and parsing, the host in
    brackets exactly when it holds a colon. *)
Theorem validate_host_port_roundtrip (host : string) (port : N) :
  host <> "" -> (0 < port <= 65535)%N ->
  contains "]:" host = false -> starts_with "[" host = false ->
  validate_host_port
    (if contains ":" host then "[" +:+ host +:+ "]:" +:+ pretty port
     else host +:+ ":" +:+ pretty port) = Ok (host, port).
Proof.
  intros Hh Hp Hb Hs. apply validate_host_port_iff. split; [done|]. split; [lia|].
  exists (pretty port). split; [by apply parse_unsigned_pretty; unfold u16_max; lia|].
  destruct (contains ":" host) eqn:Hc; [by left|by right].
Qed.

Lemma validate_host_port_roundtrip_witness :
  validate_host_port ("[" +:+ "fe80::1" +:+ "]:" +:+ pretty 8443%N) = Ok ("fe80::1", 8443%N).
Proof.
  by apply (validate_host_port_roundtrip "fe80::1" 8443); [|lia| |].
Defined.

(** Allocating endpoints keeps a valid configuration valid, changes nothing
    but empty addresses, and on success leaves none empty; every structured SSH
    tunnel then has a loopback endpoint. *)
Theorem resolve_tunnel_addresses_spec (debug_str : string -> string)
    (bind : nat -> Result unit) (local_port : nat -> Result N)
    (config config' : Config) (r : Result unit) :
  (forall i port, local_port i = Ok port -> (0 < port <= 65535)%N) ->
  validate debug_str config = Ok tt ->
  resolve_tunnel_addresses bind local_port config = (config', r) ->
  validate debug_str config' = Ok tt /\
  Forall2 allocated (cfg_servers (ws_client config)) (cfg_servers (ws_client config')) /\
  (r = Ok tt -> Forall (fun s =>
     cfg_addr s <> "" /\
     (has_structured_ssh_tunnel s = true -> loopback_endpoint (cfg_addr s)))
     (cfg_servers (ws_client config'))).
Proof.
  rewrite !validate_iff. intros Hk Hv. unfold resolve_tunnel_addresses.
  destruct (resolve_from _ _ _ _) as [servers' r'] eqn:Hr. intros [= <- <-]. simpl.
  destruct (resolve_from_spec _ _ Hk _ _ _ _ Hr) as [Hf Hok].
  destruct config as [[servers]]. simpl in *.
  pose proof (allocated_config _ _ Hf Hv) as Hv'. split; [done|]. split; [done|].
  intros ->. specialize (Hok eq_refl). destruct Hv' as [_ _ Hall]; simpl in Hall.
  rewrite Forall_forall in Hall, Hok |- *. intros s Hs. split; [by apply Hok|].
  intros Hssh. specialize (Hall s Hs). unfold has_structured_ssh_tunnel in Hssh.
  destruct (cfg_tunnel s) as [tunnel|] eqn:Ht; [|done]. simpl in Hssh.
  pose proof (valid_server_tunnel _ Hall _ Ht) as Htun. unfold valid_tunnel in Htun.
  destruct (tun_ssh tunnel), (tun_custom_command tunnel); try done.
  apply (valid_ssh_local _ _ Htun). by apply Hok.
Qed.

Definition demo_tunneled : ServerConfig :=
  {| cfg_id := "prod"; cfg_addr := ""; cfg_tls := None;
     cfg_auth := Some {| bearer_token_file := "token" |};
     cfg_tunnel := Some {|
       tun_ssh := Some {| ssh_host := "host"; ssh_user := "me"; ssh_port := 0;
         ssh_remote_server_addr := "localhost:7700"; ssh_extra_ssh_args := [] |};
       tun_custom_command := None |} |}.
Definition demo_config : Config := {| ws_client := {| cfg_servers := [demo_tunneled] |} |}.
Definition demo_resolved : Config :=
  {| ws_client := {| cfg_servers := [set_addr "127.0.0.1:40001" demo_tunneled] |} |}.

Lemma resolve_tunnel_addresses_spec_witness :
  validate (fun s => s) demo_resolved = Ok tt /\
  Forall2 allocated [demo_tunneled] [set_addr "127.0.0.1:40001" demo_tunneled].
Proof.
  assert (validate (fun s => s) demo_config = Ok tt) as Hv
    by (vm_compute; reflexivity).
  assert (resolve_tunnel_addresses (fun _ => Ok tt) (fun _ => Ok 40001%N) demo_config
    = (demo_resolved, Ok tt)) as Hr by (vm_compute; reflexivity).
  destruct (resolve_tunnel_addresses_spec (fun s => s) (fun _ => Ok tt)
    (fun _ => Ok 40001%N) demo_config demo_resolved (Ok tt)) as (H1 & H2 & _);
    [|exact Hv|exact Hr|split; [exact H1|exact H2]].
  intros i port H. injection H as <-. lia.
Defined.

(** Loading a configuration succeeds exactly when the file can be read, is
    parsed, and is valid, and then returns what was parsed; a failure keeps the
    underlying message under one naming the file, or is the validation's. *)
Theorem load_spec (debug_str : string -> string) (read : string -> Result string)
    (from_slice : string -> Result Config) (path : string) :
  (forall config,
     load debug_str read from_slice path = Ok config <->
     exists data, read path = Ok data /\ from_slice data = Ok config /\ valid_config config) /\
  (forall e, load debug_str read from_slice path = Err e ->
     (exists e0, read path = Err e0 /\ e = ("failed to read config " +:+ path) :: e0) \/
     (exists data e0, read path = Ok data /\ from_slice data = Err e0 /\
        e = ("failed to parse config " +:+ path) :: e0) \/
     (exists data config, read path = Ok data /\ from_slice data = Ok config /\
        ~ valid_config config /\ validate debug_str config = Err e)).
Proof.
  unfold load. split.
  - intros config. split.
    + intros H. inv_ok. match goal with u : unit |- _ => destruct u end.
      rewrite validate_iff in *. subst. eauto.
    + intros (data & -> & Hd & Hv%(validate_iff debug_str)). simpl. rewrite Hd. simpl.
      by rewrite Hv.
  - intros e. destruct (read path) as [data|e0] eqn:Hr; [|simpl; naive_solver].
    destruct (from_slice data) as [config|e0] eqn:Hp.
    + simpl. rewrite Hp. simpl. destruct (validate debug_str config) eqn:Hv; simpl; [done|].
      intros [= ->]. right; right. exists data, config. repeat split; try done.
      intros Hc%(validate_iff debug_str). congruence.
    + simpl. rewrite Hp. simpl. naive_solver.
Qed.
