(* ===== verification/Tunnel.v ===== *)
(** * Tunnel supervision

    [src/cmd/montray-ui/src/network/tunnel.rs]: the command line built for a
    tunneled server, and the supervisor [run_with_spec] as a state machine. A
    state of the machine is one [await] of the code; an input is what that await
    can deliver (the branches of a [select!], the result of a send, a joined
    task); a step performs everything the code does up to its next await. An
    input that the code does not wait for in a state is refused. *)

From Stdlib Require Import ZArith Lia Ascii.
From stdpp Require Import base gmap strings list pretty option.
From S2P Require Import Prelude RustStr RustNet Domain Config Output.

(** ** Command line *)

Definition READY_MARKER : string := "MONTRAY_TUNNEL_READY".

Record CommandSpec := {
  spec_program : string;
  spec_args : list string;
  spec_readiness_probe : option string;
}.

Definition ssh_options : list string :=
  ["-N"; "-T"; "-o"; "BatchMode=yes"; "-o"; "ExitOnForwardFailure=yes";
   "-o"; "ConnectTimeout=15"; "-o"; "ServerAliveInterval=10";
   "-o"; "ServerAliveCountMax=3"; "-o"; "PermitLocalCommand=yes";
   "-o"; "LocalCommand=echo " +:+ READY_MARKER].

Definition for_ssh (server : ServerConfig) (ssh : SshTunnelConfig) : CommandSpec :=
  let port := if N.eqb (ssh_port ssh) 0 then 22%N else ssh_port ssh in
  {| spec_program := "ssh";
     spec_args :=
       ssh_options
       ++ ["-p"; pretty port; "-L";
           cfg_addr server +:+ ":" +:+ ssh_remote_server_addr ssh]
       ++ ssh_extra_ssh_args ssh
       ++ [ssh_user ssh +:+ "@" +:+ ssh_host ssh];
     spec_readiness_probe := Some READY_MARKER |}.

(** [None] is a panic of an [expect]. *)
Definition for_server (server : ServerConfig) : option (option CommandSpec) :=
  match cfg_tunnel server with
  | None => Some None
  | Some tunnel =>
      match tun_custom_command tunnel with
      | Some custom =>
          match cmd_command custom with
          | [] => None
          | program :: args =>
              Some (Some {| spec_program := program; spec_args := args;
                            spec_readiness_probe :=
                              contains_output <$> cmd_readiness_probe custom |})
          end
      | None =>
          match tun_ssh tunnel with
          | None => None
          | Some ssh => Some (Some (for_ssh server ssh))
          end
      end
  end.

(** ** Spawning *)

Inductive Stdio := StdioInherit | StdioNull | StdioPiped.

(** [tokio::process::Command]: what is run, and how. *)
Record ChildCommand := {
  cc_program : string;
  cc_args : list string;
  cc_stdin : Stdio;
  cc_stdout : Stdio;
  cc_stderr : Stdio;
  cc_kill_on_drop : bool;
  cc_process_group : option N;  (* 0: a group of its own *)
}.
Definition Command_new (program : string) : ChildCommand :=
  {| cc_program := program; cc_args := []; cc_stdin := StdioInherit; cc_stdout := StdioInherit;
     cc_stderr := StdioInherit; cc_kill_on_drop := false; cc_process_group := None |}.

(** On Unix. *)
Definition isolate_from_terminal_signals (command : ChildCommand) : ChildCommand :=
  {| cc_program := cc_program command; cc_args := cc_args command; cc_stdin := cc_stdin command;
     cc_stdout := cc_stdout command; cc_stderr := cc_stderr command;
     cc_kill_on_drop := cc_kill_on_drop command; cc_process_group := Some 0%N |}.

(** The command that [spawn] gives to the operating system. *)
Definition spawn (spec : CommandSpec) : ChildCommand :=
  let command := Command_new (spec_program spec) in
  isolate_from_terminal_signals
    {| cc_program := cc_program command; cc_args := cc_args command ++ spec_args spec;
       cc_stdin := StdioNull; cc_stdout := StdioPiped; cc_stderr := StdioPiped;
       cc_kill_on_drop := true; cc_process_group := cc_process_group command |}.

(** ** Supervisor *)

(** [child.id()] after the spawn: on Unix also the process group. *)
Abbreviation group := (option N).

Inductive Supervisor :=
| LoopTop
| Starting (g : group)                 (* select before readiness *)
| AwaitExit (g : group)                (* both pipes closed: [child.wait()] *)
| SendReady (g : group) (ev : Event)
| Running (g : group)                  (* select while ready *)
| JoinThenFail (g : group) (status : result string ExitStatus)
| JoinThenStop (g : group)
| Draining (g : group) (status : result string ExitStatus)
| SendFailure (ev : Event)
| Restarting                           (* wait_to_restart *)
| Stopping (g : group)                 (* stop_child: [child.wait()] *)
| StopDraining (g : group)
| Done.

Inductive Input :=
| Top (shutdown : bool) (spawned : result string group)
| Marker
| PipesClosed
| ChildExited (status : result string ExitStatus)
| ClientStopped
| ShutdownChanged
| Sent (ok : bool)
| Drained (stdout stderr : ReaderOutcome)
| DelayElapsed.

Inductive Action :=
| Spawned (g : group)
| StartClient
| SignalClient
| JoinedClient
| KillGroup (target : option N)
| StartKill
| Waited
| Emitted (ev : Event).

(** The group is signalled if its id is known and is a [pid_t]. *)
Definition terminate_process_group (g : group) : Action :=
  KillGroup (match g with
             | Some id => if (id <=? 2147483647)%N then Some id else None
             | None => None
             end).

(** The part of [stop_generation] before its first await. *)
Definition stop_child (g : group) : list Action := [terminate_process_group g; StartKill].

(** Whether the wait before a restart ended with the delay; a request to stop ends it
    as well. *)
Definition wait_to_restart (i : Input) : option bool :=
  match i with
  | DelayElapsed => Some true
  | ShutdownChanged => Some false
  | _ => None
  end.

Section Step.
Variable server_id : string.
Variable spec : CommandSpec.

Definition send_tunnel_failure (at_ : OffsetDateTime) (error : string) : Supervisor :=
  SendFailure (TunnelFailed server_id at_ error).

(** [at] is the wall clock when the step runs. *)
Definition tunnel_step (at_ : OffsetDateTime) (s : Supervisor) (i : Input)
    : option (Supervisor * list Action) :=
  match s, i with
  | LoopTop, Top true _ => Some (Done, [])
  | LoopTop, Top false (Err error) =>
      Some (send_tunnel_failure at_ ("Failed to start tunnel command: " +:+ error), [])
  | LoopTop, Top false (Ok g) =>
      match spec_readiness_probe spec with
      | None => Some (SendReady g (TunnelReady server_id at_), [Spawned g])
      | Some _ => Some (Starting g, [Spawned g])
      end
  | Starting g, Marker => Some (SendReady g (TunnelReady server_id at_), [])
  | Starting g, PipesClosed => Some (AwaitExit g, [])
  | Starting g, ChildExited status
  | AwaitExit g, ChildExited status =>
      Some (Draining g status, [Waited; terminate_process_group g])
  | Starting g, ShutdownChanged => Some (Stopping g, stop_child g)
  | SendReady g ev, Sent true => Some (Running g, [Emitted ev; StartClient])
  | SendReady g ev, Sent false => Some (Stopping g, stop_child g)
  | Running g, ChildExited status => Some (JoinThenFail g status, [Waited; SignalClient])
  | Running g, ClientStopped =>
      Some (Stopping g, JoinedClient :: SignalClient :: stop_child g)
  | Running g, ShutdownChanged => Some (JoinThenStop g, [SignalClient])
  | JoinThenFail g status, ClientStopped =>
      Some (Draining g status, [JoinedClient; terminate_process_group g])
  | JoinThenStop g, ClientStopped => Some (Stopping g, JoinedClient :: stop_child g)
  | Draining g status, Drained stdout stderr =>
      Some (send_tunnel_failure at_
              (failure_details status stdout stderr (spec_readiness_probe spec)), [])
  | SendFailure ev, Sent true => Some (Restarting, [Emitted ev])
  | SendFailure ev, Sent false => Some (Done, [])
  | Restarting, i =>
      restart ← wait_to_restart i;
      Some (if (restart : bool) then LoopTop else Done, [])
  | Stopping g, ChildExited _ => Some (StopDraining g, [Waited])
  | StopDraining g, Drained _ _ => Some (Done, [])
  | _, _ => None
  end.

(** A run: each input with the clock at which it arrives, and the actions. *)
Fixpoint tunnel_run (s : Supervisor) (inputs : list (OffsetDateTime * Input))
    : option (Supervisor * list (Input * list Action)) :=
  match inputs with
  | [] => Some (s, [])
  | (at_, i) :: rest =>
      '(s, actions) ← tunnel_step at_ s i;
      '(s, trace) ← tunnel_run s rest;
      Some (s, (i, actions) :: trace)
  end.
End Step.

(** ** Ownership

    What the supervisor owns, replayed from the inputs and actions of a run: a
    child that was spawned and not yet waited for, its process group if not yet
    signalled, a client task that was started and not yet joined, and whether
    the generation was declared ready. An action out of order has no result. *)

Record Owned := {
  own_child : bool;
  own_group : bool;
  own_client : bool;
  own_ready : bool;
}.
Definition nothing : Owned :=
  {| own_child := false; own_group := false; own_client := false; own_ready := false |}.

Definition guard_own (b : bool) (o : Owned) : option Owned := if b then Some o else None.

Section Monitor.
Variable spec : CommandSpec.

Definition observe_input (i : Input) (o : Owned) : Owned :=
  match i with
  | Marker => {| own_child := own_child o; own_group := own_group o;
                 own_client := own_client o; own_ready := true |}
  | _ => o
  end.

Definition observe_action (a : Action) (o : Owned) : option Owned :=
  let '{| own_child := child; own_group := grp; own_client := client; own_ready := ready |} := o in
  match a with
  | Spawned _ =>
      guard_own (negb child && negb grp && negb client)
        {| own_child := true; own_group := true; own_client := false;
           own_ready := bool_decide (spec_readiness_probe spec = None) |}
  | StartClient =>
      guard_own (child && ready && negb client)
        {| own_child := child; own_group := grp; own_client := true; own_ready := ready |}
  | SignalClient => Some o
  | JoinedClient =>
      guard_own client
        {| own_child := child; own_group := grp; own_client := false; own_ready := ready |}
  | KillGroup _ =>
      guard_own (grp && negb client)
        {| own_child := child; own_group := false; own_client := client; own_ready := ready |}
  | StartKill => guard_own (child && negb grp && negb client) o
  | Waited =>
      guard_own child
        {| own_child := false; own_group := grp; own_client := client; own_ready := ready |}
  | Emitted (TunnelReady _ _) => guard_own (child && ready && negb client) o
  | Emitted (TunnelFailed _ _ _) => guard_own (negb child && negb grp && negb client) o
  | Emitted _ => None
  end.

Definition observe (o : Owned) (entry : Input * list Action) : option Owned :=
  foldl (fun o a => o ≫= observe_action a) (Some (observe_input entry.1 o)) entry.2.

Definition replay (o : Owned) (trace : list (Input * list Action)) : option Owned :=
  foldl (fun o entry => o ≫= fun o => observe o entry) (Some o) trace.
End Monitor.

(** What is owned in each state. *)
Definition owns (spec : CommandSpec) (s : Supervisor) (o : Owned) : Prop :=
  match s with
  | LoopTop | Restarting | Done | SendFailure (TunnelFailed _ _ _) =>
      own_child o = false /\ own_group o = false /\ own_client o = false
  | Starting _ | AwaitExit _ =>
      own_child o = true /\ own_group o = true /\ own_client o = false
  | SendReady _ (TunnelReady _ _) =>
      own_child o = true /\ own_group o = true /\ own_client o = false /\ own_ready o = true
  | Running _ | JoinThenStop _ =>
      own_child o = true /\ own_group o = true /\ own_client o = true
  | JoinThenFail _ _ => own_child o = false /\ own_group o = true /\ own_client o = true
  | Draining _ _ | StopDraining _ =>
      own_child o = false /\ own_group o = false /\ own_client o = false
  | Stopping _ => own_child o = true /\ own_group o = false /\ own_client o = false
  | SendReady _ _ | SendFailure _ => False
  end.

Lemma tunnel_step_owns (id : string) (spec : CommandSpec) (at_ : OffsetDateTime)
    (s s' : Supervisor) (i : Input) (actions : list Action) (o : Owned) :
  owns spec s o -> tunnel_step id spec at_ s i = Some (s', actions) ->
  exists o', observe spec o (i, actions) = Some o' /\ owns spec s' o'.
Proof.
  destruct o as [child grp client ready]. unfold observe. simpl.
  destruct s, i; simpl; intros Ho Hs; try discriminate Hs;
    repeat match goal with
    | H : match ?x with _ => _ end = Some _ |- _ => destruct x eqn:?; try discriminate H
    | H : match ?ev with _ => _ end |- _ => destruct ev; try done
    end;
    injection Hs as <- <-; simpl in *; destruct_and?; simplify_eq/=;
    rewrite ?bool_decide_eq_true_2 by done; eexists; simpl; eauto 10.
Qed.

Lemma tunnel_run_owns (id : string) (spec : CommandSpec)
    (inputs : list (OffsetDateTime * Input)) (s s' : Supervisor)
    (trace : list (Input * list Action)) (o : Owned) :
  owns spec s o -> tunnel_run id spec s inputs = Some (s', trace) ->
  exists o', replay spec o trace = Some o' /\ owns spec s' o'.
Proof.
  revert s trace o. induction inputs as [|[at_ i] inputs IH]; intros s trace o Ho; simpl.
  { intros [= <- <-]. by exists o. }
  intros ([s1 actions] & Hs & ([s2 tr] & Hr & [= <- <-])%bind_Some)%bind_Some.
  destruct (tunnel_step_owns _ _ _ _ _ _ _ _ Ho Hs) as (o1 & H1 & Ho1).
  destruct (IH _ _ _ Ho1 Hr) as (o2 & H2 & Ho2). exists o2. split; [|done].
  unfold replay in *. simpl. by rewrite H1.
Qed.

(** ** Winding down *)

(** An input of a world in which shutdown is requested: the loop sees the flag. *)
Definition after_shutdown (i : Input) : bool :=
  match i with Top shutdown _ => shutdown | _ => true end.

Definition is_spawned (a : Action) : bool :=
  match a with Spawned _ => true | _ => false end.
Definition spawns (trace : list (Input * list Action)) : bool :=
  existsb (fun entry => existsb is_spawned entry.2) trace.

(** How many inputs are left at most. *)
Definition remaining (s : Supervisor) : nat :=
  match s with
  | Starting _ => 8
  | SendReady _ _ => 7
  | Running _ => 6
  | AwaitExit _ | JoinThenFail _ _ => 5
  | Draining _ _ => 4
  | SendFailure _ | JoinThenStop _ => 3
  | Restarting | Stopping _ => 2
  | LoopTop | StopDraining _ => 1
  | Done => 0
  end.

Lemma shutdown_step (id : string) (spec : CommandSpec) (at_ : OffsetDateTime)
    (s s' : Supervisor) (i : Input) (actions : list Action) :
  after_shutdown i = true -> tunnel_step id spec at_ s i = Some (s', actions) ->
  remaining s' < remaining s /\ existsb is_spawned actions = false.
Proof.
  intros Hi Hs. destruct s, i; simpl in Hs; try discriminate Hs;
    repeat match type of Hs with
    | match ?x with _ => _ end = Some _ => destruct x; try discriminate
    end; injection Hs as <- <-; simpl; split; lia || done.
Qed.

Lemma shutdown_run (id : string) (spec : CommandSpec)
    (inputs : list (OffsetDateTime * Input)) (s s' : Supervisor)
    (trace : list (Input * list Action)) :
  Forall (fun i => after_shutdown i.2 = true) inputs ->
  tunnel_run id spec s inputs = Some (s', trace) ->
  length inputs + remaining s' <= remaining s /\ spawns trace = false.
Proof.
  intros Hall. revert s trace. induction Hall as [|[at_ i] inputs Hi _ IH];
    intros s trace; simpl; [by intros [= <- <-]|].
  intros ([s1 actions] & Hs & ([s2 tr] & Hr & [= <- <-])%bind_Some)%bind_Some.
  destruct (shutdown_step _ _ _ _ _ _ _ Hi Hs) as [H1 Ha], (IH _ _ Hr) as [H2 Ht].
  simpl. rewrite Ha, Ht. split; [lia|done].
Qed.

(** What a state waits for that comes by itself: a send completes, a child that was killed
    or the client ends, the readers are drained, the delay elapses. A supervisor that is
    still starting or running also reacts to the request itself. A child that closed its
    pipes was not killed, and nothing makes it exit. *)
Definition awaits (s : Supervisor) (i : Input) : Prop :=
  match s with
  | LoopTop => exists spawned, i = Top true spawned
  | Starting _ | Running _ => i = ShutdownChanged
  | Stopping _ => exists status, i = ChildExited status
  | SendReady _ _ | SendFailure _ => exists ok, i = Sent ok
  | JoinThenFail _ _ | JoinThenStop _ => i = ClientStopped
  | Draining _ _ | StopDraining _ => exists stdout stderr, i = Drained stdout stderr
  | Restarting => i = DelayElapsed \/ i = ShutdownChanged
  | AwaitExit _ | Done => False
  end.

(** The child is waited for, but it was not killed. *)
Definition unkilled (s : Supervisor) : bool := match s with AwaitExit _ => true | _ => false end.

Lemma awaits_something (s : Supervisor) :
  s <> Done -> unkilled s = false -> exists i, awaits s i.
Proof.
  destruct s; simpl; intros Hd Hu; try done.
  - by exists (Top true (Err "")), (Err "").
  - by exists ShutdownChanged.
  - by exists (Sent true), true.
  - by exists ShutdownChanged.
  - by exists ClientStopped.
  - by exists ClientStopped.
  - by exists (Drained ReaderTimedOut ReaderTimedOut), ReaderTimedOut, ReaderTimedOut.
  - by exists (Sent true), true.
  - by exists ShutdownChanged; right.
  - by exists (ChildExited (Err "")), (Err "").
  - by exists (Drained ReaderTimedOut ReaderTimedOut), ReaderTimedOut, ReaderTimedOut.
Qed.

Lemma awaits_accepted (id : string) (spec : CommandSpec) (at_ : OffsetDateTime)
    (s : Supervisor) (i : Input) :
  awaits s i -> is_Some (tunnel_step id spec at_ s i).
Proof.
  destruct s; simpl; try done; intros; destruct_or?; naive_solver (destruct_all bool; eauto).
Qed.

(** ** Properties *)

(** C5: The supervisor never leaks or overlaps its generations. Over any run: a
    child is spawned only when the previous one was waited for, its process group
    signalled and its client joined; the client runs only inside a live child that
    was declared ready (its probe was seen, or it has none); a process group is
    signalled once, and only after its client was joined, and so is the child itself
    killed; readiness is reported before the client starts, and a
    failure only when nothing of the generation is left; and when the supervisor is
    done it owns nothing. *)
Theorem supervisor_ownership (id : string) (spec : CommandSpec)
    (inputs : list (OffsetDateTime * Input)) (s : Supervisor)
    (trace : list (Input * list Action)) :
  tunnel_run id spec LoopTop inputs = Some (s, trace) ->
  exists o, replay spec nothing trace = Some o /\
    (s = Done -> own_child o = false /\ own_group o = false /\ own_client o = false).
Proof.
  intros Hr. assert (owns spec LoopTop nothing) as H0 by done.
  destruct (tunnel_run_owns _ _ _ _ _ _ _ H0 Hr) as (o & H & Ho).
  exists o. split; [done|]. by intros ->.
Qed.

Definition demo_spec : CommandSpec :=
  {| spec_program := "tunnel"; spec_args := []; spec_readiness_probe := Some "UP" |}.
Definition demo_inputs : list (OffsetDateTime * Input) :=
  (fun i => (0%Z, i)) <$>
    [Top false (Ok (Some 7%N)); Marker; Sent true;
     ChildExited (Ok {| success := false; status_text := "exit status: 1" |});
     ClientStopped; Drained ReaderPanicked ReaderTimedOut; Sent true; DelayElapsed;
     Top false (Ok (Some 8%N)); ShutdownChanged; ChildExited (Err ""); Drained ReaderPanicked
       ReaderPanicked].

Lemma supervisor_ownership_witness :
  exists trace o,
    tunnel_run "prod" demo_spec LoopTop demo_inputs = Some (Done, trace) /\
    replay demo_spec nothing trace = Some o /\
    own_child o = false /\ own_group o = false /\ own_client o = false.
Proof.
  destruct (tunnel_run "prod" demo_spec LoopTop demo_inputs) as [[s trace]|] eqn:Hr;
    [|vm_compute in Hr; discriminate Hr].
  destruct (supervisor_ownership _ _ _ _ _ Hr) as (o & H1 & H2).
  assert (s = Done) as -> by (vm_compute in Hr; congruence).
  exists trace, o. split; [reflexivity|]. split; [exact H1|]. apply H2. reflexivity.
Defined.

(** From every state, once shutdown is requested, the supervisor spawns nothing more and
    takes at most eight inputs, whichever they are and in whatever order they come; and as
    long as it is not done, it waits for something that comes by itself and takes it,
    except that it waits for a child that closed its pipes without killing it. *)
Theorem supervisor_winds_down (id : string) (spec : CommandSpec)
    (inputs : list (OffsetDateTime * Input)) (s s' : Supervisor)
    (trace : list (Input * list Action)) :
  Forall (fun i => after_shutdown i.2 = true) inputs ->
  tunnel_run id spec s inputs = Some (s', trace) ->
  length inputs <= 8 /\ spawns trace = false /\
  (s' <> Done -> unkilled s' = false -> (exists i, awaits s' i) /\
     forall at_ i, awaits s' i -> is_Some (tunnel_step id spec at_ s' i)).
Proof.
  intros Hall Hr. destruct (shutdown_run _ _ _ _ _ _ Hall Hr) as [Hlen Hsp].
  split; [destruct s; simpl in Hlen; lia|]. split; [done|]. intros Hd Hu.
  split; [|intros at_ i; apply awaits_accepted].
  by apply awaits_something.
Qed.

Lemma supervisor_winds_down_witness :
  exists trace,
    tunnel_run "prod" demo_spec (Running (Some 7%N))
      [(0, ShutdownChanged); (0, ClientStopped); (0, ChildExited (Err ""))]%Z
      = Some (StopDraining (Some 7%N), trace) /\
    spawns trace = false /\ exists i, awaits (StopDraining (Some 7%N)) i.
Proof.
  destruct (tunnel_run "prod" demo_spec (Running (Some 7%N))
      [(0, ShutdownChanged); (0, ClientStopped); (0, ChildExited (Err ""))]%Z)
    as [[s trace]|] eqn:Hr; [|discriminate Hr].
  assert (s = StopDraining (Some 7%N)) as -> by (simpl in Hr; congruence).
  assert (Forall (fun i : OffsetDateTime * Input => after_shutdown i.2 = true)
      [(0, ShutdownChanged); (0, ClientStopped); (0, ChildExited (Err ""))]%Z) as Hall
    by (repeat constructor).
  destruct (supervisor_winds_down _ _ _ _ _ _ Hall Hr) as (_ & H1 & H2).
  exists trace. split; [reflexivity|]. split; [exact H1|]. by apply H2.
Defined.

(** A tunnel that closed both of its pipes before being ready is waited for with
    no regard to shutdown, and without being killed. *)
Lemma closed_pipes_ignore_shutdown (id : string) (spec : CommandSpec) (at_ : OffsetDateTime)
    (g : group) (probe : string) :
  spec_readiness_probe spec = Some probe ->
  exists trace,
    tunnel_run id spec LoopTop [(at_, Top false (Ok g)); (at_, PipesClosed)]
      = Some (AwaitExit g, trace) /\
    (forall at' , tunnel_step id spec at' (AwaitExit g) ShutdownChanged = None) /\
    forall k, KillGroup k ∉ trace ≫= snd.
Proof.
  intros Hp. simpl. rewrite Hp. simpl. eexists. split; [reflexivity|].
  split; [done|]. intros k H. simpl in H. set_solver.
Qed.

(** For a validated tunneled server the command is never a panic. A custom
    command is run as configured; an SSH tunnel runs [ssh] with a fixed list of
    options, a nonzero port, a forward from a loopback endpoint, the extra
    arguments, and last a destination that cannot be taken for an option. *)
Theorem for_server_spec (server : ServerConfig) (tunnel : TunnelConfig) :
  valid_server server -> cfg_addr server <> "" -> cfg_tunnel server = Some tunnel ->
  exists spec, for_server server = Some (Some spec) /\
    spec_program spec <> "" /\ spec_readiness_probe spec <> Some "" /\
    match tun_ssh tunnel with
    | None =>
        exists custom, tun_custom_command tunnel = Some custom /\
          spec_program spec :: spec_args spec = cmd_command custom
    | Some ssh =>
        loopback_endpoint (cfg_addr server) /\
        exists port destination,
          spec_args spec =
            ssh_options
            ++ ["-p"; pretty port; "-L"; cfg_addr server +:+ ":" +:+ ssh_remote_server_addr ssh]
            ++ ssh_extra_ssh_args ssh ++ [destination] /\
          (0 < port)%N /\ starts_with "-" destination = false /\
          spec_program spec = "ssh" /\ spec_readiness_probe spec = Some READY_MARKER
    end.
Proof.
  intros Hv Ha Ht. pose proof (valid_server_tunnel _ Hv _ Ht) as Hvt.
  unfold for_server. rewrite Ht. unfold valid_tunnel in Hvt.
  destruct (tun_ssh tunnel) as [ssh|], (tun_custom_command tunnel) as [custom|];
    try done.
  - destruct Hvt as [_ [Hu1 Hu2] _ Hl]. eexists. split; [reflexivity|].
    split; [done|]. split; [done|]. split; [by apply Hl|]. do 2 eexists.
    split; [reflexivity|]. split; [destruct (N.eqb_spec (ssh_port ssh) 0); lia|].
    split; [|done]. destruct (ssh_user ssh) as [|c user]; [done|].
    apply not_true_is_false. intros (rest & Heq)%starts_with_true.
    injection Heq as -> _. pose proof (starts_with_app "-" user) as Hm. simpl in Hm. congruence.
  - destruct Hvt as [(program & args & Hc & Hne) Hprobe]. rewrite Hc.
    eexists. split; [reflexivity|]. split; [done|]. split.
    + simpl. destruct (cmd_readiness_probe custom) as [probe|] eqn:Hp; [|done].
      simpl. intros [= He]. by apply (Hprobe probe).
    + by exists custom.
Qed.

Lemma for_server_spec_witness :
  exists spec, for_server (set_addr "127.0.0.1:40001" demo_tunneled) = Some (Some spec) /\
    spec_program spec <> "".
Proof.
  assert (validate (fun s => s) demo_resolved = Ok tt) as Hv
    by (vm_compute; reflexivity).
  apply validate_iff in Hv. destruct Hv as [_ _ Hv]. apply list.Forall_cons in Hv as [Hv _].
  destruct (for_server_spec _ {|
       tun_ssh := Some {| ssh_host := "host"; ssh_user := "me"; ssh_port := 0;
         ssh_remote_server_addr := "localhost:7700"; ssh_extra_ssh_args := [] |};
       tun_custom_command := None |} Hv) as (spec & H1 & H2 & _);
    [discriminate|reflexivity|].
  exists spec. split; [exact H1|exact H2].
Defined.
