(* ===== verification/Process.v ===== *)
(** * Processes of a tunnel

    The operating system beside the supervisor of
    [src/cmd/montray-ui/src/network/tunnel.rs]: a table of processes with their groups.
    The tunnel command is spawned in a group of its own ([spawn],
    [isolate_from_terminal_signals]), forks, and is signalled as a group
    ([terminate_process_group]). Processes fork, leave their group and exit between any
    two actions of the supervisor; an id is used again once no process and no group has
    it. A child that has exited keeps its id until it is waited for. An error of that
    wait is taken to mean that there is no child any more. *)

From Stdlib Require Import ZArith Lia.
From stdpp Require Import base gmap strings list option.
From S2P Require Import Prelude RustStr Domain Config Output Tunnel.

(** ** The process table *)

Inductive Owner := OfTunnel | OfOthers.
#[global] Instance Owner_eq_dec : EqDecision Owner.
Proof. solve_decision. Defined.

Record Proc := {
  pr_group : N;
  pr_owner : Owner;
  pr_left : bool;     (* it left the group it was started in *)
  pr_zombie : bool;   (* it has exited and is not waited for yet *)
}.

Record Os := {
  os_procs : gmap N Proc;
  os_child : option N;           (* the supervisor's child, until it is waited for *)
  os_killed : list (N * Owner);  (* what was hit by a signal to a group *)
}.

Definition free (procs : gmap N Proc) (id : N) : Prop :=
  procs !! id = None /\ map_Forall (fun _ p => pr_group p <> id) procs.
#[global] Instance free_dec procs id : Decision (free procs id).
Proof. apply _. Defined.

Definition pid_max : N := 2147483647.

Definition exited (p : Proc) : Proc :=
  {| pr_group := pr_group p; pr_owner := pr_owner p; pr_left := pr_left p; pr_zombie := true |}.

(** What other processes do. *)
Inductive OsEvent :=
| Forks (parent id : N)
| Leaves (id : N)    (* setsid or setpgid: a group of its own *)
| Exits (id : N).

Definition end_process (os : Os) (id : N) : gmap N Proc :=
  if decide (os_child os = Some id) then alter exited id (os_procs os)
  else delete id (os_procs os).

Definition with_procs (procs : gmap N Proc) (os : Os) : Os :=
  {| os_procs := procs; os_child := os_child os; os_killed := os_killed os |}.

Definition os_event (os : Os) (e : OsEvent) : option Os :=
  match e with
  | Forks parent id =>
      p ← os_procs os !! parent;
      if pr_zombie p then None
      else if decide (free (os_procs os) id) then Some (with_procs (<[id := p]> (os_procs os)) os)
      else None
  | Leaves id =>
      p ← os_procs os !! id;
      if pr_zombie p || bool_decide (pr_group p = id) then None
      else Some (with_procs (<[id := {| pr_group := id; pr_owner := pr_owner p;
                                        pr_left := true; pr_zombie := false |}]> (os_procs os)) os)
  | Exits id =>
      p ← os_procs os !! id;
      if pr_zombie p then None else Some (with_procs (end_process os id) os)
  end.

(** The command is started; [self] is the group of the application. *)
Definition os_spawn (command : ChildCommand) (self id : N) (os : Os) : option Os :=
  if decide (free (os_procs os) id /\ (id <= pid_max)%N) then
    let grp := match cc_process_group command with
               | Some 0%N => id
               | Some g => g
               | None => self
               end in
    Some {| os_procs := <[id := {| pr_group := grp; pr_owner := OfTunnel; pr_left := false;
                                   pr_zombie := false |}]> (os_procs os);
            os_child := Some id; os_killed := os_killed os |}
  else None.

(** [child.wait()] completes: the child has exited, and its id is given back. *)
Definition os_reap (os : Os) : option Os :=
  id ← os_child os;
  p ← os_procs os !! id;
  if pr_zombie p then
    Some {| os_procs := delete id (os_procs os); os_child := None; os_killed := os_killed os |}
  else None.

(** The processes that a signal to a group hits. *)
Definition in_group (g : N) (kv : N * Proc) : Prop :=
  pr_group kv.2 = g /\ pr_zombie kv.2 = false.
#[global] Instance in_group_dec g kv : Decision (in_group g kv).
Proof. apply _. Defined.

(** They are gone at once, but for the child, which is still to be waited for. *)
Definition os_kill_group (g : N) (os : Os) : Os :=
  {| os_procs := map_imap (fun id p =>
       if decide (in_group g (id, p)) then
         if decide (os_child os = Some id) then Some (exited p) else None
       else Some p) (os_procs os);
     os_child := os_child os;
     os_killed := os_killed os ++
       ((fun kv => (kv.1, pr_owner kv.2)) <$> map_to_list (filter (in_group g) (os_procs os))) |}.

Definition os_start_kill (os : Os) : Os :=
  match os_child os with
  | Some id => with_procs (alter exited id (os_procs os)) os
  | None => os
  end.

Definition os_action (os : Os) (a : Action) : Os :=
  match a with
  | KillGroup (Some g) => os_kill_group g os
  | StartKill => os_start_kill os
  | _ => os
  end.

(** ** The supervisor on it *)

Record Sys := {
  sys_sup : Supervisor;
  sys_todo : list Action;  (* of its current step *)
  sys_os : Os;
}.

Inductive Move :=
| Delivers (at_ : OffsetDateTime) (i : Input)
| Acts
| Happens (e : OsEvent).

Section Machine.
Variables (server_id : string) (spec : CommandSpec) (self : N).

(** What the completion of an await says of the table. *)
Definition os_input (os : Os) (i : Input) : option Os :=
  match i with
  | Top false (Ok g) => id ← g; os_spawn (spawn spec) self id os
  | ChildExited _ => os_reap os
  | _ => Some os
  end.

Definition sys_step (s : Sys) (m : Move) : option Sys :=
  match m, sys_todo s with
  | Delivers at_ i, [] =>
      os ← os_input (sys_os s) i;
      '(sup, actions) ← tunnel_step server_id spec at_ (sys_sup s) i;
      Some {| sys_sup := sup; sys_todo := actions; sys_os := os |}
  | Acts, a :: todo =>
      Some {| sys_sup := sys_sup s; sys_todo := todo; sys_os := os_action (sys_os s) a |}
  | Happens e, _ =>
      os ← os_event (sys_os s) e;
      Some {| sys_sup := sys_sup s; sys_todo := sys_todo s; sys_os := os |}
  | _, _ => None
  end.

Fixpoint sys_run (s : Sys) (moves : list Move) : option Sys :=
  match moves with
  | [] => Some s
  | m :: moves => s ← sys_step s m; sys_run s moves
  end.
End Machine.

Definition sys_start (procs : gmap N Proc) : Sys :=
  {| sys_sup := LoopTop; sys_todo := [];
     sys_os := {| os_procs := procs; os_child := None; os_killed := [] |} |}.

(** The group that is still to be signalled. *)
Fixpoint todo_group (todo : list Action) : option N :=
  match todo with
  | KillGroup (Some g) :: _ => Some g
  | _ :: todo => todo_group todo
  | [] => None
  end.
Definition sup_group (s : Supervisor) : option N :=
  match s with
  | Starting g | AwaitExit g | SendReady g _ | Running g | JoinThenFail g _ | JoinThenStop g => g
  | _ => None
  end.
Definition due (s : Sys) : option N :=
  match todo_group (sys_todo s) with Some g => Some g | None => sup_group (sys_sup s) end.

(** The system gives out an id while a group of that id is still to be signalled. *)
Definition recycles (s : Sys) (m : Move) : bool :=
  match m with
  | Happens (Forks _ id) => bool_decide (due s = Some id)
  | _ => false
  end.
Fixpoint run_recycles (id : string) (spec : CommandSpec) (self : N) (s : Sys) (moves : list Move)
    : bool :=
  match moves with
  | [] => false
  | m :: moves =>
      recycles s m ||
      match sys_step id spec self s m with
      | Some s => run_recycles id spec self s moves
      | None => false
      end
  end.

(** ** Lemmas on the table *)

(** Every process of the tunnel that is alive and stayed in its group is in the group
    that is still to be signalled. *)
Definition members_in (d : option N) (os : Os) : Prop :=
  forall id p, os_procs os !! id = Some p ->
    pr_owner p = OfTunnel -> pr_left p = false -> pr_zombie p = false -> d = Some (pr_group p).
(** Only the child is waited for. *)
Definition zombies_child (os : Os) : Prop :=
  forall id p, os_procs os !! id = Some p -> pr_zombie p = true -> os_child os = Some id.
(** The group that is still to be signalled, and its id, are the tunnel's. *)
Definition own_group (d : option N) (os : Os) : Prop :=
  forall g id p, d = Some g -> os_procs os !! id = Some p -> pr_group p = g \/ id = g ->
    pr_owner p = OfTunnel.
Definition only_tunnel_killed (os : Os) : Prop :=
  Forall (fun kv : N * Owner => kv.2 = OfTunnel) (os_killed os).

(** Splits a fact about a map that was changed at one key. *)
Ltac at_key H :=
  match type of H with
  | <[?i := _]> _ !! ?j = Some _ =>
      destruct (decide (i = j)) as [<-|?];
      [rewrite lookup_insert_eq in H|rewrite lookup_insert_ne in H by done]
  | delete ?i _ !! ?j = Some _ =>
      destruct (decide (i = j)) as [<-|?];
      [by rewrite lookup_delete_eq in H|rewrite lookup_delete_ne in H by done]
  | alter _ ?i _ !! ?j = Some _ =>
      destruct (decide (i = j)) as [<-|?];
      [rewrite lookup_alter_eq in H; apply fmap_Some in H as (? & ? & ->)
      |rewrite lookup_alter_ne in H by done]
  end; simplify_eq/=; try congruence; eauto.

Lemma event_child os e os' : os_event os e = Some os' ->
  os_child os' = os_child os /\ os_killed os' = os_killed os.
Proof.
  destruct e as [parent id|id|id]; simpl; intros (p & Hp & He)%bind_Some;
    destruct (pr_zombie p); try done; simpl in He.
  - case_decide; by simplify_eq.
  - case_bool_decide; by simplify_eq.
  - by simplify_eq.
Qed.

Lemma event_members d os e os' :
  os_event os e = Some os' -> members_in d os -> zombies_child os ->
  members_in d os' /\ zombies_child os'.
Proof.
  intros He Hm Hz. destruct e as [parent id|id|id]; simpl in He;
    apply bind_Some in He as (p & Hp & He); destruct (pr_zombie p) eqn:Hzp; try done; simpl in He.
  - case_decide; [|done]. injection He as <-.
    split; intros i q Hq; simpl in Hq; at_key Hq.
  - case_bool_decide; [done|]. injection He as <-.
    split; intros i q Hq; simpl in Hq; at_key Hq.
  - injection He as <-. unfold end_process. simpl.
    split; intros i q Hq; simpl in Hq; case_decide; at_key Hq.
Qed.

Lemma event_own d os e os' :
  os_event os e = Some os' -> (forall parent id, e = Forks parent id -> d <> Some id) ->
  own_group d os -> own_group d os'.
Proof.
  intros He Hfree Ho. destruct e as [parent id|id|id]; simpl in He;
    apply bind_Some in He as (p & Hp & He); destruct (pr_zombie p); try done; simpl in He.
  - case_decide; [|done]. injection He as <-. intros g i q Hd Hq Hg. simpl in Hq. at_key Hq.
    destruct Hg as [Hg| ->]; [by eapply (Ho g parent); eauto|]. by destruct (Hfree parent g).
  - case_bool_decide; [done|]. injection He as <-. intros g i q Hd Hq Hg. simpl in Hq. at_key Hq.
    destruct Hg as [-> | ->]; eapply (Ho g g); eauto.
  - injection He as <-. unfold end_process. intros g i q Hd Hq Hg. simpl in Hq.
    case_decide; at_key Hq.
Qed.

Lemma spawn_table spec self id os os' :
  os_spawn (spawn spec) self id os = Some os' -> os_child os = None ->
  members_in None os -> zombies_child os ->
  members_in (Some id) os' /\ zombies_child os' /\ own_group (Some id) os' /\
  os_killed os' = os_killed os /\ (id <= pid_max)%N.
Proof.
  unfold os_spawn. case_decide as Hd; [|done]. destruct Hd as [[Hnone Hgroups] Hmax].
  intros [= <-] Hchild Hm Hz. split; [|split; [|split; [|done]]].
  - intros i p Hp. simpl in Hp. at_key Hp. intros H1 H2 H3. by specialize (Hm i p Hp H1 H2 H3).
  - intros i p Hp Hzp. simpl in Hp. at_key Hp. specialize (Hz i p Hp Hzp). congruence.
  - intros g i p [= <-] Hp Hg. simpl in Hp. at_key Hp. exfalso.
    destruct Hg as [Hg| ->]; [|congruence]. by apply (Hgroups i p Hp).
Qed.

Lemma reap_table d os os' :
  os_reap os = Some os' ->
  os_child os' = None /\ os_killed os' = os_killed os /\
  (members_in d os -> members_in d os') /\ (zombies_child os -> zombies_child os') /\
  (own_group d os -> own_group d os').
Proof.
  unfold os_reap. intros (id & Hid & (p & Hp & Hr)%bind_Some)%bind_Some.
  destruct (pr_zombie p); [|done]. injection Hr as <-. split; [done|]. split; [done|].
  split; [|split].
  - intros Hm i q Hq. simpl in Hq. at_key Hq.
  - intros Hz i q Hq Hzq. simpl in Hq. at_key Hq. specialize (Hz i q Hq Hzq). congruence.
  - intros Ho g i q Hd Hq. simpl in Hq. at_key Hq.
Qed.

Lemma kill_lookup g os id p :
  os_procs (os_kill_group g os) !! id = Some p ->
  exists q, os_procs os !! id = Some q /\
    ((p = q /\ (pr_group q = g -> pr_zombie q = true)) \/ (p = exited q /\ os_child os = Some id)).
Proof.
  simpl. rewrite map_lookup_imap. intros (q & Hq & Hp)%bind_Some. exists q. split; [done|].
  unfold in_group in Hp. simpl in Hp. case_decide as Hg.
  - case_decide; [|done]. injection Hp as <-. auto.
  - injection Hp as <-. left. split; [done|]. intros He. destruct (pr_zombie q) eqn:Hz; [done|].
    by destruct Hg.
Qed.

Lemma kill_table g d os :
  members_in (Some g) os -> zombies_child os ->
  members_in d (os_kill_group g os) /\ zombies_child (os_kill_group g os).
Proof.
  intros Hm Hz. split; intros id p (q & Hq & [[-> Hg]|[-> Hc]])%kill_lookup; simpl; try done.
  - intros H1 H2 H3. specialize (Hm id q Hq H1 H2 H3) as [= ->].
    by rewrite Hg in H3.
  - by apply Hz.
Qed.

Lemma kill_own g os :
  own_group (Some g) os -> only_tunnel_killed os -> only_tunnel_killed (os_kill_group g os).
Proof.
  intros Ho Hk. apply Forall_app. split; [done|]. apply Forall_fmap, list.Forall_forall.
  intros [id p] [Hp Hin]%elem_of_map_to_list%map_lookup_filter_Some. simpl.
  destruct Hin as [Hg _]. eapply Ho; [done|exact Hp|by left].
Qed.
Lemma kill_keeps_own g d os : own_group d os -> own_group d (os_kill_group g os).
Proof.
  intros Ho g' id p Hd (q & Hq & [[-> _]|[-> _]])%kill_lookup Hg; eapply (Ho g' id q); eauto.
Qed.

Lemma start_kill_table d os :
  (members_in d os -> members_in d (os_start_kill os)) /\
  (zombies_child os -> zombies_child (os_start_kill os)) /\
  (own_group d os -> own_group d (os_start_kill os)) /\
  os_child (os_start_kill os) = os_child os /\ os_killed (os_start_kill os) = os_killed os.
Proof.
  unfold os_start_kill. destruct (os_child os) as [id|] eqn:Hc; [|done].
  split; [|split; [|split; [|done]]].
  - intros Hm i p Hp. simpl in Hp. at_key Hp.
  - intros Hz i p Hp Hzp. simpl in Hp. at_key Hp.
  - intros Ho g i p Hd Hp. simpl in Hp. at_key Hp.
Qed.

(** ** The invariant *)

Definition has_child (s : Supervisor) : bool :=
  match s with
  | Starting _ | AwaitExit _ | SendReady _ _ | Running _ | JoinThenStop _ | Stopping _ => true
  | _ => false
  end.
(** The group of a generation is known, and is a [pid_t]. *)
Definition known_group (s : Supervisor) : Prop :=
  match s with
  | Starting g | AwaitExit g | SendReady g _ | Running g | JoinThenFail g _ | JoinThenStop g =>
      exists id, g = Some id /\ (id <= pid_max)%N
  | _ => True
  end.

(** A group is signalled once, by the last step of its generation. *)
Fixpoint kills (todo : list Action) : nat :=
  match todo with
  | KillGroup (Some _) :: todo => S (kills todo)
  | _ :: todo => kills todo
  | [] => 0
  end.
Definition once (sup : Supervisor) (todo : list Action) : Prop :=
  kills todo = 0 \/ (kills todo = 1 /\ sup_group sup = None).

Record sys_ok (s : Sys) : Prop := {
  ok_once : once (sys_sup s) (sys_todo s);
  ok_group : known_group (sys_sup s);
  ok_child : has_child (sys_sup s) = false -> os_child (sys_os s) = None;
  ok_members : members_in (due s) (sys_os s);
  ok_zombies : zombies_child (sys_os s);
}.
Record sys_careful (s : Sys) : Prop := {
  careful_own : own_group (due s) (sys_os s);
  careful_killed : only_tunnel_killed (sys_os s);
}.

Lemma pid_in_range id : (id <= pid_max)%N -> (id <=? 2147483647)%N = true.
Proof. apply N.leb_le. Qed.

(** A step of the supervisor that starts no command. *)
Lemma step_due server_id spec at_ s i s' actions os os' :
  tunnel_step server_id spec at_ s i = Some (s', actions) -> known_group s ->
  (forall g, i <> Top false (Ok g)) ->
  due {| sys_sup := s'; sys_todo := actions; sys_os := os' |} =
    due {| sys_sup := s; sys_todo := []; sys_os := os |} /\ known_group s'.
Proof.
  intros Hs Hg Htop. unfold due. simpl.
  destruct s, i; simpl in Hs; try discriminate Hs;
    repeat match type of Hs with
    | match ?x with _ => _ end = Some _ => destruct x; try discriminate Hs
    end;
    try (exfalso; by eapply Htop);
    try apply bind_Some in Hs as (? & ? & Hs);
    try injection Hs as <- <-; simpl in *;
    try (destruct Hg as (id & -> & Hid); simpl; rewrite ?(pid_in_range _ Hid));
    simpl; eauto.
Qed.

(** The child is given up only where it was waited for. *)
Lemma step_child server_id spec at_ s i s' actions :
  tunnel_step server_id spec at_ s i = Some (s', actions) ->
  (forall status, i <> ChildExited status) -> has_child s' = false -> has_child s = false.
Proof.
  intros Hs Hi.
  destruct s, i; simpl in Hs; try discriminate Hs;
    repeat match type of Hs with
    | match ?x with _ => _ end = Some _ => destruct x; try discriminate Hs
    end; try (exfalso; by eapply Hi); try apply bind_Some in Hs as (? & ? & Hs);
    try injection Hs as <- <-; done.
Qed.

(** A command is started at the top of the loop only. *)
Lemma step_spawn server_id spec at_ s g s' actions :
  tunnel_step server_id spec at_ s (Top false (Ok g)) = Some (s', actions) ->
  s = LoopTop /\ has_child s' = true /\ sup_group s' = g /\ todo_group actions = None /\
  (known_group s' <-> exists id, g = Some id /\ (id <= pid_max)%N).
Proof.
  intros Hs. destruct s; simpl in Hs; try discriminate Hs.
  destruct (spec_readiness_probe spec); by injection Hs as <- <-.
Qed.

Lemma signals_group a :
  (exists g, a = KillGroup (Some g)) \/ (forall g, a <> KillGroup (Some g)).
Proof. destruct a as [| | | |[g|]| | |]; eauto. Qed.

Lemma due_act s todo a os os' :
  (forall g, a <> KillGroup (Some g)) ->
  due {| sys_sup := s; sys_todo := a :: todo; sys_os := os |} =
  due {| sys_sup := s; sys_todo := todo; sys_os := os' |}.
Proof. intros Ha. unfold due. simpl. destruct a as [| | | |[g|]| | |]; try done. by destruct (Ha g). Qed.

Lemma once_act sup a todo :
  once sup (a :: todo) ->
  once sup todo /\ forall g, a = KillGroup (Some g) ->
    forall os, due {| sys_sup := sup; sys_todo := todo; sys_os := os |} = None.
Proof.
  assert (kills todo = 0 -> todo_group todo = None) as H0.
  { induction todo as [|[| | | |[g|]| | |] todo IH]; simpl; auto; lia. }
  unfold once, due. simpl. intros Ho. destruct a as [| | | |[g|]| | |]; try (split; [done|by intros ? [=]]).
  destruct Ho as [[=]|[[= Hk] Hs]]. split; [auto|]. intros _ _ _. by rewrite H0, Hs.
Qed.

Lemma step_once server_id spec at_ s i s' actions :
  tunnel_step server_id spec at_ s i = Some (s', actions) -> once s' actions.
Proof.
  intros Hs. unfold once.
  destruct s, i; simpl in Hs; try discriminate Hs;
    repeat match type of Hs with
    | match ?x with _ => _ end = Some _ => destruct x; try discriminate Hs
    end; try apply bind_Some in Hs as (? & ? & Hs);
    injection Hs as <- <-; simpl; auto;
    repeat case_match; simplify_eq; auto.
Qed.

Section Steps.
Context (server_id : string) (spec : CommandSpec) (self : N).

Lemma sys_act_ok sup todo a os :
  sys_ok {| sys_sup := sup; sys_todo := a :: todo; sys_os := os |} ->
  sys_ok {| sys_sup := sup; sys_todo := todo; sys_os := os_action os a |}.
Proof.
  intros [Ht Hg Hc Hm Hz]. simpl in *. apply once_act in Ht as [Ht Ht'].
  destruct (signals_group a) as [[g ->]|Ha].
  - destruct (kill_table g (due {| sys_sup := sup; sys_todo := todo; sys_os := os_kill_group g os |})
      os) as [H1 H2]; [exact Hm|done|]. by split.
  - rewrite (due_act _ _ _ _ (os_action os a)) in Hm by done.
    destruct (start_kill_table (due {| sys_sup := sup; sys_todo := todo; sys_os := os_action os a |}) os)
      as (H1 & H2 & _ & H4 & _).
    destruct a as [| | | |[g|]| | |]; try (by split); [by destruct (Ha g)|].
    split; simpl; try done; [|by apply H1|by apply H2]. by rewrite H4.
Qed.

Lemma sys_act_careful sup todo a os :
  sys_careful {| sys_sup := sup; sys_todo := a :: todo; sys_os := os |} ->
  sys_ok {| sys_sup := sup; sys_todo := a :: todo; sys_os := os |} ->
  sys_careful {| sys_sup := sup; sys_todo := todo; sys_os := os_action os a |}.
Proof.
  intros [Ho Hk] [Ht _ _ _ _]. simpl in *. apply once_act in Ht as [_ Hdue].
  destruct (signals_group a) as [[g ->]|Ha].
  - split; simpl; [by rewrite (Hdue g eq_refl)|by apply kill_own].
  - rewrite (due_act _ _ _ _ (os_action os a)) in Ho by done.
    destruct (start_kill_table (due {| sys_sup := sup; sys_todo := todo; sys_os := os_action os a |}) os)
      as (_ & _ & H3 & _ & H5).
    destruct a as [| | | |[g|]| | |]; try (by split); [by destruct (Ha g)|].
    split; simpl; [by apply H3|]. unfold only_tunnel_killed. by rewrite H5.
Qed.

(** What an input that starts no command says of the table. *)
Lemma input_table d os i os' :
  os_input spec self os i = Some os' -> (forall g, i <> Top false (Ok g)) ->
  os_killed os' = os_killed os /\
  ((forall status, i <> ChildExited status) -> os' = os) /\
  ((exists status, i = ChildExited status) -> os_child os' = None) /\
  (members_in d os -> members_in d os') /\ (zombies_child os -> zombies_child os') /\
  (own_group d os -> own_group d os').
Proof.
  intros Hi Ht.
  assert ((exists status, i = ChildExited status) \/ (forall status, i <> ChildExited status))
    as [[status ->]|Hn] by (destruct i; eauto).
  - simpl in Hi. destruct (reap_table d _ _ Hi) as (H1 & H2 & H3). split; [done|].
    split; [|done]. intros H. by destruct (H status).
  - assert (os' = os) as ->; [|split; [done|]; split; [done|]; split; [|done]].
    + destruct i as [[] [g|]| | | | | | | |]; simpl in Hi; try congruence.
      * by destruct (Ht g).
      * by destruct (Hn status).
    + intros [status ->]. by destruct (Hn status).
Qed.

Lemma sys_deliver_ok sup os at_ i s' :
  sys_ok {| sys_sup := sup; sys_todo := []; sys_os := os |} ->
  sys_step server_id spec self {| sys_sup := sup; sys_todo := []; sys_os := os |}
    (Delivers at_ i) = Some s' ->
  sys_ok s' /\ (sys_careful {| sys_sup := sup; sys_todo := []; sys_os := os |} -> sys_careful s').
Proof.
  intros [_ Hg Hc Hm Hz] (os' & Hi & ([sup' actions] & Hs & [= <-])%bind_Some)%bind_Some.
  simpl in *. pose proof (step_once _ _ _ _ _ _ _ Hs) as Honce.
  assert ((exists g, i = Top false (Ok g)) \/ (forall g, i <> Top false (Ok g)))
    as [[g ->]|Ht] by (destruct i as [[] []| | | | | | | |]; eauto).
  - destruct (step_spawn _ _ _ _ _ _ _ Hs) as (-> & H1 & H2 & H3 & H4).
    simpl in Hi. apply bind_Some in Hi as (id & -> & Hi).
    destruct (spawn_table _ _ _ _ _ Hi (Hc eq_refl) Hm Hz) as (T1 & T2 & T3 & T4 & T5).
    assert (due {| sys_sup := sup'; sys_todo := actions; sys_os := os' |} = Some id) as Hdue
      by (unfold due; simpl; by rewrite H3, H2).
    split.
    + split; simpl; try done; [by apply H4; exists id|congruence|by rewrite Hdue].
    + intros [_ Hk]. split; [by rewrite Hdue|]. unfold only_tunnel_killed. simpl. by rewrite T4.
  - destruct (step_due _ _ _ _ _ _ _ os os' Hs Hg Ht) as [Hdue Hg'].
    destruct (input_table (due {| sys_sup := sup; sys_todo := []; sys_os := os |}) _ _ _ Hi Ht)
      as (I1 & I2 & I3 & I4 & I5 & I6).
    split.
    + split; simpl; try done; [|by rewrite Hdue; apply I4|by apply I5].
      intros Hh.
      assert ((exists status, i = ChildExited status) \/ (forall status, i <> ChildExited status))
        as [He|Hn] by (destruct i; eauto); [by apply I3|].
      rewrite (I2 Hn). apply Hc. by eapply step_child.
    + intros [Ho Hk]. split; [rewrite Hdue; by apply I6|]. unfold only_tunnel_killed. simpl.
      by rewrite I1.
Qed.

Lemma sys_step_ok s m s' :
  sys_ok s -> sys_step server_id spec self s m = Some s' ->
  sys_ok s' /\ (sys_careful s -> recycles s m = false -> sys_careful s').
Proof.
  destruct s as [sup todo os]. intros Hok Hs. destruct m as [at_ i| |e].
  - destruct todo; [|done]. destruct (sys_deliver_ok _ _ _ _ _ Hok Hs) as [H1 H2]. auto.
  - destruct todo as [|a todo]; [done|]. injection Hs as <-. simpl.
    split; [by apply sys_act_ok|]. intros Hca _. by apply sys_act_careful.
  - apply bind_Some in Hs as (os' & He & [= <-]). destruct Hok as [Ht Hg Hc Hm Hz]. simpl in *.
    destruct (event_child _ _ _ He) as [E1 E2].
    destruct (event_members _ _ _ _ He Hm Hz) as [E3 E4]. split.
    + split; simpl; try done. by rewrite E1.
    + intros [Ho Hk] Hr. split; [|unfold only_tunnel_killed; simpl; by rewrite E2].
      eapply event_own; [exact He| |exact Ho]. intros parent id -> Hd. simpl in Hr.
      by rewrite bool_decide_true in Hr.
Qed.

Lemma sys_run_ok s moves s' :
  sys_ok s -> sys_run server_id spec self s moves = Some s' ->
  sys_ok s' /\
  (sys_careful s -> run_recycles server_id spec self s moves = false -> sys_careful s').
Proof.
  revert s. induction moves as [|m moves IH]; intros s Hok; simpl; [by intros [= <-]|].
  intros (s1 & H1 & Hr)%bind_Some. destruct (sys_step_ok _ _ _ Hok H1) as [Hok1 Hca1].
  destruct (IH _ Hok1 Hr) as [Hok2 Hca2]. split; [done|]. rewrite H1.
  intros Hca [Hm Hms]%orb_false_elim. auto.
Qed.
End Steps.

(** Before the application starts a tunnel. *)
Definition none_of_tunnel (procs : gmap N Proc) : Prop :=
  map_Forall (fun _ p => pr_owner p = OfOthers /\ pr_zombie p = false) procs.

Lemma sys_start_ok procs :
  none_of_tunnel procs -> sys_ok (sys_start procs) /\ sys_careful (sys_start procs).
Proof.
  intros Hp. split; [split; simpl; try done; [by left|..]|split; [done|constructor]].
  - intros id p Hin Ho. destruct (Hp id p Hin) as [H1 _]. congruence.
  - intros id p Hin Hz. destruct (Hp id p Hin) as [_ H2]. congruence.
Qed.

(** The states between two generations, and the last. *)
Definition between (s : Supervisor) : bool :=
  match s with
  | LoopTop | Draining _ _ | SendFailure _ | Restarting | StopDraining _ | Done => true
  | _ => false
  end.

Lemma between_quiet s : between s = true -> has_child s = false /\ sup_group s = None.
Proof. by destruct s. Qed.

(** ** Properties *)

(** C6: A tunnel leaves no process behind and takes no other with it. Whatever its
    command forks and whatever else runs, when the supervisor is between two generations
    or done, every process that comes from the tunnel has left the group it was started
    in; and what was hit by the signals to its groups was all its own, as long as the
    system does not give out the id of a group that is still to be signalled. *)
Theorem tunnel_processes (server_id : string) (spec : CommandSpec) (self : N)
    (procs : gmap N Proc) (moves : list Move) (s : Sys) :
  none_of_tunnel procs -> sys_run server_id spec self (sys_start procs) moves = Some s ->
  (between (sys_sup s) = true -> sys_todo s = [] ->
   forall id p, os_procs (sys_os s) !! id = Some p -> pr_owner p = OfTunnel -> pr_left p = true) /\
  (run_recycles server_id spec self (sys_start procs) moves = false ->
   Forall (fun kv => kv.2 = OfTunnel) (os_killed (sys_os s))).
Proof.
  intros Hp Hr. destruct (sys_start_ok procs Hp) as [Hok Hca].
  destruct (sys_run_ok _ _ _ _ _ _ Hok Hr) as [[_ _ Hc Hm Hz] Hca']. split.
  - intros [Hh Hg]%between_quiet Htodo id p Hin Ho.
    destruct (pr_left p) eqn:Hl; [done|]. exfalso.
    destruct (pr_zombie p) eqn:Hzp.
    + specialize (Hz id p Hin Hzp). rewrite (Hc Hh) in Hz. done.
    + specialize (Hm id p Hin Ho Hl Hzp). unfold due in Hm. rewrite Htodo, Hg in Hm. done.
  - intros Hn. by destruct (Hca' Hca Hn).
Qed.

(** The application is process 10; the command forks a helper and a daemon. *)
Definition demo_procs : gmap N Proc :=
  {[ 10%N := {| pr_group := 10; pr_owner := OfOthers; pr_left := false; pr_zombie := false |} ]}.
Definition demo_command : CommandSpec :=
  {| spec_program := "tunnel"; spec_args := ["up"]; spec_readiness_probe := None |}.
Definition demo_moves : list Move :=
  [Delivers 0 (Top false (Ok (Some 100%N))); Acts; Happens (Forks 100 101); Happens (Forks 101 102);
   Happens (Leaves 102); Delivers 1 (Sent true); Acts; Acts;
   Delivers 2 ShutdownChanged; Acts; Delivers 3 ClientStopped; Acts; Acts; Acts;
   Delivers 4 (ChildExited (Err "killed")); Acts;
   Delivers 5 (Drained ReaderTimedOut ReaderTimedOut)].

Lemma demo_procs_none : none_of_tunnel demo_procs.
Proof. by apply map_Forall_singleton. Qed.
Lemma demo_processes :
  (fun s => (sys_sup s, sys_todo s, os_killed (sys_os s))) <$>
    sys_run "a" demo_command 10 (sys_start demo_procs) demo_moves =
  Some (Done, [], [(100%N, OfTunnel); (101%N, OfTunnel)]).
Proof. vm_compute. reflexivity. Qed.

Lemma tunnel_processes_witness :
  exists s, sys_run "a" demo_command 10 (sys_start demo_procs) demo_moves = Some s /\
    sys_sup s = Done /\ os_killed (sys_os s) = [(100%N, OfTunnel); (101%N, OfTunnel)] /\
    (forall id p, os_procs (sys_os s) !! id = Some p -> pr_owner p = OfTunnel -> pr_left p = true) /\
    Forall (fun kv => kv.2 = OfTunnel) (os_killed (sys_os s)).
Proof.
  destruct (proj1 (fmap_Some _ _ _) demo_processes) as (s & Hr & Hs). injection Hs as Hd Ht Hk.
  destruct (tunnel_processes "a" demo_command 10 demo_procs demo_moves s demo_procs_none Hr)
    as [H1 H2].
  exists s. split; [exact Hr|]. split; [symmetry; exact Hd|]. split; [symmetry; exact Hk|]. split.
  - apply H1; [rewrite <-Hd; reflexivity|symmetry; exact Ht].
  - apply H2. vm_compute. reflexivity.
Defined.

(** Where the system does give out such an id, another's process is hit: the command
    exits and is waited for, its id goes to a process of the application that becomes a
    group of its own, and only then the client is joined and the group signalled. *)
Definition recycling_moves : list Move :=
  [Delivers 0 (Top false (Ok (Some 100%N))); Acts; Delivers 1 (Sent true); Acts; Acts;
   Happens (Exits 100); Delivers 2 (ChildExited (Err "exited")); Acts; Acts;
   Happens (Forks 10 100); Happens (Leaves 100); Delivers 3 ClientStopped; Acts; Acts].
Example recycled_group_hit :
  (os_killed ∘ sys_os) <$> sys_run "a" demo_command 10 (sys_start demo_procs) recycling_moves =
    Some [(100%N, OfOthers)].
Proof. vm_compute. reflexivity. Qed.
