(* ===== verification/Protocol.v ===== *)
(** * Wire protocol

    [src/cmd/montray-ui/src/network/protocol.rs]: what a server message decodes
    to. The JSON reader that turns text into an envelope is a parameter; the
    decoding of a JSON value into the notification types is written out, as the
    derived deserializers do it: an object by field name, unknown fields
    ignored, or an array by position; omitted and null collections are empty. *)

From Stdlib Require Import ZArith Lia Ascii.
From stdpp Require Import base gmap strings list pretty option.
From S2P Require Import Prelude RustStr Domain.

(** ** JSON values *)

(** A number keeps the representation it was read with. *)
Inductive Number : Set :=
| PosInt (n : N)
| NegInt (z : Z)
| Float (text : string).

#[local] Set Warnings "-register-all".

(** [serde_json::Value]; a JSON object has one entry per key. *)
Inductive Value : Set :=
| Null
| VBool (b : bool)
| VNumber (n : Number)
| VString (s : string)
| VArray (items : list Value)
| VObject (entries : list (string * Value)).

Fixpoint lookup_entry (name : string) (entries : list (string * Value)) : option Value :=
  match entries with
  | [] => None
  | (k, v) :: rest => if bool_decide (k = name) then Some v else lookup_entry name rest
  end.

(** The fields of a struct with the given names: from an object by name, from an
    array by position, an array with too many elements being refused. *)
Definition fields (names : list string) (v : Value) : option (list (option Value)) :=
  match v with
  | VObject entries => Some ((fun name => lookup_entry name entries) <$> names)
  | VArray items =>
      if Nat.leb (length items) (length names)
      then Some ((Some <$> items) ++ replicate (length names - length items) None)
      else None
  | _ => None
  end.

(** ** Decoders of the field types; [None] is a deserialization error *)

Definition de_string (v : Value) : option string :=
  match v with VString s => Some s | _ => None end.
Definition de_bool (v : Value) : option bool :=
  match v with VBool b => Some b | _ => None end.

Definition i64_max : Z := 9223372036854775807.
Definition de_i64 (v : Value) : option Z :=
  match v with
  | VNumber (PosInt n) => if (Z.of_N n <=? i64_max)%Z then Some (Z.of_N n) else None
  | VNumber (NegInt z) => Some z
  | _ => None
  end.

(** A variant by its lower-case name, or as an object with that one key and a
    null. *)
Definition state_of_name (s : string) : option IncidentState :=
  if bool_decide (s = "ok") then Some IncidentOk
  else if bool_decide (s = "warning") then Some IncidentWarning
  else if bool_decide (s = "error") then Some IncidentError
  else None.
Definition de_incident_state (v : Value) : option IncidentState :=
  match v with
  | VString s => state_of_name s
  | VObject [(s, Null)] => state_of_name s
  | _ => None
  end.

(** A required field, and one with [#[serde(default)]]. *)
Definition required {A} (de : Value -> option A) (f : option Value) : option A :=
  f ≫= de.
Definition defaulted {A} (d : A) (de : Value -> option A) (f : option Value) : option A :=
  match f with Some v => de v | None => Some d end.

(** [Option::<T>::deserialize]. *)
Definition de_option {A} (de : Value -> option A) (v : Value) : option (option A) :=
  match v with Null => Some None | _ => Some <$> de v end.

Definition de_vec {A} (de : Value -> option A) (v : Value) : option (list A) :=
  match v with VArray items => mapM de items | _ => None end.

(** An explicit null is the empty collection. *)
Definition null_as_default {A} (de : Value -> option A) (v : Value) : option (list A) :=
  default [] <$> de_option (de_vec de) v.

Definition de_incident (v : Value) : option Incident :=
  fs ← fields ["key"; "state"; "details"; "incidentStartedAt"; "stale"] v;
  match fs with
  | [key; state; details; started; stale] =>
      key ← required de_string key;
      state ← required de_incident_state state;
      details ← defaulted "" de_string details;
      started ← required de_string started;
      stale ← defaulted false de_bool stale;
      Some {| inc_key := key; inc_state := state; inc_details := details;
              inc_started_at := started; inc_stale := stale |}
  | _ => None
  end.

Record OngoingIncidents := {
  og_total : list Incident;
  og_added : list Incident;
  og_removed : list Incident;
  og_updated : list Incident;
  og_num_items_ok : Z;
}.

Definition de_ongoing (v : Value) : option OngoingIncidents :=
  fs ← fields ["total"; "added"; "removed"; "updated"; "numItemsOK"] v;
  match fs with
  | [total; added; removed; updated; num] =>
      total ← defaulted [] (null_as_default de_incident) total;
      added ← defaulted [] (null_as_default de_incident) added;
      removed ← defaulted [] (null_as_default de_incident) removed;
      updated ← defaulted [] (null_as_default de_incident) updated;
      num ← defaulted 0%Z de_i64 num;
      Some {| og_total := total; og_added := added; og_removed := removed;
              og_updated := updated; og_num_items_ok := num |}
  | _ => None
  end.

Record WireNotification := {
  wn_time : option string;
  wn_ongoing : OngoingIncidents;
}.

Definition de_notification (v : Value) : option WireNotification :=
  fs ← fields ["time"; "ongoingIncidents"] v;
  match fs with
  | [time; ongoing] =>
      time ← defaulted None (de_option de_string) time;
      ongoing ← required de_ongoing ongoing;
      Some {| wn_time := time; wn_ongoing := ongoing |}
  | _ => None
  end.

(** ** Decoding a message *)

Record Envelope := {
  env_event : string;
  env_data : Value;
}.

Definition supported_event (event : string) : bool :=
  bool_decide (event = "OngoingIncidentsSnapshot") ||
  bool_decide (event = "OngoingIncidentsUpdate").

Section Decode.
Context `{Rfc3339}.
(** [serde_json::from_str::<Envelope>], and the texts of the deserialization and
    timestamp errors. *)
Variable from_str : string -> Result Envelope.
Variable value_error timestamp_error : string.

Definition validate_timestamp (timestamp : string) : Result unit :=
  match rfc3339_parse timestamp with
  | Some _ => Ok tt
  | None => Err [timestamp_error]
  end.

Definition item_path (name : string) (index : nat) : string :=
  "ongoingIncidents." +:+ name +:+ "[" +:+ pretty index +:+ "]".

Fixpoint validate_items (name : string) (items : list (nat * Incident)) : Result unit :=
  match items with
  | [] => Ok tt
  | (index, item) :: rest =>
      if is_empty (inc_key item) then bail (item_path name index +:+ ".key is empty")
      else
        _ ← with_context (item_path name index +:+ ".incidentStartedAt is invalid")
              (validate_timestamp (inc_started_at item));
        validate_items name rest
  end.

Fixpoint validate_lists (lists : list (string * list Incident)) : Result unit :=
  match lists with
  | [] => Ok tt
  | (name, items) :: rest =>
      _ ← validate_items name (enumerate items);
      validate_lists rest
  end.

Definition decode_text_message (text : string) : Result (option NotificationData) :=
  envelope ← with_context "decoding server message" (from_str text);
  let event := env_event envelope in
  if negb (supported_event event) then Ok None
  else if match env_data envelope with Null => true | _ => false end
  then bail ("decoding " +:+ event +:+ " data: notification is null")
  else
    notification ← with_context ("decoding " +:+ event +:+ " data")
      (opt_context value_error (de_notification (env_data envelope)));
    _ ← match wn_time notification with
        | Some timestamp =>
            with_context "notification time is invalid" (validate_timestamp timestamp)
        | None => Ok tt
        end;
    let ongoing := wn_ongoing notification in
    if Z.ltb (og_num_items_ok ongoing) 0
    then bail "ongoingIncidents.numItemsOK is negative"
    else
      _ ← validate_lists [("total", og_total ongoing); ("added", og_added ongoing);
                          ("removed", og_removed ongoing); ("updated", og_updated ongoing)];
      Ok (Some {| nd_total := og_total ongoing; nd_added := og_added ongoing;
                  nd_removed := og_removed ongoing; nd_updated := og_updated ongoing;
                  nd_num_items_ok := Z.to_N (og_num_items_ok ongoing) |}).
End Decode.

(** ** What a decoded notification satisfies *)

Definition valid_item `{Rfc3339} (i : Incident) : Prop :=
  inc_key i <> "" /\ is_Some (rfc3339_parse (inc_started_at i)).

Record valid_notification `{Rfc3339} (d : NotificationData) : Prop := {
  valid_total : Forall valid_item (nd_total d);
  valid_added : Forall valid_item (nd_added d);
  valid_removed : Forall valid_item (nd_removed d);
  valid_updated : Forall valid_item (nd_updated d);
  valid_count : (Z.of_N (nd_num_items_ok d) <= i64_max)%Z;
}.

Section DecodeLemmas.
Context `{Rfc3339} (value_error timestamp_error : string).

Lemma validate_timestamp_Ok (t : string) :
  validate_timestamp timestamp_error t = Ok tt <-> is_Some (rfc3339_parse t).
Proof.
  unfold validate_timestamp. destruct (rfc3339_parse t); split; done.
Qed.

Lemma validate_items_Ok (name : string) (items : list Incident) (i : nat) :
  validate_items timestamp_error name (enumerate_from i items) = Ok tt <->
  Forall valid_item items.
Proof.
  revert i. induction items as [|item items IH]; intros i; simpl.
  { split; [by constructor|done]. }
  rewrite list.Forall_cons. unfold valid_item at 1.
  destruct (is_empty (inc_key item)) eqn:He.
  - apply is_empty_true in He. split; [done|]. by intros [[? _] _].
  - apply is_empty_false in He. rewrite bind_Ok. split.
    + intros ([] & Ht & Hr). rewrite with_context_Ok, validate_timestamp_Ok in Ht.
      by apply IH in Hr.
    + intros [[_ Ht] Hr]. exists tt. rewrite with_context_Ok, validate_timestamp_Ok.
      by rewrite IH.
Qed.

Lemma validate_lists_Ok (lists : list (string * list Incident)) :
  validate_lists timestamp_error lists = Ok tt <->
  Forall (fun p => Forall valid_item p.2) lists.
Proof.
  induction lists as [|[name items] lists IH]; simpl; [by split; [constructor|]|].
  rewrite list.Forall_cons, <-IH, bind_Ok. unfold enumerate. split.
  - intros ([] & Hi%validate_items_Ok & Hr). done.
  - intros [Hi Hr]. exists tt. by rewrite validate_items_Ok.
Qed.
End DecodeLemmas.

(** ** A server's encoding

    Collections without elements are null, as Go encodes a nil slice. *)

Definition incident_state_value (s : IncidentState) : Value :=
  VString (match s with
           | IncidentOk => "ok" | IncidentWarning => "warning" | IncidentError => "error"
           end).

Definition incident_value (i : Incident) : Value :=
  VObject [("key", VString (inc_key i)); ("state", incident_state_value (inc_state i));
           ("details", VString (inc_details i));
           ("incidentStartedAt", VString (inc_started_at i));
           ("stale", VBool (inc_stale i))].

Definition incidents_value (l : list Incident) : Value :=
  match l with [] => Null | _ => VArray (incident_value <$> l) end.

Definition notification_value (time : option string) (d : NotificationData) : Value :=
  VObject (match time with Some t => [("time", VString t)] | None => [] end ++
    [("ongoingIncidents", VObject
       [("total", incidents_value (nd_total d)); ("added", incidents_value (nd_added d));
        ("removed", incidents_value (nd_removed d)); ("updated", incidents_value (nd_updated d));
        ("numItemsOK", VNumber (PosInt (nd_num_items_ok d)))])]).

Lemma de_incident_value (i : Incident) : de_incident (incident_value i) = Some i.
Proof. destruct i as [key [] details started stale]; reflexivity. Qed.

Lemma de_incidents_value (l : list Incident) :
  null_as_default de_incident (incidents_value l) = Some l.
Proof.
  destruct l as [|i l]; [done|]. unfold null_as_default, incidents_value, de_option, de_vec.
  assert (mapM de_incident (incident_value <$> i :: l) = Some (i :: l)) as ->; [|done].
  apply mapM_Some. generalize (i :: l). clear. intros l.
  induction l as [|x l IH]; csimpl; constructor; [apply de_incident_value|done].
Qed.

Lemma de_notification_value (time : option string) (d : NotificationData) :
  (Z.of_N (nd_num_items_ok d) <= i64_max)%Z ->
  de_notification (notification_value time d) = Some {|
    wn_time := time;
    wn_ongoing := {| og_total := nd_total d; og_added := nd_added d;
      og_removed := nd_removed d; og_updated := nd_updated d;
      og_num_items_ok := Z.of_N (nd_num_items_ok d) |} |}.
Proof.
  intros Hn.
  assert (de_ongoing (VObject
       [("total", incidents_value (nd_total d)); ("added", incidents_value (nd_added d));
        ("removed", incidents_value (nd_removed d)); ("updated", incidents_value (nd_updated d));
        ("numItemsOK", VNumber (PosInt (nd_num_items_ok d)))]) =
    Some {| og_total := nd_total d; og_added := nd_added d;
      og_removed := nd_removed d; og_updated := nd_updated d;
      og_num_items_ok := Z.of_N (nd_num_items_ok d) |}) as Ho.
  { unfold de_ongoing. cbn [fields]. csimpl.
    cbn [defaulted]. rewrite !de_incidents_value. simpl.
    apply Z.leb_le in Hn. by rewrite Hn. }
  unfold de_notification, notification_value. destruct time as [t|]; cbn [fields]; csimpl.
  all: cbn [required]; csimpl; by rewrite Ho.
Qed.

Lemma decode_Some `{Rfc3339} (from_str : string -> Result Envelope)
    (value_error timestamp_error text : string) (d : NotificationData) :
  decode_text_message from_str value_error timestamp_error text = Ok (Some d) ->
  Forall valid_item (nd_total d) /\ Forall valid_item (nd_added d) /\
  Forall valid_item (nd_removed d) /\ Forall valid_item (nd_updated d) /\
  exists envelope, from_str text = Ok envelope /\ supported_event (env_event envelope) = true.
Proof.
  unfold decode_text_message. intros (envelope & Hparse%with_context_Ok & He)%bind_Ok.
  destruct (supported_event (env_event envelope)) eqn:Hs; [|done]. cbn [negb] in He.
  destruct (match env_data envelope with Null => true | _ => false end); [done|]. inv_ok.
  destruct_if; [done|]. inv_ok. simplify_eq.
  match goal with u : unit, Hl : validate_lists _ _ = Ok _ |- _ =>
    destruct u; rewrite validate_lists_Ok, !list.Forall_cons in Hl end.
  simpl in *. naive_solver.
Qed.

(** ** Properties *)

(** C24: The decoder turns a server's encoding of a snapshot or an update back into
    the notification itself, null collections being empty ones. *)
Theorem decode_roundtrip `{Rfc3339} (from_str : string -> Result Envelope)
    (value_error timestamp_error text event : string) (time : option string)
    (d : NotificationData) :
  supported_event event = true -> valid_notification d ->
  (forall t, time = Some t -> is_Some (rfc3339_parse t)) ->
  from_str text = Ok {| env_event := event; env_data := notification_value time d |} ->
  decode_text_message from_str value_error timestamp_error text = Ok (Some d).
Proof.
  intros Hev [H1 H2 H3 H4 Hn] Ht Hparse. unfold decode_text_message.
  rewrite Hparse. cbn [with_context mbind result_bind env_event env_data].
  rewrite Hev. cbn [negb].
  rewrite de_notification_value by done.
  cbn [opt_context with_context mbind result_bind wn_time wn_ongoing
    og_num_items_ok og_total og_added og_removed og_updated notification_value].
  assert ((match time with
    | Some timestamp => with_context "notification time is invalid"
        (validate_timestamp timestamp_error timestamp)
    | None => Ok tt end) = Ok tt) as ->.
  { destruct time as [t|]; [|done]. rewrite with_context_Ok, validate_timestamp_Ok. by apply Ht. }
  cbn [mbind result_bind]. destruct (Z.ltb_spec (Z.of_N (nd_num_items_ok d)) 0); [lia|].
  rewrite (proj2 (validate_lists_Ok _ _)) by (repeat constructor; done).
  cbn [mbind result_bind]. rewrite N2Z.id. by destruct d.
Qed.

Definition wire_incident : Incident :=
  {| inc_key := "cpu"; inc_state := IncidentError; inc_details := "hot";
     inc_started_at := "1700000000"; inc_stale := false |}.
Definition wire_data : NotificationData :=
  {| nd_total := [wire_incident]; nd_added := [wire_incident]; nd_removed := [];
     nd_updated := []; nd_num_items_ok := 3 |}.

Lemma decode_roundtrip_witness :
  decode_text_message (H := decimal_rfc3339)
    (fun _ => Ok {| env_event := "OngoingIncidentsUpdate";
                    env_data := notification_value None wire_data |})
    "" "" "text" = Ok (Some wire_data).
Proof.
  apply (decode_roundtrip (H := decimal_rfc3339) _ "" "" "text" "OngoingIncidentsUpdate" None);
    [reflexivity| |discriminate|reflexivity].
  split; simpl; [..|unfold i64_max; lia].
  all: repeat constructor; try discriminate; simpl; by eexists.
Defined.

(** Whatever the bytes of a message, a decoded notification has nonempty keys
    and readable start times in all four lists, and came from a supported event; an
    unsupported event is ignored whatever its payload. *)
Theorem decode_sound `{Rfc3339} (from_str : string -> Result Envelope)
    (value_error timestamp_error text : string) :
  (forall d, decode_text_message from_str value_error timestamp_error text = Ok (Some d) ->
     Forall valid_item (nd_total d ++ nd_added d ++ nd_removed d ++ nd_updated d)) /\
  (decode_text_message from_str value_error timestamp_error text = Ok None <->
   exists envelope, from_str text = Ok envelope /\
     supported_event (env_event envelope) = false).
Proof.
  split.
  - intros d (H1 & H2 & H3 & H4 & _)%decode_Some. rewrite !Forall_app. done.
  - unfold decode_text_message. split.
    + intros He. inv_ok. eexists. split; [done|].
      match goal with |- supported_event ?e = _ => destruct (supported_event e) end; [|done].
      simpl in *. destruct_if; [done|]. inv_ok. destruct_if; [done|]. inv_ok. done.
    + intros (envelope & -> & Hs). simpl. by rewrite Hs.
Qed.
