(* ===== verification/Client.v ===== *)
(** * WebSocket client

    [src/cmd/montray-ui/src/network/client.rs]: preparation of a connection (TLS
    roots, bearer token, handshake request), and the reconnect loop
    [run_connection_loop_with_options] as a state machine over its awaits, in the
    manner of the tunnel supervisor. The file system, the certificate store, the
    HTTP types and the socket are parameters or inputs. *)

From Stdlib Require Import ZArith Lia Ascii.
From stdpp Require Import base gmap strings list pretty option.
From S2P Require Import Prelude RustStr RustNet Domain Config Output Protocol.

(** ** Addresses *)

(** [port_error] is the text of the integer parser's error. *)
Definition split_host_port (port_error : string -> string) (address : string)
    : Result (string * N) :=
  '(host, port) ←
    match strip_prefix "[" address with
    | Some rest => opt_context "address must be host:port" (split_once "]:" rest)
    | None => opt_context "address must be host:port" (rsplit_once ":" address)
    end;
  port ← with_context "address port is invalid"
           (match parse_u16 port with Some port => Ok port | None => Err [port_error port] end);
  Ok (host, port).

Definition uri_host (host : string) : string :=
  if contains ":" host && negb (starts_with "[" host) then "[" +:+ host +:+ "]" else host.

(** ** Preparation *)

(** The loaded certificates, before and after filtering the parsable ones. *)
Abbreviation certificate := string.

Record ClientEnv := {
  (** [fs::read_to_string]. *)
  read_to_string : string -> Result string;
  (** [HeaderValue::from_str]; its error names no input. *)
  header_value : string -> bool;
  header_error : string;
  (** The system roots that could be read. *)
  native_certs : list certificate;
  (** Opening the CA file, and reading its PEM certificates. *)
  open_ca : string -> Result (Result (list certificate));
  parsable : certificate -> bool;
  (** The TLS builder accepts the protocol versions. *)
  protocol_versions : Result unit;
  (** [into_client_request] of a URL. *)
  client_request : string -> Result unit;
  port_error : string -> string;
  (** The [{:?}] form of a path. *)
  debug_path : string -> string;
}.

Section Prepare.
Variable env : ClientEnv.

(** The complete [Authorization] value, kept out of every message. *)
Definition load_bearer_token (auth : AuthConfig) : Result string :=
  let path := debug_path env (bearer_token_file auth) in
  contents ← with_context ("read bearer token file " +:+ path)
               (read_to_string env (bearer_token_file auth));
  let token := trim contents in
  if is_empty token then bail ("bearer token file " +:+ path +:+ " is empty")
  else if any_byte is_ascii_whitespace token
  then bail ("bearer token file " +:+ path +:+ " contains whitespace inside the token")
  else
    with_context ("bearer token file " +:+ path +:+ " is not a valid HTTP token")
      (if header_value env ("Bearer " +:+ token) then Ok ("Bearer " +:+ token)
       else Err [header_error env]).

(** The trusted roots of a TLS connection. *)
Definition build_tls_config (tls : TlsConfig) : Result (list certificate) :=
  let native := filter (fun c => parsable env c = true) (native_certs env) in
  let message := "read TLS CA file " +:+ debug_path env (tls_ca_file tls) in
  roots ←
    (if is_empty (tls_ca_file tls) then Ok native
     else
       pem ← with_context message (open_ca env (tls_ca_file tls));
       certificates ← with_context message pem;
       let added := filter (fun c => parsable env c = true) certificates in
       if bool_decide (added = [])
       then bail ("TLS CA file " +:+ debug_path env (tls_ca_file tls) +:+
                  " contains no valid certificates")
       else Ok (native ++ added));
  if bool_decide (roots = [])
  then bail "load system CA certificates: no trusted certificates were found"
  else
    _ ← with_context "configure TLS 1.2 and TLS 1.3" (protocol_versions env);
    Ok roots.

Record ConnectionSetup := {
  scheme : string;
  connector : option (list certificate);
  bearer : option string;
  tls_name : option string;
}.

Definition setup_for_server (server : ServerConfig) : Result ConnectionSetup :=
  connector ← match cfg_tls server with
              | Some tls => Some <$> build_tls_config tls
              | None => Ok None
              end;
  bearer ← match cfg_auth server with
           | Some auth => Some <$> load_bearer_token auth
           | None => Ok None
           end;
  Ok {| scheme := match cfg_tls server with Some _ => "wss" | None => "ws" end;
        connector := connector;
        bearer := bearer;
        tls_name := tls ← cfg_tls server;
                    if negb (is_empty (tls_server_name tls))
                    then Some (tls_server_name tls) else None |}.

Record Request := {
  req_url : string;
  req_host : string;
  req_authorization : option string;
}.

Definition request (setup : ConnectionSetup) (server : ServerConfig) : Result Request :=
  authority ←
    match tls_name setup with
    | Some server_name =>
        '(_, port) ← split_host_port (port_error env) (cfg_addr server);
        Ok (uri_host server_name +:+ ":" +:+ pretty port)
    | None => Ok (cfg_addr server)
    end;
  let url := scheme setup +:+ "://" +:+ authority +:+ "/api/v1/wsconnect" in
  _ ← with_context ("build WebSocket request for " +:+ url) (client_request env url);
  host ← with_context "invalid WebSocket Host header"
           (if header_value env (cfg_addr server) then Ok (cfg_addr server)
            else Err [header_error env]);
  Ok {| req_url := url; req_host := host; req_authorization := bearer setup |}.
End Prepare.

(** ** Failure texts *)

Inductive WebSocketError :=
| WsHttp (status : N) (status_text : string)
| WsOther (text : string).

Definition websocket_connection_error (error : WebSocketError) (bearer_provided : bool)
    : string :=
  match error with
  | WsHttp status text =>
      if N.eqb status 401 then
        if bearer_provided then "server rejected the configured bearer token"
        else "server requires authentication, but no bearer token is configured"
      else "WebSocket handshake failed: " +:+ text
  | WsOther text => text
  end.

(** ** The reconnect loop *)

(** Durations are in seconds. *)
Record ClientOptions := {
  max_message_bytes : N;
  connect_timeout : N;
  read_timeout : N;
  reconnect_step : N;
  max_reconnect_delay : N;
}.
Definition ClientOptions_default : ClientOptions :=
  {| max_message_bytes := 1048576; connect_timeout := 30; read_timeout := 30;
     reconnect_step := 1; max_reconnect_delay := 10 |}.

(** The attempt itself: TCP, then the optional TLS and the WebSocket handshake, whose
    library is given. Messages and frames have the same limit. *)
Record WebSocketConfig := {
  ws_read_buffer_size : N;
  ws_max_message_size : option N;
  ws_max_frame_size : option N;
}.
Section Connect.
Context {stream socket : Type} (tcp_connect : string -> result string stream).
Context (io_error : string -> WebSocketError).
Context (client_async_tls_with_config : Request -> stream -> option WebSocketConfig ->
  option (list certificate) -> result WebSocketError socket).

Definition connect (server : ServerConfig) (setup : ConnectionSetup) (request : Request)
    (options : ClientOptions) : result WebSocketError socket :=
  match tcp_connect (cfg_addr server) with
  | Err e => Err (io_error e)
  | Ok stream =>
      client_async_tls_with_config request stream
        (Some {| ws_read_buffer_size := 4 * 1024;
                 ws_max_message_size := Some (max_message_bytes options);
                 ws_max_frame_size := Some (max_message_bytes options) |})
        (connector setup)
  end.
End Connect.

Inductive Message :=
| MText (text : string)
| MBinary (data : bytes)
| MClose
| MOther.

(** What the read of the next frame delivered within its deadline. *)
Inductive Next :=
| ReadTimeout
| StreamEnd
| StreamError (text : string)
| Frame (message : Message).

Inductive Client :=
| Preparing
| SendFatal (ev : Event)
| Sleeping (setup : ConnectionSetup) (delay : N)
| Connecting (setup : ConnectionSetup) (delay : N) (req : Request)
| Settling (setup : ConnectionSetup) (delay : N) (error : string)
| SendDisconnected (setup : ConnectionSetup) (delay : N) (ev : Event)
| SendConnected (setup : ConnectionSetup) (ev : Event)
| Reading (setup : ConnectionSetup)
| SendMessage (setup : ConnectionSetup) (ev : Event)
| Stopped.

Inductive ClientInput :=
| Prepared                             (* the task starts *)
| SleepElapsed
| ConnectDone (outcome : option (result WebSocketError unit))  (* [None]: timed out *)
| Settled (shutdown : bool)
| Received (next : Next)
| Changed                              (* shutdown.changed() *)
| Delivered (ok : bool).

(** What to do with the next frame: report an event, go on, or lose the
    connection with an error. *)
Inductive Reaction :=
| Report (ev : Event)
| Continue
| Lost (error : string).

Section Loop.
Context `{Rfc3339}.
Variable env : ClientEnv.
Variable server : ServerConfig.
Variable tunneled : bool.
Variable options : ClientOptions.
(** Parameters of the decoder, and the text of a UTF-8 error. *)
Variable from_str : string -> Result Envelope.
Variable value_error timestamp_error : string.
Variable utf8_error : bytes -> string.

Definition decoded (at_ : OffsetDateTime) (text : string) : Reaction :=
  match decode_text_message from_str value_error timestamp_error text with
  | Ok (Some data) => Report (Notification (cfg_id server) data at_)
  | Ok None => Continue
  | Err error => Lost (alternate error)
  end.

(** [std::str::from_utf8]: lossy decoding changes exactly the invalid inputs. *)
Definition from_utf8 (data : bytes) : option string :=
  if bool_decide (from_utf8_lossy data = as_str data) then Some (as_str data) else None.

Definition react (at_ : OffsetDateTime) (next : Next) : Reaction :=
  match next with
  | ReadTimeout =>
      Lost ("no server data received for " +:+ pretty (read_timeout options) +:+
            " seconds; reconnecting")
  | StreamEnd => Lost "WebSocket connection closed"
  | StreamError text => Lost text
  | Frame (MBinary data) =>
      if bool_decide (data = [ascii_of_N 0]) then Report (Heartbeat (cfg_id server) at_)
      else
        match from_utf8 data with
        | Some text => decoded at_ text
        | None => Lost ("decoding server message: " +:+ utf8_error data)
        end
  | Frame (MText text) =>
      if N.ltb (max_message_bytes options) (N.of_nat (String.length text))
      then Lost "server message exceeds 1 MiB"
      else decoded at_ text
  | Frame MClose => Lost "WebSocket connection closed"
  | Frame MOther => Continue
  end.

Definition next_delay (delay : N) : N :=
  N.min (delay + reconnect_step options) (max_reconnect_delay options).

(** The part of the loop from the request to the connection attempt. *)
Definition attempt (at_ : OffsetDateTime) (setup : ConnectionSetup) (delay : N) : Client :=
  match request env setup server with
  | Err error =>
      SendFatal (Disconnected (cfg_id server) at_ ("preparing connection: " +:+ alternate error))
  | Ok req => Connecting setup delay req
  end.

(** The top of the loop. *)
Definition top (at_ : OffsetDateTime) (setup : ConnectionSetup) (delay : N) : Client :=
  if negb (N.eqb delay 0) then Sleeping setup delay else attempt at_ setup delay.

(** A failed attempt or a lost connection, before it is reported. *)
Definition fail (at_ : OffsetDateTime) (setup : ConnectionSetup) (delay : N) (error : string)
    : Client :=
  if tunneled then Settling setup delay error
  else SendDisconnected setup delay (Disconnected (cfg_id server) at_ error).

Definition client_step (at_ : OffsetDateTime) (c : Client) (i : ClientInput) : option Client :=
  match c, i with
  | Preparing, Prepared =>
      Some (match setup_for_server env server with
            | Err error =>
                SendFatal (Disconnected (cfg_id server) at_
                  ("preparing connection: " +:+ alternate error))
            | Ok setup => top at_ setup 0
            end)
  | SendFatal _, Delivered _ => Some Stopped
  | Sleeping setup delay, SleepElapsed => Some (attempt at_ setup delay)
  | Sleeping _ _, Changed => Some Stopped
  | Connecting setup delay _, ConnectDone outcome =>
      Some (match outcome with
            | Some (Ok _) => SendConnected setup (Connected (cfg_id server) at_)
            | Some (Err error) =>
                fail at_ setup delay
                  (websocket_connection_error error (bool_decide (is_Some (bearer setup))))
            | None =>
                fail at_ setup delay ("connection attempt timed out after " +:+
                  pretty (connect_timeout options) +:+ " seconds")
            end)
  | Connecting _ _ _, Changed => Some Stopped
  | Settling setup delay error, Settled shutdown =>
      Some (if shutdown then Stopped
            else SendDisconnected setup delay (Disconnected (cfg_id server) at_ error))
  | Settling _ _ _, Changed => Some Stopped
  | SendDisconnected setup delay _, Delivered _ => Some (top at_ setup (next_delay delay))
  | SendConnected setup _, Delivered ok => Some (if ok then Reading setup else Stopped)
  | Reading setup, Received next =>
      Some (match react at_ next with
            | Report ev => SendMessage setup ev
            | Continue => Reading setup
            | Lost error => fail at_ setup 0 error
            end)
  | Reading _, Changed => Some Stopped
  | SendMessage setup _, Delivered ok => Some (if ok then Reading setup else Stopped)
  | _, _ => None
  end.

(** The event a state is sending. *)
Definition sending (c : Client) : option Event :=
  match c with
  | SendFatal ev | SendDisconnected _ _ ev | SendConnected _ ev | SendMessage _ ev => Some ev
  | _ => None
  end.

(** A run on a channel: the receiver closes for good, so that after one refused
    event none is delivered. The result is the final state, whether the channel
    is open, and the delivered events in order. *)
Fixpoint client_run (c : Client) (open : bool) (inputs : list (OffsetDateTime * ClientInput))
    : option (Client * bool * list Event) :=
  match inputs with
  | [] => Some (c, open, [])
  | (at_, i) :: rest =>
      let ok := match i with Delivered ok => ok | _ => open end in
      if ok && negb open then None
      else
        c' ← client_step at_ c i;
        '(c', open, events) ← client_run c' ok rest;
        Some (c', open,
          match i, sending c with
          | Delivered true, Some ev => ev :: events
          | _, _ => events
          end)
  end.
End Loop.

(** ** Sessions

    What the events of one client tell the application: whether the connection is
    up, and how many failures were reported in a row. An event out of order has no
    result. *)

Record Link := {
  link_up : bool;
  link_failures : nat;
}.
Definition link_start : Link := {| link_up := false; link_failures := 0 |}.

Definition link_step (id : string) (l : Link) (ev : Event) : option Link :=
  match ev with
  | Connected id' _ =>
      if bool_decide (id' = id) && negb (link_up l)
      then Some {| link_up := true; link_failures := 0 |} else None
  | Disconnected id' _ _ =>
      if bool_decide (id' = id)
      then Some {| link_up := false; link_failures := S (link_failures l) |} else None
  | Heartbeat id' _ | Notification id' _ _ =>
      if bool_decide (id' = id) && link_up l
      then Some l else None
  | _ => None
  end.

Fixpoint link_run (id : string) (l : Link) (events : list Event) : option Link :=
  match events with
  | [] => Some l
  | ev :: events => l ← link_step id l ev; link_run id l events
  end.

(** Ten seconds at most, one more per failure. *)
Definition backoff (failures : nat) : N := N.min (N.of_nat failures) 10.

Section LoopLemmas.
Context `{Rfc3339} (env : ClientEnv) (server : ServerConfig) (tunneled : bool).
Context (from_str : string -> Result Envelope) (value_error timestamp_error : string).
Context (utf8_error : bytes -> string).
Abbreviation options := ClientOptions_default.
Abbreviation step := (client_step env server tunneled options from_str value_error
  timestamp_error utf8_error).
Abbreviation run := (client_run env server tunneled options from_str value_error
  timestamp_error utf8_error).
Abbreviation id := (cfg_id server).

(** How a state of the client relates to what was reported. *)
Definition linked (c : Client) (l : Link) : Prop :=
  match c with
  | Preparing => l = link_start
  | SendFatal ev => exists at_ error, ev = Disconnected id at_ error
  | Sleeping _ delay | Connecting _ delay _ =>
      link_up l = false /\ delay = backoff (link_failures l)
  | Settling _ delay _ =>
      delay = backoff (link_failures l)
  | SendDisconnected _ delay ev =>
      delay = backoff (link_failures l) /\ exists at_ error, ev = Disconnected id at_ error
  | SendConnected _ ev => link_up l = false /\ exists at_, ev = Connected id at_
  | Reading _ => link_up l = true /\ link_failures l = 0
  | SendMessage _ ev =>
      link_up l = true /\ link_failures l = 0 /\
      ((exists at_, ev = Heartbeat id at_) \/ exists data at_, ev = Notification id data at_)
  | Stopped => True
  end.

Lemma next_delay_backoff (n : nat) : next_delay options (backoff n) = backoff (S n).
Proof. unfold next_delay, backoff. simpl. lia. Qed.

Lemma attempt_linked at_ setup delay l :
  link_up l = false -> delay = backoff (link_failures l) ->
  linked (attempt env server at_ setup delay) l.
Proof. intros. unfold attempt. destruct (request _ _ _); simpl; eauto. Qed.

Lemma top_linked at_ setup delay l :
  link_up l = false -> delay = backoff (link_failures l) ->
  linked (top env server at_ setup delay) l.
Proof.
  intros. unfold top. destruct (negb _); [done|]. by apply attempt_linked.
Qed.

Lemma fail_linked at_ setup delay error l :
  delay = backoff (link_failures l) ->
  linked (fail server tunneled at_ setup delay error) l.
Proof. intros ->. unfold fail. destruct tunneled; simpl; eauto. Qed.

Lemma react_linked at_ setup next l :
  linked (Reading setup) l ->
  linked match react server options from_str value_error timestamp_error utf8_error at_ next with
         | Report ev => SendMessage setup ev
         | Continue => Reading setup
         | Lost error => fail server tunneled at_ setup 0 error
         end l.
Proof.
  intros [Hu Hf].
  assert (forall r, match r with
    | Report ev => (exists at_, ev = Heartbeat id at_) \/
                   exists data at_, ev = Notification id data at_
    | _ => True end ->
    linked match r with
         | Report ev => SendMessage setup ev
         | Continue => Reading setup
         | Lost error => fail server tunneled at_ setup 0 error
         end l) as Hr.
  { intros [ev| |error] Hev; simpl; [done|done|]. apply fail_linked. by rewrite Hf. }
  apply Hr. clear Hr.
  unfold react, decoded. crush_match; eauto.
Qed.

(** One input: a delivered event is one the session admits. *)
Lemma step_linked at_ c i c' l :
  linked c l -> step at_ c i = Some c' -> i <> Delivered false ->
  match i, sending c with
  | Delivered true, Some ev => exists l', link_step id l ev = Some l' /\ linked c' l'
  | _, _ => linked c' l
  end.
Proof.
  intros Hl Hs Hi. destruct c, i; simpl in Hs; try discriminate Hs;
    try (match goal with ok : bool |- _ => destruct ok; [|done] end); simpl in *.
  - injection Hs as <-. destruct (setup_for_server env server); simpl; [|by eauto].
    subst. by apply top_linked.
  - injection Hs as <-. destruct Hl as (? & ? & ->). simpl.
    rewrite bool_decide_eq_true_2 by done. by eexists.
  - injection Hs as <-. destruct Hl. by apply attempt_linked.
  - by injection Hs as <-.
  - injection Hs as <-. destruct outcome as [[]|]; simpl.
    + destruct Hl as [-> _]. eauto.
    + destruct Hl. by apply fail_linked.
    + destruct Hl. by apply fail_linked.
  - by injection Hs as <-.
  - injection Hs as <-. destruct shutdown; simpl; eauto.
  - by injection Hs as <-.
  - injection Hs as <-. destruct Hl as (-> & ? & ? & ->). simpl.
    rewrite bool_decide_eq_true_2 by done. eexists. split; [reflexivity|].
    apply top_linked; [done|]. apply next_delay_backoff.
  - injection Hs as <-. destruct Hl as (Hu & ? & ->). simpl. rewrite Hu.
    rewrite bool_decide_eq_true_2 by done. simpl. eauto.
  - injection Hs as <-. by apply react_linked.
  - by injection Hs as <-.
  - injection Hs as <-. destruct Hl as (Hu & Hf & [(? & ->)|(? & ? & ->)]); simpl;
      rewrite Hu, bool_decide_eq_true_2 by done; simpl; eauto.
Qed.

Lemma run_linked inputs c open l c' open' events :
  (open = true -> linked c l) -> run c open inputs = Some (c', open', events) ->
  exists l', link_run id l events = Some l' /\ (open' = true -> open = true /\ linked c' l').
Proof.
  revert c open l events. induction inputs as [|[at_ i] inputs IH];
    intros c open l events Hl; simpl.
  { intros [= <- <- <-]. exists l. split; [done|]. auto. }
  assert (i = Delivered false \/ i <> Delivered false) as [->|Hi]
    by (destruct i as [| | | | | |[]]; auto).
  - simpl. intros (c1 & Hs & ([[c2 o2] evs] & Hr & [= <- <- <-])%bind_Some)%bind_Some.
    destruct (IH c1 false l evs) as (l' & Hl' & Ho); [done|done|].
    exists l'. split; [done|]. intros Ht. by destruct (Ho Ht).
  - destruct open.
    + rewrite andb_false_r.
      intros (c1 & Hs & ([[c2 o2] evs] & Hr & [= <- <- <-])%bind_Some)%bind_Some.
      pose proof (step_linked _ _ _ _ l (Hl eq_refl) Hs Hi) as Hstep.
      replace (match i with Delivered ok => ok | _ => true end) with true in Hr
        by (by destruct i as [| | | | | |[]]).
      destruct i as [| | | | | |[]], (sending c) as [ev|]; try done; simpl;
        try (by apply (IH c1 true l evs); auto).
      destruct Hstep as (l1 & -> & Hl1). simpl. by apply (IH c1 true l1 evs).
    + destruct i as [| | | | | |[]]; try done; simpl.
      all: intros (c1 & Hs & ([[c2 o2] evs] & Hr & [= <- <- <-])%bind_Some)%bind_Some.
      all: destruct (IH c1 false l evs) as (l' & Hl' & Ho); [done|done|].
      all: exists l'; split; [done|]; intros Ht; by destruct (Ho Ht).
Qed.
End LoopLemmas.

Lemma split_host_port_agrees (port_error : string -> string) (address host : string) (port : N) :
  endpoint address host port -> split_host_port port_error address = Ok (host, port).
Proof.
  intros (Hh & Hp & t & Ht & [[-> Hc]|(-> & Hc & Hs)]); unfold split_host_port.
  - rewrite strip_prefix_app, split_once_bracket by done. simpl. by rewrite Ht.
  - assert (strip_prefix "[" (host +:+ ":" +:+ t) = None) as ->.
    { destruct (strip_prefix "[" _) as [r|] eqn:E; [|done].
      apply strip_prefix_Some in E. destruct host as [|c host]; [done|].
      simpl in E. injection E as -> E. done. }
    change (":" +:+ t) with (String ":" t).
    rewrite rsplit_once_last by (by eapply port_text_no_colon). simpl. by rewrite Ht.
Qed.

(** ** Properties *)

(** C12: Over any run of the client, whatever the network and the clock do, the
    events it delivers form a session: the connection is reported up only from
    down, heartbeats and notifications only while it is up, all under the server's
    id; and while the client sleeps before an attempt, the delay is one second per
    failure reported since the last connection, ten at most. *)
Theorem client_session `{Rfc3339} (env : ClientEnv) (server : ServerConfig) (tunneled : bool)
    (from_str : string -> Result Envelope) (value_error timestamp_error : string)
    (utf8_error : bytes -> string) (inputs : list (OffsetDateTime * ClientInput))
    (c : Client) (open : bool) (events : list Event) :
  client_run env server tunneled ClientOptions_default from_str value_error timestamp_error
    utf8_error Preparing true inputs = Some (c, open, events) ->
  exists l, link_run (cfg_id server) link_start events = Some l /\
    (open = true -> forall setup delay, c = Sleeping setup delay ->
       link_up l = false /\ delay = N.min (N.of_nat (link_failures l)) 10).
Proof.
  intros Hr. eapply run_linked with (l := link_start) in Hr as (l & Hl & Ho); [|done].
  exists l. split; [done|]. intros Hop setup delay ->. by destruct (Ho Hop).
Qed.

Definition demo_env : ClientEnv :=
  {| read_to_string := fun _ => Ok ("secret" +:+ newline);
     header_value := fun _ => true; header_error := "";
     native_certs := []; open_ca := fun _ => Err []; parsable := fun _ => true;
     protocol_versions := Ok tt; client_request := fun _ => Ok tt;
     port_error := fun _ => ""; debug_path := fun p => p |}.
Definition demo_server : ServerConfig := set_addr "127.0.0.1:40001" demo_tunneled.
Definition demo_client_inputs : list (OffsetDateTime * ClientInput) :=
  (fun i => (0%Z, i)) <$>
    [Prepared;
     ConnectDone None; Delivered true; SleepElapsed;
     ConnectDone (Some (Ok tt)); Delivered true;
     Received (Frame (MBinary [ascii_of_N 0])); Delivered true;
     Received StreamEnd; Delivered true].

Lemma client_session_witness :
  exists c events l,
    client_run (H := decimal_rfc3339) demo_env demo_server false ClientOptions_default
      (fun _ => Err []) "" "" (fun _ => "") Preparing true demo_client_inputs
      = Some (c, true, events) /\
    link_run "prod" link_start events = Some l /\ length events = 4.
Proof.
  destruct (client_run (H := decimal_rfc3339) demo_env demo_server false ClientOptions_default
      (fun _ => Err []) "" "" (fun _ => "") Preparing true demo_client_inputs)
    as [[[c open] events]|] eqn:Hr; [|vm_compute in Hr; discriminate Hr].
  destruct (client_session _ _ _ _ _ _ _ _ _ _ _ Hr) as (l & H1 & _).
  vm_compute in Hr. injection Hr as <- <- <-.
  do 3 eexists. split; [reflexivity|]. split; [exact H1|reflexivity].
Defined.

(** The bearer value is the trimmed, nonempty content of the token file without
    whitespace; a failure names the file and carries the reader's or the header's
    error, and nothing of the content. *)
Theorem load_bearer_token_spec (env : ClientEnv) (auth : AuthConfig) :
  let path := debug_path env (bearer_token_file auth) in
  match load_bearer_token env auth with
  | Ok value => exists contents,
      read_to_string env (bearer_token_file auth) = Ok contents /\
      value = "Bearer " +:+ trim contents /\ trim contents <> "" /\
      any_byte is_ascii_whitespace (trim contents) = false
  | Err e =>
      (exists e0, read_to_string env (bearer_token_file auth) = Err e0 /\
         e = ("read bearer token file " +:+ path) :: e0) \/
      e = ["bearer token file " +:+ path +:+ " is empty"] \/
      e = ["bearer token file " +:+ path +:+ " contains whitespace inside the token"] \/
      e = ["bearer token file " +:+ path +:+ " is not a valid HTTP token"; header_error env]
  end.
Proof.
  intros path. unfold load_bearer_token. fold path.
  destruct (read_to_string env (bearer_token_file auth)) as [contents|e]; simpl; [|left; by eexists].
  destruct (is_empty (trim contents)) eqn:He; [right; left; reflexivity|]. apply is_empty_false in He.
  destruct (any_byte is_ascii_whitespace (trim contents)) eqn:Hw;
    [right; right; left; reflexivity|].
  destruct (header_value env _); simpl; [by exists contents|].
  right; right; right. reflexivity.
Qed.

(** The client reads the address of a validated server the way validation did,
    so that a request is refused only for its URL or its Host header; its Host
    header is the configured address and its authority has the configured port. *)
Theorem request_of_valid (env : ClientEnv) (setup : ConnectionSetup) (server : ServerConfig)
    (host : string) (port : N) :
  validate_host_port (cfg_addr server) = Ok (host, port) ->
  let authority := match tls_name setup with
                   | Some name => uri_host name +:+ ":" +:+ pretty port
                   | None => cfg_addr server
                   end in
  let url := scheme setup +:+ "://" +:+ authority +:+ "/api/v1/wsconnect" in
  split_host_port (port_error env) (cfg_addr server) = Ok (host, port) /\
  (client_request env url = Ok tt -> header_value env (cfg_addr server) = true ->
   request env setup server =
     Ok {| req_url := url; req_host := cfg_addr server;
           req_authorization := bearer setup |}).
Proof.
  intros Hep%validate_host_port_iff authority url.
  pose proof (split_host_port_agrees (port_error env) _ _ _ Hep) as Hs. split; [done|].
  intros Hc Hh. unfold request. subst url authority.
  destruct (tls_name setup) as [name|]; simpl in *; rewrite ?Hs; simpl;
    rewrite Hc; simpl; by rewrite Hh.
Qed.

Lemma request_of_valid_witness :
  split_host_port (fun _ => "") "[fe80::1]:8443" = Ok ("fe80::1", 8443%N).
Proof.
  apply (request_of_valid demo_env
    {| scheme := "ws"; connector := None; bearer := None; tls_name := None |}
    (set_addr "[fe80::1]:8443" demo_tunneled)). vm_compute. reflexivity.
Defined.

(** A frame is a heartbeat exactly if it is the single byte zero; silence, the
    end of the stream, an oversized text and undecodable data lose the connection;
    control frames do nothing. *)
Theorem react_spec `{Rfc3339} (server : ServerConfig) (options : ClientOptions)
    (from_str : string -> Result Envelope) (value_error timestamp_error : string)
    (utf8_error : bytes -> string) (at_ : OffsetDateTime) (next : Next) :
  let reaction := react server options from_str value_error timestamp_error utf8_error at_ next in
  (reaction = Report (Heartbeat (cfg_id server) at_) <->
     next = Frame (MBinary [ascii_of_N 0])) /\
  (forall data, reaction = Report (Notification (cfg_id server) data at_) <->
     exists text,
       decode_text_message from_str value_error timestamp_error text = Ok (Some data) /\
       ((next = Frame (MText text) /\
         (N.of_nat (String.length text) <= max_message_bytes options)%N) \/
        (exists raw, next = Frame (MBinary raw) /\ raw <> [ascii_of_N 0] /\
           from_utf8_lossy raw = as_str raw /\ text = as_str raw))).
Proof.
  intros reaction. subst reaction. unfold react, decoded, from_utf8.
  split.
  - split; [|by intros ->].
    crush_match; intros; simplify_eq/=; rewrite ?bool_decide_eq_true in *; congruence.
  - intros data. split.
    + crush_match; intros; simplify_eq/=; rewrite ?bool_decide_eq_true, ?bool_decide_eq_false in *;
        eexists; (split; [eassumption|]).
      * left. split; [done|]. by apply N.ltb_ge.
      * right. eauto 10.
    + intros (text & Hd & [[-> Hl]|(raw & -> & Hne & Hu & ->)]).
      * apply N.ltb_ge in Hl. by rewrite Hl, Hd.
      * rewrite bool_decide_eq_false_2, bool_decide_eq_true_2 by done. by rewrite Hd.
Qed.
