(* ===== verification/ClientTime.v ===== *)
(** * The client in time

    The awaits of [run_connection_loop_with_options] and [tunnel_stopped]
    ([src/cmd/montray-ui/src/network/client.rs]) with their clocks: [sleep] and
    [timeout] complete when their duration has passed and not much later. The reaction
    to a server that falls silent, and the attempts to reach one that is gone, are
    bounded in time. *)

From Stdlib Require Import ZArith Lia Ascii.
From stdpp Require Import base gmap strings list pretty option.
From S2P Require Import Prelude RustStr Domain Config Output Protocol Client.

(** Milliseconds. *)
Definition seconds (n : N) : N := 1000 * n.
Definition SETTLE : N := 50.

(** The duration of the timer of an await, if it has one. *)
Definition timer (options : ClientOptions) (c : Client) : option N :=
  match c with
  | Sleeping _ delay => Some (seconds delay)
  | Connecting _ _ _ => Some (seconds (connect_timeout options))
  | Settling _ _ _ => Some SETTLE
  | Reading _ => Some (seconds (read_timeout options))
  | _ => None
  end.

(** The branch of the timer. *)
Definition timed_out (i : ClientInput) : bool :=
  match i with
  | SleepElapsed | ConnectDone None | Settled _ | Received ReadTimeout => true
  | _ => false
  end.

(** An await ends [waited] after it began. [late] bounds how late a timer is noticed, and
    how long a send waits for the event channel. *)
Definition timely (late : N) (options : ClientOptions) (c : Client) (waited : N) (i : ClientInput)
    : bool :=
  match timer options c with
  | Some d => (negb (timed_out i) || N.leb d waited) && N.leb waited (d + late)
  | None => N.leb waited late
  end.

Lemma timely_bound late options c waited i :
  timely late options c waited i = true -> (waited <= default 0 (timer options c) + late)%N.
Proof.
  unfold timely. destruct (timer options c); simpl.
  - by intros [_ H%N.leb_le]%andb_true_iff.
  - by intros H%N.leb_le.
Qed.

Section Timed.
Context `{Rfc3339} (env : ClientEnv) (server : ServerConfig) (tunneled : bool).
Context (from_str : string -> Result Envelope) (value_error timestamp_error : string).
Context (utf8_error : bytes -> string) (late : N).
Abbreviation options := ClientOptions_default.

(** A run from a clock on: the clock at its end, the states it went through, and the
    delivered events with their time. *)
Fixpoint timed_run (now : N) (c : Client) (inputs : list (N * OffsetDateTime * ClientInput))
    : option (N * list Client * list (N * Event)) :=
  match inputs with
  | [] => Some (now, [], [])
  | (waited, at_, i) :: rest =>
      if timely late options c waited i then
        c' ← client_step env server tunneled options from_str value_error timestamp_error
               utf8_error at_ c i;
        let now := (now + waited)%N in
        '(last, states, events) ← timed_run now c' rest;
        Some (last, c' :: states,
          match i, sending c with
          | Delivered true, Some ev => (now, ev) :: events
          | _, _ => events
          end)
      else None
  end.

(** The inputs while the application runs: no shutdown, and an open channel. *)
Definition running (i : ClientInput) : bool :=
  match i with Changed | Settled true | Delivered false => false | _ => true end.
(** No data from the server. *)
Definition silent (i : ClientInput) : bool :=
  match i with Received (Frame _) => false | _ => true end.

(** ** Attempts *)

(** Neither connected, nor at an attempt, nor at an end. *)
Definition idle (c : Client) : bool :=
  match c with
  | Preparing | Sleeping _ _ | Settling _ _ _ | SendDisconnected _ _ _ => true
  | _ => false
  end.

(** How long the client stays idle at most, from a state on. *)
Definition patience (c : Client) : N :=
  match c with
  | Preparing => late
  | Sleeping _ delay => seconds delay + late
  | SendDisconnected _ delay _ => late + seconds (next_delay options delay) + late
  | Settling _ delay _ => SETTLE + late + late + seconds (next_delay options delay) + late
  | Connecting _ delay _ =>
      seconds (connect_timeout options) + late + SETTLE + late + late +
      seconds (next_delay options delay) + late
  | _ => 0
  end.
Definition rest_of (c : Client) : N := if idle c then patience c else 0.

Lemma attempt_rest at_ setup delay : rest_of (attempt env server at_ setup delay) = 0%N.
Proof. unfold attempt. by destruct (request env setup server). Qed.
Lemma top_rest at_ setup delay : (rest_of (top env server at_ setup delay) <= seconds delay + late)%N.
Proof.
  unfold top. destruct (negb _); [unfold rest_of; simpl; lia|]. rewrite attempt_rest. lia.
Qed.
Lemma fail_rest at_ setup delay error :
  (rest_of (fail server tunneled at_ setup delay error) <=
   SETTLE + late + late + seconds (next_delay options delay) + late)%N.
Proof. unfold fail, rest_of. destruct tunneled; simpl; lia. Qed.

Abbreviation step := (client_step env server tunneled options from_str value_error
  timestamp_error utf8_error).

Definition waiting (c : Client) : bool :=
  match c with Connecting _ _ _ => true | c => idle c end.

Lemma waiting_step c waited at_ i c' :
  timely late options c waited i = true -> running i = true -> waiting c = true ->
  step at_ c i = Some c' -> (waited + rest_of c' <= patience c)%N.
Proof.
  intros Ht%timely_bound. revert Ht.
  destruct c; simpl; try done; destruct i; simpl; try done; intros Ht Hr _ [= <-].
  - destruct (setup_for_server env server) as [setup|e]; [|unfold rest_of; simpl; lia].
    unfold top. simpl. rewrite attempt_rest. lia.
  - rewrite attempt_rest. lia.
  - pose proof (fail_rest at_ setup delay) as Hf. destruct outcome as [[[]|e]|];
      [unfold rest_of; simpl; lia|..];
      match goal with |- context [fail _ _ _ _ _ ?e] => specialize (Hf e) end; simpl in Ht; lia.
  - destruct shutdown; [done|]. unfold rest_of, SETTLE in *. simpl. lia.
  - pose proof (top_rest at_ setup (next_delay options delay)). lia.
Qed.

Lemma idle_waiting c : idle c = true -> waiting c = true.
Proof. by destruct c. Qed.

(** A run whose states but the last are idle. *)
Lemma idle_bound inputs c now last states events :
  Forall (fun x => running x.2 = true) inputs -> waiting c = true ->
  timed_run now c inputs = Some (last, states, events) ->
  Forall (fun c => idle c = true) (removelast states) -> (last <= now + patience c)%N.
Proof.
  intros Hr. revert c now last states events.
  induction Hr as [|[[waited at_] i] inputs Hi _ IH]; intros c now last states events Hc; simpl.
  { intros [= <- _ _] _. lia. }
  destruct (timely late options c waited i) eqn:Ht; [|done].
  intros (c' & Hs & ([[last' states'] events'] & Hrest & [= <- <- _])%bind_Some)%bind_Some.
  pose proof (waiting_step _ _ _ _ _ Ht Hi Hc Hs) as Hstep.
  destruct states' as [|c2 states']; intros Hall.
  - assert (last' = now + waited)%N as ->; [|lia].
    destruct inputs as [|[[w2 a2] i2] inputs]; simpl in Hrest; [by injection Hrest as <- _|].
    destruct (timely late options c' w2 i2); [|done].
    apply bind_Some in Hrest as (? & _ & ([[? ?] ?] & _ & [=])%bind_Some).
  - apply list.Forall_cons in Hall as [Hc' Hall].
    specialize (IH _ _ _ _ _ (idle_waiting _ Hc') Hrest Hall). unfold rest_of in Hstep.
    rewrite Hc' in Hstep. lia.
Qed.

(** ** The delay stays small *)

Definition delay_ok (c : Client) : Prop :=
  match c with
  | Sleeping _ delay | Connecting _ delay _ | Settling _ delay _ | SendDisconnected _ delay _ =>
      (delay <= 10)%N
  | _ => True
  end.

Lemma attempt_delay at_ setup delay : (delay <= 10)%N -> delay_ok (attempt env server at_ setup delay).
Proof. unfold attempt. by destruct (request env setup server). Qed.
Lemma top_delay at_ setup delay : (delay <= 10)%N -> delay_ok (top env server at_ setup delay).
Proof. unfold top. destruct (negb _); [done|apply attempt_delay]. Qed.
Lemma fail_delay at_ setup delay error :
  (delay <= 10)%N -> delay_ok (fail server tunneled at_ setup delay error).
Proof. unfold fail. by destruct tunneled. Qed.

Lemma step_delay at_ c i c' : delay_ok c -> step at_ c i = Some c' -> delay_ok c'.
Proof.
  intros Hc. destruct c, i; simpl in *; try done; intros [= <-]; try done.
  - destruct (setup_for_server env server); [|done]. by apply top_delay.
  - by apply attempt_delay.
  - destruct outcome as [[]|]; [done|by apply fail_delay..].
  - by destruct shutdown.
  - apply top_delay. unfold next_delay. simpl. lia.
  - by destruct ok.
  - destruct (react _ _ _ _ _ _ _ _); [done|done|]. by apply fail_delay.
  - by destruct ok.
Qed.

Lemma run_delay inputs c now last states events :
  delay_ok c -> timed_run now c inputs = Some (last, states, events) ->
  delay_ok (default c (list.last states)).
Proof.
  revert c now last states events. induction inputs as [|[[waited at_] i] inputs IH];
    intros c now last states events Hc; simpl; [by intros [= _ <- _]|].
  destruct (timely _ _ _ _ _); [|done].
  intros (c' & Hs & ([[last' states'] events'] & Hrest & [= _ <- _])%bind_Some)%bind_Some.
  apply step_delay in Hs; [|done]. specialize (IH _ _ _ _ _ Hs Hrest).
  rewrite last_cons. by destruct (list.last states').
Qed.

Lemma patience_bound c : delay_ok c -> (patience c <= 40050 + 4 * late)%N.
Proof.
  destruct c; simpl; unfold seconds, next_delay, SETTLE; simpl; intros; lia.
Qed.

(** ** Silence *)

(** A report that is being sent. *)
Lemma sending_reported inputs setup delay at_ error now last states events bound :
  Forall (fun x => running x.2 = true) inputs ->
  timed_run now (SendDisconnected setup delay (Disconnected (cfg_id server) at_ error)) inputs =
    Some (last, states, events) ->
  (now + late <= bound)%N -> (bound < last)%N ->
  exists t rest, events = (t, Disconnected (cfg_id server) at_ error) :: rest /\ (t <= bound)%N.
Proof.
  intros Hall Hrun Hb Hlong.
  destruct inputs as [|[[w a] i] inputs]; [injection Hrun as <- _ _; lia|].
  apply list.Forall_cons in Hall as [Hr _]. revert Hrun. cbn [timed_run].
  destruct (timely late options _ w i) eqn:T; [|done]. apply timely_bound in T. simpl in T.
  intros (c & Hs & ([[last1 states1] events1] & _ & [= -> _ <-])%bind_Some)%bind_Some.
  destruct i as [| | | | | |ok]; simpl in Hs; try done. destruct ok; [|done].
  eexists _, _. split; [reflexivity|]. lia.
Qed.

Lemma failed_reported inputs setup delay at_ error now last states events bound :
  Forall (fun x => running x.2 = true) inputs ->
  timed_run now (fail server tunneled at_ setup delay error) inputs = Some (last, states, events) ->
  (now + SETTLE + 2 * late <= bound)%N -> (bound < last)%N ->
  exists t at_ rest, events = (t, Disconnected (cfg_id server) at_ error) :: rest /\ (t <= bound)%N.
Proof.
  intros Hall Hrun Hb Hlong. unfold fail in Hrun. destruct tunneled.
  2: { eapply sending_reported in Hrun as (t & rest & Ht); eauto; lia. }
  destruct inputs as [|[[w a] i] inputs]; [injection Hrun as <- _ _; lia|].
  apply list.Forall_cons in Hall as [Hr Hall]. revert Hrun. cbn [timed_run].
  destruct (timely late options _ w i) eqn:T; [|done]. apply timely_bound in T. simpl in T.
  intros (c & Hs & ([[last1 states1] events1] & Hrun & [= -> _ <-])%bind_Some)%bind_Some.
  destruct i as [| | |shutdown| | |]; simpl in Hs; try done. destruct shutdown; [done|].
  injection Hs as <-. simpl.
  eapply sending_reported in Hrun as (t & rest & Ht); eauto; lia.
Qed.

Lemma silent_reported inputs setup now last states events :
  Forall (fun x => running x.2 = true) inputs -> Forall (fun x => silent x.2 = true) inputs ->
  timed_run now (Reading setup) inputs = Some (last, states, events) ->
  (now + 30050 + 3 * late < last)%N ->
  exists t at_ error rest, events = (t, Disconnected (cfg_id server) at_ error) :: rest /\
    (t <= now + 30050 + 3 * late)%N.
Proof.
  intros Hr Hq Hrun Hlong.
  destruct inputs as [|[[w a] i] inputs]; [injection Hrun as <- _ _; lia|].
  apply list.Forall_cons in Hr as [Hr1 Hr]. apply list.Forall_cons in Hq as [Hq1 _].
  revert Hrun. cbn [timed_run].
  destruct (timely late options _ w i) eqn:T; [|done]. apply timely_bound in T. simpl in T.
  intros (c & Hs & ([[last1 states1] events1] & Hrun & [= -> _ <-])%bind_Some)%bind_Some.
  destruct i as [| | | |next| |]; simpl in Hs; try done. injection Hs as <-.
  assert (exists error, match react server options from_str value_error timestamp_error utf8_error a next
    with Report ev => SendMessage setup ev | Continue => Reading setup
    | Lost error => fail server tunneled a setup 0 error end = fail server tunneled a setup 0 error)
    as (error & He) by (destruct next; try done; simpl; eauto).
  rewrite He in Hrun.
  eapply failed_reported in Hrun as (t & at_ & rest & Ht); eauto; unfold SETTLE, seconds in *; lia.
Qed.
End Timed.

(** ** Properties *)

(** C13: The client reacts in bounded time. Let timers be noticed and events taken within
    [late] milliseconds, and let awaits that have no timer (the hand-over of an event, the
    preparation of the connection) end within [late] as well. A connection on which the server falls silent, however that
    shows, is reported as lost within 30 seconds of the last data, and 50 milliseconds
    more for the settling of a tunnel; and once an attempt has begun or the connection
    was lost, the client is connected, or has begun the next attempt, or has given up on
    its configuration, within 40 seconds, however many attempts have failed. *)
Theorem client_timely `{Rfc3339} (env : ClientEnv) (server : ServerConfig) (tunneled : bool)
    (from_str : string -> Result Envelope) (value_error timestamp_error : string)
    (utf8_error : bytes -> string) (late : N)
    (before inputs : list (N * OffsetDateTime * ClientInput)) (now last : N)
    (states0 states : list Client) (events0 events : list (N * Event)) :
  let run := timed_run env server tunneled from_str value_error timestamp_error utf8_error late in
  let c := default Preparing (list.last states0) in
  run 0%N Preparing before = Some (now, states0, events0) ->
  run now c inputs = Some (last, states, events) ->
  Forall (fun x => running x.2 = true) inputs ->
  (forall setup, c = Reading setup -> Forall (fun x => silent x.2 = true) inputs ->
     (now + 30050 + 3 * late < last)%N ->
     exists t at_ error rest, events = (t, Disconnected (cfg_id server) at_ error) :: rest /\
       (t <= now + 30050 + 3 * late)%N) /\
  (waiting c = true -> Forall (fun c => idle c = true) (removelast states) ->
     (last <= now + 40050 + 4 * late)%N).
Proof.
  intros run c Hbefore Hrun Hr. split.
  - intros setup Hc Hq Hlong. rewrite Hc in Hrun. by eapply silent_reported.
  - intros Hc Hall. pose proof (idle_bound _ _ _ _ _ _ _ _ _ _ _ _ _ _ Hr Hc Hrun Hall).
    apply (run_delay _ _ _ _ _ _ _ _ _ Preparing) in Hbefore; [|done].
    pose proof (patience_bound late c Hbefore). lia.
Qed.

(** A connection that falls silent: the clock, and the delivered events. *)
Definition demo_timed (now : N) (c : Client) (inputs : list (N * OffsetDateTime * ClientInput))
    : option (N * list Client * list (N * Event)) :=
  timed_run (H := decimal_rfc3339) demo_env demo_server false (fun _ => Err []) "" "" (fun _ => "") 5
    now c inputs.
Definition demo_connects : list (N * OffsetDateTime * ClientInput) :=
  [(0%N, 0%Z, Prepared); (40%N, 0%Z, ConnectDone (Some (Ok tt))); (1%N, 0%Z, Delivered true)].
Definition demo_silence : list (N * OffsetDateTime * ClientInput) :=
  [(30001%N, 30%Z, Received ReadTimeout); (2%N, 30%Z, Delivered true); (1000%N, 31%Z, SleepElapsed)].

Lemma client_timely_witness :
  exists now states0 events0 last states events t at_ error rest,
    demo_timed 0 Preparing demo_connects = Some (now, states0, events0) /\
    demo_timed now (default Preparing (list.last states0)) demo_silence = Some (last, states, events) /\
    events = (t, Disconnected (cfg_id demo_server) at_ error) :: rest /\ (t <= now + 30065)%N.
Proof.
  destruct (demo_timed 0 Preparing demo_connects) as [[[now states0] events0]|] eqn:H1;
    [|vm_compute in H1; discriminate H1].
  assert (now = 41%N /\ exists setup, default Preparing (list.last states0) = Reading setup)
    as [-> [setup Hc]].
  { vm_compute in H1. injection H1 as <- <- _. vm_compute. eauto. }
  destruct (demo_timed 41 (default Preparing (list.last states0)) demo_silence)
    as [[[last states] events]|] eqn:H2; pose proof H2 as H3; rewrite Hc in H3; vm_compute in H3;
    [|discriminate H3]. injection H3 as <- _ _.
  destruct (client_timely (H := decimal_rfc3339) demo_env demo_server false (fun _ => Err []) "" ""
    (fun _ => "") 5 demo_connects demo_silence 41 31044 states0 states events0 events H1 H2)
    as [Hs _]; [by repeat constructor|].
  destruct (Hs setup Hc) as (t & at_ & error & rest & He & Ht); [by repeat constructor|lia|].
  exists 41%N, states0, events0, 31044%N, states, events, t, at_, error, rest.
  split; [reflexivity|]. split; [exact H2|]. split; [exact He|]. lia.
Defined.
