(* ===== verification/Runtime.v ===== *)
(** * Runtime event pump

    [src/cmd/montray-ui/src/runtime.rs]: the loop that owns the reducer. One turn
    takes an event (from the network, a user command, or the one-second tick),
    logs it, reduces it, carries out the effects (desktop notifications, durable
    snooze writes with their acknowledgement), and publishes a snapshot. Clocks
    and the outcome of the write are inputs of the turn. *)

From Stdlib Require Import ZArith Lia Ascii.
From stdpp Require Import base gmap strings list pretty option.
From S2P Require Import Prelude RustStr Domain Reducer ReducerSnooze ReducerNotify Config.

Definition MAX_LOG_DETAILS_CHARS : nat := 1000.

(** Monotonic instants, in nanoseconds. *)
Abbreviation Instant := Z.
Definition EXPIRY_PERSISTENCE_RETRY_DELAY : Z := 10000000000.

(** ** Log lines *)

Inductive Level : Set := LevelInfo | LevelDebug | LevelError.

Record EventLogLine : Set := {
  line_level : Level;
  line_message : string;
}.

Definition info (message : string) : EventLogLine :=
  {| line_level := LevelInfo; line_message := message |}.

(** Control characters and Unicode line separators become spaces. *)
Definition flatten_char (character : string) : string :=
  if is_control character || bool_decide (character = u2028) || bool_decide (character = u2029)
  then " " else character.

Definition log_details (details : string) : string :=
  let flattened := concat_chars (flatten_char <$> chars details) in
  let limited := concat_chars (take MAX_LOG_DETAILS_CHARS (chars flattened)) in
  match drop MAX_LOG_DETAILS_CHARS (chars flattened) with
  | [] => limited
  | _ :: _ => limited +:+ ellipsis
  end.

Definition incident_line (server_id action : string) (incident : Incident) : string :=
  let state := match inc_state incident with
               | IncidentOk => "ok"
               | IncidentWarning => "warning"
               | IncidentError => "error"
               end in
  let line := "server " +:+ server_id +:+ " " +:+ action +:+ " incident " +:+
              inc_key incident +:+ " (" +:+ state +:+ ")" in
  if negb (is_empty (inc_details incident))
  then line +:+ ": " +:+ log_details (inc_details incident) else line.

Record EventLogState := {
  awaiting_snapshot : gset string;
  synchronized : gset string;
}.
Definition EventLogState_default : EventLogState :=
  {| awaiting_snapshot := ∅; synchronized := ∅ |}.

Definition count {A} (l : list A) : string := pretty (length l).

Definition log_lines (self : EventLogState) (event : Event)
    : EventLogState * list EventLogLine :=
  match event with
  | Connected server_id _ =>
      ({| awaiting_snapshot := {[ server_id ]} ∪ awaiting_snapshot self;
          synchronized := synchronized self |}, [])
  | Notification server_id data _ =>
      let was_awaiting := bool_decide (server_id ∈ awaiting_snapshot self) in
      let first_snapshot := bool_decide (server_id ∉ synchronized self) in
      let self := {| awaiting_snapshot := awaiting_snapshot self ∖ {[ server_id ]};
                     synchronized := {[ server_id ]} ∪ synchronized self |} in
      (self,
       if was_awaiting || first_snapshot then
         info ("server " +:+ server_id +:+ " synchronized: " +:+ count (nd_total data) +:+
               " ongoing incidents")
         :: ((fun i => info (incident_line server_id "ongoing" i)) <$> nd_total data)
       else
         info ("server " +:+ server_id +:+ " incident update: " +:+ count (nd_added data) +:+
               " added, " +:+ count (nd_updated data) +:+ " updated, " +:+
               count (nd_removed data) +:+ " resolved; " +:+ count (nd_total data) +:+
               " ongoing incidents")
         :: ((fun i => info (incident_line server_id "added" i)) <$> nd_added data)
         ++ ((fun i => info (incident_line server_id "updated" i)) <$> nd_updated data)
         ++ ((fun i => info ("server " +:+ server_id +:+ " resolved incident " +:+ inc_key i))
               <$> nd_removed data))
  | Heartbeat server_id _ =>
      (self, [{| line_level := LevelDebug;
                 line_message := "server " +:+ server_id +:+ " received heartbeat" |}])
  | ForgetStale key => (self, [info ("forgot stale incident " +:+ key)])
  | _ => (self, [])
  end.

(** [OffsetDateTime::unix_timestamp]: whole seconds, rounded down. *)
Definition unix_timestamp (t : OffsetDateTime) : Z := t / 1000000000.

Definition snooze_success_lines (action : SnoozeAction) : list EventLogLine :=
  match action with
  | ActionSet key until =>
      [info ("snoozed incident " +:+ key +:+ " until " +:+ pretty (unix_timestamp until))]
  | ActionRemove key => [info ("unsnoozed incident " +:+ key)]
  | ActionExpire keys => (fun key => info ("snooze expired for incident " +:+ key)) <$> keys
  end.

(** ** Feedback on snooze writes *)

Definition snooze_failure_notification (action : SnoozeAction) (details : string)
    : option (string * string) :=
  let body := "The snooze state was not changed." +:+ newline +:+ newline +:+ details in
  match action with
  | ActionSet key _ => Some ("Failed to snooze incident " +:+ key, body)
  | ActionRemove key => Some ("Failed to unsnooze incident " +:+ key, body)
  | ActionExpire _ => None
  end.

Definition find_key (key : string) (l : list Incident) : option Incident :=
  snd <$> list_find (fun i => inc_key i = key) l.

Definition snooze_expiry_notifications (action : SnoozeAction) (state : AppState)
    (now : OffsetDateTime) : list (string * string) :=
  match action with
  | ActionExpire keys =>
      let active := ui_active (snapshot state now) in
      omap (fun key =>
        (fun i => ("Snooze ended: " +:+ inc_key i, inc_details i)) <$> find_key key active) keys
  | _ => []
  end.

Definition is_expire (action : SnoozeAction) : bool :=
  match action with ActionExpire _ => true | _ => false end.

Definition snooze_persistence_is_due (action : SnoozeAction)
    (expiry_retry_not_before : option Instant) (now : Instant) : bool :=
  negb (is_expire action) ||
  match expiry_retry_not_before with
  | None => true
  | Some deadline => Z.leb deadline now
  end.

(** ** Commands *)

Inductive Command : Set :=
| CommandSnooze (key : string) (duration : Z)
| CommandUnsnooze (key : string)
| CommandForgetStale (key : string).

(** The range of [OffsetDateTime], years -9999 to 9999, in nanoseconds. *)
Definition datetime_min : Z := -377705116800000000000.
Definition datetime_max : Z := 253402300799999999999.
Definition saturating_add (t : OffsetDateTime) (duration : Z) : OffsetDateTime :=
  Z.max datetime_min (Z.min datetime_max (t + duration)).

Definition command_event (now : OffsetDateTime) (command : Command) : Event :=
  match command with
  | CommandSnooze key duration => Snooze key (saturating_add now duration)
  | CommandUnsnooze key => Unsnooze key
  | CommandForgetStale key => ForgetStale key
  end.

(** ** One turn of the pump *)

(** How the blocking write ended. *)
Inductive WriteOutcome :=
| Written
| WriteFailed (error : anyhow)
| WorkerFailed (error : string).

(** What the select of one turn received, with the clocks and the write outcome
    the turn will see. *)
Inductive Source :=
| FromNetwork (event : Event)
| FromCommand (command : Command)
| FromTick.

Record Turn := {
  turn_source : Source;
  turn_wall : OffsetDateTime;      (* when the event is made *)
  turn_due : Instant;              (* at the due check *)
  turn_write : WriteOutcome;
  turn_failed : Instant;           (* after a failed write *)
  turn_reminder : OffsetDateTime;  (* for expiry reminders *)
  turn_publish : OffsetDateTime;   (* for the published snapshot *)
}.

Definition turn_event (t : Turn) : Event :=
  match turn_source t with
  | FromNetwork event => event
  | FromCommand command => command_event (turn_wall t) command
  | FromTick => Tick (turn_wall t)
  end.

(** Every observable act of the pump, in order. *)
Inductive Act :=
| Logged (line : EventLogLine)
| Enqueued (title body : string)
| Wrote (snoozes : gmap string OffsetDateTime) (action : SnoozeAction)
    (started : Instant) (outcome : WriteOutcome) (ended : Instant)
| Published (snapshot : UiSnapshot) (at_ : OffsetDateTime).

Record Pump := {
  pump_state : AppState;
  pump_logs : EventLogState;
  pump_retry : option Instant;
}.

Section Pump.
Context `{R : Rfc3339}.
(** Whether desktop delivery initialized. *)
Variable available : bool.

Definition enqueue_desktop_notification (title body : string) : list Act :=
  if available then [Enqueued title body] else [].

Definition error_line (message : string) : Act :=
  Logged {| line_level := LevelError; line_message := message |}.

(** A failed write, with the text to show. *)
Definition persist_failed (t : Turn) (action : SnoozeAction) (retry : option Instant)
    (details logged : string) : option Instant * list Act :=
  (if is_expire action then Some (turn_failed t + EXPIRY_PERSISTENCE_RETRY_DELAY)%Z else retry,
   error_line logged ::
     match snooze_failure_notification action details with
     | Some (title, body) => enqueue_desktop_notification title body
     | None => []
     end).

(** One effect: the state, the retry deadline, whether the state changed, and
    the acts. *)
Definition run_effect (t : Turn) (effect : Effect) (state : AppState) (retry : option Instant)
    : option (AppState * option Instant * bool * list Act) :=
  match effect with
  | Notify title body => Some (state, retry, false, enqueue_desktop_notification title body)
  | PersistSnoozes snoozes action =>
      if negb (snooze_persistence_is_due action retry (turn_due t))
      then Some (state, retry, false, [])
      else
        let wrote := Wrote snoozes action (turn_due t) (turn_write t) (turn_failed t) in
        match turn_write t with
        | Written =>
            '(state, committed) ← reduce state (SnoozesPersisted snoozes);
            Some (state, None, tr_changed committed,
              wrote :: (Logged <$> snooze_success_lines action) ++
              (snooze_expiry_notifications action state (turn_reminder t)
                 ≫= fun '(title, body) => enqueue_desktop_notification title body))
        | WriteFailed error =>
            let details := alternate error in
            let '(retry, acts) := persist_failed t action retry details
                                    ("failed to persist snoozes: " +:+ details) in
            Some (state, retry, false, wrote :: acts)
        | WorkerFailed error =>
            let details := "snooze persistence worker failed: " +:+ error in
            let '(retry, acts) := persist_failed t action retry details details in
            Some (state, retry, false, wrote :: acts)
        end
  end.

Fixpoint run_effects (t : Turn) (effects : list Effect) (state : AppState)
    (retry : option Instant) : option (AppState * option Instant * bool * list Act) :=
  match effects with
  | [] => Some (state, retry, false, [])
  | effect :: effects =>
      '(state, retry, changed, acts) ← run_effect t effect state retry;
      '(state, retry, changed', acts') ← run_effects t effects state retry;
      Some (state, retry, changed || changed', acts ++ acts')
  end.

Definition is_tick (event : Event) : bool :=
  match event with Tick _ => true | _ => false end.

Definition turn (p : Pump) (t : Turn) : option (Pump * list Act) :=
  let event := turn_event t in
  let refresh := is_tick event in
  let '(logs, lines) := log_lines (pump_logs p) event in
  '(state, transition) ← reduce (pump_state p) event;
  '(state, retry, changed, acts) ← run_effects t (tr_effects transition) state (pump_retry p);
  let publish :=
    if tr_changed transition || changed || refresh
    then [Published (snapshot state (turn_publish t)) (turn_publish t)] else [] in
  Some ({| pump_state := state; pump_logs := logs; pump_retry := retry |},
        (Logged <$> lines) ++ acts ++ publish).

Fixpoint pump (p : Pump) (turns : list Turn) : option (Pump * list Act) :=
  match turns with
  | [] => Some (p, [])
  | t :: turns =>
      '(p, acts) ← turn p t;
      '(p, acts') ← pump p turns;
      Some (p, acts ++ acts')
  end.

(** The whole of [run_async] up to shutdown: the initial state is published
    before the first turn. *)
Definition pump_start (config : Config) (snoozes : gmap string OffsetDateTime) : Pump :=
  {| pump_state := AppState_new (cfg_id <$> cfg_servers (ws_client config)) snoozes;
     pump_logs := EventLogState_default; pump_retry := None |}.

Definition run_async (config : Config) (snoozes : gmap string OffsetDateTime)
    (now : OffsetDateTime) (turns : list Turn) : option (Pump * list Act) :=
  let p := pump_start config snoozes in
  '(p', acts) ← pump p turns;
  Some (p', Published (snapshot (pump_state p) now) now :: acts).
End Pump.

(** ** Reference definitions *)

(** The snooze map on disk after some acts. *)
Definition disk (m : gmap string OffsetDateTime) (acts : list Act)
    : gmap string OffsetDateTime :=
  foldl (fun m act => match act with Wrote m' _ _ Written _ => m' | _ => m end) m acts.

(** The last published snapshot, and its instant. *)
Definition last_published (none : option (UiSnapshot * OffsetDateTime)) (acts : list Act)
    : option (UiSnapshot * OffsetDateTime) :=
  foldl (fun last act => match act with Published s at_ => Some (s, at_) | _ => last end)
    none acts.

(** The discipline of expiry writes: after a failed one, no other is started
    for ten seconds, unless some write succeeded. [None] is a violation. *)
Definition cooldown_step (deadline : option Instant) (act : Act) : option (option Instant) :=
  match act with
  | Wrote _ action started outcome ended =>
      if is_expire action && match deadline with Some d => Z.ltb started d | None => false end
      then None
      else
        match outcome with
        | Written => Some None
        | _ => Some (if is_expire action then Some (ended + 10000000000)%Z else deadline)
        end
  | _ => Some deadline
  end.
Definition cooldown (deadline : option Instant) (acts : list Act) : option (option Instant) :=
  foldl (fun d act => d ≫= fun d => cooldown_step d act) (Some deadline) acts.

(** The events network services send. *)
Definition network_event (e : Event) : bool :=
  match e with
  | Connected _ _ | Disconnected _ _ _ | TunnelReady _ _ | TunnelFailed _ _ _
  | Heartbeat _ _ | Notification _ _ _ => true
  | _ => false
  end.
Definition network_turn (t : Turn) : Prop :=
  match turn_source t with FromNetwork e => network_event e = true | _ => True end.

(** ** Lemmas *)

Lemma disk_app m acts acts' : disk m (acts ++ acts') = disk (disk m acts) acts'.
Proof. apply foldl_app. Qed.
Lemma last_published_app none acts acts' :
  last_published none (acts ++ acts') = last_published (last_published none acts) acts'.
Proof. apply foldl_app. Qed.
Lemma cooldown_app d acts acts' :
  cooldown d (acts ++ acts') = cooldown d acts ≫= fun d => cooldown d acts'.
Proof.
  unfold cooldown. rewrite foldl_app. destruct (foldl _ (Some d) acts); [done|]. simpl.
  induction acts'; done.
Qed.

Lemma last_published_cons none s at_ acts :
  last_published none (Published s at_ :: acts) = last_published (Some (s, at_)) acts.
Proof. done. Qed.

Lemma cooldown_cons d act acts :
  cooldown d (act :: acts) = cooldown_step d act ≫= fun d => cooldown d acts.
Proof. change (act :: acts) with ([act] ++ acts). apply cooldown_app. Qed.

Lemma cooldown_step_due m action retry started outcome ended :
  snooze_persistence_is_due action retry started = true ->
  cooldown_step retry (Wrote m action started outcome ended) =
    match outcome with
    | Written => Some None
    | _ => Some (if is_expire action then Some (ended + 10000000000)%Z else retry)
    end.
Proof.
  unfold snooze_persistence_is_due, cooldown_step.
  destruct (is_expire action); [|done]. destruct retry as [d|]; [|done].
  cbn [negb orb andb]. intros Hd. by rewrite Z.ltb_antisym, Hd.
Qed.

(** Acts other than writes and publications. *)
Definition quiet (act : Act) : Prop :=
  match act with Logged _ | Enqueued _ _ => True | _ => False end.

Lemma quiet_disk m acts : Forall quiet acts -> disk m acts = m.
Proof. induction 1 as [|act acts Hq _ IH]; [done|]. by destruct act. Qed.
Lemma quiet_published none acts : Forall quiet acts -> last_published none acts = none.
Proof. induction 1 as [|act acts Hq _ IH]; [done|]. by destruct act. Qed.
Lemma quiet_cooldown d acts : Forall quiet acts -> cooldown d acts = Some d.
Proof. induction 1 as [|act acts Hq _ IH]; [done|]. by destruct act. Qed.

Section PumpLemmas.
Context `{R : Rfc3339} (available : bool).

Lemma quiet_logged lines : Forall quiet (Logged <$> lines).
Proof. induction lines; csimpl; by constructor. Qed.
Lemma quiet_enqueue title body : Forall quiet (enqueue_desktop_notification available title body).
Proof. unfold enqueue_desktop_notification. destruct available; by repeat constructor. Qed.
Lemma quiet_reminders l :
  Forall quiet (l ≫= fun '(title, body) => enqueue_desktop_notification available title body).
Proof.
  induction l as [|[title body] l IH]; csimpl; [constructor|].
  apply Forall_app. split; [apply quiet_enqueue|done].
Qed.
Lemma quiet_failed t action retry details logged :
  Forall quiet (persist_failed available t action retry details logged).2.
Proof.
  simpl. constructor; [done|].
  destruct (snooze_failure_notification action details) as [[title body]|];
    [apply quiet_enqueue|constructor].
Qed.
Hint Resolve quiet_logged quiet_enqueue quiet_reminders quiet_failed : montray.

(** What the effects of one turn do to the durable map, the published snapshot
    and the retry deadline. *)
Record accounted (state state' : AppState) (retry retry' : option Instant) (changed : bool)
    (acts : list Act) : Prop := {
  accounted_disk : snoozed state' = disk (snoozed state) acts;
  accounted_frame : state' = set_snoozed (snoozed state') state;
  accounted_unchanged : changed = false -> state' = state;
  accounted_published : forall none, last_published none acts = none;
  accounted_cooldown : cooldown retry acts = Some retry';
}.

Lemma set_snoozed_self s : set_snoozed (snoozed s) s = s.
Proof. by destruct s. Qed.

Lemma accounted_quiet state retry acts :
  Forall quiet acts -> accounted state state retry retry false acts.
Proof.
  intros Hq. split.
  - by rewrite quiet_disk.
  - by rewrite set_snoozed_self.
  - done.
  - intros none. by apply quiet_published.
  - by apply quiet_cooldown.
Qed.

Lemma accounted_wrote_failed state retry retry' snoozes action t outcome acts :
  Forall quiet acts -> outcome <> Written ->
  snooze_persistence_is_due action retry (turn_due t) = true ->
  retry' = (if is_expire action then Some (turn_failed t + EXPIRY_PERSISTENCE_RETRY_DELAY)%Z
            else retry) ->
  accounted state state retry retry' false
    (Wrote snoozes action (turn_due t) outcome (turn_failed t) :: acts).
Proof.
  intros Hq Hne Hdue ->. split.
  - unfold disk. simpl. destruct outcome; [done|..]; by rewrite (quiet_disk _ acts).
  - by rewrite set_snoozed_self.
  - done.
  - intros none. unfold last_published. simpl. by apply quiet_published.
  - rewrite cooldown_cons, cooldown_step_due by done.
    destruct outcome; [done|..]; by apply quiet_cooldown.
Qed.

Lemma accounted_wrote state retry snoozes action t acts :
  Forall quiet acts ->
  snooze_persistence_is_due action retry (turn_due t) = true ->
  accounted state (set_snoozed snoozes state) retry None
    (tr_changed (snoozes_persisted state snoozes).2)
    (Wrote snoozes action (turn_due t) Written (turn_failed t) :: acts).
Proof.
  intros Hq Hdue. split.
  - unfold disk. simpl. by rewrite (quiet_disk _ acts).
  - by destruct state.
  - unfold snoozes_persisted. simpl. case_bool_decide; simpl; [done|].
    intros _. simplify_eq/=. by destruct state; simpl in *; subst.
  - intros none. unfold last_published. simpl. by apply quiet_published.
  - rewrite cooldown_cons, cooldown_step_due by done. by apply quiet_cooldown.
Qed.

Lemma run_effect_accounted t effect state retry state' retry' changed acts :
  run_effect available t effect state retry = Some (state', retry', changed, acts) ->
  accounted state state' retry retry' changed acts.
Proof.
  destruct effect as [title body|snoozes action]; cbn [run_effect].
  { intros [= <- <- <- <-]. apply accounted_quiet, quiet_enqueue. }
  destruct (snooze_persistence_is_due action retry (turn_due t)) eqn:Hdue; cbn [negb];
    [|intros [= <- <- <- <-]; by apply accounted_quiet].
  destruct (turn_write t) as [|error|error] eqn:Hw.
  - change (reduce state (SnoozesPersisted snoozes)) with
      (Some (snoozes_persisted state snoozes)).
    pose proof (acknowledge state snoozes) as Hack.
    pose proof (accounted_wrote state retry snoozes action t) as Hacc.
    destruct (snoozes_persisted state snoozes) as [st tr]. cbn [fst snd mbind option_bind] in *. subst st.
    intros [= <- <- <- <-]. apply Hacc; [|done]. apply Forall_app. auto with montray.
  - intros [= <- <- <- <-]. apply accounted_wrote_failed; [|done..].
    apply (quiet_failed t action retry).
  - intros [= <- <- <- <-]. apply accounted_wrote_failed; [|done..].
    apply (quiet_failed t action retry).
Qed.

Lemma accounted_trans s1 s2 s3 r1 r2 r3 c1 c2 a1 a2 :
  accounted s1 s2 r1 r2 c1 a1 -> accounted s2 s3 r2 r3 c2 a2 ->
  accounted s1 s3 r1 r3 (c1 || c2) (a1 ++ a2).
Proof.
  intros [D1 F1 U1 P1 C1] [D2 F2 U2 P2 C2]. split.
  - by rewrite disk_app, <-D1.
  - rewrite F2, F1. by destruct s1.
  - intros [H1 H2]%orb_false_elim. by rewrite U2, U1.
  - intros none. by rewrite last_published_app, P1, P2.
  - by rewrite cooldown_app, C1.
Qed.

Lemma run_effects_accounted t effects state retry state' retry' changed acts :
  run_effects available t effects state retry = Some (state', retry', changed, acts) ->
  accounted state state' retry retry' changed acts.
Proof.
  revert state retry state' retry' changed acts.
  induction effects as [|effect effects IH]; intros state retry state' retry' changed acts; simpl.
  { intros [= <- <- <- <-]. by apply accounted_quiet. }
  intros ([[[s1 r1] c1] a1] & H1 & ([[[s2 r2] c2] a2] & H2 & [= <- <- <- <-])%bind_Some)%bind_Some.
  eapply accounted_trans; [by eapply run_effect_accounted|by eapply IH].
Qed.
End PumpLemmas.

Section PumpProperties.
Context `{R : Rfc3339} (available : bool).

Lemma turn_event_acknowledged t m : network_turn t -> turn_event t <> SnoozesPersisted m.
Proof.
  unfold network_turn, turn_event. destruct (turn_source t) as [e|c|]; [|by destruct c|done].
  by destruct e.
Qed.

Lemma turn_accounted p t p' acts :
  network_turn t -> turn available p t = Some (p', acts) ->
  snoozed (pump_state p') = disk (snoozed (pump_state p)) acts /\
  cooldown (pump_retry p) acts = Some (pump_retry p') /\
  forall none,
    (exists w, last_published none acts = Some (snapshot (pump_state p') w, w)) \/
    (pump_state p' = pump_state p /\ last_published none acts = none).
Proof.
  intros Hn. unfold turn. destruct (log_lines (pump_logs p) (turn_event t)) as [logs lines].
  intros ([s1 tr] & Hr & ([[[s2 r2] changed] a2] & He & [= <- <-])%bind_Some)%bind_Some.
  cbn [pump_state pump_retry].
  apply run_effects_accounted in He as [Hd _ Hu Hp Hc].
  assert (snoozed s1 = snoozed (pump_state p)) as Hs.
  { pose proof (reduce_snoozed _ _ _ _ Hr) as Hrs.
    pose proof (turn_event_acknowledged t) as Hack.
    destruct (turn_event t); try done. by destruct (Hack snoozes). }
  set (publish := if _ || _ then _ else _).
  assert (disk (snoozed s2) publish = snoozed s2) as Hpd by (subst publish; by destruct_if).
  assert (cooldown r2 publish = Some r2) as Hpc by (subst publish; by destruct_if).
  split; [|split].
  - rewrite !disk_app, (quiet_disk _ (Logged <$> lines)) by apply quiet_logged.
    by rewrite <-Hs, <-Hd.
  - rewrite !cooldown_app, (quiet_cooldown _ (Logged <$> lines)) by apply quiet_logged.
    cbn [mbind option_bind]. rewrite cooldown_app, Hc. done.
  - intros none. rewrite !last_published_app, (quiet_published _ (Logged <$> lines)) by apply quiet_logged.
    rewrite Hp. subst publish.
    destruct (tr_changed tr) eqn:Ht; simpl; [left; by eexists|].
    destruct changed; simpl; [left; by eexists|].
    destruct (is_tick (turn_event t)); simpl; [left; by eexists|]. right.
    rewrite Hu by done. split; [|done]. by eapply reduce_unchanged_handler.
Qed.

Lemma pump_accounted turns p p' acts :
  Forall network_turn turns -> pump available p turns = Some (p', acts) ->
  snoozed (pump_state p') = disk (snoozed (pump_state p)) acts /\
  cooldown (pump_retry p) acts = Some (pump_retry p') /\
  forall none,
    (exists w, last_published none acts = Some (snapshot (pump_state p') w, w)) \/
    (pump_state p' = pump_state p /\ last_published none acts = none).
Proof.
  intros Hn. revert p p' acts. induction Hn as [|t turns Ht Hn IH]; intros p p' acts; simpl.
  { intros [= <- <-]. split; [done|]. split; [done|]. by right. }
  intros ([p1 a1] & H1 & ([p2 a2] & H2 & [= <- <-])%bind_Some)%bind_Some.
  destruct (turn_accounted _ _ _ _ Ht H1) as (D1 & C1 & P1).
  destruct (IH _ _ _ H2) as (D2 & C2 & P2).
  split; [by rewrite disk_app, <-D1|]. split; [by rewrite cooldown_app, C1|].
  intros none. rewrite last_published_app. destruct (P2 (last_published none a1)) as [H|[H ->]];
    [by left|]. rewrite H. by destruct (P1 none).
Qed.

Lemma run_effects_total t effects state retry :
  is_Some (run_effects available t effects state retry).
Proof.
  revert state retry. induction effects as [|effect effects IH]; intros state retry; simpl; [done|].
  assert (is_Some (run_effect available t effect state retry)) as [[[[s r] c] a] ->].
  { destruct effect; simpl; [done|]. destruct (negb _); [done|].
    destruct (turn_write t); simpl; by eexists. }
  simpl. destruct (IH s r) as [[[[s' r'] c'] a'] ->]. by eexists.
Qed.

Lemma pump_total turns p :
  Forall (fun t => match turn_event t with
    | Disconnected _ at_ _ | TunnelFailed _ at_ _ => is_Some (rfc3339_format at_)
    | _ => True end) turns ->
  is_Some (pump available p turns).
Proof.
  intros Hall. revert p. induction Hall as [|t turns Ht _ IH]; intros p; simpl; [done|].
  assert (is_Some (turn available p t)) as [[p1 a1] ->].
  { unfold turn. destruct (log_lines _ _) as [logs lines].
    destruct (reduce (pump_state p) (turn_event t)) as [[s1 tr]|] eqn:Hr; simpl.
    - destruct (run_effects_total t (tr_effects tr) s1 (pump_retry p)) as [[[[s r] c] a] ->].
      by eexists.
    - apply reduce_panics_handler in Hr as (id & at_ & error & Hf & _ & [(He & _)|(He & _)]);
        rewrite He, Hf in Ht; by destruct Ht. }
  simpl. destruct (IH p1) as [[p2 a2] ->]. by eexists.
Qed.
End PumpProperties.

(** ** Log details *)

Lemma flatten_char_clean (ch : string) :
  is_control (flatten_char ch) = false /\ flatten_char ch <> u2028 /\ flatten_char ch <> u2029.
Proof.
  unfold flatten_char. destruct (is_control ch) eqn:Hc; [done|].
  case_bool_decide; [done|]. case_bool_decide; done.
Qed.

Lemma log_details_chars (details : string) :
  chars (log_details details) =
    let l := flatten_char <$> chars details in
    if Nat.ltb MAX_LOG_DETAILS_CHARS (length l)
    then take MAX_LOG_DETAILS_CHARS l ++ [ellipsis] else l.
Proof.
  assert (chars_shape (flatten_char <$> chars details)) as Hshape.
  { apply chars_shape_fmap; [..|apply chars_chars_shape].
    - intros x Hx. unfold flatten_char. by destruct_if.
    - intros x Hx. unfold flatten_char. by destruct_if. }
  unfold log_details. rewrite chars_of_shape by done. cbv zeta.
  set (l := flatten_char <$> chars details) in *.
  destruct (Nat.ltb_spec MAX_LOG_DETAILS_CHARS (length l)) as [Hlt|Hge].
  - destruct (drop MAX_LOG_DETAILS_CHARS l) as [|x rest] eqn:Hd.
    { apply (f_equal length) in Hd. rewrite length_drop in Hd. simpl in Hd. lia. }
    assert (concat_chars (take MAX_LOG_DETAILS_CHARS l) +:+ ellipsis =
      concat_chars (take MAX_LOG_DETAILS_CHARS l ++ [ellipsis])) as ->.
    { rewrite concat_chars_app. reflexivity. }
    apply chars_of_shape, chars_shape_app; [by apply chars_shape_take|].
    repeat constructor.
  - rewrite drop_ge, take_ge by done. by apply chars_of_shape.
Qed.

(** ** Expiry reminders *)

Lemma find_key_Some (key : string) (l : list Incident) (i : Incident) :
  find_key key l = Some i -> i ∈ l /\ inc_key i = key.
Proof.
  unfold find_key. intros ([n j] & H & ->)%fmap_Some.
  apply list_find_Some in H as (H1 & H2 & _). split; [|done].
  by eapply list_elem_of_lookup_2.
Qed.

Lemma find_key_is_Some (key : string) (l : list Incident) :
  (exists i, i ∈ l /\ inc_key i = key) -> is_Some (find_key key l).
Proof.
  intros (i & Hi & Hk). unfold find_key.
  destruct (list_find_elem_of (fun i => inc_key i = key) l i Hi Hk) as [[n j] ->].
  by eexists.
Qed.

(** The titles of the reminders among some acts. *)
Definition reminded (acts : list Act) : list string :=
  omap (fun act => match act with Enqueued title _ => Some title | _ => None end) acts.

Lemma reminded_app acts acts' : reminded (acts ++ acts') = reminded acts ++ reminded acts'.
Proof. apply omap_app. Qed.
Lemma reminded_logged lines : reminded (Logged <$> lines) = [].
Proof. by induction lines. Qed.
Lemma reminded_wrote m a i o e acts : reminded (Wrote m a i o e :: acts) = reminded acts.
Proof. done. Qed.
Lemma reminded_enqueued l :
  reminded (l ≫= fun '(title, body) => enqueue_desktop_notification true title body) = l.*1.
Proof. induction l as [|[title body] l IH]; csimpl; [done|]. by rewrite <-IH. Qed.

Lemma all_incidents_set_snoozed m s : all_incidents (set_snoozed m s) = all_incidents s.
Proof. by destruct s. Qed.

Lemma reminders_spec (s : AppState) (m : gmap string OffsetDateTime) (keys : list string)
    (now : OffsetDateTime) (title : string) :
  (forall k, k ∈ keys -> m !! k = None) ->
  title ∈ (snooze_expiry_notifications (ActionExpire keys) (set_snoozed m s) now).*1 <->
  exists i, i ∈ all_incidents s /\ inc_key i ∈ keys /\ title = "Snooze ended: " +:+ inc_key i.
Proof.
  intros Hm. rewrite list_elem_of_fmap. unfold snooze_expiry_notifications. split.
  - intros ([t b] & -> & Hin). apply list_elem_of_omap in Hin as (k & Hk & Hf).
    apply fmap_Some in Hf as (i & Hi & [= -> ->]). apply find_key_Some in Hi as [Hi <-].
    apply elem_of_snapshot_active in Hi as [Hi _]. by exists i.
  - intros (i & Hi & Hk & ->).
    destruct (find_key_is_Some (inc_key i) (ui_active (snapshot (set_snoozed m s) now)))
      as [j Hj].
    { exists i. split; [|done]. apply elem_of_snapshot_active. split; [done|].
      intros u Hu. simpl in Hu. by rewrite Hm in Hu. }
    exists ("Snooze ended: " +:+ inc_key j, inc_details j). split.
    + by apply find_key_Some in Hj as [_ ->].
    + apply list_elem_of_omap. exists (inc_key i). split; [done|]. by rewrite Hj.
Qed.

(** ** Properties *)

(** C4: The live snooze map is always the durable one. Over any run of the pump,
    whatever writes fail, the snoozes of the state are those of the last
    successful write, or the loaded ones if there was none. *)
Theorem snoozes_durable `{Rfc3339} (available : bool) (config : Config)
    (loaded : gmap string OffsetDateTime) (now : OffsetDateTime) (turns : list Turn)
    (p : Pump) (acts : list Act) :
  Forall network_turn turns ->
  run_async available config loaded now turns = Some (p, acts) ->
  snoozed (pump_state p) = disk loaded acts.
Proof.
  unfold run_async. intros Hn ([p1 a1] & Hp & [= <- <-])%bind_Some.
  by apply (pump_accounted available turns _ _ _ Hn) in Hp as (H1 & _ & _).
Qed.

(** C27: Failed automatic expiry is not retried in a hurry. In any run, after a
    failed write of an expiry no other expiry write starts for ten seconds unless
    a write succeeded in between. *)
Theorem expiry_cooldown `{Rfc3339} (available : bool) (config : Config)
    (loaded : gmap string OffsetDateTime) (now : OffsetDateTime) (turns : list Turn)
    (p : Pump) (acts : list Act) :
  Forall network_turn turns ->
  run_async available config loaded now turns = Some (p, acts) ->
  is_Some (cooldown None acts).
Proof.
  unfold run_async. intros Hn ([p1 a1] & Hp & [= <- <-])%bind_Some.
  apply (pump_accounted available turns _ _ _ Hn) in Hp as (_ & H1 & _).
  rewrite cooldown_cons. simpl in *. by eexists.
Qed.

(** The window is never behind the state. After any number of turns the last
    published snapshot is the snapshot of the current state, at the instant it was
    published. *)
Theorem published_current `{Rfc3339} (available : bool) (config : Config)
    (loaded : gmap string OffsetDateTime) (now : OffsetDateTime) (turns : list Turn)
    (p : Pump) (acts : list Act) :
  Forall network_turn turns ->
  run_async available config loaded now turns = Some (p, acts) ->
  exists at_, last_published None acts = Some (snapshot (pump_state p) at_, at_).
Proof.
  unfold run_async. intros Hn ([p1 a1] & Hp & [= <- <-])%bind_Some.
  apply (pump_accounted available turns _ _ _ Hn) in Hp as (_ & _ & H1).
  rewrite last_published_cons.
  destruct (H1 (Some (snapshot (pump_state (pump_start config loaded)) now, now)))
    as [(w & Hw)|[Hs Hw]]; [by exists w|].
  exists now. by rewrite Hs.
Qed.

(** The pump never stops on a panic of the reducer when the instants of its
    events can be formatted: every sequence of turns is processed to the end. *)
Theorem run_async_total `{Rfc3339} (available : bool) (config : Config)
    (loaded : gmap string OffsetDateTime) (now : OffsetDateTime) (turns : list Turn) :
  (forall at_, is_Some (rfc3339_format at_)) ->
  is_Some (run_async available config loaded now turns).
Proof.
  intros Hf. unfold run_async.
  destruct (pump_total available turns (pump_start config loaded)) as [[p acts] Hp].
  { apply Forall_forall. intros t _. destruct (turn_event t); auto. }
  rewrite Hp. by eexists.
Qed.

(** Untrusted details fit on one bounded line: at most a thousand characters
    and an ellipsis, none of them a control character or a Unicode line separator;
    and short clean details are logged as they are. *)
Theorem log_details_line (details : string) :
  length (chars (log_details details)) <= 1001 /\
  Forall (fun ch => is_control ch = false /\ ch <> u2028 /\ ch <> u2029)
    (chars (log_details details)) /\
  (length (chars details) <= 1000 ->
   Forall (fun ch => is_control ch = false /\ ch <> u2028 /\ ch <> u2029) (chars details) ->
   log_details details = details).
Proof.
  pose proof (log_details_chars details) as Hc. cbv zeta in Hc.
  assert (Forall (fun ch => is_control ch = false /\ ch <> u2028 /\ ch <> u2029)
    (flatten_char <$> chars details)) as Hclean.
  { apply Forall_fmap, Forall_true. intros ch. apply flatten_char_clean. }
  split; [|split].
  - rewrite Hc. destruct (Nat.ltb_spec MAX_LOG_DETAILS_CHARS (length (flatten_char <$> chars details))).
    + rewrite length_app, length_take. cbn [length]. unfold MAX_LOG_DETAILS_CHARS. lia.
    + unfold MAX_LOG_DETAILS_CHARS in *. lia.
  - rewrite Hc. destruct_if; [|done]. apply Forall_app.
    split; [by apply Forall_take|]. by repeat constructor.
  - intros Hlen Hd. rewrite <-(concat_chars_chars (log_details details)), Hc, length_fmap.
    destruct (Nat.ltb_spec MAX_LOG_DETAILS_CHARS (length (chars details)));
      [unfold MAX_LOG_DETAILS_CHARS in *; lia|].
    rewrite <-(concat_chars_chars details) at 2. f_equal.
    clear -Hd. induction Hd as [|ch l (H1 & H2 & H3) _ IH]; csimpl; [done|].
    rewrite IH. f_equal. unfold flatten_char. rewrite H1.
    by rewrite !bool_decide_eq_false_2.
Qed.

(** When a tick finds expired snoozes and the pruned map is written, exactly
    the incidents that are still ongoing and whose snooze expired are announced
    again; nothing else is. *)
Theorem expiry_reminders `{Rfc3339} (p p' : Pump) (t : Turn) (acts : list Act) (title : string) :
  turn_source t = FromTick -> turn_write t = Written ->
  (forall d, pump_retry p = Some d -> (d <= turn_due t)%Z) ->
  turn true p t = Some (p', acts) ->
  title ∈ reminded acts <->
  exists i until, i ∈ all_incidents (pump_state p) /\
    snoozed (pump_state p) !! inc_key i = Some until /\ (until <= turn_wall t)%Z /\
    title = "Snooze ended: " +:+ inc_key i.
Proof.
  intros Hsrc Hw Hdue. unfold turn, turn_event. rewrite Hsrc. cbn [log_lines is_tick].
  intros ([s1 tr] & Hr & ([[[s2 r2] changed] a2] & He & [= <- <-])%bind_Some)%bind_Some.
  apply snooze_proposal_handler in Hr as (-> & _ & Hp); [|done]. rewrite !reminded_app.
  assert (forall (b : bool) w w', reminded (if b then [Published w w'] else []) = []) as Hpub
    by (by intros []).
  rewrite Hpub, app_nil_r. cbn [fmap list_fmap app].
  change (reminded [] ++ reminded a2) with (reminded a2).
  destruct Hp as [[Hreq Heff]|(_ & a & Heff & keys & -> & _ & Hkeys)]; rewrite Heff in He.
  - injection He as _ _ _ <-. split; [by intros Hin%elem_of_nil|].
    intros (i & u & _ & Hu & Hle & _).
    rewrite <-Hreq in Hu. simpl in Hu. apply map_lookup_filter_Some in Hu as [_ Hu].
    simpl in Hu. lia.
  - cbn [run_effects run_effect] in He.
    assert (snooze_persistence_is_due (ActionExpire keys) (pump_retry p) (turn_due t) = true)
      as Hd.
    { unfold snooze_persistence_is_due. simpl. destruct (pump_retry p); [|done].
      apply Z.leb_le. by apply Hdue. }
    rewrite Hd, Hw in He. cbn [negb] in He.
    set (m := requested (pump_state p) (Tick (turn_wall t))) in He.
    change (reduce (pump_state p) (SnoozesPersisted m)) with
      (Some (snoozes_persisted (pump_state p) m)) in He.
    pose proof (acknowledge (pump_state p) m) as Ha.
    destruct (snoozes_persisted _ _) as [st trc]. cbn [fst mbind option_bind] in He, Ha.
    subst st. injection He as _ _ _ <-. rewrite app_nil_r.
    rewrite reminded_wrote, reminded_app, reminded_logged, reminded_enqueued, app_nil_l.
    etrans; [apply (reminders_spec (pump_state p) m keys (turn_reminder t))|].
    + intros k (u & Hu & Hle)%Hkeys. simpl. apply map_lookup_filter_None. right.
      intros v Hv. simpl. rewrite Hu in Hv. injection Hv as <-. lia.
    + split.
      * intros (i & Hi & (u & Hu & Hle)%Hkeys & ->). eauto 10.
      * intros (i & u & Hi & Hu & Hle & ->). exists i. split; [done|]. split; [|done].
        apply Hkeys. eauto.
Qed.

(** ** Concrete runs *)

Definition demo_turn (source : Source) (clock : Z) (write : WriteOutcome) : Turn :=
  {| turn_source := source; turn_wall := clock; turn_due := clock; turn_write := write;
     turn_failed := clock; turn_reminder := clock; turn_publish := clock |}.

(** Connect, learn of an incident, snooze it, fail to expire it, retry too early,
    and expire it. *)
Definition demo_turns : list Turn :=
  let s := 1000000000%Z in
  [demo_turn (FromNetwork (Connected "prod" (1 * s))) (1 * s) Written;
   demo_turn (FromNetwork (Notification "prod" demo_data (2 * s))) (2 * s) Written;
   demo_turn (FromCommand (CommandSnooze "prod.disk" (5 * s))) (3 * s) Written;
   demo_turn FromTick (10 * s) (WriteFailed ["disk full"]);
   demo_turn FromTick (11 * s) Written;
   demo_turn FromTick (21 * s) Written].

Lemma demo_turns_network : Forall network_turn demo_turns.
Proof. repeat constructor. Qed.

Definition demo_run : option (Pump * list Act) :=
  run_async (R := decimal_rfc3339) true demo_config ∅ 0 demo_turns.
Definition demo_acts : list Act :=
  match demo_run with Some (_, acts) => acts | None => [] end.
Definition demo_pump : Pump :=
  match demo_run with Some (p, _) => p | None => pump_start demo_config ∅ end.

Lemma demo_run_eq :
  run_async (R := decimal_rfc3339) true demo_config ∅ 0 demo_turns = Some (demo_pump, demo_acts).
Proof. unfold demo_pump, demo_acts. destruct demo_run as [[p acts]|] eqn:H; [done|].
  exfalso. revert H. vm_compute. discriminate. Qed.

Example demo_run_reminds :
  reminded demo_acts = ["error: prod.disk"; "Snooze ended: prod.disk"].
Proof. vm_compute. reflexivity. Qed.

Lemma snoozes_durable_witness : snoozed (pump_state demo_pump) = disk ∅ demo_acts.
Proof.
  exact (snoozes_durable (H := decimal_rfc3339) true demo_config ∅ 0 demo_turns demo_pump
    demo_acts demo_turns_network demo_run_eq).
Defined.

Lemma expiry_cooldown_witness : is_Some (cooldown None demo_acts).
Proof.
  exact (expiry_cooldown (H := decimal_rfc3339) true demo_config ∅ 0 demo_turns demo_pump
    demo_acts demo_turns_network demo_run_eq).
Defined.

Lemma published_current_witness :
  exists at_, last_published None demo_acts = Some (snapshot (pump_state demo_pump) at_, at_).
Proof.
  exact (published_current (H := decimal_rfc3339) true demo_config ∅ 0 demo_turns demo_pump
    demo_acts demo_turns_network demo_run_eq).
Defined.

(** A formatter defined at every instant. *)
Definition total_rfc3339 : Rfc3339 :=
  {| rfc3339_format t := Some (pretty t); rfc3339_parse := parse_i64 |}.

Lemma run_async_total_witness :
  is_Some (run_async (R := total_rfc3339) true demo_config ∅ 0 demo_turns).
Proof.
  apply (run_async_total (H := total_rfc3339)). intros at_. by eexists.
Defined.

Definition demo_snoozed : Pump :=
  match pump (R := decimal_rfc3339) true (pump_start demo_config ∅) (take 3 demo_turns) with
  | Some (p, _) => p
  | None => pump_start demo_config ∅
  end.
Definition demo_tick : Turn := demo_turn FromTick 21000000000 Written.

Lemma expiry_reminders_witness :
  exists i until, i ∈ all_incidents (pump_state demo_snoozed) /\
    snoozed (pump_state demo_snoozed) !! inc_key i = Some until /\ (until <= 21000000000)%Z /\
    "Snooze ended: prod.disk" = "Snooze ended: " +:+ inc_key i.
Proof.
  destruct (turn (R := decimal_rfc3339) true demo_snoozed demo_tick) as [[p' acts]|] eqn:Ht;
    [|vm_compute in Ht; discriminate Ht].
  apply (expiry_reminders (H := decimal_rfc3339) demo_snoozed p' demo_tick acts);
    [reflexivity|reflexivity| |exact Ht|].
  - intros d Hd. vm_compute in Hd. discriminate Hd.
  - vm_compute in Ht. injection Ht as _ <-. vm_compute. left.
Defined.

(** An incident key is logged as it came, line breaks included. *)
Example incident_line_unescaped :
  contains newline (incident_line "prod" "added"
    {| inc_key := "cpu" +:+ newline +:+ "forged"; inc_state := IncidentError;
       inc_details := ""; inc_started_at := ""; inc_stale := false |}) = true.
Proof. vm_compute. reflexivity. Qed.
