(* ===== verification/Notification.v ===== *)
(** * Desktop notification dispatcher

    [src/cmd/montray-ui/src/notification.rs]: a bounded queue between the event
    pump and a worker thread. The two threads are interleaved step by step: the
    pump's steps are [enqueue] and [shutdown], the worker's are receiving, ending
    a delivery, and panicking inside the notification service. *)

From Stdlib Require Import ZArith Lia.
From stdpp Require Import base sets strings list option.
From S2P Require Import Prelude.

Definition NOTIFICATION_QUEUE_CAPACITY : nat := 32.

Record QueuedNotification : Set := {
  q_title : string;
  q_body : string;
}.

(** The sink of the application: the desktop's notification service, whose [show] is
    given. *)
Record DesktopNotification : Set := {
  dn_appname : string;
  dn_summary : string;
  dn_body : string;
}.
Definition desktop_notification (title body : string) : DesktopNotification :=
  {| dn_appname := "Montray"; dn_summary := title; dn_body := body |}.
Definition sink_push (show : DesktopNotification -> Result unit) (title body : string)
    : Result unit :=
  with_context "desktop notification delivery failed" (show (desktop_notification title body)).

Inductive EnqueueOutcome : Set := Queued | Dropped | Unavailable.
#[global] Instance EnqueueOutcome_eq_dec : EqDecision EnqueueOutcome.
Proof. solve_decision. Defined.
Inductive ShutdownOutcome : Set := StoppedOutcome | Detached.

(** The worker thread: waiting in [recv], delivering, or gone. *)
Inductive Worker : Set :=
| Waiting
| Showing (n : QueuedNotification)
| Finished
| Panicked.

Record Dispatcher : Set := {
  d_capacity : nat;
  d_sender : bool;                       (* the producer endpoint is kept *)
  d_queue : list QueuedNotification;     (* accepted, not yet received *)
  d_worker : Worker;
  d_joinable : bool;                     (* the worker handle is kept *)
}.

Definition start_with_sink (capacity : nat) : Dispatcher :=
  {| d_capacity := capacity; d_sender := true; d_queue := []; d_worker := Waiting;
     d_joinable := true |}.
Definition start : Dispatcher := start_with_sink NOTIFICATION_QUEUE_CAPACITY.

(** The receiver is alive until the worker ends. *)
Definition receiver_alive (d : Dispatcher) : bool :=
  match d_worker d with Waiting | Showing _ => true | _ => false end.

Definition with_queue (q : list QueuedNotification) (d : Dispatcher) : Dispatcher :=
  {| d_capacity := d_capacity d; d_sender := d_sender d; d_queue := q;
     d_worker := d_worker d; d_joinable := d_joinable d |}.
Definition with_worker (w : Worker) (d : Dispatcher) : Dispatcher :=
  {| d_capacity := d_capacity d; d_sender := d_sender d; d_queue := d_queue d;
     d_worker := w; d_joinable := d_joinable d |}.
Definition without_sender (d : Dispatcher) : Dispatcher :=
  {| d_capacity := d_capacity d; d_sender := false; d_queue := d_queue d;
     d_worker := d_worker d; d_joinable := d_joinable d |}.

(** Never blocks: a full queue drops the notification. *)
Definition enqueue_inner (d : Dispatcher) (title body : string) : Dispatcher * EnqueueOutcome :=
  if negb (d_sender d) then (d, Unavailable)
  else if negb (receiver_alive d) then (without_sender d, Unavailable)
  else if Nat.ltb (length (d_queue d)) (d_capacity d)
  then (with_queue (d_queue d ++ [{| q_title := title; q_body := body |}]) d, Queued)
  else (d, Dropped).

Definition enqueue (d : Dispatcher) (title body : string) : Dispatcher :=
  (enqueue_inner d title body).1.

(** [shutdown_with_timeout] in two parts: closing the queue, then the end of the
    wait, which is the worker's completion or the timeout. *)
Definition close (d : Dispatcher) : Dispatcher := without_sender d.

Definition finish_shutdown (d : Dispatcher) (timed_out : bool)
    : option (Dispatcher * ShutdownOutcome) :=
  let released := {| d_capacity := d_capacity d; d_sender := d_sender d;
                     d_queue := d_queue d; d_worker := d_worker d; d_joinable := false |} in
  if timed_out then Some (released, Detached)
  else if receiver_alive d then None
  else Some (released, StoppedOutcome).

(** [shutdown] gives up after two seconds; whether that is before the worker is done is
    the input. A dispatcher that is dropped only closes the queue. *)
Definition shutdown (d : Dispatcher) (timed_out : bool) : option Dispatcher :=
  fst <$> finish_shutdown (close d) timed_out.
Definition drop_dispatcher (d : Dispatcher) : Dispatcher := without_sender d.

Inductive Step : Set :=
| Enqueue (title body : string)
| Close
| Receive                       (* the worker's [recv] returns *)
| Delivered                     (* [push] returned, with or without error *)
| SinkPanics
| FinishShutdown (timed_out : bool).

(** What a step adds to the history: notifications accepted, and handed to the
    notification service. *)
Record History : Set := {
  accepted : list QueuedNotification;
  shown : list QueuedNotification;
}.
Definition no_history : History := {| accepted := []; shown := [] |}.

Definition dispatcher_step (d : Dispatcher) (h : History) (s : Step)
    : option (Dispatcher * History) :=
  match s with
  | Enqueue title body =>
      let '(d', outcome) := enqueue_inner d title body in
      Some (d', match outcome with
                | Queued => {| accepted := accepted h ++ [{| q_title := title; q_body := body |}];
                               shown := shown h |}
                | _ => h
                end)
  | Close => Some (close d, h)
  | Receive =>
      match d_worker d, d_queue d with
      | Waiting, n :: q =>
          Some (with_worker (Showing n) (with_queue q d),
                {| accepted := accepted h; shown := shown h ++ [n] |})
      | Waiting, [] => if d_sender d then None else Some (with_worker Finished d, h)
      | _, _ => None
      end
  | Delivered =>
      match d_worker d with
      | Showing _ => Some (with_worker Waiting d, h)
      | _ => None
      end
  | SinkPanics =>
      match d_worker d with
      | Showing _ => Some (with_worker Panicked (with_queue [] d), h)
      | _ => None
      end
  | FinishShutdown timed_out =>
      if d_sender d then None
      else '(d', _) ← finish_shutdown d timed_out; Some (d', h)
  end.

Fixpoint dispatcher_run (d : Dispatcher) (h : History) (steps : list Step)
    : option (Dispatcher * History) :=
  match steps with
  | [] => Some (d, h)
  | s :: steps => '(d, h) ← dispatcher_step d h s; dispatcher_run d h steps
  end.

(** ** The queue invariant *)

Record consistent (capacity : nat) (d : Dispatcher) (h : History) : Prop := {
  consistent_capacity : d_capacity d = capacity;
  consistent_bound : length (d_queue d) <= capacity;
  consistent_order : exists lost, accepted h = shown h ++ d_queue d ++ lost /\
    (d_worker d <> Panicked -> lost = []);
  consistent_finished : d_worker d = Finished -> d_queue d = [] /\ d_sender d = false;
}.

Lemma dispatcher_step_consistent (capacity : nat) (d d' : Dispatcher) (h h' : History) (s : Step) :
  consistent capacity d h -> dispatcher_step d h s = Some (d', h') -> consistent capacity d' h'.
Proof.
  intros [Hc Hb (lost & Ho & Hl) Hf]. destruct s; cbn [dispatcher_step].
  - unfold enqueue_inner. destruct (d_sender d) eqn:Hs; cbn [negb];
      [|intros [= <- <-]; split; [done|done|by eauto|]; rewrite ?Hs; naive_solver].
    destruct (receiver_alive d) eqn:Ha; cbn [negb];
      [|intros [= <- <-]; split; simpl; naive_solver].
    destruct (Nat.ltb_spec (length (d_queue d)) (d_capacity d)) as [Hlt|Hge];
      [|intros [= <- <-]; split; [done|done|by eauto|]; rewrite ?Hs; naive_solver].
    assert (lost = []) as ->
      by (apply Hl; intros Hp; unfold receiver_alive in Ha; by rewrite Hp in Ha).
    intros [= <- <-]. split; simpl; [done|rewrite length_app; simpl; lia| |].
    + exists []. split; [|done]. rewrite Ho, !app_nil_r. by rewrite !app_assoc.
    + intros Hw. unfold receiver_alive in Ha. by rewrite Hw in Ha.
  - intros [= <- <-]. split; simpl; [done|done|by eauto|]. naive_solver.
  - destruct (d_worker d) eqn:Hw; try done.
    destruct (d_queue d) as [|n q] eqn:Hq.
    + destruct (d_sender d) eqn:Hs; [done|]. intros [= <- <-].
      split; simpl; rewrite ?Hq; [done|simpl; lia| |done].
      exists lost. rewrite Hl in * by done. rewrite Ho. done.
    + intros [= <- <-]. simpl in Hb. split; simpl; [done|lia| |done].
      exists lost. split; [|by intros _; apply Hl]. by rewrite Ho, <-app_assoc.
  - destruct (d_worker d) eqn:Hw; try done. intros [= <- <-].
    split; simpl; [done|done| |done]. exists lost. split; [done|]. intros _. by apply Hl.
  - destruct (d_worker d) eqn:Hw; try done. intros [= <- <-].
    split; simpl; [done|lia| |done]. by exists (d_queue d ++ lost).
  - destruct (d_sender d) eqn:Hs; [done|].
    intros ([d1 o] & Hfin & [= <- <-])%bind_Some. revert Hfin. unfold finish_shutdown.
    destruct timed_out; [|destruct (receiver_alive d); [done|]]; intros [= <- _];
      (split; simpl; [done|done|by eauto|]; rewrite ?Hs; naive_solver).
Qed.

Lemma dispatcher_run_consistent (capacity : nat) (steps : list Step) (d d' : Dispatcher)
    (h h' : History) :
  consistent capacity d h -> dispatcher_run d h steps = Some (d', h') ->
  consistent capacity d' h'.
Proof.
  revert d h. induction steps as [|s steps IH]; intros d h Hc; simpl; [by intros [= <- <-]|].
  intros ([d1 h1] & H1 & H2)%bind_Some. eapply IH; [|exact H2].
  by eapply dispatcher_step_consistent.
Qed.

Lemma start_consistent (capacity : nat) : consistent capacity (start_with_sink capacity) no_history.
Proof. split; simpl; [done|lia| |done]. by exists []. Qed.

(** ** Properties *)

(** C26: Accepted notifications are shown in the order they were accepted, each at
    most once, and none is lost unless the notification service panics; the queue
    never holds more than its capacity; and a worker that finished has shown all of
    them. *)
Theorem dispatcher_fifo (steps : list Step) (d : Dispatcher) (h : History) :
  dispatcher_run start no_history steps = Some (d, h) ->
  length (d_queue d) <= 32 /\
  shown h `prefix_of` accepted h /\
  (d_worker d <> Panicked -> accepted h = shown h ++ d_queue d) /\
  (d_worker d = Finished -> shown h = accepted h).
Proof.
  intros Hr. apply (dispatcher_run_consistent 32) in Hr as [Hc Hb (lost & Ho & Hl) Hf];
    [|apply start_consistent].
  split; [done|]. split; [by exists (d_queue d ++ lost)|]. split.
  - intros Hp. by rewrite Ho, Hl, app_nil_r.
  - intros Hw. destruct (Hf Hw) as [Hq _]. rewrite Ho, Hq, Hl by (by rewrite Hw).
    by rewrite !app_nil_r.
Qed.

Lemma dispatcher_fifo_witness :
  exists d h,
    dispatcher_run start no_history
      [Enqueue "a" ""; Receive; Enqueue "b" ""; Delivered; Close; Receive; Delivered; Receive;
       FinishShutdown false] = Some (d, h) /\ shown h = accepted h /\ length (accepted h) = 2.
Proof.
  eexists _, _. split; [reflexivity|]. split; [|reflexivity].
  refine (proj2 (proj2 (proj2 (dispatcher_fifo
      [Enqueue "a" ""; Receive; Enqueue "b" ""; Delivered; Close; Receive; Delivered; Receive;
       FinishShutdown false] _ _ _))) _); reflexivity.
Defined.

(** Enqueueing never waits: it accepts when there is room and the worker lives,
    drops when the queue is full, and reports a dead worker once, forgetting the
    queue; no other state is changed. *)
Theorem enqueue_outcome (d : Dispatcher) (title body : string) :
  let '(d', outcome) := enqueue_inner d title body in
  (outcome = Queued <->
     d_sender d = true /\ receiver_alive d = true /\ length (d_queue d) < d_capacity d) /\
  (outcome = Dropped <->
     d_sender d = true /\ receiver_alive d = true /\ d_capacity d <= length (d_queue d)) /\
  d_queue d' = d_queue d ++
    (if decide (outcome = Queued) then [{| q_title := title; q_body := body |}] else []) /\
  (outcome = Unavailable -> d_sender d' = false) /\
  d_worker d' = d_worker d.
Proof.
  unfold enqueue_inner. destruct (d_sender d) eqn:Hs, (receiver_alive d); cbn [negb];
    try (rewrite ?app_nil_r; naive_solver).
  destruct (Nat.ltb_spec (length (d_queue d)) (d_capacity d)); cbn; rewrite ?app_nil_r;
    split_and!; try done; try naive_solver lia.
Qed.
