(* ===== verification/StateFile.v ===== *)
(** * The persisted state

    The data of [src/cmd/montray-ui/src/persistence.rs] and its JSON form: the
    derived serializers and deserializers of the state file, written as
    functions to and from JSON values, with the defaults of omitted fields and
    the unknown fields that are kept ([#[serde(flatten)]]); and the two snooze
    operations of [StateFile]. *)

From Stdlib Require Import ZArith Lia Ascii.
From stdpp Require Import base gmap strings list option.
From S2P Require Import Prelude RustStr Domain Protocol.

Abbreviation Extra := (gmap string Value).

(** ** Data *)

Record SnoozeEntry := {
  snoozed_until : string;
  entry_extra : Extra;
}.

Record WindowGeometry : Set := {
  geo_x : Z;
  geo_y : Z;
  geo_width : Z;
  geo_height : Z;
  geo_maximized : bool;
}.
#[global] Instance WindowGeometry_eq_dec : EqDecision WindowGeometry.
Proof. solve_decision. Defined.

Definition as_normal (g : WindowGeometry) : WindowGeometry :=
  {| geo_x := geo_x g; geo_y := geo_y g; geo_width := geo_width g; geo_height := geo_height g;
     geo_maximized := false |}.

Inductive Theme : Set := Dark | Light.

Record SectionPreferences := {
  servers_expanded : bool;
  active_incidents_expanded : bool;
  snoozed_incidents_expanded : bool;
  sections_extra : Extra;
}.
Definition SectionPreferences_default : SectionPreferences :=
  {| servers_expanded := true; active_incidents_expanded := true;
     snoozed_incidents_expanded := false; sections_extra := ∅ |}.

Record Preferences := {
  pref_theme : Theme;
  pref_sections : SectionPreferences;
  pref_window_geometry : option WindowGeometry;
  pref_extra : Extra;
}.
Definition Preferences_default : Preferences :=
  {| pref_theme := Dark; pref_sections := SectionPreferences_default;
     pref_window_geometry := None; pref_extra := ∅ |}.

Record StateFile := {
  sf_schema_version : Z;
  sf_snoozed : gmap string SnoozeEntry;
  sf_preferences : Preferences;
  sf_extra : Extra;
}.
Definition schema_version : Z := 1.
Definition default_expanded : bool := true.
Definition StateFile_default : StateFile :=
  {| sf_schema_version := schema_version; sf_snoozed := ∅;
     sf_preferences := Preferences_default; sf_extra := ∅ |}.

Definition set_sf_snoozed (m : gmap string SnoozeEntry) (s : StateFile) : StateFile :=
  {| sf_schema_version := sf_schema_version s; sf_snoozed := m;
     sf_preferences := sf_preferences s; sf_extra := sf_extra s |}.
Definition set_sf_preferences (p : Preferences) (s : StateFile) : StateFile :=
  {| sf_schema_version := sf_schema_version s; sf_snoozed := sf_snoozed s;
     sf_preferences := p; sf_extra := sf_extra s |}.

(** ** Snoozes *)

Section Snoozes.
Context `{Rfc3339}.
(** The text of a timestamp error, and the [{:?}] form of a key. *)
Variable time_error : string.
Variable debug_str : string -> string.

Definition decode_snooze (key : string) (entry : SnoozeEntry) : Result OffsetDateTime :=
  match rfc3339_parse (snoozed_until entry) with
  | Some t => Ok t
  | None => Err ["invalid snooze deadline for " +:+ debug_str key; time_error]
  end.

(** The first entry that does not parse, in key order, is the error. *)
Fixpoint decode_snoozes (entries : list (string * SnoozeEntry))
    : Result (gmap string OffsetDateTime) :=
  match entries with
  | [] => Ok ∅
  | (key, entry) :: rest =>
      parsed ← decode_snooze key entry;
      m ← decode_snoozes rest;
      Ok (<[key := parsed]> m)
  end.

Definition decoded_snoozes (self : StateFile) : Result (gmap string OffsetDateTime) :=
  decode_snoozes (btree_iter (sf_snoozed self)).

(** Updates the deadlines one by one, keeping the other fields of an entry. *)
Fixpoint put_snoozes (snoozes : list (string * OffsetDateTime))
    (m : gmap string SnoozeEntry) : Result (gmap string SnoozeEntry) :=
  match snoozes with
  | [] => Ok m
  | (key, until) :: rest =>
      formatted ← opt_context "failed to format snooze deadline" (rfc3339_format until);
      let extra := match m !! key with Some entry => entry_extra entry | None => ∅ end in
      put_snoozes rest (<[key := {| snoozed_until := formatted; entry_extra := extra |}]> m)
  end.

Definition replace_snoozes (self : StateFile) (snoozes : gmap string OffsetDateTime)
    : Result StateFile :=
  let retained := filter (fun kv : string * SnoozeEntry => is_Some (snoozes !! kv.1))
                    (sf_snoozed self) in
  m ← put_snoozes (btree_iter snoozes) retained;
  Ok (set_sf_snoozed m self).
End Snoozes.

(** ** Serialization *)

Definition int_value (z : Z) : Value :=
  VNumber (if (z <? 0)%Z then NegInt z else PosInt (Z.to_N z)).

Definition object_value (known : list (string * Value)) (extra : Extra) : Value :=
  VObject (known ++ btree_iter extra).

Definition entry_value (e : SnoozeEntry) : Value :=
  object_value [("snoozed_until", VString (snoozed_until e))] (entry_extra e).

Definition theme_value (t : Theme) : Value :=
  VString (match t with Dark => "dark" | Light => "light" end).

Definition geometry_value (g : WindowGeometry) : Value :=
  VObject [("x", int_value (geo_x g)); ("y", int_value (geo_y g));
           ("width", int_value (geo_width g)); ("height", int_value (geo_height g));
           ("maximized", VBool (geo_maximized g))].

Definition sections_value (s : SectionPreferences) : Value :=
  object_value
    [("servers_expanded", VBool (servers_expanded s));
     ("active_incidents_expanded", VBool (active_incidents_expanded s));
     ("snoozed_incidents_expanded", VBool (snoozed_incidents_expanded s))]
    (sections_extra s).

(** An absent geometry is not written. *)
Definition preferences_value (p : Preferences) : Value :=
  object_value
    ([("theme", theme_value (pref_theme p)); ("sections", sections_value (pref_sections p))] ++
     match pref_window_geometry p with
     | Some g => [("window_geometry", geometry_value g)]
     | None => []
     end)
    (pref_extra p).

Definition state_value (s : StateFile) : Value :=
  object_value
    [("schema_version", int_value (sf_schema_version s));
     ("snoozed", VObject ((fun kv => (kv.1, entry_value kv.2)) <$> btree_iter (sf_snoozed s)));
     ("preferences", preferences_value (sf_preferences s))]
    (sf_extra s).

(** ** Deserialization *)

Definition de_int (lo hi : Z) (v : Value) : option Z :=
  match v with
  | VNumber (PosInt n) => if (Z.of_N n <=? hi)%Z then Some (Z.of_N n) else None
  | VNumber (NegInt z) => if (lo <=? z)%Z then Some z else None
  | _ => None
  end.
Definition de_u32 : Value -> option Z := de_int 0 4294967295.
Definition de_i32 : Value -> option Z := de_int (-2147483648) 2147483647.

(** A struct with flattened extras is an object only. *)
Definition entries_of (v : Value) : option (list (string * Value)) :=
  match v with VObject entries => Some entries | _ => None end.

Definition extras (known : list string) (entries : list (string * Value)) : Extra :=
  list_to_map (filter (fun kv => kv.1 ∉ known) entries).

Definition entry_fields : list string := ["snoozed_until"].
Definition de_entry (v : Value) : option SnoozeEntry :=
  entries ← entries_of v;
  until ← required de_string (lookup_entry "snoozed_until" entries);
  Some {| snoozed_until := until; entry_extra := extras entry_fields entries |}.

Definition theme_of_name (s : string) : option Theme :=
  if bool_decide (s = "dark") then Some Dark
  else if bool_decide (s = "light") then Some Light
  else None.
Definition de_theme (v : Value) : option Theme :=
  match v with
  | VString s => theme_of_name s
  | VObject [(s, Null)] => theme_of_name s
  | _ => None
  end.

Definition de_geometry (v : Value) : option WindowGeometry :=
  fs ← fields ["x"; "y"; "width"; "height"; "maximized"] v;
  match fs with
  | [x; y; width; height; maximized] =>
      x ← required de_i32 x;
      y ← required de_i32 y;
      width ← required de_u32 width;
      height ← required de_u32 height;
      maximized ← defaulted false de_bool maximized;
      Some {| geo_x := x; geo_y := y; geo_width := width; geo_height := height;
              geo_maximized := maximized |}
  | _ => None
  end.

Definition section_fields : list string :=
  ["servers_expanded"; "active_incidents_expanded"; "snoozed_incidents_expanded"].
Definition de_sections (v : Value) : option SectionPreferences :=
  entries ← entries_of v;
  servers ← defaulted default_expanded de_bool (lookup_entry "servers_expanded" entries);
  active ← defaulted default_expanded de_bool
             (lookup_entry "active_incidents_expanded" entries);
  snoozed ← defaulted false de_bool (lookup_entry "snoozed_incidents_expanded" entries);
  Some {| servers_expanded := servers; active_incidents_expanded := active;
          snoozed_incidents_expanded := snoozed;
          sections_extra := extras section_fields entries |}.

Definition preference_fields : list string := ["theme"; "sections"; "window_geometry"].
Definition de_preferences (v : Value) : option Preferences :=
  entries ← entries_of v;
  theme ← defaulted Dark de_theme (lookup_entry "theme" entries);
  sections ← defaulted SectionPreferences_default de_sections (lookup_entry "sections" entries);
  geometry ← defaulted None (de_option de_geometry) (lookup_entry "window_geometry" entries);
  Some {| pref_theme := theme; pref_sections := sections; pref_window_geometry := geometry;
          pref_extra := extras preference_fields entries |}.

Definition de_snoozed (v : Value) : option (gmap string SnoozeEntry) :=
  entries ← entries_of v;
  decoded ← mapM (fun kv => e ← de_entry kv.2; Some (kv.1, e)) entries;
  Some (list_to_map decoded).

Definition state_fields : list string := ["schema_version"; "snoozed"; "preferences"].
Definition de_state (v : Value) : option StateFile :=
  entries ← entries_of v;
  version ← defaulted schema_version de_u32 (lookup_entry "schema_version" entries);
  snoozed ← defaulted ∅ de_snoozed (lookup_entry "snoozed" entries);
  preferences ← defaulted Preferences_default de_preferences (lookup_entry "preferences" entries);
  Some {| sf_schema_version := version; sf_snoozed := snoozed; sf_preferences := preferences;
          sf_extra := extras state_fields entries |}.

(** ** Well-formed states: integers in range, extras that are no known field *)

Definition extra_ok (known : list string) (extra : Extra) : Prop :=
  forall k, k ∈ known -> extra !! k = None.

Record geometry_ok (g : WindowGeometry) : Prop := {
  geometry_x : (-2147483648 <= geo_x g <= 2147483647)%Z;
  geometry_y : (-2147483648 <= geo_y g <= 2147483647)%Z;
  geometry_width : (0 <= geo_width g <= 4294967295)%Z;
  geometry_height : (0 <= geo_height g <= 4294967295)%Z;
}.

Record state_ok (s : StateFile) : Prop := {
  state_version : (0 <= sf_schema_version s <= 4294967295)%Z;
  state_entries : forall k e, sf_snoozed s !! k = Some e -> extra_ok entry_fields (entry_extra e);
  state_sections : extra_ok section_fields (sections_extra (pref_sections (sf_preferences s)));
  state_geometry : forall g, pref_window_geometry (sf_preferences s) = Some g -> geometry_ok g;
  state_preferences : extra_ok preference_fields (pref_extra (sf_preferences s));
  state_extra : extra_ok state_fields (sf_extra s);
}.

(** ** Lemmas *)

#[local] Arguments int_value : simpl never.
#[local] Arguments de_int : simpl never.
#[local] Arguments extras : simpl never.
#[local] Arguments geometry_value : simpl never.
#[local] Arguments sections_value : simpl never.
#[local] Arguments preferences_value : simpl never.

Lemma de_int_value (lo hi z : Z) :
  (lo <= 0)%Z -> (lo <= z <= hi)%Z -> de_int lo hi (int_value z) = Some z.
Proof.
  intros Hlo Hz. unfold int_value, de_int. destruct (Z.ltb_spec z 0).
  - by destruct (Z.leb_spec lo z); [|lia].
  - rewrite Z2N.id by lia. by destruct (Z.leb_spec z hi); [|lia].
Qed.

Lemma lookup_entry_app (name : string) (l k : list (string * Value)) :
  lookup_entry name (l ++ k) =
    match lookup_entry name l with Some v => Some v | None => lookup_entry name k end.
Proof. induction l as [|[n v] l IH]; simpl; [done|]. by case_bool_decide. Qed.

Lemma lookup_entry_extra (name : string) (extra : Extra) :
  lookup_entry name (btree_iter extra) = extra !! name.
Proof.
  destruct (extra !! name) as [v|] eqn:Hv.
  - assert (NoDup (btree_iter extra).*1) as Hnd by apply NoDup_btree_keys.
    apply elem_of_btree_iter in Hv. revert Hnd Hv. generalize (btree_iter extra).
    intros l. induction l as [|[n w] l IH]; csimpl; [set_solver|].
    rewrite list.NoDup_cons, elem_of_cons. intros [Hn Hnd] [[= <- <-]|Hin].
    + by rewrite bool_decide_eq_true_2.
    + rewrite bool_decide_eq_false_2; [by apply IH|]. intros <-.
      apply Hn, list_elem_of_fmap. by exists (n, v).
  - assert (forall v, (name, v) ∉ btree_iter extra) as Hno.
    { intros v Hin%elem_of_btree_iter. congruence. }
    revert Hno. generalize (btree_iter extra).
    intros l. induction l as [|[n w] l IH]; intros Hno; simpl; [done|].
    rewrite bool_decide_eq_false_2; [apply IH; set_solver|]. intros ->. by apply (Hno w); left.
Qed.

Lemma lookup_object (name : string) (known : list (string * Value)) (extra : Extra) :
  extra !! name = None ->
  lookup_entry name (known ++ btree_iter extra) = lookup_entry name known.
Proof.
  intros He. rewrite lookup_entry_app, lookup_entry_extra, He. by destruct (lookup_entry _ _).
Qed.

Lemma list_to_map_btree {A} (m : gmap string A) : list_to_map (btree_iter m) = m.
Proof.
  rewrite <-(list_to_map_to_list m) at 2. apply list_to_map_proper.
  - apply NoDup_btree_keys.
  - apply btree_iter_Permutation.
Qed.

(** Reading an object back keeps exactly its extras. *)
Lemma extras_object (names : list string) (known : list (string * Value)) (extra : Extra) :
  Forall (fun kv => kv.1 ∈ names) known -> extra_ok names extra ->
  extras names (known ++ btree_iter extra) = extra.
Proof.
  intros Hk He. unfold extras. rewrite list.filter_app.
  assert (filter (fun kv : string * Value => kv.1 ∉ names) known = []) as ->.
  { induction Hk as [|kv known Hin _ IH]; [done|]. rewrite filter_cons_False by (by intros []). done. }
  assert (filter (fun kv : string * Value => kv.1 ∉ names) (btree_iter extra) = btree_iter extra)
    as ->; [|apply list_to_map_btree].
  assert (forall kv, kv ∈ btree_iter extra -> kv.1 ∉ names) as Hall.
  { intros [k v] Hin%elem_of_btree_iter Hn. simpl in Hn. rewrite He in Hin; done. }
  revert Hall. generalize (btree_iter extra). intros l. induction l as [|kv l IH]; intros Hall; [done|].
  rewrite filter_cons_True by (apply Hall; left). f_equal. apply IH. set_solver.
Qed.

Ltac known_fields := repeat constructor; simpl; set_solver.

Lemma de_entry_value (e : SnoozeEntry) :
  extra_ok entry_fields (entry_extra e) -> de_entry (entry_value e) = Some e.
Proof.
  intros He. unfold de_entry, entry_value, object_value. cbn [entries_of mbind option_bind].
  rewrite lookup_object by (apply He; set_solver). csimpl.
  change (("snoozed_until", VString (snoozed_until e)) :: btree_iter (entry_extra e)) with
    ([("snoozed_until", VString (snoozed_until e))] ++ btree_iter (entry_extra e)).
  rewrite extras_object by (done || known_fields). by destruct e.
Qed.

Lemma de_geometry_value (g : WindowGeometry) :
  geometry_ok g -> de_geometry (geometry_value g) = Some g.
Proof.
  intros [Hx Hy Hw Hh]. unfold de_geometry.
  change (fields ["x"; "y"; "width"; "height"; "maximized"] (geometry_value g)) with
    (Some [Some (int_value (geo_x g)); Some (int_value (geo_y g));
           Some (int_value (geo_width g)); Some (int_value (geo_height g));
           Some (VBool (geo_maximized g))]).
  unfold required, de_i32, de_u32. cbn [mbind option_bind].
  rewrite !de_int_value by lia. by destruct g.
Qed.

Lemma de_option_geometry (g : WindowGeometry) :
  geometry_ok g -> de_option de_geometry (geometry_value g) = Some (Some g).
Proof.
  intros Hg. change (Some <$> de_geometry (geometry_value g) = Some (Some g)).
  by rewrite de_geometry_value.
Qed.

Lemma de_sections_value (s : SectionPreferences) :
  extra_ok section_fields (sections_extra s) -> de_sections (sections_value s) = Some s.
Proof.
  intros He. unfold de_sections, sections_value, object_value.
  cbn [entries_of mbind option_bind].
  rewrite !lookup_object by (apply He; set_solver).
  rewrite extras_object by (done || known_fields). csimpl. by destruct s.
Qed.

Lemma de_preferences_value (p : Preferences) :
  extra_ok section_fields (sections_extra (pref_sections p)) ->
  (forall g, pref_window_geometry p = Some g -> geometry_ok g) ->
  extra_ok preference_fields (pref_extra p) ->
  de_preferences (preferences_value p) = Some p.
Proof.
  intros Hs Hg He. unfold de_preferences, preferences_value, object_value.
  cbn [entries_of mbind option_bind].
  rewrite !lookup_object by (apply He; set_solver).
  rewrite extras_object by (done || destruct (pref_window_geometry p); known_fields).
  assert (de_theme (theme_value (pref_theme p)) = Some (pref_theme p)) as Ht
    by (by destruct (pref_theme p)).
  destruct p as [theme sections [g|] extra]; cbn [pref_theme pref_sections
    pref_window_geometry pref_extra app] in *; unfold defaulted.
  - set (l := _ :: _).
    assert (lookup_entry "theme" l = Some (theme_value theme)) as -> by reflexivity.
    assert (lookup_entry "sections" l = Some (sections_value sections)) as -> by reflexivity.
    assert (lookup_entry "window_geometry" l = Some (geometry_value g)) as -> by reflexivity.
    rewrite Ht. cbn [mbind option_bind]. rewrite de_sections_value by done.
    cbn [mbind option_bind]. by rewrite (de_option_geometry g) by (by apply Hg).
  - set (l := _ :: _).
    assert (lookup_entry "theme" l = Some (theme_value theme)) as -> by reflexivity.
    assert (lookup_entry "sections" l = Some (sections_value sections)) as -> by reflexivity.
    assert (lookup_entry "window_geometry" l = None) as -> by reflexivity.
    rewrite Ht. cbn [mbind option_bind]. by rewrite de_sections_value.
Qed.

Lemma de_snoozed_value (m : gmap string SnoozeEntry) :
  (forall k e, m !! k = Some e -> extra_ok entry_fields (entry_extra e)) ->
  de_snoozed (VObject ((fun kv => (kv.1, entry_value kv.2)) <$> btree_iter m)) = Some m.
Proof.
  intros Hm. unfold de_snoozed. cbn [entries_of mbind option_bind].
  assert (forall l : list (string * SnoozeEntry),
    (forall k e, (k, e) ∈ l -> extra_ok entry_fields (entry_extra e)) ->
    mapM (fun kv : string * Value => e ← de_entry kv.2; Some (kv.1, e))
      ((fun kv => (kv.1, entry_value kv.2)) <$> l) = Some l) as Hmap.
  { intros l Hl. apply mapM_Some. induction l as [|[k e] l IH]; csimpl; constructor.
    - cbn [fst snd]. rewrite de_entry_value by (apply (Hl k e); left). done.
    - apply IH. intros k' e' Hin. apply (Hl k' e'). by right. }
  rewrite Hmap by (intros k e Hin%elem_of_btree_iter; by eapply Hm).
  cbn [mbind option_bind]. by rewrite list_to_map_btree.
Qed.

Lemma de_state_value (s : StateFile) : state_ok s -> de_state (state_value s) = Some s.
Proof.
  intros [Hv He Hs Hg Hp Hx]. unfold de_state, state_value, object_value.
  cbn [entries_of mbind option_bind].
  rewrite !lookup_object by (apply Hx; set_solver).
  rewrite extras_object by (done || known_fields). unfold defaulted.
  set (l := _ :: _).
  assert (lookup_entry "schema_version" l = Some (int_value (sf_schema_version s))) as ->
    by reflexivity.
  assert (lookup_entry "snoozed" l =
    Some (VObject ((fun kv => (kv.1, entry_value kv.2)) <$> btree_iter (sf_snoozed s)))) as ->
    by reflexivity.
  assert (lookup_entry "preferences" l = Some (preferences_value (sf_preferences s))) as ->
    by reflexivity.
  unfold de_u32. rewrite de_int_value by lia. cbn [mbind option_bind].
  rewrite de_snoozed_value by done. cbn [mbind option_bind].
  rewrite de_preferences_value by done. by destruct s.
Qed.

Section SnoozeLemmas.
Context `{R : Rfc3339} (time_error : string) (debug_str : string -> string).

Definition kept_extra (m : gmap string SnoozeEntry) (key : string) : Extra :=
  match m !! key with Some entry => entry_extra entry | None => ∅ end.

Lemma put_snoozes_spec (l : list (string * OffsetDateTime)) (m m' : gmap string SnoozeEntry) :
  NoDup l.*1 -> put_snoozes l m = Ok m' ->
  (forall k u, (k, u) ∈ l -> exists f, rfc3339_format u = Some f /\
     m' !! k = Some {| snoozed_until := f; entry_extra := kept_extra m k |}) /\
  (forall k, k ∉ l.*1 -> m' !! k = m !! k).
Proof.
  revert m. induction l as [|[key u] l IH]; intros m; csimpl.
  { intros _ [= ->]. split; [set_solver|done]. }
  rewrite list.NoDup_cons. intros [Hn Hnd] (f & Hf%opt_context_Ok & Hput)%bind_Ok.
  destruct (IH _ Hnd Hput) as [IH1 IH2]. split.
  - intros k v [[= -> ->]|Hin]%elem_of_cons.
    + exists f. split; [done|]. rewrite IH2 by done. by rewrite lookup_insert_eq.
    + destruct (IH1 k v Hin) as (f' & Hf' & ->). exists f'. split; [done|].
      assert (k <> key) as Hne.
      { intros ->. apply Hn, list_elem_of_fmap. by exists (key, v). }
      unfold kept_extra. by rewrite lookup_insert_ne.
  - intros k [Hk1 Hk2]%not_elem_of_cons. rewrite IH2 by done. by rewrite lookup_insert_ne.
Qed.

Lemma put_snoozes_total (l : list (string * OffsetDateTime)) (m : gmap string SnoozeEntry) :
  Forall (fun ku => is_Some (rfc3339_format ku.2)) l -> exists m', put_snoozes l m = Ok m'.
Proof.
  intros Hall. revert m. induction Hall as [|[k u] l [f Hf] _ IH]; intros m; simpl in *; [by eexists|].
  rewrite Hf. simpl. apply IH.
Qed.

Lemma replace_snoozes_handler (s s' : StateFile) (m : gmap string OffsetDateTime) :
  replace_snoozes s m = Ok s' ->
  s' = set_sf_snoozed (sf_snoozed s') s /\
  (forall k u, m !! k = Some u -> exists f, rfc3339_format u = Some f /\
     sf_snoozed s' !! k =
       Some {| snoozed_until := f; entry_extra := kept_extra (sf_snoozed s) k |}) /\
  (forall k, m !! k = None -> sf_snoozed s' !! k = None).
Proof.
  unfold replace_snoozes. intros (m' & Hput & [= <-])%bind_Ok. split; [done|].
  apply put_snoozes_spec in Hput as [H1 H2]; [|apply NoDup_btree_keys]. split.
  - intros k u Hk. destruct (H1 k u) as (f & Hf & Hs); [by apply elem_of_btree_iter|].
    exists f. split; [done|]. cbn [sf_snoozed set_sf_snoozed]. rewrite Hs. unfold kept_extra.
    do 2 f_equal.
    destruct (filter _ (sf_snoozed s) !! k) as [e|] eqn:He.
    + apply map_lookup_filter_Some in He as [-> _]. done.
    + destruct (sf_snoozed s !! k) as [e|] eqn:Hs'; [|done].
      apply map_lookup_filter_None in He as [He|He]; [congruence|].
      destruct (He e Hs'). by exists u.
  - intros k Hk. cbn [sf_snoozed set_sf_snoozed]. rewrite H2.
    + apply map_lookup_filter_None. right. intros e _ [u Hu]. simpl in Hu. congruence.
    + intros Hin. apply elem_of_btree_keys in Hin as [u Hu]. congruence.
Qed.

Lemma decode_snoozes_spec (l : list (string * SnoozeEntry)) (m : gmap string OffsetDateTime) :
  NoDup l.*1 -> decode_snoozes time_error debug_str l = Ok m ->
  (forall k e, (k, e) ∈ l -> exists t, rfc3339_parse (snoozed_until e) = Some t /\
     m !! k = Some t) /\
  (forall k, k ∉ l.*1 -> m !! k = None).
Proof.
  revert m. induction l as [|[key e] l IH]; intros m; csimpl.
  { intros _ [= <-]. split; [set_solver|done]. }
  rewrite list.NoDup_cons.
  intros [Hn Hnd] (t & Ht & (m1 & Hm1 & [= <-])%bind_Ok)%bind_Ok.
  unfold decode_snooze in Ht. destruct (rfc3339_parse (snoozed_until e)) as [t'|] eqn:Hp; [|done].
  injection Ht as ->. destruct (IH _ Hnd Hm1) as [IH1 IH2]. split.
  - intros k e' [[= -> ->]|Hin]%elem_of_cons.
    + exists t. by rewrite lookup_insert_eq.
    + destruct (IH1 k e' Hin) as (t1 & Hp1 & Hl). exists t1. split; [done|].
      rewrite lookup_insert_ne; [done|]. intros ->. apply Hn, list_elem_of_fmap. by exists (k, e').
  - intros k [Hk1 Hk2]%not_elem_of_cons. by rewrite lookup_insert_ne, IH2.
Qed.

Lemma decode_snoozes_total (l : list (string * SnoozeEntry)) :
  Forall (fun ke => is_Some (rfc3339_parse (snoozed_until ke.2))) l ->
  exists m, decode_snoozes time_error debug_str l = Ok m.
Proof.
  induction 1 as [|[k e] l [t Ht] _ [m IH]]; simpl in *; [by eexists|].
  unfold decode_snooze. rewrite Ht. simpl. rewrite IH. by eexists.
Qed.

Lemma decoded_replace_handler `{!Rfc3339Laws R} (s s' : StateFile)
    (m : gmap string OffsetDateTime) :
  replace_snoozes s m = Ok s' -> decoded_snoozes time_error debug_str s' = Ok m.
Proof.
  intros (_ & H1 & H2)%replace_snoozes_handler.
  assert (forall k e, sf_snoozed s' !! k = Some e ->
    exists t, rfc3339_parse (snoozed_until e) = Some t /\ m !! k = Some t) as Hall.
  { intros k e He. destruct (m !! k) as [u|] eqn:Hk; [|by rewrite H2 in He].
    destruct (H1 k u Hk) as (f & Hf & Hs). rewrite Hs in He. injection He as <-.
    exists u. split; [|done]. by apply rfc3339_roundtrip. }
  unfold decoded_snoozes.
  destruct (decode_snoozes_total (btree_iter (sf_snoozed s'))) as [m' Hm'].
  { apply list.Forall_forall. intros [k e] Hin%elem_of_btree_iter.
    destruct (Hall k e Hin) as (t & Ht & _). by exists t. }
  rewrite Hm'. f_equal. apply decode_snoozes_spec in Hm' as [D1 D2]; [|apply NoDup_btree_keys].
  apply map_eq. intros k. destruct (sf_snoozed s' !! k) as [e|] eqn:Hs.
  - destruct (D1 k e) as (t & Ht & ->); [by apply elem_of_btree_iter|].
    destruct (Hall k e Hs) as (t' & Ht' & ->). congruence.
  - rewrite D2.
    + destruct (m !! k) as [u|] eqn:Hk; [|done].
      destruct (H1 k u Hk) as (f & _ & Hs'). congruence.
    + intros [e He]%elem_of_btree_keys. congruence.
Qed.

Lemma replace_snoozes_ok (s s' : StateFile) (m : gmap string OffsetDateTime) :
  state_ok s -> replace_snoozes s m = Ok s' -> state_ok s'.
Proof.
  intros [Hv He Hs Hg Hp Hx] Hr. pose proof (replace_snoozes_handler _ _ _ Hr) as (Heq & H1 & H2).
  split; [by rewrite Heq| |by rewrite Heq..]. intros k e Hk. destruct (m !! k) as [u|] eqn:Hm.
  - destruct (H1 k u Hm) as (f & _ & Hs'). rewrite Hs' in Hk. injection Hk as <-. simpl.
    unfold kept_extra. destruct (sf_snoozed s !! k) as [e0|] eqn:He0; [by eapply He|].
    intros k' _. apply lookup_empty.
  - by rewrite H2 in Hk.
Qed.
End SnoozeLemmas.

(** ** Properties *)

(** C23: A well-formed state survives serialization: reading back what is written
    gives the same state, unknown fields of every level included. *)
Theorem state_roundtrip (s : StateFile) : state_ok s -> de_state (state_value s) = Some s.
Proof. apply de_state_value. Qed.

Lemma StateFile_default_ok : state_ok StateFile_default.
Proof.
  split; simpl; [unfold schema_version; lia| | |done| |]; intros k.
  - intros e Hk. by apply lookup_empty_Some in Hk.
  - intros _. apply lookup_empty.
  - intros _. apply lookup_empty.
  - intros _. apply lookup_empty.
Qed.

Definition demo_state : StateFile :=
  {| sf_schema_version := 1;
     sf_snoozed := {[ "prod.disk" :=
       {| snoozed_until := "1700"; entry_extra := {[ "note" := VString "mine" ]} |} ]};
     sf_preferences :=
       {| pref_theme := Light; pref_sections := SectionPreferences_default;
          pref_window_geometry := Some {| geo_x := -5; geo_y := 7; geo_width := 640;
            geo_height := 480; geo_maximized := true |};
          pref_extra := ∅ |};
     sf_extra := {[ "future" := VArray [Null] ]} |}.

Lemma demo_state_ok : state_ok demo_state.
Proof.
  split; simpl.
  - lia.
  - intros k e [<- <-]%lookup_singleton_Some k' Hk. simpl.
    apply lookup_singleton_ne. intros <-. set_solver.
  - intros k _. apply lookup_empty.
  - intros g [= <-]. split; simpl; lia.
  - intros k _. apply lookup_empty.
  - intros k Hk. apply lookup_singleton_ne. intros <-. set_solver.
Qed.

Lemma state_roundtrip_witness : de_state (state_value demo_state) = Some demo_state.
Proof. exact (state_roundtrip demo_state demo_state_ok). Defined.

(** Replacing the snoozes of a state succeeds exactly when every deadline has an
    RFC 3339 form; then the entries are those of the new map, each with the fields
    an entry of the same key had, nothing else of the state changes, and reading
    the snoozes back gives the map. *)
Theorem replace_snoozes_spec `{R : Rfc3339} `{!Rfc3339Laws R} (time_error : string)
    (debug_str : string -> string) (s : StateFile) (m : gmap string OffsetDateTime) :
  ((exists s', replace_snoozes s m = Ok s') <->
   forall k u, m !! k = Some u -> is_Some (rfc3339_format u)) /\
  forall s', replace_snoozes s m = Ok s' ->
    decoded_snoozes time_error debug_str s' = Ok m /\
    s' = set_sf_snoozed (sf_snoozed s') s /\
    (forall k e e', sf_snoozed s !! k = Some e -> sf_snoozed s' !! k = Some e' ->
       entry_extra e' = entry_extra e).
Proof.
  split.
  - split.
    + intros [s' (_ & H1 & _)%replace_snoozes_handler] k u Hk.
      destruct (H1 k u Hk) as (f & Hf & _). by exists f.
    + intros Hall. unfold replace_snoozes.
      destruct (put_snoozes_total (btree_iter m)
        (filter (fun kv : string * SnoozeEntry => is_Some (m !! kv.1)) (sf_snoozed s)))
        as [m' ->]; [|by eexists].
      apply list.Forall_forall. intros [k u] Hin%elem_of_btree_iter. by eapply Hall.
  - intros s' Hr. split; [by eapply decoded_replace_handler|].
    apply replace_snoozes_handler in Hr as (Hs & H1 & H2). split; [done|].
    intros k e e' He He'. destruct (m !! k) as [u|] eqn:Hk; [|by rewrite H2 in He'].
    destruct (H1 k u Hk) as (f & _ & Hs'). rewrite Hs' in He'. injection He' as <-.
    simpl. unfold kept_extra. by rewrite He.
Qed.

Lemma replace_snoozes_spec_witness :
  exists s', replace_snoozes (H := decimal_rfc3339) demo_state {[ "prod.disk" := 42%Z ]} = Ok s' /\
    decoded_snoozes (H := decimal_rfc3339) "" (fun k => k) s' = Ok {[ "prod.disk" := 42%Z ]}.
Proof.
  destruct (replace_snoozes_spec (R := decimal_rfc3339) "" (fun k => k) demo_state
    {[ "prod.disk" := 42%Z ]}) as [[_ H1] H2].
  destruct H1 as [s' Hs].
  - intros k u Hk. apply lookup_singleton_Some in Hk as [_ <-]. by eexists.
  - exists s'. split; [exact Hs|]. destruct (H2 s' Hs) as [H3 _]. exact H3.
Defined.
