(* ===== verification/Persistence.v ===== *)
(** * Persistence

    The operations of [src/cmd/montray-ui/src/persistence.rs] on a file system: a
    map from paths to files. Every system call is a step that may fail, so that
    an operation is the sequence of file-system states it goes through and its
    result; a crash leaves one of these states. The JSON text format is an
    interface; temporary files have a fresh name. [Store] shows that the code follows
    these operations on the file tree. *)

From Stdlib Require Import ZArith Lia Ascii.
From stdpp Require Import base gmap strings list option pretty countable.
From S2P Require Import Prelude RustStr RustPath Domain Protocol StateFile.

Definition STATE_FILENAME : string := ".montray-state.json".
Definition FORMER_STATE_FILENAME : string := ".salmon-watch-state.json".
Definition LEGACY_STATE_FILENAME : string := ".salmon-watch-legacy-state.json".

(** ** Files *)

Record File := {
  f_data : string;
  f_mode : N;
}.
Abbreviation FS := (gmap string File).

Definition owner_only : N := 384.  (* 0o600 *)

(** Where an operation can fail. *)
Inductive Stage :=
| ReadFile
| CreateTemp
| SetPermissions
| WriteData
| WriteEnd
| FlushData
| SyncData
| PersistTemp.

(** The errors of one operation, by stage. *)
Abbreviation Faults := (Stage -> option anyhow).

Definition set_data (temp : string) (data : string) (fs : FS) : FS :=
  alter (fun f => {| f_data := f_data f +:+ data; f_mode := f_mode f |}) temp fs.
Definition set_mode (temp : string) (mode : N) (fs : FS) : FS :=
  alter (fun f => {| f_data := f_data f; f_mode := mode |}) temp fs.
Definition create (temp : string) (fs : FS) : FS :=
  <[temp := {| f_data := ""; f_mode := owner_only |}]> fs.
(** An atomic rename over the destination. *)
Definition rename (temp path : string) (fs : FS) : FS :=
  match fs !! temp with
  | Some f => <[path := f]> (delete temp fs)
  | None => fs
  end.

(** Runs steps in order. A failure removes the temporary file, as dropping its
    handle does, and adds the step's context to the error. *)
Fixpoint exec (faults : Faults) (temp : string)
    (steps : list (Stage * string * (FS -> FS))) (fs : FS) : list FS * Result unit :=
  match steps with
  | [] => ([fs], Ok tt)
  | (stage, context_, f) :: rest =>
      match faults stage with
      | Some e => ([fs; delete temp fs], Err (context_ :: e))
      | None => let '(states, r) := exec faults temp rest (f fs) in (fs :: states, r)
      end
  end.

(** The state an operation leaves. *)
Definition final (fs : FS) (states : list FS) : FS := default fs (list.last states).

(** ** Text format *)

Class JsonCodec := {
  to_writer_pretty : Value -> string;
  json_from_slice : string -> Result Value;
  (** The values whose text is read back as they are. *)
  printable : Value -> Prop;
}.
Class JsonLaws (C : JsonCodec) : Prop := {
  json_roundtrip (v : Value) :
    printable v -> json_from_slice (to_writer_pretty v +:+ newline) = Ok v;
}.

Section Operations.
Context `{C : JsonCodec}.
(** The text of a deserialization error. *)
Variable state_error : string.

Definition state_text (s : StateFile) : string :=
  to_writer_pretty (state_value s) +:+ newline.

Definition parse_state (data : string) : Result StateFile :=
  v ← json_from_slice data;
  opt_context state_error (de_state v).

(** Absence is a first run. *)
Definition load (faults : Faults) (path : string) (fs : FS) : Result StateFile :=
  match faults ReadFile with
  | Some e => with_context ("failed to read state file " +:+ to_string_lossy path) (Err e)
  | None =>
      match fs !! path with
      | Some f => with_context ("failed to parse state file " +:+ to_string_lossy path) (parse_state (f_data f))
      | None => Ok StateFile_default
      end
  end.

Definition save_steps (temp path parent : string) (s : StateFile)
    : list (Stage * string * (FS -> FS)) :=
  [(CreateTemp, "failed to create temporary state file in " +:+ to_string_lossy parent, create temp);
   (SetPermissions, "failed to set state-file permissions", set_mode temp owner_only);
   (WriteData, "failed to encode state file", set_data temp (to_writer_pretty (state_value s)));
   (WriteEnd, "failed to finish state file", set_data temp newline);
   (FlushData, "failed to flush state file", id);
   (SyncData, "failed to sync state file", id);
   (PersistTemp, "failed to replace state file " +:+ to_string_lossy path, rename temp path)].

Definition save (faults : Faults) (temp path : string) (s : StateFile) (fs : FS)
    : list FS * Result unit :=
  match path_parent path with
  | None => ([fs], bail "state filename has no parent directory")
  | Some parent => exec faults temp (save_steps temp path parent s) fs
  end.

(** One read-modify-write transaction; the mutex makes it one at a time. *)
Definition update (faults : Faults) (temp path : string)
    (change : StateFile -> Result StateFile) (fs : FS) : list FS * Result unit :=
  match s ← load faults path fs; change s with
  | Err e => ([fs], Err e)
  | Ok s => save faults temp path s fs
  end.

End Operations.

(** ** Lemmas *)

Lemma final_cons (fs x : FS) (l : list FS) : l <> [] -> final fs (x :: l) = final x l.
Proof.
  intros Hl. unfold final. destruct l as [|y l]; [done|]. simpl.
  destruct (list.last (y :: l)) eqn:He; [done|]. by apply last_None in He.
Qed.

Lemma exec_nonempty faults temp steps fs : (exec faults temp steps fs).1 <> [].
Proof.
  destruct steps as [|[[stage c] f] steps]; simpl; [done|].
  destruct (faults stage); [done|]. by destruct (exec faults temp steps (f fs)).
Qed.

(** A success has run every step. *)
Lemma exec_ok faults temp steps fs states :
  exec faults temp steps fs = (states, Ok tt) ->
  final fs states = foldl (fun fs step => step.2 fs) fs steps /\
  Forall (fun step => faults step.1.1 = None) steps.
Proof.
  revert fs states. induction steps as [|[[stage c] f] steps IH]; intros fs states; simpl.
  { intros [= <-]. split; [done|constructor]. }
  destruct (faults stage) as [e|] eqn:Hf; [done|].
  destruct (exec faults temp steps (f fs)) as [l r] eqn:He. intros [= <- ->].
  destruct (IH _ _ He) as [H1 H2]. split; [|by constructor].
  pose proof (exec_nonempty faults temp steps (f fs)) as Hne. rewrite He in Hne.
  rewrite final_cons by done. rewrite <-H1. unfold final.
  destruct (list.last l) eqn:Hl; [done|]. by apply last_None in Hl.
Qed.

(** A property of states that every step keeps, and that dropping the temporary
    file keeps, holds in every state of a run. *)
Lemma exec_invariant (P : FS -> Prop) faults temp steps fs :
  P fs -> (forall fs, P fs -> P (delete temp fs)) ->
  Forall (fun step => forall fs, P fs -> P (step.2 fs)) steps ->
  Forall P (exec faults temp steps fs).1 /\ P (final fs (exec faults temp steps fs).1).
Proof.
  intros HP Hd. revert fs HP. induction steps as [|[[stage c] f] steps IH]; intros fs HP Hall; simpl.
  { split; [by repeat constructor|done]. }
  apply list.Forall_cons in Hall as [Hf Hall].
  destruct (faults stage) as [e|]; [split; simpl; [repeat constructor; auto|by apply Hd]|].
  destruct (IH (f fs) (Hf fs HP) Hall) as [H1 H2].
  pose proof (exec_nonempty faults temp steps (f fs)) as Hne.
  destruct (exec faults temp steps (f fs)) as [l r]. simpl in *.
  split; [by constructor|]. rewrite final_cons by done.
  unfold final in *. destruct (list.last l) eqn:Hl; [done|]. by apply last_None in Hl.
Qed.

(** Files other than the temporary one. *)
Definition same_but (temp : string) (fs fs' : FS) : Prop :=
  forall p, p <> temp -> fs' !! p = fs !! p.

Lemma same_but_create temp fs fs' : same_but temp fs fs' -> same_but temp fs (create temp fs').
Proof. intros H p Hp. unfold create. rewrite lookup_insert_ne by done. by apply H. Qed.
Lemma same_but_alter temp g fs fs' : same_but temp fs fs' -> same_but temp fs (alter g temp fs').
Proof. intros H p Hp. rewrite lookup_alter_ne by done. by apply H. Qed.
Lemma same_but_delete temp fs fs' : same_but temp fs fs' -> same_but temp fs (delete temp fs').
Proof. intros H p Hp. rewrite lookup_delete_ne by done. by apply H. Qed.
Lemma same_but_refl temp fs : same_but temp fs fs.
Proof. by intros p Hp. Qed.
Create HintDb fs.
Hint Resolve same_but_create same_but_alter same_but_delete same_but_refl : fs.

Section OperationLemmas.
Context `{C : JsonCodec} (state_error : string).

(** The file at [path] is the old one, or holds exactly the new text. *)
Definition old_or_new (path data : string) (fs fs' : FS) : Prop :=
  fs' !! path = fs !! path \/ fs' !! path = Some {| f_data := data; f_mode := owner_only |}.

Lemma rename_lookup temp path f fs :
  temp <> path -> fs !! temp = Some f ->
  rename temp path fs !! path = Some f /\ rename temp path fs !! temp = None /\
  forall p, p <> temp -> p <> path -> rename temp path fs !! p = fs !! p.
Proof.
  intros Hne Hf. unfold rename. rewrite Hf.
  rewrite lookup_insert_eq, lookup_insert_ne, lookup_delete_eq by done.
  split; [done|]. split; [done|]. intros p H1 H2.
  by rewrite lookup_insert_ne, lookup_delete_ne.
Qed.

(** The temporary file as the steps before the rename leave it. *)
Lemma written_temp temp data tail fs :
  set_data temp tail (set_data temp data (set_mode temp owner_only (create temp fs))) !! temp =
  Some {| f_data := data +:+ tail; f_mode := owner_only |}.
Proof.
  unfold set_data, set_mode, create. rewrite !lookup_alter_eq, lookup_insert_eq. done.
Qed.

Lemma exec_app faults temp steps1 steps2 fs :
  exec faults temp (steps1 ++ steps2) fs =
  let '(states1, r1) := exec faults temp steps1 fs in
  match r1 with
  | Ok _ => let '(states2, r2) := exec faults temp steps2 (final fs states1) in
            (removelast states1 ++ states2, r2)
  | Err e => (states1, Err e)
  end.
Proof.
  revert fs. induction steps1 as [|[[stage c] f] steps1 IH]; intros fs; simpl.
  { change (final fs [fs]) with fs. by destruct (exec faults temp steps2 fs). }
  destruct (faults stage); [done|]. rewrite IH.
  pose proof (exec_nonempty faults temp steps1 (f fs)) as Hne.
  destruct (exec faults temp steps1 (f fs)) as [states1 [u|e]]; simpl in *; [|done].
  rewrite final_cons by done.
  assert (final (f fs) states1 = final fs states1) as ->.
  { unfold final. destruct (list.last states1) eqn:Hl; [done|]. by apply last_None in Hl. }
  destruct (exec faults temp steps2 (final fs states1)) as [states2 r2].
  destruct states1; [done|]. done.
Qed.

(** One intermediate state of a save: the state file is the previous one or the
    complete new one, and only the temporary file differs besides. *)
Definition save_state_ok (temp path : string) (s : StateFile) (fs fs' : FS) : Prop :=
  old_or_new path (state_text s) fs fs' /\
  forall p, p <> temp -> p <> path -> fs' !! p = fs !! p.

Lemma same_but_save_ok temp path s fs fs' :
  temp <> path -> same_but temp fs fs' -> save_state_ok temp path s fs fs'.
Proof. intros Hne Hs. split; [left; by apply Hs|]. intros p Hp _. by apply Hs. Qed.

Lemma Forall_removelast {A} (P : A -> Prop) (l : list A) : Forall P l -> Forall P (removelast l).
Proof.
  induction 1 as [|x l Hx Hl IH]; [constructor|]. destruct l; [constructor|]. by constructor.
Qed.

Lemma final_app_two (fs x y : FS) (states : list FS) : final fs (states ++ [x; y]) = y.
Proof. unfold final. change [x; y] with ([x] ++ [y]). by rewrite app_assoc, last_snoc. Qed.

(** The steps before the rename only touch the temporary file. *)
Lemma save_prepare faults temp path parent s fs states r :
  temp <> path ->
  exec faults temp (take 6 (save_steps temp path parent s)) fs = (states, r) ->
  Forall (save_state_ok temp path s fs) states /\ same_but temp fs (final fs states) /\
  (r = Ok tt -> final fs states !! temp =
     Some {| f_data := state_text s; f_mode := owner_only |}).
Proof.
  intros Hne H1.
  pose proof (exec_invariant (same_but temp fs) faults temp
    (take 6 (save_steps temp path parent s)) fs) as Hinv.
  rewrite H1 in Hinv. destruct Hinv as [Hall Hfin]; [auto with fs..| |].
  { repeat (apply list.Forall_cons; split;
      [intros fs' Hs; unfold id, set_data, set_mode; simpl; auto with fs|]). constructor. }
  simpl in Hall, Hfin. split; [|split; [done|]].
  - eapply list.Forall_impl; [exact Hall|]. intros fs' Hs. by apply same_but_save_ok.
  - intros ->. apply exec_ok in H1 as [-> _]. apply written_temp.
Qed.

Lemma save_crash_safe faults temp path s fs states r :
  temp <> path -> save faults temp path s fs = (states, r) ->
  Forall (save_state_ok temp path s fs) states /\
  (r = Ok tt -> final fs states !! path =
     Some {| f_data := state_text s; f_mode := owner_only |} /\ final fs states !! temp = None) /\
  (forall e, r = Err e -> final fs states !! path = fs !! path).
Proof.
  intros Hne. unfold save. destruct (path_parent path) as [parent|].
  2:{ intros [= <- <-]. split; [constructor; [|constructor]; split; [by left|done]|].
      split; [done|]. intros. done. }
  change (save_steps temp path parent s) with
    (take 6 (save_steps temp path parent s) ++ drop 6 (save_steps temp path parent s)).
  rewrite exec_app.
  destruct (exec faults temp (take 6 (save_steps temp path parent s)) fs) as [st1 r1] eqn:H1.
  destruct (save_prepare _ _ _ _ _ _ _ _ Hne H1) as (Hall & Hfin & Htemp).
  destruct r1 as [[]|e1].
  2:{ intros [= <- <-]. split; [done|]. split; [done|]. intros _ _. by apply Hfin. }
  specialize (Htemp eq_refl). set (fs1 := final fs st1) in *.
  assert (forall x y, save_state_ok temp path s fs x -> save_state_ok temp path s fs y ->
    Forall (save_state_ok temp path s fs) (removelast st1 ++ [x; y])) as Happ.
  { intros x y Hx Hy. apply Forall_app. split; [by apply Forall_removelast|].
    constructor; [done|]. constructor; [done|constructor]. }
  simpl. destruct (faults PersistTemp) as [e|]; intros [= <- <-]; rewrite !final_app_two.
  - split; [apply Happ; apply same_but_save_ok; auto using same_but_delete|].
    split; [done|]. intros _ _. rewrite lookup_delete_ne by done. by apply Hfin.
  - destruct (rename_lookup temp path _ fs1 Hne Htemp) as (R1 & R2 & R3).
    split; [|split; done]. apply Happ; [by apply same_but_save_ok|].
    split; [by right|]. intros p Hp1 Hp2. rewrite R3 by done. by apply Hfin.
Qed.
(** A failed run has not made its last step. *)
Lemma exec_error (P : FS -> Prop) faults temp steps fs states e :
  P fs -> (forall fs, P fs -> P (delete temp fs)) ->
  Forall (fun step => forall fs, P fs -> P (step.2 fs)) (removelast steps) ->
  exec faults temp steps fs = (states, Err e) -> Forall P states.
Proof.
  intros HP Hd. revert fs states HP. induction steps as [|[[stage c] f] steps IH];
    intros fs states HP Hall; [done|]. cbn [exec].
  destruct (faults stage); [intros [= <- _]; by repeat constructor; auto|].
  destruct (exec faults temp steps (f fs)) as [l r] eqn:He. intros [= <- ->].
  constructor; [done|]. destruct steps as [|step steps]; [done|].
  apply list.Forall_cons in Hall as [Hf Hall]. by apply (IH (f fs)); auto.
Qed.

Lemma save_error faults temp path s fs states e :
  temp <> path -> save faults temp path s fs = (states, Err e) ->
  Forall (fun fs' => fs' !! path = fs !! path) states.
Proof.
  intros Hne. unfold save. destruct (path_parent path) as [parent|];
    [|intros [= <- _]; by repeat constructor].
  intros He. apply (list.Forall_impl (same_but temp fs)); [|intros fs' Hs; by apply Hs].
  eapply exec_error; [..|exact He]; [auto with fs..|]. cbn [removelast save_steps].
  repeat (apply list.Forall_cons; split;
    [intros fs' Hs; unfold id, set_data, set_mode; simpl; auto with fs|]). constructor.
Qed.
End OperationLemmas.

(** ** Transactions *)

Definition no_faults : Faults := fun _ => None.

Section Transactions.
Context `{C : JsonCodec} (state_error : string).

Lemma load_saved `{!JsonLaws C} path fs s :
  state_ok s -> printable (state_value s) ->
  fs !! path = Some {| f_data := state_text s; f_mode := owner_only |} ->
  load state_error no_faults path fs = Ok s.
Proof.
  intros Hok Hp Hf. unfold load. simpl. rewrite Hf. simpl. unfold parse_state, state_text.
  rewrite json_roundtrip by done. simpl. by rewrite de_state_value.
Qed.

Lemma load_same path fs fs' :
  fs' !! path = fs !! path ->
  load state_error no_faults path fs' = load state_error no_faults path fs.
Proof. intros H. unfold load. by rewrite H. Qed.

Lemma load_no_fault faults path fs s :
  load state_error faults path fs = Ok s -> load state_error no_faults path fs = Ok s.
Proof. unfold load. by destruct (faults ReadFile). Qed.

(** What a writer's change must keep. *)
Definition keeps (change : StateFile -> Result StateFile) : Prop :=
  forall s s', state_ok s -> change s = Ok s' -> state_ok s' /\ printable (state_value s').

Lemma update_effect `{!JsonLaws C} faults temp path change fs states r s :
  temp <> path -> keeps change -> state_ok s ->
  load state_error no_faults path fs = Ok s ->
  update state_error faults temp path change fs = (states, r) ->
  match r with
  | Ok _ => exists s', change s = Ok s' /\ state_ok s' /\
      load state_error no_faults path (final fs states) = Ok s'
  | Err _ => load state_error no_faults path (final fs states) = Ok s
  end.
Proof.
  intros Hne Hk Hok Hl. unfold update.
  destruct (load state_error faults path fs) as [s0|e0] eqn:Hl0; simpl.
  2:{ intros [= <- <-]. done. }
  assert (s0 = s) as -> by (apply load_no_fault in Hl0; congruence).
  destruct (change s) as [s'|e] eqn:Hc; [|by intros [= <- <-]].
  intros Hs. destruct (save_crash_safe _ _ _ _ _ _ _ Hne Hs) as (_ & H1 & H2).
  destruct (Hk s s' Hok Hc) as [Hok' Hp']. destruct r as [[]|e].
  - exists s'. split; [done|]. split; [done|]. apply load_saved; [done..|]. by apply H1.
  - rewrite <-Hl. apply load_same. by eapply H2.
Qed.

(** The changes that were reported as done, applied in order. *)
Fixpoint committed (changes : list (StateFile -> Result StateFile)) (rs : list (Result unit))
    (s : StateFile) : Result StateFile :=
  match changes, rs with
  | change :: changes, Ok _ :: rs => s ← change s; committed changes rs s
  | _ :: changes, Err _ :: rs => committed changes rs s
  | _, _ => Ok s
  end.

End Transactions.

(** ** An instance of the text format

    JSON values are countable; a text is the binary code of a value. *)

Fixpoint value_tree (v : Value) : gen_tree (N + Z + string) :=
  match v with
  | Null => GenNode 0 []
  | VBool b => GenNode (if b then 1 else 2) []
  | VNumber (PosInt n) => GenNode 3 [GenLeaf (inl (inl n))]
  | VNumber (NegInt z) => GenNode 4 [GenLeaf (inl (inr z))]
  | VNumber (Float t) => GenNode 5 [GenLeaf (inr t)]
  | VString s => GenNode 6 [GenLeaf (inr s)]
  | VArray l => GenNode 7 (value_tree <$> l)
  | VObject l => GenNode 8 ((fun kv => GenNode 9 [GenLeaf (inr kv.1); value_tree kv.2]) <$> l)
  end.

Fixpoint tree_value (t : gen_tree (N + Z + string)) : Value :=
  match t with
  | GenNode 1 [] => VBool true
  | GenNode 2 [] => VBool false
  | GenNode 3 [GenLeaf (inl (inl n))] => VNumber (PosInt n)
  | GenNode 4 [GenLeaf (inl (inr z))] => VNumber (NegInt z)
  | GenNode 5 [GenLeaf (inr x)] => VNumber (Float x)
  | GenNode 6 [GenLeaf (inr s)] => VString s
  | GenNode 7 l => VArray (tree_value <$> l)
  | GenNode 8 l =>
      VObject ((fun t => match t with
                         | GenNode _ [GenLeaf (inr k); v] => (k, tree_value v)
                         | _ => ("", Null)
                         end) <$> l)
  | _ => Null
  end.

Lemma tree_value_tree : forall v, tree_value (value_tree v) = v.
Proof.
  fix IH 1. intros [| [] | [n|z|x] | s | l | l]; try reflexivity; simpl; f_equal.
  - induction l as [|v l IHl]; csimpl; [done|]. by rewrite IH, IHl.
  - induction l as [|[k v] l IHl]; csimpl; [done|]. by rewrite IH, IHl.
Qed.

#[global] Instance Value_eq_dec : EqDecision Value.
Proof.
  intros v w. destruct (decide (value_tree v = value_tree w)) as [H|H].
  - left. by rewrite <-(tree_value_tree v), <-(tree_value_tree w), H.
  - right. intros ->. done.
Defined.
#[global] Instance Value_countable : Countable Value.
Proof. apply (inj_countable' value_tree tree_value), tree_value_tree. Defined.

Fixpoint pos_bits (p : positive) : string :=
  match p with
  | xH => ""
  | xO p => String "0" (pos_bits p)
  | xI p => String "1" (pos_bits p)
  end.
Fixpoint bits_pos (s : string) : positive :=
  match s with
  | EmptyString => xH
  | String c s => if Ascii.eqb c "1" then xI (bits_pos s) else xO (bits_pos s)
  end.

Lemma bits_pos_bits p : bits_pos (pos_bits p) = p.
Proof. induction p as [p IH|p IH|]; simpl; by rewrite ?IH. Qed.
Lemma pos_bits_line p : any_byte (Ascii.eqb (ascii_of_N 10)) (pos_bits p) = false.
Proof. by induction p. Qed.

Definition coded : JsonCodec := {|
  to_writer_pretty v := pos_bits (encode v);
  json_from_slice text :=
    match split_once newline text with
    | Some (bits, _) => opt_context "malformed" (decode (bits_pos bits))
    | None => Err ["malformed"]
    end;
  printable _ := True;
|}.

Lemma split_once_newline (s rest : string) :
  any_byte (Ascii.eqb (ascii_of_N 10)) s = false ->
  split_once newline (s +:+ newline +:+ rest) = Some (s, rest).
Proof.
  induction s as [|c s IH]; [done|]. intros [H1 H2]%orb_false_elim.
  change (String c s +:+ newline +:+ rest) with (String c (s +:+ newline +:+ rest)).
  cbn [split_once].
  assert (strip_prefix newline (String c (s +:+ newline +:+ rest)) = None) as ->.
  { change newline with (String (ascii_of_N 10) ""). cbn [strip_prefix]. by rewrite H1. }
  by rewrite IH.
Qed.

#[global] Instance coded_laws : JsonLaws coded.
Proof.
  split. intros v _. unfold json_from_slice, to_writer_pretty, coded.
  pose proof (split_once_newline (pos_bits (encode v)) "" (pos_bits_line _)) as Hs.
  rewrite append_nil_r in Hs. by rewrite Hs, bits_pos_bits, decode_encode.
Qed.

(** ** Writers

    Two writers of the application: the snoozes of the runtime, and a preference of
    the window. *)
Definition snooze_writer (m : gmap string OffsetDateTime) (s : StateFile) : Result StateFile :=
  replace_snoozes (H := decimal_rfc3339) s m.
Definition theme_writer (t : Theme) (s : StateFile) : Result StateFile :=
  let p := sf_preferences s in
  Ok (set_sf_preferences {| pref_theme := t; pref_sections := pref_sections p;
    pref_window_geometry := pref_window_geometry p; pref_extra := pref_extra p |} s).

Lemma snooze_writer_keeps m : keeps (C := coded) (snooze_writer m).
Proof. intros s s' Hok Hr. split; [|done]. by eapply (replace_snoozes_ok (R := decimal_rfc3339)). Qed.
Lemma theme_writer_keeps t : keeps (C := coded) (theme_writer t).
Proof. intros s s' [H1 H2 H3 H4 H5 H6] [= <-]. split; [|done]. by split. Qed.
