(* ===== verification/Tray.v ===== *)
(** * Tray

    [src/cmd/montray-ui/src/tray.rs]: the tray's visual identity and menu text,
    the edge-triggered flash controller with its 64-bit generation counter, and
    the composition of icons from 8-bit RGBA pixels. Decoding the embedded images
    is a parameter; the floating-point arithmetic of the pie is an interface. *)

From Stdlib Require Import ZArith Lia.
From stdpp Require Import base gmap sets strings list pretty option.
From S2P Require Import Prelude RustStr.

(** ** Tray state *)

(** The tray's own severity type. *)
Inductive TrayOverall : Set :=
| TrayUnknown
| TrayOk
| TrayInternalError
| TrayWarning
| TrayError.
#[global] Instance TrayOverall_eq_dec : EqDecision TrayOverall.
Proof. solve_decision. Defined.

Record TrayState := {
  ts_alerting : TrayOverall;
  ts_unknown_server_count : nat;
  ts_server_count : nat;
  ts_alerting_count : nat;
  ts_snoozed : option TrayOverall;
  ts_snoozed_count : nat;
}.

Definition is_flashing_state (s : TrayState) : bool :=
  match ts_alerting s with TrayUnknown | TrayOk => false | _ => true end.

Inductive TrayIconIdentity :=
| IdentityUnknown (unknown_server_count server_count : nat) (snoozed : option TrayOverall)
| IdentityKnown (alerting : TrayOverall) (snoozed : option TrayOverall).
#[global] Instance TrayIconIdentity_eq_dec : EqDecision TrayIconIdentity.
Proof. solve_decision. Defined.

Definition icon_identity (s : TrayState) : TrayIconIdentity :=
  if bool_decide (ts_alerting s = TrayUnknown)
  then IdentityUnknown (ts_unknown_server_count s) (ts_server_count s) (ts_snoozed s)
  else IdentityKnown (ts_alerting s) (ts_snoozed s).

Definition status_title (s : TrayState) : string :=
  let noun := if Nat.eqb (ts_alerting_count s) 1 then "incident" else "incidents" in
  let title := "Status: " +:+ pretty (ts_alerting_count s) +:+ " " +:+ noun in
  if Nat.ltb 0 (ts_snoozed_count s)
  then title +:+ " + " +:+ pretty (ts_snoozed_count s) +:+ " snoozed" else title.

(** ** Flash controller *)

Definition u64_modulus : Z := 18446744073709551616.
Definition wrapping_add_u64 (a b : Z) : Z := (a + b) mod u64_modulus.

Record FlashState := {
  fl_icon : option TrayIconIdentity;
  fl_flashing : bool;
  fl_showing_solid : bool;
  fl_generation : Z;
}.
Definition FlashState_default : FlashState :=
  {| fl_icon := None; fl_flashing := false; fl_showing_solid := false; fl_generation := 0 |}.

(** A [FlashCycle] is its generation. *)
Abbreviation FlashCycle := Z.

Definition flash_apply (current : FlashState) (state : TrayState)
    : FlashState * option FlashCycle :=
  let icon := icon_identity state in
  if bool_decide (fl_icon current = Some icon) then (current, None)
  else
    let generation := wrapping_add_u64 (fl_generation current) 1 in
    ({| fl_icon := Some icon; fl_flashing := is_flashing_state state; fl_showing_solid := true;
        fl_generation := generation |}, Some generation).

Definition flash_tick (current : FlashState) (cycle : FlashCycle)
    : FlashState * option bool :=
  if negb (Z.eqb (fl_generation current) cycle) || negb (fl_flashing current)
  then (current, None)
  else
    let solid := negb (fl_showing_solid current) in
    ({| fl_icon := fl_icon current; fl_flashing := fl_flashing current;
        fl_showing_solid := solid; fl_generation := fl_generation current |}, Some solid).

Definition is_flashing (current : FlashState) (cycle : FlashCycle) : bool :=
  Z.eqb (fl_generation current) cycle && fl_flashing current.

(** ** Pixels *)

Record Rgba := {
  red : Z;
  green : Z;
  blue : Z;
  alpha : Z;
}.
#[global] Instance Rgba_eq_dec : EqDecision Rgba.
Proof. solve_decision. Defined.

Definition as_u8 (v : Z) : Z := v mod 256.

(** The alpha-weighted channel, before it is narrowed. *)
Definition over_alpha (fa ba : Z) : Z := fa + ba * (255 - fa) / 255.
Definition over_channel (f b fa ba : Z) : Z :=
  (f * fa + b * ba * (255 - fa) / 255) / over_alpha fa ba.

Definition alpha_over (foreground background : Rgba) : Rgba :=
  let fa := alpha foreground in
  let ba := alpha background in
  let output_alpha := over_alpha fa ba in
  if Z.eqb output_alpha 0 then {| red := 0; green := 0; blue := 0; alpha := 0 |}
  else
    let channel c := as_u8 (over_channel (c foreground) (c background) fa ba) in
    {| red := channel red; green := channel green; blue := channel blue;
       alpha := as_u8 output_alpha |}.

(** An image: its size, and its pixels by coordinates. *)
Record RgbaImage := {
  img_width : nat;
  img_height : nat;
  pixel : nat -> nat -> Rgba;
}.

Definition put_pixel (img : RgbaImage) (x y : nat) (p : Rgba) : RgbaImage :=
  {| img_width := img_width img; img_height := img_height img;
     pixel := fun x' y' => if Nat.eqb x' x && Nat.eqb y' y then p else pixel img x' y' |}.

(** The coordinates of a [width] by [height] scan, row by row. *)
Definition scan (width height : nat) : list (nat * nat) :=
  y ← seq 0 height; (fun x => (x, y)) <$> seq 0 width.

(** The image as the toolkit takes it: its pixels in a row, as [as_raw] has them. *)
Record SlintImage := {
  slint_width : nat;
  slint_height : nat;
  slint_pixels : list Rgba;
}.
Definition to_slint_image (image : RgbaImage) : SlintImage :=
  {| slint_width := img_width image; slint_height := img_height image;
     slint_pixels := (fun '(x, y) => pixel image x y) <$> scan (img_width image) (img_height image) |}.

Definition overlay_size (base : RgbaImage) : nat := img_width base * 30 / 100.

(** [None] is the arithmetic panic of a base less high than the overlay. *)
Definition compose_overlay (base overlay : RgbaImage) : option (Result RgbaImage) :=
  if Nat.eqb (img_width base) 0 || Nat.eqb (img_height base) 0 ||
     Nat.eqb (img_width overlay) 0 || Nat.eqb (img_height overlay) 0
  then Some (bail "tray icons must not be empty")
  else
    let size := overlay_size base in
    if Nat.eqb size 0 then Some (Ok base)
    else if Nat.ltb (img_height base) size then None
    else
      let start_x := img_width base - size in
      let start_y := img_height base - size in
      Some (Ok (foldl (fun result '(x, y) =>
        let source_x := x * img_width overlay / size in
        let source_y := y * img_height overlay / size in
        put_pixel result (start_x + x) (start_y + y)
          (alpha_over (pixel overlay source_x source_y)
             (pixel result (start_x + x) (start_y + y)))) base (scan size size))).

Definition SAMPLES_PER_AXIS : nat := 4.
Definition TOTAL_SAMPLES : nat := SAMPLES_PER_AXIS * SAMPLES_PER_AXIS.

(** The floating-point operations of the standard library that the pie uses. *)
Class F64 := {
  f64 : Type;
  f64_of : nat -> f64;
  f64_half : f64;
  f64_tau : f64;
  f64_add : f64 -> f64 -> f64;
  f64_sub : f64 -> f64 -> f64;
  f64_mul : f64 -> f64 -> f64;
  f64_div : f64 -> f64 -> f64;
  f64_neg : f64 -> f64;
  f64_atan2 : f64 -> f64 -> f64;
  f64_lt : f64 -> f64 -> bool;
  f64_ge : f64 -> f64 -> bool;
}.

Section Initialization.
Context `{F64}.

Definition known_angle (unknown_server_count server_count : nat) : f64 :=
  f64_div (f64_mul f64_tau (f64_of (server_count - unknown_server_count))) (f64_of server_count).

(** The offset of a sample from the center, along one axis. *)
Definition sample_offset (size at_ sample : nat) : f64 :=
  f64_sub (f64_add (f64_of at_)
             (f64_div (f64_add (f64_of sample) f64_half) (f64_of SAMPLES_PER_AXIS)))
          (f64_div (f64_of size) (f64_of 2)).

Definition sample_unknown (width height unknown_server_count server_count x y : nat)
    (sample : nat * nat) : bool :=
  let x_offset := sample_offset width x sample.1 in
  let y_offset := sample_offset height y sample.2 in
  let angle := f64_atan2 x_offset (f64_neg y_offset) in
  let angle := if f64_lt angle (f64_of 0) then f64_add angle f64_tau else angle in
  f64_ge angle (known_angle unknown_server_count server_count).

(** How many of the samples of a pixel lie in the unknown part of the pie. *)
Definition unknown_samples (width height unknown_server_count server_count x y : nat) : nat :=
  length (List.filter (sample_unknown width height unknown_server_count server_count x y)
            (scan SAMPLES_PER_AXIS SAMPLES_PER_AXIS)).

(** The [{:?}] form of image dimensions. *)
Variable debug_dimensions : nat -> nat -> string.

Definition mix (known unknown_n : nat) (ok_value unknown_value : Z) : Z :=
  as_u8 ((ok_value * Z.of_nat known + unknown_value * Z.of_nat unknown_n) /
         Z.of_nat TOTAL_SAMPLES).

Definition compose_pixel (ok unknown : RgbaImage) (unknown_server_count server_count : nat)
    (x y : nat) : Result Rgba :=
  let n := unknown_samples (img_width ok) (img_height ok) unknown_server_count server_count x y in
  let known := TOTAL_SAMPLES - n in
  let p := pixel ok x y in
  let q := pixel unknown x y in
  if negb (Z.eqb (alpha p) (alpha q))
  then bail ("initialization tray icon alpha channels differ at (" +:+ pretty x +:+ ", " +:+
             pretty y +:+ ")")
  else Ok {| red := mix known n (red p) (red q); green := mix known n (green p) (green q);
             blue := mix known n (blue p) (blue q); alpha := alpha p |}.

Fixpoint compose_pixels (ok unknown : RgbaImage) (unknown_server_count server_count : nat)
    (coordinates : list (nat * nat)) (result_ : RgbaImage) : Result RgbaImage :=
  match coordinates with
  | [] => Ok result_
  | (x, y) :: rest =>
      p ← compose_pixel ok unknown unknown_server_count server_count x y;
      compose_pixels ok unknown unknown_server_count server_count rest (put_pixel result_ x y p)
  end.

Definition ensure_matching_dimensions (first second : RgbaImage) : Result unit :=
  if negb (Nat.eqb (img_width first) (img_width second) &&
           Nat.eqb (img_height first) (img_height second))
  then bail ("tray icon dimensions differ: " +:+
             debug_dimensions (img_width first) (img_height first) +:+ " and " +:+
             debug_dimensions (img_width second) (img_height second))
  else Ok tt.

Definition compose_initialization_icon (ok unknown : RgbaImage)
    (unknown_server_count server_count : nat) : Result RgbaImage :=
  if Nat.eqb unknown_server_count 0 && Nat.ltb 0 server_count then Ok ok
  else if Nat.eqb server_count 0 || Nat.leb server_count unknown_server_count then Ok unknown
  else
    _ ← ensure_matching_dimensions ok unknown;
    let blank := {| img_width := img_width ok; img_height := img_height ok;
      pixel := fun _ _ => {| red := 0; green := 0; blue := 0; alpha := 0 |} |} in
    compose_pixels ok unknown unknown_server_count server_count
      (scan (img_width ok) (img_height ok)) blank.

Record TrayIcons := {
  icon_unknown : RgbaImage;
  icon_ok : RgbaImage;
  icon_internal_error : RgbaImage;
  icon_warning : RgbaImage;
  icon_error : RgbaImage;
  icon_transparent : RgbaImage;
}.

(** The embedded files. *)
Record IconAssets := {
  UNKNOWN_ICON : string;
  OK_ICON : string;
  INTERNAL_ERROR_ICON : string;
  WARNING_ICON : string;
  ERROR_ICON : string;
  TRANSPARENT_ICON : string;
}.

(** [image::load_from_memory] and [into_rgba8]. *)
Definition decode_icon (load_from_memory : string -> Result RgbaImage) (bytes : string)
    : Result RgbaImage :=
  with_context "failed to decode tray icon" (load_from_memory bytes).

Definition TrayIcons_load (load_from_memory : string -> Result RgbaImage) (assets : IconAssets)
    : Result TrayIcons :=
  let decode := decode_icon load_from_memory in
  unknown ← decode (UNKNOWN_ICON assets);
  ok ← decode (OK_ICON assets);
  internal_error ← decode (INTERNAL_ERROR_ICON assets);
  warning ← decode (WARNING_ICON assets);
  error ← decode (ERROR_ICON assets);
  transparent ← decode (TRANSPARENT_ICON assets);
  Ok {| icon_unknown := unknown; icon_ok := ok; icon_internal_error := internal_error;
        icon_warning := warning; icon_error := error; icon_transparent := transparent |}.

Definition for_state (icons : TrayIcons) (state : TrayOverall) : RgbaImage :=
  match state with
  | TrayUnknown => icon_unknown icons
  | TrayOk => icon_ok icons
  | TrayInternalError => icon_internal_error icons
  | TrayWarning => icon_warning icons
  | TrayError => icon_error icons
  end.

Definition rgba_icon (icons : TrayIcons) (state : TrayState) : option (Result RgbaImage) :=
  let base :=
    if bool_decide (ts_alerting state = TrayUnknown)
    then compose_initialization_icon (icon_ok icons) (icon_unknown icons)
           (ts_unknown_server_count state) (ts_server_count state)
    else Ok (for_state icons (ts_alerting state)) in
  match base with
  | Err e => Some (Err e)
  | Ok icon =>
      match ts_snoozed state with
      | Some snoozed => compose_overlay icon (for_state icons snoozed)
      | None => Some (Ok icon)
      end
  end.

Definition icon (icons : TrayIcons) (state : TrayState) : option (Result SlintImage) :=
  r ← rgba_icon icons state;
  Some (image ← r; Ok (to_slint_image image)).
End Initialization.

Definition transparent_icon (icons : TrayIcons) : SlintImage :=
  to_slint_image (icon_transparent icons).

(** ** Lemmas *)

Lemma rows_lookup (width height start x y : nat) :
  x < width -> y < height ->
  (y ← seq start height; (fun x => (x, y)) <$> seq 0 width) !! (y * width + x) = Some (x, start + y).
Proof.
  intros Hx. revert start y. induction height as [|height IH]; intros start y Hy; [lia|].
  cbn [seq mbind list_bind]. destruct y as [|y].
  - rewrite lookup_app_l by (rewrite length_fmap, length_seq; lia).
    rewrite list_lookup_fmap, lookup_seq_lt by lia. simpl. by rewrite Nat.add_0_r.
  - rewrite lookup_app_r by (rewrite length_fmap, length_seq; lia).
    rewrite length_fmap, length_seq.
    replace (S y * width + x - width) with (y * width + x) by lia.
    rewrite IH by lia. by rewrite Nat.add_succ_r.
Qed.

(** The toolkit shows the pixel at its place. *)
Lemma to_slint_image_pixel (image : RgbaImage) (x y : nat) :
  x < img_width image -> y < img_height image ->
  slint_pixels (to_slint_image image) !! (y * slint_width (to_slint_image image) + x) =
  Some (pixel image x y).
Proof.
  intros Hx Hy. simpl. unfold scan. by rewrite list_lookup_fmap, rows_lookup.
Qed.

(** One action on the controller: applying a tray state, or a timer callback. *)
Inductive FlashOp :=
| Apply (state : TrayState)
| TickOf (cycle : FlashCycle).

Definition flash_step (s : FlashState) (op : FlashOp) : FlashState :=
  match op with
  | Apply state => (flash_apply s state).1
  | TickOf cycle => (flash_tick s cycle).1
  end.
Definition flash_run (s : FlashState) (ops : list FlashOp) : FlashState := foldl flash_step s ops.

(** How many of the actions start a new cycle. *)
Fixpoint cycles (s : FlashState) (ops : list FlashOp) : nat :=
  match ops with
  | [] => 0
  | op :: ops =>
      (match op with
       | Apply state => match (flash_apply s state).2 with Some _ => 1 | None => 0 end
       | TickOf _ => 0
       end + cycles (flash_step s op) ops)%nat
  end.

Lemma generation_run (ops : list FlashOp) (s : FlashState) :
  (0 <= fl_generation s < u64_modulus)%Z ->
  fl_generation (flash_run s ops) =
    ((fl_generation s + Z.of_nat (cycles s ops)) mod u64_modulus)%Z.
Proof.
  revert s. induction ops as [|op ops IH]; intros s Hs; cbn [flash_run foldl cycles].
  { rewrite Z.add_0_r, Z.mod_small by done. done. }
  change (foldl flash_step (flash_step s op) ops) with (flash_run (flash_step s op) ops).
  destruct op as [state|cycle]; cbn [flash_step].
  - unfold flash_apply. case_bool_decide; cbn [fst snd].
    + by apply IH.
    + rewrite IH; cbn [fl_generation]; unfold wrapping_add_u64;
        [|apply Z.mod_pos_bound; done].
      rewrite Zplus_mod_idemp_l. f_equal. lia.
  - unfold flash_tick. destruct (_ || _); cbn [fst]; [by apply IH|].
    rewrite IH by done. done.
Qed.

Lemma as_u8_id (v : Z) : (0 <= v <= 255)%Z -> as_u8 v = v.
Proof. intros. apply Z.mod_small. lia. Qed.

Lemma over_channel_opaque (f b fa : Z) :
  (0 <= f <= 255)%Z -> (0 <= b <= 255)%Z -> (0 <= fa <= 255)%Z ->
  over_alpha fa 255 = 255%Z /\
  over_channel f b fa 255 = ((f * fa + b * (255 - fa)) / 255)%Z.
Proof.
  intros Hf Hb Ha. unfold over_channel, over_alpha.
  rewrite (Z.mul_comm 255 (255 - fa)), Z.div_mul by lia.
  replace (b * 255 * (255 - fa))%Z with (b * (255 - fa) * 255)%Z by lia.
  rewrite Z.div_mul by lia. replace (fa + (255 - fa))%Z with 255%Z by lia. done.
Qed.

Lemma weighted_between (f b fa : Z) :
  (0 <= fa <= 255)%Z ->
  (Z.min f b <= (f * fa + b * (255 - fa)) / 255 <= Z.max f b)%Z.
Proof.
  intros Ha. split.
  - apply Z.div_le_lower_bound; [lia|]. nia.
  - apply Z.div_le_upper_bound; [lia|]. nia.
Qed.

Lemma elem_of_scan (w h x y : nat) : (x, y) ∈ scan w h <-> x < w /\ y < h.
Proof.
  unfold scan. rewrite list_elem_of_bind. split.
  - intros (y' & Hin & Hy). apply list_elem_of_fmap in Hin as (x' & [= -> ->] & Hx).
    rewrite elem_of_seq in Hx, Hy. lia.
  - intros [Hx Hy]. exists y. rewrite list_elem_of_fmap, elem_of_seq. split; [|lia].
    exists x. rewrite elem_of_seq. split; [done|lia].
Qed.

Lemma NoDup_scan (w h : nat) : NoDup (scan w h).
Proof.
  unfold scan. apply NoDup_bind; [| |apply NoDup_seq].
  - intros y1 y2 [x y] _ _ H1 H2. apply list_elem_of_fmap in H1 as (? & [= _ ->] & _).
    by apply list_elem_of_fmap in H2 as (? & [= _ ->] & _).
  - intros y _. apply NoDup_fmap_2; [|apply NoDup_seq]. by intros x1 x2 [= ->].
Qed.

(** Painting distinct pixels, each from its own previous value. *)
Lemma foldl_put_pixel (paint : nat -> nat -> Rgba -> Rgba) (dx dy : nat)
    (coordinates : list (nat * nat)) (img : RgbaImage) :
  NoDup coordinates ->
  let result_ := foldl (fun result_ '(x, y) =>
    put_pixel result_ (dx + x) (dy + y) (paint x y (pixel result_ (dx + x) (dy + y))))
    img coordinates in
  (img_width result_ = img_width img /\ img_height result_ = img_height img) /\
  (forall x y, (x, y) ∈ coordinates ->
     pixel result_ (dx + x) (dy + y) = paint x y (pixel img (dx + x) (dy + y))) /\
  (forall x y, (forall x0 y0, (x0, y0) ∈ coordinates -> x <> dx + x0 \/ y <> dy + y0) ->
     pixel result_ x y = pixel img x y).
Proof.
  intros Hnd. revert img. induction coordinates as [|[x0 y0] l IH]; intros img; simpl.
  { split; [done|]. split; [set_solver|done]. }
  apply list.NoDup_cons in Hnd as [Hn Hnd]. set (img1 := put_pixel img _ _ _).
  destruct (IH Hnd img1) as (H1 & H2 & H3). split; [done|]. split.
  - intros x y [[= -> ->]|Hin]%elem_of_cons.
    + rewrite H3.
      * unfold img1, put_pixel. simpl. by rewrite !Nat.eqb_refl.
      * intros x1 y1 Hin. destruct (decide (x1 = x0)) as [->|]; [|lia].
        destruct (decide (y1 = y0)) as [->|]; [done|lia].
    + rewrite H2 by done. f_equal. unfold img1, put_pixel. simpl.
      destruct (Nat.eqb_spec (dx + x) (dx + x0)); [|done].
      destruct (Nat.eqb_spec (dy + y) (dy + y0)); [|done].
      assert (x = x0 /\ y = y0) as [-> ->] by lia. done.
  - intros x y Hno. rewrite H3 by set_solver. unfold img1, put_pixel. simpl.
    destruct (Nat.eqb_spec x (dx + x0)); [|done].
    destruct (Nat.eqb_spec y (dy + y0)); [|done].
    destruct (Hno x0 y0); [left|done..].
Qed.

(** Timer callbacks among some actions. *)
Fixpoint ticks (ops : list FlashOp) : nat :=
  match ops with
  | [] => 0
  | TickOf _ :: ops => S (ticks ops)
  | Apply _ :: ops => ticks ops
  end.

(** Actions that belong to one cycle: its timer, and refreshes of its icon. *)
Definition same_cycle (state : TrayState) (cycle : FlashCycle) (op : FlashOp) : Prop :=
  match op with
  | Apply other => icon_identity other = icon_identity state
  | TickOf c => c = cycle
  end.

Record owned (state : TrayState) (cycle : FlashCycle) (solid : bool) (s : FlashState) : Prop := {
  owned_icon : fl_icon s = Some (icon_identity state);
  owned_flashing : fl_flashing s = true;
  owned_generation : fl_generation s = cycle;
  owned_solid : fl_showing_solid s = solid;
}.

Lemma flash_run_owned (state : TrayState) (cycle : FlashCycle) (ops : list FlashOp)
    (s : FlashState) (solid : bool) :
  Forall (same_cycle state cycle) ops -> owned state cycle solid s ->
  owned state cycle (xorb solid (Nat.odd (ticks ops))) (flash_run s ops).
Proof.
  intros Hall. revert s solid. induction Hall as [|op ops Hop _ IH]; intros s solid Ho.
  { simpl. by rewrite xorb_false_r. }
  change (flash_run s (op :: ops)) with (flash_run (flash_step s op) ops).
  destruct Ho as [H1 H2 H3 H4]. destruct op as [other|c]; simpl in Hop; cbn [ticks flash_step].
  - apply IH. unfold flash_apply. rewrite Hop, bool_decide_eq_true_2 by done. by split.
  - subst c. rewrite Nat.odd_succ, <-Nat.negb_odd.
    replace (xorb solid (negb (Nat.odd (ticks ops)))) with
      (xorb (negb solid) (Nat.odd (ticks ops))) by (by destruct solid, (Nat.odd (ticks ops))).
    apply IH. unfold flash_tick. rewrite H3, Z.eqb_refl, H2, H4. by split.
Qed.

(** Channels are bytes. *)
Definition rgba_ok (p : Rgba) : Prop :=
  (0 <= red p <= 255)%Z /\ (0 <= green p <= 255)%Z /\ (0 <= blue p <= 255)%Z /\
  (0 <= alpha p <= 255)%Z.

(** ** Properties *)

(** A timer that outlived its icon does nothing. Once the controller has started
    a newer cycle, a callback of an older one changes nothing and shows nothing,
    until the 64-bit counter has gone round. *)
Theorem flash_stale_cycle (s : FlashState) (ops : list FlashOp) :
  (0 <= fl_generation s < u64_modulus)%Z ->
  0 < cycles s ops -> (Z.of_nat (cycles s ops) < u64_modulus)%Z ->
  flash_tick (flash_run s ops) (fl_generation s) = (flash_run s ops, None) /\
  is_flashing (flash_run s ops) (fl_generation s) = false.
Proof.
  intros Hs Hpos Hlt.
  assert (fl_generation (flash_run s ops) <> fl_generation s) as Hne.
  { rewrite generation_run by done. intros Heq.
    assert ((fl_generation s + Z.of_nat (cycles s ops)) mod u64_modulus =
      fl_generation s mod u64_modulus)%Z as Hm by (by rewrite Heq, Z.mod_small).
    pose proof (Z.div_mod (fl_generation s + Z.of_nat (cycles s ops)) u64_modulus) as Hd.
    rewrite Heq in Hd. unfold u64_modulus in *. lia. }
  apply Z.eqb_neq in Hne. unfold flash_tick, is_flashing. by rewrite Hne.
Qed.

(** The cadence is steady. While only its own timer fires and states with the
    same icon are applied, a cycle alternates from the solid icon, whatever the
    number of refreshes in between. *)
Theorem flash_cadence (s s1 : FlashState) (state : TrayState) (cycle : FlashCycle)
    (ops : list FlashOp) :
  flash_apply s state = (s1, Some cycle) -> is_flashing_state state = true ->
  Forall (same_cycle state cycle) ops ->
  fl_showing_solid (flash_run s1 ops) = Nat.even (ticks ops) /\
  (flash_tick (flash_run s1 ops) cycle).2 = Some (Nat.odd (ticks ops)).
Proof.
  intros Ha Hf Hall.
  assert (owned state cycle true s1) as Ho.
  { unfold flash_apply in Ha. case_bool_decide; [done|]. injection Ha as <- <-.
    by split. }
  apply (flash_run_owned _ _ ops) in Ho as [H1 H2 H3 H4]; [|done].
  rewrite xorb_true_l, Nat.negb_odd in H4.
  split; [done|]. unfold flash_tick. rewrite H3, Z.eqb_refl, H2. simpl.
  by rewrite H4, Nat.negb_even.
Qed.

Definition demo_alert : TrayState :=
  {| ts_alerting := TrayError; ts_unknown_server_count := 0; ts_server_count := 2;
     ts_alerting_count := 1; ts_snoozed := None; ts_snoozed_count := 0 |}.
Definition demo_calm : TrayState :=
  {| ts_alerting := TrayOk; ts_unknown_server_count := 0; ts_server_count := 2;
     ts_alerting_count := 0; ts_snoozed := None; ts_snoozed_count := 0 |}.

Lemma flash_stale_cycle_witness :
  is_flashing (flash_run (flash_apply FlashState_default demo_alert).1 [TickOf 1; Apply demo_calm])
    1 = false.
Proof.
  apply (flash_stale_cycle (flash_apply FlashState_default demo_alert).1
    [TickOf 1; Apply demo_calm]); vm_compute; [split; [discriminate|reflexivity]|lia|reflexivity].
Defined.

Lemma flash_cadence_witness :
  (flash_tick (flash_run (flash_apply FlashState_default demo_alert).1
     [TickOf 1; Apply demo_alert; TickOf 1]) 1).2 = Some false.
Proof.
  apply (flash_cadence FlashState_default _ demo_alert 1 [TickOf 1; Apply demo_alert; TickOf 1]);
    [reflexivity|reflexivity|]. repeat constructor.
Defined.

(** Over an opaque background the overlay stays in range: the result is opaque
    and each channel lies between those of the two pixels. *)
Theorem alpha_over_opaque (foreground background : Rgba) :
  rgba_ok foreground -> rgba_ok background -> alpha background = 255%Z ->
  let result_ := alpha_over foreground background in
  alpha result_ = 255%Z /\
  (Z.min (red foreground) (red background) <= red result_
     <= Z.max (red foreground) (red background))%Z /\
  (Z.min (green foreground) (green background) <= green result_
     <= Z.max (green foreground) (green background))%Z /\
  (Z.min (blue foreground) (blue background) <= blue result_
     <= Z.max (blue foreground) (blue background))%Z.
Proof.
  intros (Hr & Hg & Hb & Ha) (Hr' & Hg' & Hb' & _) Hopaque. unfold alpha_over. rewrite Hopaque.
  destruct (over_channel_opaque (red foreground) (red background) _ Hr Hr' Ha) as [Hoa Hcr].
  destruct (over_channel_opaque (green foreground) (green background) _ Hg Hg' Ha) as [_ Hcg].
  destruct (over_channel_opaque (blue foreground) (blue background) _ Hb Hb' Ha) as [_ Hcb].
  rewrite Hoa. cbn [Z.eqb Pos.eqb]. simpl red; simpl green; simpl blue; simpl alpha.
  rewrite Hcr, Hcg, Hcb.
  pose proof (weighted_between (red foreground) (red background) _ Ha).
  pose proof (weighted_between (green foreground) (green background) _ Ha).
  pose proof (weighted_between (blue foreground) (blue background) _ Ha).
  rewrite !as_u8_id by lia. done.
Qed.

Lemma alpha_over_opaque_witness :
  alpha (alpha_over {| red := 200; green := 10; blue := 0; alpha := 128 |}
    {| red := 0; green := 10; blue := 255; alpha := 255 |}) = 255%Z.
Proof.
  apply alpha_over_opaque; [unfold rgba_ok; simpl; lia|unfold rgba_ok; simpl; lia|reflexivity].
Defined.

(** Over a nearly transparent background a channel can exceed a byte and wrap: two
    nearly invisible white pixels give a gray one, and light ones black. *)
Example alpha_over_wraps :
  let faint (v : Z) := {| red := v; green := v; blue := v; alpha := 1 |} in
  over_channel 255 255 1 1 = 509%Z /\ red (alpha_over (faint 255%Z) (faint 255%Z)) = 253%Z /\
  red (alpha_over (faint 129%Z) (faint 128%Z)) = 0%Z.
Proof. vm_compute. auto. Qed.

(** The overlay repaints exactly the lower right square of thirty percent of the
    width, each pixel composed from the sample of the scaled severity icon over the
    base; every other pixel and the size are those of the base. *)
Theorem compose_overlay_spec (base overlay img : RgbaImage) :
  compose_overlay base overlay = Some (Ok img) ->
  let size := overlay_size base in
  let x0 := img_width base - size in
  let y0 := img_height base - size in
  img_width img = img_width base /\ img_height img = img_height base /\
  (forall x y, x < size -> y < size ->
     pixel img (x0 + x) (y0 + y) =
       alpha_over (pixel overlay (x * img_width overlay / size) (y * img_height overlay / size))
         (pixel base (x0 + x) (y0 + y)) /\
     x * img_width overlay / size < img_width overlay /\
     y * img_height overlay / size < img_height overlay) /\
  (forall x y, x < x0 \/ y < y0 -> pixel img x y = pixel base x y).
Proof.
  unfold compose_overlay. destruct (_ || _) eqn:Hempty; [done|].
  rewrite !orb_false_iff, !Nat.eqb_neq in Hempty. destruct Hempty as [[[Hw Hh] Hw'] Hh'].
  destruct (Nat.eqb_spec (overlay_size base) 0) as [Hz|Hnz].
  { intros [= <-]. rewrite Hz. split; [done|]. split; [done|]. split; [lia|done]. }
  destruct (Nat.ltb_spec (img_height base) (overlay_size base)) as [|Hle]; [done|].
  intros Himg. apply (inj Some) in Himg. injection Himg as <-.
  set (size := overlay_size base) in *. set (x0 := img_width base - size) in *.
  set (y0 := img_height base - size) in *.
  destruct (foldl_put_pixel (fun x y => alpha_over
    (pixel overlay (x * img_width overlay / size) (y * img_height overlay / size)))
    x0 y0 (scan size size) base (NoDup_scan size size)) as ((H1 & H2) & H3 & H4).
  split; [done|]. split; [done|]. split.
  - intros x y Hx Hy. split; [|split; apply Nat.Div0.div_lt_upper_bound; nia].
    apply H3. by apply elem_of_scan.
  - intros x y Hxy. apply H4. intros x1 y1 Hin%elem_of_scan. lia.
Qed.

Definition solid (n : nat) (v : Z) : RgbaImage :=
  {| img_width := n; img_height := n;
     pixel := fun _ _ => {| red := v; green := v; blue := v; alpha := 255 |} |}.

Lemma compose_overlay_spec_witness :
  exists img, compose_overlay (solid 10 0) (solid 4 200) = Some (Ok img) /\
    img_width img = 10 /\ pixel img 6 9 = pixel (solid 10 0) 6 9.
Proof.
  eexists. split; [reflexivity|].
  destruct (compose_overlay_spec (solid 10 0) (solid 4 200) _ eq_refl) as (H1 & _ & _ & H4).
  split; [exact H1|]. apply H4. left. vm_compute. lia.
Defined.

(** ** The pie *)

Section Pie.
Context `{F64} (debug_dimensions : nat -> nat -> string).

Lemma unknown_samples_bound w h u n x y : unknown_samples w h u n x y <= TOTAL_SAMPLES.
Proof. unfold unknown_samples. etrans; [apply List.filter_length_le|]. done. Qed.

(** A mixture lies between the two values, so that the cast loses nothing. *)
Lemma mix_between n (a b : Z) :
  n <= TOTAL_SAMPLES -> (0 <= a <= 255)%Z -> (0 <= b <= 255)%Z ->
  (Z.min a b <= mix (TOTAL_SAMPLES - n) n a b <= Z.max a b)%Z.
Proof.
  intros Hn Ha Hb. unfold mix, TOTAL_SAMPLES, SAMPLES_PER_AXIS in *. simpl in Hn.
  change (Z.of_nat (4 * 4)) with 16%Z. rewrite Nat2Z.inj_sub by (simpl; lia).
  change (Z.of_nat (4 * 4)) with 16%Z.
  set (k := Z.of_nat n). assert (0 <= k <= 16)%Z as Hk by lia.
  assert (Z.min a b * 16 <= a * (16 - k) + b * k <= Z.max a b * 16)%Z as [H1 H2] by nia.
  assert (Z.min a b <= (a * (16 - k) + b * k) / 16 <= Z.max a b)%Z as Hq.
  { split; [apply Z.div_le_lower_bound; lia|apply Z.div_le_upper_bound; lia]. }
  rewrite as_u8_id by lia. exact Hq.
Qed.

Lemma compose_pixels_lookup ok unknown u n coordinates img img' x y :
  NoDup coordinates -> compose_pixels ok unknown u n coordinates img = Ok img' ->
  img_width img' = img_width img /\ img_height img' = img_height img /\
  ((x, y) ∈ coordinates -> compose_pixel ok unknown u n x y = Ok (pixel img' x y)) /\
  ((x, y) ∉ coordinates -> pixel img' x y = pixel img x y).
Proof.
  intros Hnd. revert img. induction Hnd as [|[a b] coordinates Hab _ IH]; intros img; simpl.
  { intros [= <-]. set_solver. }
  destruct (compose_pixel ok unknown u n a b) as [p|] eqn:Hp; [|done]. simpl. intros Hr.
  destruct (IH _ Hr) as (H1 & H2 & H3 & H4). split; [done|]. split; [done|]. split.
  - intros [[= -> ->]|Hin]%elem_of_cons; [|by apply H3].
    rewrite H4 by done. simpl. rewrite !Nat.eqb_refl. exact Hp.
  - intros [Hne Hin]%not_elem_of_cons. rewrite H4 by done. simpl.
    destruct (Nat.eqb_spec x a), (Nat.eqb_spec y b); simpl; congruence.
Qed.

(** While some servers are known and some are not, the icon has the silhouette of both
    images, and every channel of a pixel is between theirs. *)
Theorem initialization_icon_spec (ok unknown img : RgbaImage) (u n : nat) :
  0 < u < n -> (forall x y, rgba_ok (pixel ok x y)) -> (forall x y, rgba_ok (pixel unknown x y)) ->
  compose_initialization_icon debug_dimensions ok unknown u n = Ok img ->
  img_width img = img_width ok /\ img_height img = img_height ok /\
  forall x y, x < img_width ok -> y < img_height ok ->
    let p := pixel ok x y in let q := pixel unknown x y in let r := pixel img x y in
    alpha r = alpha p /\ alpha r = alpha q /\
    (Z.min (red p) (red q) <= red r <= Z.max (red p) (red q))%Z /\
    (Z.min (green p) (green q) <= green r <= Z.max (green p) (green q))%Z /\
    (Z.min (blue p) (blue q) <= blue r <= Z.max (blue p) (blue q))%Z.
Proof.
  intros Hun Hok Hunk. unfold compose_initialization_icon.
  destruct (Nat.eqb_spec u 0), (Nat.eqb_spec n 0), (Nat.leb_spec n u); try lia. simpl.
  destruct (ensure_matching_dimensions debug_dimensions ok unknown); [|done]. simpl. intros Hr.
  pose proof (fun x y => compose_pixels_lookup _ _ _ _ _ _ _ x y (NoDup_scan _ _) Hr) as Hl.
  split; [apply (Hl 0 0)|]. split; [apply (Hl 0 0)|]. intros x y Hx Hy. cbv zeta.
  destruct (Hl x y) as (_ & _ & Hp & _). specialize (Hp (proj2 (elem_of_scan _ _ _ _) (conj Hx Hy))).
  revert Hp. unfold compose_pixel.
  destruct (Z.eqb_spec (alpha (pixel ok x y)) (alpha (pixel unknown x y))) as [Ha|]; [|done].
  simpl. intros [= <-]. simpl. destruct (Hok x y) as (R1 & G1 & B1 & _), (Hunk x y) as (R2 & G2 & B2 & _).
  pose proof (unknown_samples_bound (img_width ok) (img_height ok) u n x y).
  split; [done|]. split; [done|]. split; [|split]; by apply mix_between.
Qed.
End Pie.
