(* ===== verification/Projection.v ===== *)
(** * Projection of a snapshot to the window and the tray

    [src/cmd/montray-ui/src/ui/projection.rs]: the rows shown for servers and
    incidents, the update of list models in place, relative and absolute times, and
    the tray state. A list model has an identity, so that keeping it can be told
    from replacing it. The local time zone is a parameter. *)

From Stdlib Require Import ZArith Lia.
From stdpp Require Import base gmap sets strings list pretty option.
From S2P Require Import Prelude RustStr Domain Tray.

(** ** Times *)

Inductive HeartbeatStatus : Set := HeartbeatNormal | HeartbeatWarning | HeartbeatOverdue.
#[global] Instance HeartbeatStatus_eq_dec : EqDecision HeartbeatStatus.
Proof. solve_decision. Defined.

Definition heartbeat_status (value_millis : option Z) (now_millis : Z) : HeartbeatStatus :=
  match value_millis with
  | None => HeartbeatNormal
  | Some value =>
      let age := (now_millis - value)%Z in
      if (age <? 15000)%Z then HeartbeatNormal
      else if (age <? 30000)%Z then HeartbeatWarning
      else HeartbeatOverdue
  end.

Definition i64_min : Z := -9223372036854775808.
Definition i64_max : Z := 9223372036854775807.

(** Nanoseconds to whole milliseconds, rounded down, if they fit. *)
Definition offset_datetime_millis (timestamp : OffsetDateTime) : option Z :=
  let millis := (timestamp / 1000000)%Z in
  if (i64_min <=? millis)%Z && (millis <=? i64_max)%Z then Some millis else None.

Record NaiveDateTime := {
  nd_year : Z;
  nd_month : nat;
  nd_day : nat;
  nd_hour : nat;
  nd_minute : nat;
  nd_second : nat;
}.

(** The format [{:02}]. *)
Definition pad2 (n : nat) : string := if Nat.ltb n 10 then "0" +:+ pretty n else pretty n.

Definition month_names : list string :=
  ["Jan"; "Feb"; "Mar"; "Apr"; "May"; "Jun"; "Jul"; "Aug"; "Sep"; "Oct"; "Nov"; "Dec"].
(** The index is clamped, so that the access never fails. *)
Definition month_name (month : nat) : string :=
  nth (Nat.min (month - 1) (length month_names - 1)) month_names "".

Definition same_date (a b : NaiveDateTime) : bool :=
  Z.eqb (nd_year a) (nd_year b) && Nat.eqb (nd_month a) (nd_month b) &&
  Nat.eqb (nd_day a) (nd_day b).

Definition format_absolute (value now : NaiveDateTime) : string :=
  let time := pad2 (nd_hour value) +:+ ":" +:+ pad2 (nd_minute value) +:+ ":" +:+
              pad2 (nd_second value) in
  if same_date value now then time
  else
    let date := month_name (nd_month value) +:+ " " +:+ pretty (nd_day value) in
    if Z.eqb (nd_year value) (nd_year now) then date +:+ ", " +:+ time
    else date +:+ ", " +:+ pretty (nd_year value) +:+ ", " +:+ time.

Definition duration (seconds : Z) : string :=
  if (seconds <? 15)%Z then "<15s"
  else if (seconds <? 60)%Z then pretty (seconds / 15 * 15)%Z +:+ "s"
  else if (seconds <? 3600)%Z then pretty (seconds / 60)%Z +:+ "m"
  else if (seconds <? 86400)%Z then
    let total_minutes := (seconds / 60)%Z in
    let hours := (total_minutes / 60)%Z in
    let minutes := (total_minutes mod 60)%Z in
    if Z.eqb minutes 0 then pretty hours +:+ "h"
    else pretty hours +:+ "h " +:+ pretty minutes +:+ "m"
  else
    let total_hours := (seconds / 3600)%Z in
    let days := (total_hours / 24)%Z in
    let hours := (total_hours mod 24)%Z in
    if Z.eqb hours 0 then pretty days +:+ "d"
    else pretty days +:+ "d " +:+ pretty hours +:+ "h".

(** Whole seconds: past ages are rounded down, future ones up. *)
Definition relative_seconds (value_millis now_millis : Z) : Z :=
  let elapsed := (now_millis - value_millis)%Z in
  if (elapsed <? 0)%Z then ((- elapsed + 999) / 1000)%Z else (elapsed / 1000)%Z.

Definition format_relative (value_millis now_millis : Z) : string :=
  let d := duration (relative_seconds value_millis now_millis) in
  if (now_millis - value_millis <? 0)%Z then "in " +:+ d else d +:+ " ago".

Section Local.
Context `{Rfc3339}.
(** [Local.timestamp_millis_opt(millis).single()]. *)
Variable local : Z -> option NaiveDateTime.

Definition format_timestamp_millis (value_millis now_millis : Z) : string :=
  match local value_millis, local now_millis with
  | Some timestamp, Some current =>
      format_absolute timestamp current +:+ " (" +:+ format_relative value_millis now_millis
        +:+ ")"
  | _, _ => pretty value_millis
  end.

Definition format_domain_timestamp (value : option OffsetDateTime) (now_millis : Z) : string :=
  match value ≫= offset_datetime_millis with
  | None => "never"
  | Some value_millis => format_timestamp_millis value_millis now_millis
  end.

(** [i64::saturating_mul]. *)
Definition saturating_mul (a b : Z) : Z := Z.max i64_min (Z.min i64_max (a * b)).

Definition format_unix_timestamp (value : option Z) (now_millis : Z) : string :=
  match value with
  | None => "never"
  | Some value => format_timestamp_millis (saturating_mul value 1000) now_millis
  end.

Definition display_wire_time (value : string) (now_millis : Z) : string :=
  if is_empty value then "never"
  else
    match rfc3339_parse value with
    | Some timestamp =>
        match offset_datetime_millis timestamp with
        | Some millis => format_timestamp_millis millis now_millis
        | None => value
        end
    | None =>
        match parse_i64 value with
        | Some timestamp => format_unix_timestamp (Some timestamp) now_millis
        | None => value
        end
    end.

(** ** Rows *)

Record ServerView := {
  sv_id : string;
  sv_connection : string;
  sv_last_heartbeat : string;
  sv_connected : bool;
  sv_heartbeat_warning : bool;
  sv_heartbeat_overdue : bool;
}.

Record IncidentView := {
  iv_key : string;
  iv_state : string;
  iv_details : string;
  iv_started_at : string;
  iv_snoozed_until : string;
  iv_severity : nat;
  iv_stale : bool;
  iv_snoozed : bool;
}.

Definition server_view (now_millis : Z) (server : ServerStatus) : ServerView :=
  let status := heartbeat_status (srv_last_heartbeat_at server ≫= offset_datetime_millis)
                  now_millis in
  {| sv_id := srv_id server;
     sv_connection :=
       if srv_connected server then "online"
       else if srv_initialized server then "offline" else "connecting";
     sv_last_heartbeat := format_domain_timestamp (srv_last_heartbeat_at server) now_millis;
     sv_connected := srv_connected server;
     sv_heartbeat_warning := bool_decide (status = HeartbeatWarning);
     sv_heartbeat_overdue := bool_decide (status = HeartbeatOverdue) |}.

Definition incident_view (incident : Incident) (snoozed_until : option OffsetDateTime)
    (now_millis : Z) : IncidentView :=
  let state := match inc_state incident with
               | IncidentOk => "ok" | IncidentWarning => "warning" | IncidentError => "error"
               end in
  let suffix := if inc_stale incident then " (STALE)"
                else if bool_decide (is_Some snoozed_until) then " (SNOOZED)" else "" in
  {| iv_key := inc_key incident;
     iv_state := state +:+ suffix;
     iv_details := inc_details incident;
     iv_started_at := display_wire_time (inc_started_at incident) now_millis;
     iv_snoozed_until := match snoozed_until with
                         | Some until => format_domain_timestamp (Some until) now_millis
                         | None => ""
                         end;
     iv_severity :=
       if bool_decide (inc_state incident <> IncidentOk) &&
          starts_with "internal." (inc_key incident)
       then 4
       else match inc_state incident with
            | IncidentOk => 1 | IncidentWarning => 2 | IncidentError => 3
            end;
     iv_stale := inc_stale incident;
     iv_snoozed := bool_decide (is_Some snoozed_until) |}.
End Local.

#[global] Instance ServerView_eq_dec : EqDecision ServerView.
Proof. solve_decision. Defined.
#[global] Instance IncidentView_eq_dec : EqDecision IncidentView.
Proof. solve_decision. Defined.

(** ** List models *)

Record Model (T : Type) := {
  model_id : nat;
  model_rows : list T;
}.
Arguments model_id {T} m.
Arguments model_rows {T} m.

Section Rows.
Context {T : Type} `{EqDecision T} (same_identity : T -> T -> bool).

(** The rows that are written, in order. *)
Fixpoint row_writes (row : nat) (current rows : list T) : list (nat * T) :=
  match current, rows with
  | old :: current, new :: rows =>
      (if bool_decide (old <> new) then [(row, new)] else []) ++ row_writes (S row) current rows
  | _, _ => []
  end.

Definition set_row_data (m : Model T) (w : nat * T) : Model T :=
  {| model_id := model_id m; model_rows := <[w.1 := w.2]> (model_rows m) |}.

Definition update_rows_in_place (model : Model T) (rows : list T) : Model T * bool :=
  if negb (Nat.eqb (length (model_rows model)) (length rows)) then (model, false)
  else if existsb (fun '(old, new) => negb (same_identity old new))
            (zip (model_rows model) rows)
  then (model, false)
  else (foldl set_row_data model (row_writes 0 (model_rows model) rows), true).

(** Updating, or replacing the model by a new one. *)
Definition show_rows (fresh : nat) (model : Model T) (rows : list T) : Model T :=
  let '(model', updated) := update_rows_in_place model rows in
  if updated then model' else {| model_id := fresh; model_rows := rows |}.

Lemma row_writes_apply (rows current prefix : list T) (id : nat) :
  length current = length rows ->
  foldl set_row_data {| model_id := id; model_rows := prefix ++ current |}
    (row_writes (length prefix) current rows) =
  {| model_id := id; model_rows := prefix ++ rows |}.
Proof.
  revert current prefix. induction rows as [|new rows IH]; intros [|old current] prefix Hlen;
    simpl in *; [done|done|done|].
  injection Hlen as Hlen.
  assert (forall x, prefix ++ x :: current = (prefix ++ [x]) ++ current) as Ha
    by (intros x; by rewrite <-app_assoc).
  assert (length (prefix ++ [new]) = S (length prefix)) as Hl by (rewrite length_app; simpl; lia).
  rewrite <-Hl. case_bool_decide as Hne; simpl.
  - unfold set_row_data at 2. simpl. rewrite insert_app_r_alt, Nat.sub_diag by lia.
    simpl. rewrite Ha, IH by done.
    by rewrite <-app_assoc.
  - rewrite <-Hne in *. rewrite Ha, IH by done. by rewrite <-app_assoc.
Qed.

Lemma show_rows_handler (fresh : nat) (model : Model T) (rows : list T) :
  model_rows (show_rows fresh model rows) = rows /\
  (length (model_rows model) = length rows ->
   Forall2 (fun old new => same_identity old new = true) (model_rows model) rows ->
   model_id (show_rows fresh model rows) = model_id model) /\
  (~ Forall2 (fun old new => same_identity old new = true) (model_rows model) rows ->
   show_rows fresh model rows = {| model_id := fresh; model_rows := rows |}).
Proof.
  destruct model as [id current]. unfold show_rows, update_rows_in_place. cbn [model_rows model_id].
  assert (length current = length rows ->
    existsb (fun '(old, new) => negb (same_identity old new)) (zip current rows) = false <->
    Forall2 (fun old new => same_identity old new = true) current rows) as Hzip.
  { revert rows. induction current as [|x current IH]; intros [|y rows] Hlen; simpl in *; try done.
    injection Hlen as Hlen. rewrite orb_false_iff, negb_false_iff, IH by done. split.
    - intros [??]. by constructor.
    - intros Hf. inversion Hf; subst. done. }
  destruct (Nat.eqb_spec (length current) (length rows)) as [Hlen|Hlen]; cbn [negb].
  - destruct (existsb _ _) eqn:He.
    + split; [done|]. split; [|done]. intros _ Hf. by apply Hzip in Hf; [congruence|].
    + pose proof (row_writes_apply rows current [] id Hlen) as Hw. simpl in Hw. rewrite Hw.
      split; [done|]. split; [done|]. intros Hn. by destruct Hn; apply Hzip.
  - split; [done|]. split; [done|]. done.
Qed.
End Rows.

(** ** The whole projection *)

Definition overall (state : OverallState) : TrayOverall :=
  match state with
  | OverallUnknown => TrayUnknown
  | OverallOk => TrayOk
  | OverallInternalError => TrayInternalError
  | OverallWarning => TrayWarning
  | OverallError => TrayError
  end.

Definition tray_state (snapshot : UiSnapshot) : TrayState :=
  {| ts_alerting := overall (ui_alerting_state snapshot);
     ts_unknown_server_count := ui_unknown_server_count snapshot;
     ts_server_count := length (ui_servers snapshot);
     ts_alerting_count := length (ui_active snapshot);
     ts_snoozed := overall <$> ui_snoozed_state snapshot;
     ts_snoozed_count := length (ui_snoozed snapshot) |}.

Record Window := {
  win_server_summary : string;
  win_online_server_count : nat;
  win_servers : Model ServerView;
  win_active : Model IncidentView;
  win_snoozed : Model IncidentView;
  win_status_title : string;
  win_flash : FlashState;
}.

Section Apply.
Context `{Rfc3339}.
Variable local : Z -> option NaiveDateTime.
(** Whether the icon of a tray state could be composed. *)
Variable icon_ok_for : TrayState -> bool.

(** [fresh] numbers the models that this call creates. *)
Definition apply_snapshot (now_millis : Z) (fresh : nat) (w : Window) (snapshot : UiSnapshot)
    : Window * option FlashCycle :=
  let online := length (filter (fun server => srv_connected server = true) (ui_servers snapshot)) in
  let ts := tray_state snapshot in
  let '(flash, cycle) :=
    if icon_ok_for ts then
      let '(flash, cycle) := flash_apply (win_flash w) ts in
      (flash, c ← cycle; if is_flashing flash c then Some c else None)
    else (win_flash w, None) in
  ({| win_server_summary := pretty online +:+ "/" +:+ pretty (length (ui_servers snapshot)) +:+
        " servers are online";
      win_online_server_count := online;
      win_servers := show_rows (fun old new => bool_decide (sv_id old = sv_id new)) fresh
        (win_servers w) (server_view local now_millis <$> ui_servers snapshot);
      win_active := show_rows (fun old new => bool_decide (iv_key old = iv_key new)) (S fresh)
        (win_active w) ((fun i => incident_view local i None now_millis) <$> ui_active snapshot);
      win_snoozed := show_rows (fun old new => bool_decide (iv_key old = iv_key new))
        (S (S fresh)) (win_snoozed w)
        ((fun item => incident_view local (sn_incident item) (Some (sn_until item)) now_millis)
           <$> ui_snoozed snapshot);
      win_status_title := status_title ts;
      win_flash := flash |}, cycle).
End Apply.

(** ** What a window shows *)

(** The row of a server. Its heartbeat is marked by its age in whole milliseconds, if that
    is a number the clock can hold. *)
Record shows_server `{Rfc3339} (local : Z -> option NaiveDateTime) (now : Z)
    (server : ServerStatus) (row : ServerView) : Prop := {
  ss_id : sv_id row = srv_id server;
  ss_connected : sv_connected row = srv_connected server;
  ss_online : srv_connected server = true -> sv_connection row = "online";
  ss_offline : srv_connected server = false -> srv_initialized server = true ->
    sv_connection row = "offline";
  ss_connecting : srv_connected server = false -> srv_initialized server = false ->
    sv_connection row = "connecting";
  ss_heartbeat : sv_last_heartbeat row = format_domain_timestamp local (srv_last_heartbeat_at server) now;
  ss_never : srv_last_heartbeat_at server = None -> sv_last_heartbeat row = "never";
  ss_warning : sv_heartbeat_warning row = true <->
    exists at_, srv_last_heartbeat_at server = Some at_ /\
      (-9223372036854775808 <= at_ / 1000000 <= 9223372036854775807)%Z /\
      (15000 <= now - at_ / 1000000 < 30000)%Z;
  ss_overdue : sv_heartbeat_overdue row = true <->
    exists at_, srv_last_heartbeat_at server = Some at_ /\
      (-9223372036854775808 <= at_ / 1000000 <= 9223372036854775807)%Z /\
      (30000 <= now - at_ / 1000000)%Z;
}.

Definition state_word (state : IncidentState) (word : string) : Prop :=
  match state with
  | IncidentOk => word = "ok" | IncidentWarning => word = "warning" | IncidentError => word = "error"
  end.
Definition state_rank (state : IncidentState) (rank : nat) : Prop :=
  match state with
  | IncidentOk => rank = 1 | IncidentWarning => rank = 2 | IncidentError => rank = 3
  end.

(** The row of an incident, with the end of its snooze if it has one. *)
Record shows_incident `{Rfc3339} (local : Z -> option NaiveDateTime) (now : Z)
    (until : option OffsetDateTime) (incident : Incident) (row : IncidentView) : Prop := {
  si_key : iv_key row = inc_key incident;
  si_details : iv_details row = inc_details incident;
  si_stale : iv_stale row = inc_stale incident;
  si_snoozed : iv_snoozed row = true <-> until <> None;
  si_state : exists word suffix, iv_state row = word +:+ suffix /\
    state_word (inc_state incident) word /\
    (inc_stale incident = true -> suffix = " (STALE)") /\
    (inc_stale incident = false -> until <> None -> suffix = " (SNOOZED)") /\
    (inc_stale incident = false -> until = None -> suffix = "");
  si_internal : (exists rest, inc_key incident = "internal." +:+ rest) ->
    inc_state incident <> IncidentOk -> iv_severity row = 4;
  si_severity : (~ exists rest, inc_key incident = "internal." +:+ rest) \/
    inc_state incident = IncidentOk -> state_rank (inc_state incident) (iv_severity row);
  si_started : iv_started_at row = display_wire_time local (inc_started_at incident) now;
  si_until : iv_snoozed_until row =
    match until with Some u => format_domain_timestamp local (Some u) now | None => "" end;
}.

Definition shows_title (alerting snoozed : nat) (title : string) : Prop :=
  exists noun tail, title = "Status: " +:+ pretty alerting +:+ " " +:+ noun +:+ tail /\
    (alerting = 1 /\ noun = "incident" \/ alerting <> 1 /\ noun = "incidents") /\
    (snoozed = 0 /\ tail = "" \/ 0 < snoozed /\ tail = " + " +:+ pretty snoozed +:+ " snoozed").

(** The window shows a snapshot. *)
Record shows `{Rfc3339} (local : Z -> option NaiveDateTime) (now : Z) (s : UiSnapshot)
    (w : Window) : Prop := {
  shows_servers : Forall2 (shows_server local now) (ui_servers s) (model_rows (win_servers w));
  shows_active : Forall2 (shows_incident local now None) (ui_active s) (model_rows (win_active w));
  shows_snoozed :
    Forall2 (fun item => shows_incident local now (Some (sn_until item)) (sn_incident item))
      (ui_snoozed s) (model_rows (win_snoozed w));
  shows_online : win_online_server_count w =
    length (filter (fun server => srv_connected server = true) (ui_servers s));
  shows_summary : win_server_summary w =
    pretty (win_online_server_count w) +:+ "/" +:+ pretty (length (ui_servers s)) +:+
    " servers are online";
  shows_status : shows_title (length (ui_active s)) (length (ui_snoozed s)) (win_status_title w);
}.

Lemma heartbeat_flags (at_ : option OffsetDateTime) (now : Z) :
  let status := heartbeat_status (at_ ≫= offset_datetime_millis) now in
  let age P := exists t, at_ = Some t /\
    (-9223372036854775808 <= t / 1000000 <= 9223372036854775807)%Z /\ P (now - t / 1000000)%Z in
  (status = HeartbeatWarning <-> age (fun a => 15000 <= a < 30000)%Z) /\
  (status = HeartbeatOverdue <-> age (fun a => 30000 <= a)%Z).
Proof.
  cbv zeta. destruct at_ as [t|]; simpl; [|naive_solver].
  unfold offset_datetime_millis, i64_min, i64_max.
  destruct (Z.leb_spec (-9223372036854775808) (t / 1000000)),
    (Z.leb_spec (t / 1000000) 9223372036854775807); simpl;
    try (split; (split; [done|intros (t' & [= <-] & Hr & _); lia])).
  destruct (Z.ltb_spec (now - t / 1000000) 15000), (Z.ltb_spec (now - t / 1000000) 30000);
    split; split; try done; try lia; try (intros (t' & [= <-] & _ & Ha); lia);
    intros _; exists t; (split; [done|]); lia.
Qed.

Section Views.
Context `{Rfc3339} (local : Z -> option NaiveDateTime).

Lemma server_view_shows now server : shows_server local now server (server_view local now server).
Proof.
  destruct (heartbeat_flags (srv_last_heartbeat_at server) now) as [Hw Ho].
  split; simpl; try done; try (by intros ->); try (by intros -> ->); by rewrite bool_decide_eq_true.
Qed.

Lemma incident_view_shows now until incident :
  shows_incident local now until incident (incident_view local incident until now).
Proof.
  assert (starts_with "internal." (inc_key incident) = true <->
    exists rest, inc_key incident = "internal." +:+ rest) as Hi by apply starts_with_true.
  split; simpl; try done.
  - rewrite bool_decide_eq_true. by rewrite <-not_eq_None_Some.
  - eexists _, _. split; [reflexivity|]. split; [by destruct (inc_state incident)|].
    split; [by intros ->|]. split; intros ->; [|by intros ->].
    intros Hu. by rewrite bool_decide_eq_true_2 by (by apply not_eq_None_Some).
  - intros Hr Hs. by rewrite bool_decide_eq_true_2, (proj2 Hi Hr) by done.
  - intros Hs. rewrite <-Hi in Hs. unfold state_rank.
    destruct (inc_state incident), (starts_with _ _); naive_solver.
Qed.

Lemma status_title_shows (s : UiSnapshot) :
  shows_title (length (ui_active s)) (length (ui_snoozed s)) (status_title (tray_state s)).
Proof.
  unfold status_title. simpl.
  exists (if Nat.eqb (length (ui_active s)) 1 then "incident" else "incidents"),
    (if Nat.ltb 0 (length (ui_snoozed s))
     then " + " +:+ pretty (length (ui_snoozed s)) +:+ " snoozed" else "").
  split; [|split].
  - destruct (Nat.ltb _ _); by rewrite ?append_nil_r, ?append_assoc.
  - destruct (Nat.eqb_spec (length (ui_active s)) 1); auto.
  - destruct (Nat.ltb_spec 0 (length (ui_snoozed s))); [by right|left]. split; [lia|done].
Qed.

Lemma Forall2_fmap_view {A B} (R : A -> B -> Prop) (f : A -> B) (l : list A) :
  (forall a, R a (f a)) -> Forall2 R l (f <$> l).
Proof. intros Hf. induction l; constructor; auto. Qed.

Lemma apply_shows icon_ok_for now fresh w s w' c :
  apply_snapshot local icon_ok_for now fresh w s = (w', c) -> shows local now s w'.
Proof.
  unfold apply_snapshot. destruct (if icon_ok_for _ then _ else _) as [f y]. intros [= <- _].
  split; cbn [win_servers win_active win_snoozed win_online_server_count win_server_summary
    win_status_title]; rewrite ?(proj1 (show_rows_handler _ _ _ _)); try done.
  - apply Forall2_fmap_view, server_view_shows.
  - apply Forall2_fmap_view. intros. apply incident_view_shows.
  - apply Forall2_fmap_view. intros. apply incident_view_shows.
  - apply status_title_shows.
Qed.
End Views.

(** ** Properties *)

(** A row stands for the item with its key. *)
Lemma Forall2_keys {A B} (key : B -> string) (f g : A -> B) (name : A -> string) (l k : list A) :
  (forall a, key (f a) = name a) -> (forall a, key (g a) = name a) ->
  name <$> l = name <$> k ->
  Forall2 (fun old new => bool_decide (key old = key new) = true) (f <$> l) (g <$> k).
Proof.
  intros Hf Hg. revert k. induction l as [|a l IH]; intros [|b k]; csimpl; try done.
  intros [= Hab Hlk]. constructor; [|by apply IH]. apply bool_decide_eq_true. by rewrite Hf, Hg.
Qed.

(** C30: The window shows the snapshot: in its order one row per server, with its
    connection and the age of its heartbeat, and one per incident, with its state, whether
    it is stale or snoozed, its details and its severity; how many servers are online; and
    the status text with the numbers of incidents. Times are in the display format of
    [format_domain_timestamp] and [display_wire_time]. And a refresh whose servers and
    incidents are the same keeps all three list models, so that an open popup or a
    selection survives, and leaves the flashing of the tray alone. *)
Theorem apply_snapshot_refresh `{Rfc3339} (local : Z -> option NaiveDateTime)
    (icon_ok_for : TrayState -> bool) (now1 now2 : Z) (fresh1 fresh2 : nat)
    (w w1 w2 : Window) (s1 s2 : UiSnapshot) (c1 c2 : option FlashCycle) :
  apply_snapshot local icon_ok_for now1 fresh1 w s1 = (w1, c1) ->
  apply_snapshot local icon_ok_for now2 fresh2 w1 s2 = (w2, c2) ->
  shows local now2 s2 w2 /\
  (srv_id <$> ui_servers s1 = srv_id <$> ui_servers s2 ->
   model_id (win_servers w2) = model_id (win_servers w1)) /\
  (inc_key <$> ui_active s1 = inc_key <$> ui_active s2 ->
   model_id (win_active w2) = model_id (win_active w1)) /\
  ((inc_key ∘ sn_incident) <$> ui_snoozed s1 = (inc_key ∘ sn_incident) <$> ui_snoozed s2 ->
   model_id (win_snoozed w2) = model_id (win_snoozed w1)) /\
  (icon_ok_for (tray_state s1) = true ->
   icon_identity (tray_state s1) = icon_identity (tray_state s2) ->
   c2 = None /\ win_flash w2 = win_flash w1).
Proof.
  intros H1 H2. split; [by eapply apply_shows|].
  unfold apply_snapshot in H1, H2.
  destruct (if icon_ok_for (tray_state s1) then _ else _) as [f1 y1] eqn:F1 in H1.
  destruct (if icon_ok_for (tray_state s2) then _ else _) as [f2 y2] eqn:F2 in H2.
  injection H1 as <- <-. injection H2 as <- <-.
  cbn [win_servers win_active win_snoozed win_flash] in *.
  split; [|split; [|split]].
  - intros He. apply (show_rows_handler _ fresh2); rewrite (proj1 (show_rows_handler _ _ _ _));
      [|by apply (Forall2_keys sv_id _ _ srv_id)].
    rewrite !length_fmap. apply (f_equal length) in He. by rewrite !length_fmap in He.
  - intros He. apply (show_rows_handler _ (S fresh2)); rewrite (proj1 (show_rows_handler _ _ _ _));
      [|by apply (Forall2_keys iv_key _ _ inc_key)].
    rewrite !length_fmap. apply (f_equal length) in He. by rewrite !length_fmap in He.
  - intros He. apply (show_rows_handler _ (S (S fresh2)));
      rewrite (proj1 (show_rows_handler _ _ _ _));
      [|by apply (Forall2_keys iv_key _ _ (inc_key ∘ sn_incident))].
    rewrite !length_fmap. apply (f_equal length) in He. by rewrite !length_fmap in He.
  - intros Hok He. rewrite Hok in F1.
    assert (fl_icon f1 = Some (icon_identity (tray_state s1))) as Hicon.
    { revert F1. unfold flash_apply. case_bool_decide; simpl; by intros [= <- _]. }
    destruct (icon_ok_for (tray_state s2)); [|by injection F2 as <- <-].
    unfold flash_apply in F2. rewrite <-He, bool_decide_eq_true_2 in F2 by done.
    by injection F2 as <- <-.
Qed.

Definition blank_window : Window :=
  {| win_server_summary := ""; win_online_server_count := 0;
     win_servers := {| model_id := 0; model_rows := [] |};
     win_active := {| model_id := 1; model_rows := [] |};
     win_snoozed := {| model_id := 2; model_rows := [] |};
     win_status_title := ""; win_flash := FlashState_default |}.
Definition demo_snapshot : UiSnapshot :=
  snapshot (AppState_new ["alpha"; "beta"] ∅) 0.

Lemma apply_snapshot_refresh_witness :
  exists w1 w2 c1 c2,
    apply_snapshot (H := decimal_rfc3339) (fun _ => None) (fun _ => true) 0 10 blank_window
      demo_snapshot = (w1, c1) /\
    apply_snapshot (H := decimal_rfc3339) (fun _ => None) (fun _ => true) 1000 20 w1
      demo_snapshot = (w2, c2) /\
    model_id (win_servers w2) = model_id (win_servers w1) /\
    Forall2 (shows_server (H := decimal_rfc3339) (fun _ => None) 1000)
      (ui_servers demo_snapshot) (model_rows (win_servers w2)) /\
    shows_title 0 0 (win_status_title w2).
Proof.
  destruct (apply_snapshot (H := decimal_rfc3339) (fun _ => None) (fun _ => true) 0 10 blank_window
      demo_snapshot) as [w1 c1] eqn:H1.
  destruct (apply_snapshot (H := decimal_rfc3339) (fun _ => None) (fun _ => true) 1000 20 w1
      demo_snapshot) as [w2 c2] eqn:H2.
  destruct (apply_snapshot_refresh (H := decimal_rfc3339) _ _ _ _ _ _ _ _ _ _ _ _ _ H1 H2)
    as ([Hs _ _ _ _ Ht] & Hm & _).
  exists w1, w2, c1, c2. split; [reflexivity|]. split; [exact H2|].
  split; [apply Hm; reflexivity|]. split; [exact Hs|exact Ht].
Defined.
