(* ===== verification/Geometry.v ===== *)
(** * Window geometry

    [src/cmd/montray-ui/src/window_geometry.rs]: the manager that remembers the
    normal bounds of the window apart from its maximized state. What the native
    window reports is an input of each operation, and what the code asks of it is
    a list of requests. *)

From Stdlib Require Import ZArith Lia.
From stdpp Require Import base sets strings list option.
From S2P Require Import Prelude Protocol StateFile.

(** What Winit reports; absent without a native handle. [position] may fail. *)
Record Native := {
  nat_maximized : bool;
  nat_fullscreen : bool;
  nat_position : option (Z * Z);
  nat_size : Z * Z;
}.

Record View := {
  view_native : option Native;
  view_maximized : bool;      (* Slint's own flags, the fallback *)
  view_fullscreen : bool;
  view_visible : bool;
}.

Inductive Request :=
| SetMaximized (b : bool)
| SetSize (width height : Z)
| SetPosition (x y : Z)
| ShowWindow
| HideWindow
| RequestRedraw.

Inductive WindowEvent := RedrawRequested | Moved | Resized | OtherEvent.

Record Manager := {
  last_normal : option WindowGeometry;
  last_persisted : option WindowGeometry;
  pending_show : option WindowGeometry;
}.

Definition manager_new (saved : option WindowGeometry) : Manager :=
  {| last_normal := as_normal <$> saved; last_persisted := saved; pending_show := saved |}.

Definition set_last_normal (g : option WindowGeometry) (m : Manager) : Manager :=
  {| last_normal := g; last_persisted := last_persisted m; pending_show := pending_show m |}.
Definition set_pending (g : option WindowGeometry) (m : Manager) : Manager :=
  {| last_normal := last_normal m; last_persisted := last_persisted m; pending_show := g |}.
Definition set_persisted (g : option WindowGeometry) (m : Manager) : Manager :=
  {| last_normal := last_normal m; last_persisted := g; pending_show := pending_show m |}.

Definition native_display_state (v : View) : bool * bool :=
  match view_native v with
  | Some n => (nat_maximized n, nat_fullscreen n)
  | None => (view_maximized v, view_fullscreen v)
  end.

Definition is_normal_window_state (maximized fullscreen : bool) : bool :=
  negb maximized && negb fullscreen.

Definition apply_window_geometry (g : WindowGeometry) : list Request :=
  if Z.eqb (geo_width g) 0 || Z.eqb (geo_height g) 0 then []
  else [SetSize (geo_width g) (geo_height g); SetPosition (geo_x g) (geo_y g)].

(** The normal bounds a native window reports, if it is in its normal state. *)
Definition normal_bounds (n : Native) : option WindowGeometry :=
  if nat_maximized n || nat_fullscreen n then None
  else
    '(x, y) ← nat_position n;
    let '(width, height) := nat_size n in
    if (0 <? width)%Z && (0 <? height)%Z
    then Some {| geo_x := x; geo_y := y; geo_width := width; geo_height := height;
                 geo_maximized := false |}
    else None.

Definition observe_winit_window (m : Manager) (v : View) : Manager :=
  match view_native v ≫= normal_bounds with
  | Some g => set_last_normal (Some g) m
  | None => m
  end.

Definition capture_placement (m : Manager) (v : View) : Manager * option WindowGeometry :=
  let '(maximized, fullscreen) := native_display_state v in
  let m := if is_normal_window_state maximized fullscreen then observe_winit_window m v else m in
  (m, (fun g => {| geo_x := geo_x g; geo_y := geo_y g; geo_width := geo_width g;
                   geo_height := geo_height g; geo_maximized := maximized |}) <$> last_normal m).

Definition apply_last_normal (m : Manager) : list Request :=
  match last_normal m with Some g => apply_window_geometry g | None => [] end.

Section Manager.
(** The transaction that writes a placement; native show and hide. *)
Variable store : WindowGeometry -> Result unit.
Variable native_show native_hide : Result unit.

Definition persist (m : Manager) (placement : option WindowGeometry) : Manager * Result unit :=
  match placement with
  | None => (m, Ok tt)
  | Some p =>
      if bool_decide (last_persisted m = Some p) then (m, Ok tt)
      else
        match store p with
        | Err e => (m, Err e)
        | Ok _ => (set_persisted (Some p) m, Ok tt)
        end
  end.

Definition show (m : Manager) : Manager * list Request * Result unit :=
  let '(m, before) :=
    match pending_show m with
    | Some p => (set_last_normal (Some (as_normal p)) m,
                 SetMaximized false :: apply_window_geometry p)
    | None => (m, [])
    end in
  match with_context "failed to show native window" native_show with
  | Err e => (m, before ++ [ShowWindow], Err e)
  | Ok _ =>
      (m, before ++ ShowWindow ::
         (if bool_decide (is_Some (pending_show m)) then [RequestRedraw] else []), Ok tt)
  end.

Definition hide (m : Manager) (v : View) : Manager * list Request * Result unit :=
  let '(m, placement) := capture_placement m v in
  let '(m, save_result) := persist m placement in
  let m := set_pending placement m in
  match with_context "failed to hide native window" native_hide with
  | Err e => (m, [HideWindow], Err e)
  | Ok _ =>
      (m, HideWindow ::
         (if match placement with Some p => geo_maximized p | None => false end
          then SetMaximized false ::
               apply_last_normal m
          else []),
       save_result)
  end.

Definition save_geometry (m : Manager) (v : View) : Manager * Result unit :=
  let '(m, placement) := capture_placement m v in persist m placement.

Definition handle_winit_event (m : Manager) (v : View) (event : WindowEvent)
    : Manager * list Request :=
  match event, view_visible v, pending_show m with
  | RedrawRequested, true, Some p =>
      (set_pending None m,
       SetMaximized false :: apply_window_geometry p ++ [SetMaximized (geo_maximized p)])
  | _, _, pending =>
      if bool_decide (is_Some pending) ||
         negb (match event with Moved | Resized => true | _ => false end)
      then (m, [])
      else (observe_winit_window m v, [])
  end.

(** The observer of native events never keeps one from the toolkit. *)
Inductive EventResult := Propagate | PreventDefault.
Definition on_winit_window_event (m : Manager) (v : View) (event : WindowEvent)
    : Manager * list Request * EventResult :=
  (handle_winit_event m v event, Propagate).

(** ** Histories *)

Inductive Op :=
| OpShow
| OpHide (v : View)
| OpSave (v : View)
| OpEvent (v : View) (event : WindowEvent).

Definition op_view (op : Op) : option View :=
  match op with OpShow => None | OpHide v | OpSave v | OpEvent v _ => Some v end.

Definition apply_op (m : Manager) (op : Op) : Manager :=
  match op with
  | OpShow => (show m).1.1
  | OpHide v => (hide m v).1.1
  | OpSave v => (save_geometry m v).1
  | OpEvent v event => (handle_winit_event m v event).1
  end.

(** Where bounds come from, whatever their maximized flag: they were saved, or a native
    window that was neither maximized nor fullscreen reported them, with a nonzero size. *)
Definition witnessed (saved : option WindowGeometry) (ops : list Op) (g : WindowGeometry) : Prop :=
  (exists s, saved = Some s /\ geo_x g = geo_x s /\ geo_y g = geo_y s /\
     geo_width g = geo_width s /\ geo_height g = geo_height s) \/
  exists op v n, op ∈ ops /\ op_view op = Some v /\ view_native v = Some n /\
    nat_maximized n = false /\ nat_fullscreen n = false /\
    nat_position n = Some (geo_x g, geo_y g) /\ nat_size n = (geo_width g, geo_height g) /\
    (0 < geo_width g)%Z /\ (0 < geo_height g)%Z.

Record sound (saved : option WindowGeometry) (ops : list Op) (m : Manager) : Prop := {
  sound_normal : forall g, last_normal m = Some g ->
    geo_maximized g = false /\ witnessed saved ops g;
  sound_pending : forall g, pending_show m = Some g -> witnessed saved ops g;
  sound_persisted : forall g, last_persisted m = Some g -> witnessed saved ops g;
}.

Lemma witnessed_mono saved ops op g : witnessed saved ops g -> witnessed saved (ops ++ [op]) g.
Proof.
  intros [H|(o & v & n & H1 & H2)]; [by left|]. right. exists o, v, n.
  split; [|done]. apply elem_of_app. by left.
Qed.

Lemma sound_mono saved ops op m : sound saved ops m -> sound saved (ops ++ [op]) m.
Proof.
  intros [H1 H2 H3]. split; intros g Hg; [|by apply witnessed_mono; auto..].
  destruct (H1 g Hg). split; [done|]. by apply witnessed_mono.
Qed.

(** What is observed is what a window in its normal state reports. *)
Lemma normal_bounds_reported n g :
  normal_bounds n = Some g ->
  geo_maximized g = false /\ nat_maximized n = false /\ nat_fullscreen n = false /\
  nat_position n = Some (geo_x g, geo_y g) /\ nat_size n = (geo_width g, geo_height g) /\
  (0 < geo_width g)%Z /\ (0 < geo_height g)%Z.
Proof.
  unfold normal_bounds. destruct (_ || _) eqn:Hn; [done|]. apply orb_false_elim in Hn as [Hm Hf].
  intros ([x y] & Hp & H)%bind_Some. destruct (nat_size n) as [w h].
  destruct (Z.ltb_spec 0 w), (Z.ltb_spec 0 h); simpl in H; try done. by injection H as <-.
Qed.

Lemma observe_sound saved ops op m v :
  op_view op = Some v -> sound saved (ops ++ [op]) m ->
  sound saved (ops ++ [op]) (observe_winit_window m v).
Proof.
  intros Hv [H1 H2 H3]. unfold observe_winit_window.
  destruct (view_native v ≫= normal_bounds) as [g|] eqn:Hb; [|done].
  apply bind_Some in Hb as (n & Hn & Hg). split; simpl; [|done|done].
  intros g' [= <-]. apply normal_bounds_reported in Hg as [Hm Hg]. split; [done|].
  right. exists op, v, n. split; [apply elem_of_app; right; left|done].
Qed.

Lemma capture_sound saved ops op m v m' placement :
  op_view op = Some v -> sound saved (ops ++ [op]) m ->
  capture_placement m v = (m', placement) ->
  sound saved (ops ++ [op]) m' /\
  forall p, placement = Some p -> witnessed saved (ops ++ [op]) p.
Proof.
  intros Hv Hs. unfold capture_placement. destruct (native_display_state v) as [mx fs].
  set (m1 := if is_normal_window_state mx fs then observe_winit_window m v else m).
  assert (sound saved (ops ++ [op]) m1) as Hs1.
  { subst m1. destruct (is_normal_window_state mx fs); [|done]. by apply observe_sound. }
  intros [= <- <-]. split; [done|]. intros p Hp.
  apply fmap_Some in Hp as (g & Hg & ->).
  exact (proj2 (sound_normal _ _ _ Hs1 g Hg)).
Qed.

Lemma persist_sound saved ops m placement :
  sound saved ops m ->
  (forall p, placement = Some p -> witnessed saved ops p) ->
  sound saved ops (persist m placement).1.
Proof.
  intros Hs Hp. unfold persist. destruct placement as [p|]; [|done].
  case_bool_decide; [done|]. destruct (store p); [|done]. simpl.
  destruct Hs as [H1 H2 H3]. split; simpl; [done|done|]. intros g [= <-]. by apply Hp.
Qed.

Lemma apply_op_sound saved ops op m :
  sound saved ops m -> sound saved (ops ++ [op]) (apply_op m op).
Proof.
  intros Hs%(sound_mono _ _ op). destruct op as [|v|v|v event]; simpl.
  - unfold show. destruct (pending_show m) as [p|] eqn:Hp.
    + assert (sound saved (ops ++ [OpShow]) (set_last_normal (Some (as_normal p)) m)) as Hs'.
      { destruct Hs as [H1 H2 H3]. split; simpl; [|done|done]. intros g [= <-].
        split; [done|]. exact (H2 p Hp). }
      by destruct native_show.
    + by destruct native_show.
  - unfold hide. destruct (capture_placement m v) as [m1 placement] eqn:Hc.
    destruct (capture_sound _ _ (OpHide v) _ _ _ _ eq_refl Hs Hc) as [Hs1 Hp].
    pose proof (persist_sound _ _ _ _ Hs1 Hp) as Hs2.
    destruct (persist m1 placement) as [m2 r]. simpl in Hs2.
    assert (sound saved (ops ++ [OpHide v]) (set_pending placement m2)) as Hs3.
    { destruct Hs2 as [H1 H2 H3]. by split. }
    by destruct native_hide.
  - unfold save_geometry. destruct (capture_placement m v) as [m1 placement] eqn:Hc.
    destruct (capture_sound _ _ (OpSave v) _ _ _ _ eq_refl Hs Hc) as [Hs1 Hp].
    by apply persist_sound.
  - unfold handle_winit_event.
    assert (sound saved (ops ++ [OpEvent v event]) (set_pending None m)) as Hs'.
    { destruct Hs as [H1 H2 H3]. by split. }
    assert (sound saved (ops ++ [OpEvent v event]) (observe_winit_window m v)) as Hs''
      by (by apply observe_sound).
    destruct event, (view_visible v), (pending_show m); simpl; try done;
      case_bool_decide; done.
Qed.
End Manager.

(** ** Properties *)

(** C31: A maximized or fullscreen rectangle is never restored as the normal size.
    After any sequence of shows, hides, saves and window events, whatever fails, the
    normal bounds the manager keeps (which are not marked maximized), the placement it
    will restore and the one it has written are bounds that were saved before or that a
    native window neither maximized nor fullscreen, and of nonzero size, reported. *)
Theorem geometry_witnessed (store : WindowGeometry -> Result unit)
    (native_show native_hide : Result unit) (saved : option WindowGeometry) (ops : list Op)
    (g : WindowGeometry) :
  let m := foldl (apply_op store native_show native_hide) (manager_new saved) ops in
  (last_normal m = Some g -> geo_maximized g = false /\ witnessed saved ops g) /\
  (pending_show m = Some g -> witnessed saved ops g) /\
  (last_persisted m = Some g -> witnessed saved ops g).
Proof.
  intros m. assert (sound saved ops m) as [H1 H2 H3]; [|by auto].
  subst m. induction ops as [|op ops IH] using rev_ind; simpl.
  - split; simpl; intros g0 Hg; [|left; by exists g0..].
    apply fmap_Some in Hg as (s & -> & ->). split; [done|]. left. by exists s.
  - rewrite foldl_app. simpl. by apply apply_op_sound.
Qed.
