(* ===== verification/System.v ===== *)
(** * The components together

    What validation, the network client, the reducer and the event pump guarantee
    jointly: incident keys of a validated configuration never collide, and the
    status shown for a server is the state of its client's session. *)

From Stdlib Require Import ZArith Lia Ascii.
From stdpp Require Import base gmap strings list option.
From S2P Require Import Prelude RustStr Domain Reducer ReducerSnooze ReducerNotify Config Output Tunnel Protocol Client Runtime.

(** ** Namespaces of a validated configuration *)

Lemma valid_id_safe (id : string) : valid_id id -> namespace_safe id.
Proof.
  intros (_ & Hb & Hi). split; [|done].
  eapply any_byte_excluded; [|exact Hb]. intros c Hc.
  by destruct (Ascii.eqb_spec "." c) as [<-|].
Qed.

Lemma start_safe (config : Config) (snoozes : gmap string OffsetDateTime) :
  valid_config config -> safe_servers (pump_state (pump_start config snoozes)).
Proof.
  intros [_ _ Hv] id Hid. simpl in Hid.
  apply (wf_order _ (wf_new _ snoozes)) in Hid. simpl in Hid.
  apply list_elem_of_fmap in Hid as (server & -> & Hin).
  rewrite list.Forall_forall in Hv. by apply valid_id_safe, valid_server_id, Hv.
Qed.

Section Pump.
Context `{R : Rfc3339} (available : bool).

Lemma turn_keeps (p p' : Pump) (t : Turn) (acts : list Act) :
  wf (pump_state p) -> safe_servers (pump_state p) ->
  turn available p t = Some (p', acts) ->
  wf (pump_state p') /\ safe_servers (pump_state p').
Proof.
  intros Hwf Hsafe. unfold turn. destruct (log_lines _ _) as [logs lines].
  intros ([s1 tr] & Hr & ([[[s2 r2] changed] a2] & He & [= <- <-])%bind_Some)%bind_Some.
  cbn [pump_state].
  pose proof (reduce_wf _ _ _ _ Hwf Hr) as Hwf1.
  pose proof (reduce_safe _ _ _ _ Hwf Hsafe Hr) as Hsafe1.
  apply run_effects_accounted in He as [_ -> _ _ _]. split; [by apply wf_set_snoozed|].
  intros id Hid. by apply Hsafe1.
Qed.

Lemma pump_keeps (turns : list Turn) (p p' : Pump) (acts : list Act) :
  wf (pump_state p) -> safe_servers (pump_state p) ->
  pump available p turns = Some (p', acts) ->
  wf (pump_state p') /\ safe_servers (pump_state p').
Proof.
  revert p acts. induction turns as [|t turns IH]; intros p acts Hwf Hsafe; simpl.
  { by intros [= <- _]. }
  intros ([p1 a1] & H1 & ([p2 a2] & H2 & [= <- <-])%bind_Some)%bind_Some.
  destruct (turn_keeps _ _ _ _ Hwf Hsafe H1) as [Hwf1 Hsafe1]. by eapply IH.
Qed.
End Pump.

(** ** Sessions and phases *)

(** The transport events of one server. *)
Definition about (id : string) (e : Event) : bool :=
  match e with
  | Connected id' _ | Disconnected id' _ _ | TunnelReady id' _ | TunnelFailed id' _ _
  | Heartbeat id' _ | Notification id' _ _ => bool_decide (id' = id)
  | _ => false
  end.

Lemma phase_step_other (id : string) (p : Phase) (e : Event) :
  about id e = false -> phase_step id p e = p.
Proof.
  destruct e; simpl; try done; intros H%bool_decide_eq_false;
    by rewrite bool_decide_eq_false_2 by congruence.
Qed.

Lemma phase_filter (id : string) (events : list Event) (p : Phase) :
  fold_left (phase_step id) events p =
  fold_left (phase_step id) (filter (fun e => about id e = true) events) p.
Proof.
  revert p. induction events as [|e events IH]; intros p; [done|]. simpl.
  destruct (about id e) eqn:Ha.
  - rewrite filter_cons_True by done. simpl. apply IH.
  - rewrite filter_cons_False by (by rewrite Ha). rewrite phase_step_other by done. apply IH.
Qed.

Lemma link_phase (id : string) (events : list Event) (l l' : Link) (p : Phase) :
  link_run id l events = Some l' -> (link_up l = true <-> p = Online) ->
  (link_up l' = true <-> fold_left (phase_step id) events p = Online).
Proof.
  revert l p. induction events as [|e events IH]; intros l p; simpl; [by intros [= <-]|].
  intros (l1 & Hs & Hr)%bind_Some Hp. eapply (IH l1); [done|]. revert Hs.
  destruct e; simpl; try done; case_bool_decide; simpl; try done; subst.
  - destruct (link_up l); [done|]. intros [= <-]. simpl. by rewrite bool_decide_eq_true_2.
  - intros [= <-]. simpl. by rewrite bool_decide_eq_true_2.
  - destruct (link_up l) eqn:Hu; [|done]. intros [= <-]. by rewrite Hu.
  - destruct (link_up l) eqn:Hu; [|done]. intros [= <-]. by rewrite Hu.
Qed.

(** The status after a run, from the phases. *)
Lemma run_phase `{R : Rfc3339} (events : list Event) (s s' : AppState) (trs : list Transition)
    (id : string) (srv : ServerStatus) :
  servers s !! id = Some srv -> run s events = Some (s', trs) ->
  exists srv', servers s' !! id = Some srv' /\
    phase_of srv' = fold_left (phase_step id) events (phase_of srv).
Proof.
  revert s srv trs. induction events as [|e events IH]; intros s srv trs Hs; simpl.
  { intros [= <- _]. eauto. }
  intros ([s1 tr] & H1 & ([s2 trs2] & H2 & [= <- _])%bind_Some)%bind_Some.
  destruct (reduce_phase s e s1 tr id srv Hs H1) as (srv1 & Hs1 & <-). by eapply IH.
Qed.

(** ** Properties *)

(** C22: With a validated configuration, incident keys never collide. After any run of
    the pump, incidents of different servers have different keys, and no server's
    incident has the key of a client-generated one, so that snoozing or dismissing
    one never touches another. *)
Theorem validated_keys_disjoint `{R : Rfc3339} (debug_str : string -> string)
    (available : bool) (config : Config) (loaded : gmap string OffsetDateTime)
    (now : OffsetDateTime) (turns : list Turn) (p : Pump) (acts : list Act) :
  validate debug_str config = Ok tt ->
  run_async available config loaded now turns = Some (p, acts) ->
  (forall id1 id2 l1 l2 i1 i2, id1 <> id2 ->
     incidents (pump_state p) !! id1 = Some l1 -> incidents (pump_state p) !! id2 = Some l2 ->
     i1 ∈ l1 -> i2 ∈ l2 -> inc_key i1 <> inc_key i2) /\
  (forall id l i k j, incidents (pump_state p) !! id = Some l -> i ∈ l ->
     internal_incidents (pump_state p) !! k = Some j -> inc_key i <> inc_key j).
Proof.
  intros Hv%validate_iff. unfold run_async. intros ([p1 a1] & Hp & [= <- _])%bind_Some.
  destruct (pump_keeps available turns (pump_start config loaded) p1 a1 (wf_new _ loaded)
    (start_safe config loaded Hv) Hp)
    as [Hwf Hsafe].
  split.
  - intros id1 id2 l1 l2 i1 i2 Hne H1 H2 Hi1 Hi2 Heq.
    destruct (wf_incidents _ Hwf _ _ H1) as [Hs1 Hk1].
    destruct (wf_incidents _ Hwf _ _ H2) as [Hs2 Hk2].
    destruct (Hk1 _ Hi1) as [k1 Hk1']. destruct (Hk2 _ Hi2) as [k2 Hk2'].
    rewrite Hk1', Hk2' in Heq.
    by apply (prefixed_key_inj id1 id2 k1 k2 (Hsafe _ Hs1) (Hsafe _ Hs2)) in Heq as [? _].
  - intros id l i k j Hl Hi Hk Heq.
    destruct (wf_incidents _ Hwf _ _ Hl) as [Hs1 Hk1]. destruct (Hk1 _ Hi) as [k1 Hk1'].
    destruct (wf_internal _ Hwf _ _ Hk) as [Hj _ _ [owner [_ Hkey]]].
    rewrite Hk1', Hj in Heq. destruct Hkey as [-> | ->];
      by apply (prefixed_not_internal id k1 _ (Hsafe _ Hs1)) in Heq.
Qed.

Lemma validated_keys_disjoint_witness :
  validate (fun s => s) demo_config = Ok tt /\
  forall id1 id2 l1 l2 i1 i2, id1 <> id2 ->
     incidents (pump_state demo_pump) !! id1 = Some l1 ->
     incidents (pump_state demo_pump) !! id2 = Some l2 ->
     i1 ∈ l1 -> i2 ∈ l2 -> inc_key i1 <> inc_key i2.
Proof.
  assert (validate (fun s => s) demo_config = Ok tt) as Hv by (vm_compute; reflexivity).
  split; [exact Hv|].
  exact (proj1 (validated_keys_disjoint (R := decimal_rfc3339) (fun s => s) true demo_config ∅ 0
    demo_turns demo_pump demo_acts Hv demo_run_eq)).
Defined.

(** C21: The status shown for a server without tunnel is that of its session. Whatever
    other events are interleaved, if the events about the server are those its
    client delivered, the reducer shows it online exactly while the session is up. *)
Theorem status_follows_session `{R : Rfc3339} (env : ClientEnv) (server : ServerConfig)
    (from_str : string -> Result Envelope) (value_error timestamp_error : string)
    (utf8_error : bytes -> string) (inputs : list (OffsetDateTime * ClientInput))
    (c : Client) (open : bool) (delivered_ events : list Event)
    (ids : list string) (snoozes : gmap string OffsetDateTime) (s : AppState)
    (trs : list Transition) :
  client_run env server false ClientOptions_default from_str value_error timestamp_error
    utf8_error Preparing true inputs = Some (c, open, delivered_) ->
  cfg_id server ∈ ids ->
  filter (fun e => about (cfg_id server) e = true) events = delivered_ ->
  run (AppState_new ids snoozes) events = Some (s, trs) ->
  exists srv l, servers s !! cfg_id server = Some srv /\
    link_run (cfg_id server) link_start delivered_ = Some l /\
    srv_connected srv = link_up l.
Proof.
  intros Hc Hin Hf Hr. set (id := cfg_id server) in *.
  eapply run_linked with (l := link_start) in Hc as (l & Hl & _); [|done].
  assert (is_Some (servers (AppState_new ids snoozes) !! id)) as [srv0 Hs0]
    by (by apply (wf_order _ (wf_new ids snoozes))).
  destruct (run_phase events _ _ _ _ _ Hs0 Hr) as (srv & Hs & Hph).
  exists srv, l. split; [done|]. split; [done|].
  assert (phase_of srv0 = Pending) as H0.
  { apply elem_of_list_to_map_2, list_elem_of_fmap in Hs0 as (? & [= -> ->] & _). done. }
  rewrite phase_filter, Hf, H0 in Hph.
  pose proof (link_phase id delivered_ link_start l Pending Hl) as Hlp.
  rewrite <-Hph in Hlp. unfold phase_of in Hlp. simpl in Hlp.
  destruct (srv_connected srv), (link_up l); try done; destruct Hlp as [A B]; try done.
  - discriminate (B eq_refl).
  - specialize (A eq_refl). by destruct (srv_initialized srv).
Qed.

Lemma status_follows_session_witness :
  exists s trs srv delivered_ l,
    run (R := decimal_rfc3339) (AppState_new ["staging"; "prod"] ∅)
      (Tick 5 :: delivered_ ++ [Disconnected "staging" 1 "refused"]) = Some (s, trs) /\
    servers s !! "prod" = Some srv /\
    link_run "prod" link_start delivered_ = Some l /\ srv_connected srv = link_up l.
Proof.
  destruct (client_run (H := decimal_rfc3339) demo_env demo_server false ClientOptions_default
      (fun _ => Err []) "" "" (fun _ => "") Preparing true demo_client_inputs)
    as [[[c open] delivered_]|] eqn:Hc; [|vm_compute in Hc; discriminate Hc].
  destruct (run (R := decimal_rfc3339) (AppState_new ["staging"; "prod"] ∅)
      (Tick 5 :: delivered_ ++ [Disconnected "staging" 1 "refused"])) as [[s trs]|] eqn:Hr.
  - assert (filter (fun e => about "prod" e = true)
        (Tick 5 :: delivered_ ++ [Disconnected "staging" 1 "refused"]) = delivered_) as Hf.
    { clear Hr. vm_compute in Hc. injection Hc as _ _ <-. reflexivity. }
    assert ("prod" ∈ ["staging"; "prod"]) as Hin by (right; left).
    destruct (status_follows_session (R := decimal_rfc3339) demo_env demo_server
      (fun _ => Err []) "" "" (fun _ => "") demo_client_inputs c open delivered_
      (Tick 5 :: delivered_ ++ [Disconnected "staging" 1 "refused"])
      ["staging"; "prod"] ∅ s trs Hc Hin Hf Hr) as (srv & l & H).
    exists s, trs, srv, delivered_, l. split; [exact Hr|exact H].
  - exfalso. vm_compute in Hc. injection Hc as _ _ <-. vm_compute in Hr. discriminate Hr.
Defined.
