(* ===== verification/Supervision.v ===== *)
(** * A tunneled server: the supervisor and the client inside it

    [src/cmd/montray-ui/src/network/tunnel.rs] runs a connection loop of [client.rs]
    as a task of its own while a tunnel generation is ready, signals it through its own
    flag and joins it. Here the two step machines run together, on one event channel,
    and what they deliver is followed into the reducer. *)

From Stdlib Require Import ZArith Lia Ascii.
From stdpp Require Import base gmap strings list option.
From S2P Require Import Prelude RustStr Domain Reducer Config Output Tunnel Protocol Client System.

(** ** The two machines together *)

Record Pair := mkPair {
  pr_supervisor : Supervisor;
  pr_client : option Client;   (* the task, until it is joined *)
  pr_signalled : bool;         (* the value of [stop_tx] *)
  pr_open : bool;              (* whether the receiver of the events is alive *)
}.
Definition pair_start : Pair := mkPair LoopTop None false true.

Inductive PairInput := Outer (i : Input) | Inner (i : ClientInput).

(** What the supervisor's actions do to the client's task. *)
Definition act_on_client (p : Pair) (a : Action) : Pair :=
  match a with
  | StartClient => mkPair (pr_supervisor p) (Some Preparing) false (pr_open p)
  | SignalClient => mkPair (pr_supervisor p) (pr_client p) true (pr_open p)
  | JoinedClient => mkPair (pr_supervisor p) None (pr_signalled p) (pr_open p)
  | _ => p
  end.

Definition emitted (actions : list Action) : list Event :=
  omap (fun a => match a with Emitted ev => Some ev | _ => None end) actions.

(** Whether the input completes a send, and how. *)
Definition send_result (i : PairInput) : option bool :=
  match i with Outer (Sent ok) | Inner (Delivered ok) => Some ok | _ => None end.

(** What an input presupposes: the join completes when the task is over, the client's
    flag is what the supervisor made it, and the process-wide flag is [shutdown]. *)
Definition enabled (shutdown : bool) (p : Pair) (i : PairInput) : bool :=
  match i with
  | Outer ClientStopped => match pr_client p with Some Stopped => true | _ => false end
  | Outer ShutdownChanged => shutdown
  | Outer (Top flag _) => Bool.eqb flag shutdown
  | Inner Changed => pr_signalled p
  | Inner (Settled flag) => Bool.eqb flag (pr_signalled p)
  | _ => true
  end &&
  match send_result i with Some true => pr_open p | _ => true end.

Section Pair.
Context `{Rfc3339}.
Variable env : ClientEnv.
Variable server : ServerConfig.
Variable spec : CommandSpec.
Variable from_str : string -> Result Envelope.
Variable value_error timestamp_error : string.
Variable utf8_error : bytes -> string.

Abbreviation inner_step := (client_step env server true ClientOptions_default from_str
  value_error timestamp_error utf8_error).

(** One step, with the events that reach the channel. *)
Definition pair_step (shutdown : bool) (at_ : OffsetDateTime) (p : Pair) (i : PairInput)
    : option (Pair * list Event) :=
  if negb (enabled shutdown p i) then None
  else
    let open := match send_result i with Some ok => ok | None => pr_open p end in
    match i with
    | Outer i =>
        '(s, actions) ← tunnel_step (cfg_id server) spec at_ (pr_supervisor p) i;
        Some (fold_left act_on_client actions (mkPair s (pr_client p) (pr_signalled p) open),
              emitted actions)
    | Inner i =>
        c ← pr_client p;
        c' ← inner_step at_ c i;
        Some (mkPair (pr_supervisor p) (Some c') (pr_signalled p) open,
              match i, sending c with Delivered true, Some ev => [ev] | _, _ => [] end)
    end.

(** A run; each input comes with the flag and the clock at that time. *)
Fixpoint pair_run (p : Pair) (inputs : list (bool * OffsetDateTime * PairInput))
    : option (Pair * list Event) :=
  match inputs with
  | [] => Some (p, [])
  | (shutdown, at_, i) :: rest =>
      '(p, events) ← pair_step shutdown at_ p i;
      '(p, events') ← pair_run p rest;
      Some (p, events ++ events')
  end.
End Pair.

(** ** The specification

    What the events of a tunneled server may say: nothing about the connection while the
    tunnel is down, and a session of its own for every time it is ready. *)

Inductive Root := RootDown | RootUp (l : Link).

Definition root_online (r : Root) : bool :=
  match r with RootDown => false | RootUp l => link_up l end.

Definition root_step (id : string) (r : Root) (ev : Event) : option Root :=
  match ev, r with
  | TunnelReady id' _, RootDown => if bool_decide (id' = id) then Some (RootUp link_start) else None
  | TunnelFailed id' _ _, _ => if bool_decide (id' = id) then Some RootDown else None
  | _, RootUp l => RootUp <$> link_step id l ev
  | _, RootDown => None
  end.

Fixpoint root_run (id : string) (r : Root) (events : list Event) : option Root :=
  match events with
  | [] => Some r
  | ev :: events => r ← root_step id r ev; root_run id r events
  end.

Lemma root_run_app (id : string) (l1 l2 : list Event) (r : Root) :
  root_run id r (l1 ++ l2) = (r ← root_run id r l1; root_run id r l2).
Proof.
  revert r. induction l1 as [|ev l1 IH]; intros r; simpl; [done|].
  destruct (root_step id r ev); simpl; [apply IH|done].
Qed.

(** ** The machines keep to it *)

Section PairLemmas.
Context `{Rfc3339}.
Context (env : ClientEnv) (server : ServerConfig) (spec : CommandSpec).
Context (from_str : string -> Result Envelope) (value_error timestamp_error : string).
Context (utf8_error : bytes -> string).
Abbreviation step := (pair_step env server spec from_str value_error timestamp_error utf8_error).
Abbreviation run := (pair_run env server spec from_str value_error timestamp_error utf8_error).
Abbreviation id := (cfg_id server).

Definition client_runs (p : Pair) (r : Root) : Prop :=
  exists c l, pr_client p = Some c /\ r = RootUp l /\ linked server c l.

(** How a state relates to what was reported. *)
Definition pair_ok (p : Pair) (r : Root) : Prop :=
  match pr_supervisor p with
  | LoopTop | Starting _ | AwaitExit _ | Restarting => pr_client p = None /\ r = RootDown
  | SendReady _ ev => pr_client p = None /\ r = RootDown /\ exists at_, ev = TunnelReady id at_
  | Running _ => client_runs p r
  | JoinThenFail _ _ | JoinThenStop _ => client_runs p r /\ pr_signalled p = true
  | SendFailure ev => pr_client p = None /\ exists at_ error, ev = TunnelFailed id at_ error
  | Draining _ _ | Stopping _ | StopDraining _ | Done => pr_client p = None
  end.

Lemma outer_ok (shutdown : bool) (at_ : OffsetDateTime) (p p' : Pair) (r : Root) (i : Input)
    (events : list Event) :
  pair_ok p r -> i <> Sent false -> step shutdown at_ p (Outer i) = Some (p', events) ->
  exists r', root_run id r events = Some r' /\ pair_ok p' r'.
Proof.
  intros Hok Hi Hs. unfold pair_step in Hs.
  destruct (enabled shutdown p (Outer i)) eqn:He; [|discriminate Hs]. simpl in Hs.
  apply bind_Some in Hs as ([s actions] & Ht & [= <- <-]).
  destruct p as [s0 c signalled open]. cbn [pr_supervisor] in *. unfold pair_ok in *.
  destruct s0, i as [flag [g'|?]| | | | | |[]| |]; simpl in Ht; try discriminate Ht; try done;
    repeat match type of Ht with
    | match ?x with _ => _ end = Some _ => destruct x; try discriminate
    end; injection Ht as <- <-; simpl in *; destruct_and?; subst; simpl;
    try (eexists; split; [reflexivity|]; by eauto).
  - match goal with Hev : exists at_, ev = _ |- _ => destruct Hev as [? ->] end. simpl. rewrite bool_decide_eq_true_2 by done.
    eexists. split; [reflexivity|]. by exists Preparing, link_start.
  - match goal with Hev : exists at_ error, ev = _ |- _ => destruct Hev as (? & ? & ->) end. simpl. rewrite bool_decide_eq_true_2 by done.
    by eexists.
Qed.

(** A supervisor whose client is running is in one of three states. *)
Lemma pair_ok_client (p : Pair) (r : Root) (c : Client) :
  pair_ok p r -> pr_client p = Some c ->
  (exists l, r = RootUp l /\ linked server c l) /\
  forall p' r', pr_supervisor p' = pr_supervisor p -> pr_signalled p' = pr_signalled p ->
    client_runs p' r' -> pair_ok p' r'.
Proof.
  unfold pair_ok. intros Hok Hc.
  assert (client_runs p r -> exists l, r = RootUp l /\ linked server c l) as Hl.
  { intros (c' & l & Hc' & -> & Hl). exists l. split; [done|]. by simplify_eq. }
  destruct (pr_supervisor p); destruct_and?; try congruence;
    (split; [by apply Hl|]; intros p' r' -> Hsig Hr'; rewrite ?Hsig; auto).
Qed.

Lemma inner_ok (shutdown : bool) (at_ : OffsetDateTime) (p p' : Pair) (r : Root)
    (i : ClientInput) (events : list Event) :
  pair_ok p r -> i <> Delivered false -> step shutdown at_ p (Inner i) = Some (p', events) ->
  exists r', root_run id r events = Some r' /\ pair_ok p' r'.
Proof.
  intros Hok Hi Hs. unfold pair_step in Hs.
  destruct (enabled shutdown p (Inner i)); [|discriminate Hs]. simpl in Hs.
  apply bind_Some in Hs as (c & Hc & (c' & Hs & [= <- <-])%bind_Some).
  destruct (pair_ok_client p r c Hok Hc) as [(l & -> & Hl) Hup].
  pose proof (step_linked env server true from_str value_error timestamp_error utf8_error
    at_ c i c' l Hl Hs Hi) as Hstep.
  destruct i as [| | | | | |[]], (sending c) as [ev|]; try done;
    try (exists (RootUp l); split; [done|]; apply Hup; [done|done|]; by exists c', l).
  destruct Hstep as (l' & Hev & Hl'). exists (RootUp l'). simpl.
  split; [|apply Hup; [done|done|]; by exists c', l'].
  destruct ev; simpl in *; try discriminate Hev; by rewrite Hev.
Qed.

Lemma tunnel_emits (at_ : OffsetDateTime) (s s' : Supervisor) (i : Input) (actions : list Action) :
  tunnel_step id spec at_ s i = Some (s', actions) -> emitted actions <> [] -> i = Sent true.
Proof.
  intros Hs He. destruct s, i as [| | | | | |[]| |]; simpl in Hs; try discriminate Hs; try done;
    repeat match type of Hs with
    | match ?x with _ => _ end = Some _ => destruct x; try discriminate
    end; injection Hs as <- <-; done.
Qed.

Lemma act_on_client_open (actions : list Action) (p : Pair) :
  pr_open (fold_left act_on_client actions p) = pr_open p /\
  pr_supervisor (fold_left act_on_client actions p) = pr_supervisor p.
Proof.
  revert p. induction actions as [|a actions IH]; intros p; simpl; [done|].
  destruct (IH (act_on_client p a)) as [-> ->]. by destruct a.
Qed.

(** A closed channel stays closed, and nothing reaches it. *)
Lemma step_open (shutdown : bool) (at_ : OffsetDateTime) (p p' : Pair) (i : PairInput)
    (events : list Event) :
  step shutdown at_ p i = Some (p', events) ->
  pr_open p' = match send_result i with Some ok => ok | None => pr_open p end /\
  (events <> [] -> send_result i = Some true) /\
  (send_result i = Some true -> pr_open p = true).
Proof.
  intros Hs. unfold pair_step in Hs. destruct (enabled shutdown p i) eqn:He; [|discriminate Hs].
  unfold enabled in He. apply andb_prop in He as [_ He]. cbn [negb] in Hs.
  destruct i as [i|i]; apply bind_Some in Hs.
  - destruct Hs as ([s actions] & Ht & [= <- <-]).
    rewrite (proj1 (act_on_client_open _ _)). split; [done|]. split.
    + intros Hne. by rewrite (tunnel_emits _ _ _ _ _ Ht Hne).
    + intros Hr. by rewrite Hr in He.
  - destruct Hs as (c & Hc & (c' & Hi & [= <- <-])%bind_Some). split; [done|]. split.
    + by destruct i as [| | | | | |[]].
    + intros Hr. by rewrite Hr in He.
Qed.

Lemma step_ok (shutdown : bool) (at_ : OffsetDateTime) (p p' : Pair) (r : Root) (i : PairInput)
    (events : list Event) :
  (pr_open p = true -> pair_ok p r) -> step shutdown at_ p i = Some (p', events) ->
  exists r', root_run id r events = Some r' /\ (pr_open p' = true -> pair_ok p' r').
Proof.
  intros Hok Hs. destruct (step_open _ _ _ _ _ _ Hs) as (Ho & Hne & Hsend).
  destruct (pr_open p') eqn:Ho'.
  - assert (pr_open p = true) as Hp by (destruct (send_result i) as [[]|]; auto).
    destruct i as [i|i].
    + destruct (outer_ok shutdown at_ p p' r i events) as (r' & H1 & H2); eauto.
      by intros ->.
    + destruct (inner_ok shutdown at_ p p' r i events) as (r' & H1 & H2); eauto.
      by intros ->.
  - exists r. split; [|done]. destruct events as [|ev events]; [done|].
    exfalso. by rewrite Hne in Ho.
Qed.

Lemma run_ok (inputs : list (bool * OffsetDateTime * PairInput)) (p p' : Pair) (r : Root)
    (events : list Event) :
  (pr_open p = true -> pair_ok p r) -> run p inputs = Some (p', events) ->
  exists r', root_run id r events = Some r' /\ (pr_open p' = true -> pair_ok p' r').
Proof.
  revert p r events. induction inputs as [|[[shutdown at_] i] inputs IH]; intros p r events Hok;
    simpl; [intros [= <- <-]; eauto|].
  intros ([p1 ev1] & H1 & ([p2 ev2] & H2 & [= <- <-])%bind_Some)%bind_Some.
  destruct (step_ok _ _ _ _ _ _ _ Hok H1) as (r1 & Hr1 & Hok1).
  destruct (IH _ _ _ Hok1 H2) as (r2 & Hr2 & Hok2).
  exists r2. by rewrite root_run_app, Hr1.
Qed.

Lemma pair_start_ok : pair_ok pair_start RootDown.
Proof. done. Qed.
End PairLemmas.

(** ** Into the reducer *)

Section Reduced.
Context `{R : Rfc3339}.

(** What the reducer shows for a server in the given state of its tunnel. *)
Definition shows (id : string) (s : AppState) (r : Root) : Prop :=
  exists srv, servers s !! id = Some srv /\ srv_connected srv = root_online r /\
    match r with
    | RootDown => internal_incidents s !! connection_key id = None
    | RootUp _ => internal_incidents s !! tunnel_key id = None
    end.

(** The server an event is about. *)
Definition server_of (e : Event) : option string :=
  match e with
  | Connected id _ | Disconnected id _ _ | TunnelReady id _ | TunnelFailed id _ _
  | Heartbeat id _ | Notification id _ _ => Some id
  | _ => None
  end.

Lemma about_server (id : string) (e : Event) : about id e = bool_decide (server_of e = Some id).
Proof.
  destruct e; simpl; try done;
    (case_bool_decide; symmetry; [apply bool_decide_eq_true_2|apply bool_decide_eq_false_2]);
    congruence.
Qed.

(** An event changes no client-generated incident but those of its server. *)
Lemma internal_frame (s s' : AppState) (e : Event) (tr : Transition) (k : string) :
  reduce s e = Some (s', tr) ->
  (forall id, server_of e = Some id -> k <> connection_key id /\ k <> tunnel_key id) ->
  internal_incidents s' !! k = internal_incidents s !! k.
Proof.
  intros Hr Hk. destruct e as [id ?|id ? ?|id ?|id ? ?|id ?|id ? ?|?|?|?|?|?]; simpl in Hr, Hk;
    try (destruct (Hk id eq_refl) as [Hc Ht]; clear Hk);
    try (apply (inj Some) in Hr; revert Hr).
  - unfold connected. case_match; intros [= <- _]; [|done]. simpl. by rewrite lookup_delete_ne.
  - destruct (servers s !! id) as [srv|] eqn:Hs.
    + apply disconnected_handler in Hr as (_ & _ & Hf & _); [by apply Hf|by rewrite Hs].
    + unfold disconnected in Hr. rewrite Hs in Hr. by injection Hr as <- _.
  - unfold tunnel_ready. case_match; intros [= <- _]; [|done]. simpl. by rewrite lookup_delete_ne.
  - destruct (servers s !! id) as [srv|] eqn:Hs.
    + apply tunnel_failed_handler in Hr as (_ & _ & _ & Hf & _); [by apply Hf|by rewrite Hs].
    + unfold tunnel_failed in Hr. rewrite Hs in Hr. by injection Hr as <- _.
  - unfold heartbeat. case_match; by intros [= <- _].
  - unfold notification. case_match; by intros [= <- _].
  - unfold snooze. case_bool_decide; by intros [= <- _].
  - unfold unsnooze. case_match; by intros [= <- _].
  - unfold snoozes_persisted. intros [= <- _]. by case_bool_decide.
  - by intros [= <- _].
  - unfold tick. case_bool_decide; by intros [= <- _].
Qed.

(** The incident of the cause that an event rules out. *)
Lemma internal_ruled_out (s s' : AppState) (e : Event) (tr : Transition) (id : string) :
  is_Some (servers s !! id) -> reduce s e = Some (s', tr) -> server_of e = Some id ->
  match e with
  | TunnelFailed _ _ _ => internal_incidents s' !! connection_key id = None
  | TunnelReady _ _ => internal_incidents s' !! tunnel_key id = None
  | _ => internal_incidents s' !! tunnel_key id = internal_incidents s !! tunnel_key id
  end.
Proof.
  intros Hid Hr He. pose proof (connection_tunnel_ne id id) as Hne.
  destruct e as [id' ?|id' ? ?|id' ?|id' ? ?|id' ?|id' ? ?|?|?|?|?|?]; simpl in He; try done;
    injection He as ->; simpl in Hr; try (apply (inj Some) in Hr; revert Hr).
  - unfold connected. case_match; intros [= <- _]; [|done]. simpl. by rewrite lookup_delete_ne.
  - apply disconnected_handler in Hr as (_ & _ & Hf & _); [|done]. by apply Hf.
  - unfold tunnel_ready. destruct Hid as [srv ->]. intros [= <- _]. apply lookup_delete_eq.
  - by apply tunnel_failed_handler in Hr as (_ & ? & _).
  - unfold heartbeat. case_match; by intros [= <- _].
  - unfold notification. case_match; by intros [= <- _].
Qed.

(** ** Simulation *)

Lemma shows_frame (s s' : AppState) (e : Event) (tr : Transition) (id : string) (r : Root) :
  shows id s r -> reduce s e = Some (s', tr) -> about id e = false -> shows id s' r.
Proof.
  intros (srv & Hs & Hc & Hr) H Ha.
  destruct (reduce_phase s e s' tr id srv Hs H) as (srv' & Hs' & Hp).
  rewrite phase_step_other in Hp by done.
  exists srv'. split; [done|]. split.
  { revert Hp. unfold phase_of. rewrite <-Hc.
    by destruct (srv_connected srv), (srv_connected srv'), (srv_initialized srv),
      (srv_initialized srv'). }
  rewrite about_server, bool_decide_eq_false in Ha.
  destruct r; (rewrite (internal_frame _ _ _ _ _ H); [done|]); intros id' Hid'; split;
    intros Hk; first [ by apply connection_tunnel_ne in Hk
                     | by symmetry in Hk; apply connection_tunnel_ne in Hk
                     | apply connection_key_inj in Hk; congruence
                     | apply tunnel_key_inj in Hk; congruence ].
Qed.

Lemma root_step_about (id : string) (e : Event) (r r' : Root) :
  root_step id r e = Some r' -> server_of e = Some id.
Proof.
  destruct e, r; simpl; try done; case_bool_decide; by subst.
Qed.

Lemma root_step_phase (id : string) (e : Event) (r r' : Root) (p : Phase) :
  root_step id r e = Some r' -> (root_online r = true <-> p = Online) ->
  (root_online r' = true <-> phase_step id p e = Online).
Proof.
  intros Hr Hp. pose proof (root_step_about _ _ _ _ Hr) as He.
  destruct e, r as [|l]; simpl in *; try done;
    injection He as ->; rewrite ?bool_decide_eq_true_2 in * by done; simpl in *;
    try (by injection Hr as <-);
    destruct (link_up l) eqn:Hl; simpl in *; try discriminate Hr; injection Hr as <-; simpl;
    by rewrite ?Hl.
Qed.

Lemma shows_step (s s' : AppState) (e : Event) (tr : Transition) (id : string) (r r' : Root) :
  shows id s r -> reduce s e = Some (s', tr) -> root_step id r e = Some r' -> shows id s' r'.
Proof.
  intros (srv & Hs & Hc & Hi) H Hr.
  pose proof (root_step_about _ _ _ _ Hr) as He.
  destruct (reduce_phase s e s' tr id srv Hs H) as (srv' & Hs' & Hp).
  exists srv'. split; [done|]. split.
  { assert (root_online r = true <-> phase_of srv = Online) as Hon.
    { rewrite <-Hc. unfold phase_of. by destruct (srv_connected srv), (srv_initialized srv). }
    apply (root_step_phase _ _ _ _ _ Hr) in Hon. rewrite <-Hp in Hon.
    unfold phase_of in Hon.
    destruct (srv_connected srv'), (root_online r'); try done; destruct Hon as [A B];
      [discriminate (B eq_refl)|specialize (A eq_refl); by destruct (srv_initialized srv')]. }
  pose proof (internal_ruled_out s s' e tr id (mk_is_Some _ _ Hs) H He) as Ho.
  destruct e, r as [|l]; simpl in Hr, Ho; try done; 
    repeat match type of Hr with
    | (if ?b then _ else _) = _ => destruct b; try discriminate Hr
    | _ <$> (if ?b then _ else _) = _ => destruct b; try discriminate Hr
    end; simpl in Hr; injection Hr as <-; by rewrite ?Ho.
Qed.

Lemma run_shows (events : list Event) (s s' : AppState) (trs : list Transition) (id : string)
    (r r' : Root) :
  shows id s r -> Reducer.run s events = Some (s', trs) ->
  root_run id r (filter (fun e => about id e = true) events) = Some r' -> shows id s' r'.
Proof.
  revert s r trs. induction events as [|e events IH]; intros s r trs Hsh; simpl.
  { intros [= <- _] [= <-]. done. }
  intros ([s1 tr] & H1 & ([s2 trs2] & H2 & [= <- _])%bind_Some)%bind_Some.
  destruct (about id e) eqn:Ha.
  - rewrite filter_cons_True by done. simpl. intros (r1 & Hr1 & Hr)%bind_Some.
    eapply IH; [|done|done]. by eapply shows_step.
  - rewrite filter_cons_False by (by rewrite Ha). intros Hr.
    eapply IH; [|done|done]. by eapply shows_frame.
Qed.

Lemma shows_start (ids : list string) (snoozes : gmap string OffsetDateTime) (id : string) :
  id ∈ ids -> shows id (AppState_new ids snoozes) RootDown.
Proof.
  intros Hin. assert (is_Some (servers (AppState_new ids snoozes) !! id)) as [srv Hs]
    by (by apply (wf_order _ (wf_new ids snoozes))).
  exists srv. split; [done|]. split; [|apply lookup_empty].
  by apply elem_of_list_to_map_2, list_elem_of_fmap in Hs as (? & [= -> ->] & _).
Qed.
End Reduced.

(** ** Properties *)

(** C8: One root cause for a tunneled server. Whatever the tunnel command, the network and
    the clock do, however the supervisor and its client interleave, and whatever other
    events are mixed in: what the two deliver is a sequence of sessions, each between
    a readiness and a failure of the tunnel; the reducer shows the server online exactly
    while the session inside the ready tunnel is up; and it never shows a connection
    incident while the tunnel is down, nor a tunnel incident while it is ready. *)
Theorem one_root_cause `{R : Rfc3339} (env : ClientEnv) (server : ServerConfig)
    (spec : CommandSpec) (from_str : string -> Result Envelope)
    (value_error timestamp_error : string) (utf8_error : bytes -> string)
    (inputs : list (bool * OffsetDateTime * PairInput)) (p : Pair)
    (delivered_ events : list Event) (ids : list string)
    (snoozes : gmap string OffsetDateTime) (s : AppState) (trs : list Transition) :
  pair_run env server spec from_str value_error timestamp_error utf8_error pair_start inputs
    = Some (p, delivered_) ->
  cfg_id server ∈ ids ->
  filter (fun e => about (cfg_id server) e = true) events = delivered_ ->
  Reducer.run (AppState_new ids snoozes) events = Some (s, trs) ->
  exists srv r, servers s !! cfg_id server = Some srv /\
    root_run (cfg_id server) RootDown delivered_ = Some r /\ srv_connected srv = root_online r /\
    match r with
    | RootDown => internal_incidents s !! connection_key (cfg_id server) = None
    | RootUp _ => internal_incidents s !! tunnel_key (cfg_id server) = None
    end.
Proof.
  intros Hp Hin Hf Hr.
  apply run_ok with (r := RootDown) in Hp as (r & Hroot & _); [|intros _; apply pair_start_ok].
  rewrite <-Hf in Hroot.
  destruct (run_shows events _ s trs _ _ _ (shows_start ids snoozes _ Hin) Hr Hroot)
    as (srv & Hs & Hc & Hi).
  exists srv, r. by rewrite <-Hf.
Qed.

(** A tunnel that comes up, a refused connection, the exit of the tunnel command. *)
Definition demo_pair_inputs : list (bool * OffsetDateTime * PairInput) :=
  (fun i => (false, 5%Z, i)) <$>
    [Outer (Top false (Ok (Some 7%N))); Outer Marker; Outer (Sent true);
     Inner Prepared; Inner (ConnectDone None); Inner (Settled false); Inner (Delivered true);
     Outer (ChildExited (Ok {| success := false; status_text := "exit status: 1" |}));
     Inner Changed; Outer ClientStopped; Outer (Drained ReaderPanicked ReaderTimedOut);
     Outer (Sent true)].

Lemma one_root_cause_witness :
  exists p delivered_ s trs srv r,
    pair_run (H := decimal_rfc3339) demo_env demo_server demo_spec (fun _ => Err []) "" ""
      (fun _ => "") pair_start demo_pair_inputs = Some (p, delivered_) /\
    length delivered_ = 3 /\
    Reducer.run (R := decimal_rfc3339) (AppState_new ["prod"] ∅) (Tick 1 :: delivered_)
      = Some (s, trs) /\
    servers s !! "prod" = Some srv /\ root_run "prod" RootDown delivered_ = Some r /\
    srv_connected srv = root_online r.
Proof.
  destruct (pair_run (H := decimal_rfc3339) demo_env demo_server demo_spec (fun _ => Err []) "" ""
      (fun _ => "") pair_start demo_pair_inputs) as [[p delivered_]|] eqn:Hp;
    [|vm_compute in Hp; discriminate Hp].
  destruct (Reducer.run (R := decimal_rfc3339) (AppState_new ["prod"] ∅) (Tick 1 :: delivered_))
    as [[s trs]|] eqn:Hr.
  2: { exfalso. vm_compute in Hp. injection Hp as _ <-. vm_compute in Hr. discriminate Hr. }
  assert (filter (fun e => about "prod" e = true) (Tick 1 :: delivered_) = delivered_ /\
          length delivered_ = 3) as [Hf Hlen].
  { clear Hr. vm_compute in Hp. injection Hp as _ <-. split; reflexivity. }
  assert ("prod" ∈ ["prod"]) as Hin by left.
  destruct (one_root_cause (R := decimal_rfc3339) demo_env demo_server demo_spec (fun _ => Err [])
    "" "" (fun _ => "") demo_pair_inputs p delivered_ (Tick 1 :: delivered_) ["prod"] ∅ s trs
    Hp Hin Hf Hr) as (srv & r & H1 & H2 & H3 & _).
  exists p, delivered_, s, trs, srv, r. auto 10.
Defined.
