(* ===== verification/Shutdown.v ===== *)
(** * Shutdown of the network services

    The end of [run_async] in [src/cmd/montray-ui/src/runtime.rs]: after the shutdown flag
    is set the pump keeps receiving events while it joins the network tasks of
    [network/client.rs] and [network/tunnel.rs]. What the drain needs of a task is the
    class [WindsDown]; the connection loop and the supervised pair are its instances. *)

From Stdlib Require Import ZArith Lia Ascii.
From stdpp Require Import base gmap strings list option.
From S2P Require Import Prelude RustStr Domain Reducer Config Output Tunnel Protocol Client System Supervision.

(** ** The interface *)

(** A task in a world in which the shutdown flag is set and the events are received. *)
Class NetworkTask (T I : Type) := {
  (** One input, with the events that are sent. *)
  task_step : OffsetDateTime -> T -> I -> option (T * list Event);
  task_over : T -> bool;
  (** The inputs a state waits for and that come without any other task: the flag, the
      end of a send, of a child that was killed, of a delay. *)
  task_awaits : T -> I -> Prop;
  (** The task waits for the exit of a child that it did not kill. *)
  task_held : T -> bool;
}.

(** A task winds down: an input brings it closer to its end, unless a select took another
    branch although the flag was ready; and it is stuck only behind an unkilled child. *)
Class WindsDown (T I : Type) `{NetworkTask T I} := {
  winds_inv : T -> Prop;
  winds_rank : T -> nat;
  winds_pass : T -> I -> bool;
  winds_inv_step at_ t i t' events :
    winds_inv t -> task_step at_ t i = Some (t', events) -> winds_inv t';
  winds_rank_step at_ t i t' events :
    winds_inv t -> task_step at_ t i = Some (t', events) ->
    if winds_pass t i then winds_rank t' <= S (winds_rank t) /\ events = []
    else winds_rank t' < winds_rank t /\ length events <= 1;
  winds_rank_bound t : winds_inv t -> winds_rank t <= 26;
  winds_progress t :
    winds_inv t -> task_over t = false -> task_held t = false ->
    exists i, task_awaits t i /\ winds_pass t i = false /\ forall at_, is_Some (task_step at_ t i);
}.

(** ** The connection loop *)

(** Inputs left until the end, if every select takes the flag. *)
Definition client_rank (c : Client) : nat :=
  match c with
  | Preparing | SendDisconnected _ _ _ | SendConnected _ _ | SendMessage _ _ => 2
  | SendFatal _ | Sleeping _ _ | Connecting _ _ _ | Settling _ _ _ | Reading _ => 1
  | Stopped => 0
  end.

(** A select that is ready for the flag and takes another branch. *)
Definition client_pass (c : Client) (i : ClientInput) : bool :=
  match c, i with
  | Sleeping _ _, SleepElapsed | Connecting _ _ _, ConnectDone _ | Reading _, Received _
  | Settling _ _ _, Settled false => true
  | _, _ => false
  end.

(** What a state waits for once the flag is set. *)
Definition client_awaits (c : Client) (i : ClientInput) : Prop :=
  match c with
  | Preparing => i = Prepared
  | SendFatal _ | SendDisconnected _ _ _ | SendConnected _ _ | SendMessage _ _ => i = Delivered true
  | Sleeping _ _ | Connecting _ _ _ | Settling _ _ _ | Reading _ => i = Changed
  | Stopped => False
  end.

Definition client_over (c : Client) : bool := match c with Stopped => true | _ => false end.

Section ClientRank.
Context `{Rfc3339} (env : ClientEnv) (server : ServerConfig) (tunneled : bool).
Context (from_str : string -> Result Envelope) (value_error timestamp_error : string).
Context (utf8_error : bytes -> string).
Abbreviation step := (client_step env server tunneled ClientOptions_default from_str value_error
  timestamp_error utf8_error).

Lemma attempt_rank at_ setup delay : client_rank (attempt env server at_ setup delay) = 1.
Proof. unfold attempt. by destruct (request _ _ _). Qed.

Lemma top_rank at_ setup delay : client_rank (top env server at_ setup delay) = 1.
Proof. unfold top. destruct (negb _); [done|]. apply attempt_rank. Qed.

Lemma fail_rank at_ setup delay error : client_rank (fail server tunneled at_ setup delay error) <= 2.
Proof. unfold fail. destruct tunneled; simpl; lia. Qed.

Lemma client_rank_step at_ c i c' :
  step at_ c i = Some c' ->
  if client_pass c i then client_rank c' <= S (client_rank c) else client_rank c' < client_rank c.
Proof.
  intros Hs. pose proof (top_rank at_) as Ht. pose proof (attempt_rank at_) as Ha.
  pose proof (fail_rank at_) as Hf.
  destruct c, i as [| | |[]| | |]; simpl in Hs; try discriminate Hs; injection Hs as <-; simpl;
    repeat match goal with |- context [match ?x with _ => _ end] => destruct x end;
    simpl; rewrite ?Ht, ?Ha; auto; try lia.
Qed.

Lemma client_progress c :
  client_over c = false ->
  exists i, client_awaits c i /\ client_pass c i = false /\ forall at_, is_Some (step at_ c i).
Proof.
  destruct c; simpl; intros Ho; try discriminate Ho; eexists; (split; [reflexivity|]); simpl; eauto.
Qed.
End ClientRank.

(** ** The supervised pair *)

Definition pair_rank (p : Pair) : nat :=
  3 * remaining (pr_supervisor p) + from_option client_rank 0 (pr_client p).

Definition pair_pass (p : Pair) (i : PairInput) : bool :=
  match i, pr_client p with Inner i, Some c => client_pass c i | _, _ => false end.

(** The join waits for the client, the rest of the supervisor for what it does alone. *)
Definition pair_awaits (p : Pair) (i : PairInput) : Prop :=
  match pr_supervisor p, pr_client p with
  | (JoinThenFail _ _ | JoinThenStop _), Some c =>
      if client_over c then i = Outer ClientStopped
      else exists i', i = Inner i' /\ client_awaits c i'
  | s, _ => exists i', i = Outer i' /\ awaits s i' /\ i' <> Sent false
  end.

Definition pair_over (p : Pair) : bool :=
  match pr_supervisor p with Done => true | _ => false end.

Section PairRank.
Context `{Rfc3339} (env : ClientEnv) (server : ServerConfig) (spec : CommandSpec).
Context (from_str : string -> Result Envelope) (value_error timestamp_error : string).
Context (utf8_error : bytes -> string).
Abbreviation step := (pair_step env server spec from_str value_error timestamp_error utf8_error
  true).

Lemma act_on_client_rank (actions : list Action) (p : Pair) :
  from_option client_rank 0 (pr_client (fold_left act_on_client actions p)) <=
    from_option client_rank 0 (pr_client p) + 2.
Proof.
  assert (from_option client_rank 0 (pr_client (fold_left act_on_client actions p)) <=
    from_option client_rank 0 (pr_client p) `max` 2); [|lia].
  revert p. induction actions as [|a actions IH]; intros p; simpl; [lia|].
  etrans; [apply IH|]. destruct a; simpl; lia.
Qed.

Lemma tunnel_emits_one at_ s i s' actions :
  tunnel_step (cfg_id server) spec at_ s i = Some (s', actions) -> length (emitted actions) <= 1.
Proof.
  intros Hs. destruct s, i as [| | | | | |[]| |]; simpl in Hs; try discriminate Hs;
    repeat match type of Hs with
    | match ?x with _ => _ end = Some _ => destruct x; try discriminate
    end; injection Hs as <- <-; simpl; lia.
Qed.

Lemma pair_rank_step at_ p i p' events :
  step at_ p i = Some (p', events) ->
  if pair_pass p i then pair_rank p' <= S (pair_rank p) /\ events = []
  else pair_rank p' < pair_rank p /\ length events <= 1.
Proof.
  unfold pair_step. destruct (enabled true p i) eqn:He; [|done]. cbn [negb].
  unfold enabled in He. apply andb_prop in He as [He _].
  destruct i as [i|i]; intros Hs; apply bind_Some in Hs.
  - destruct Hs as ([s actions] & Ht & [= <- <-]). simpl. unfold pair_rank.
    rewrite (proj2 (act_on_client_open _ _)). simpl.
    assert (after_shutdown i = true) as Hi by (destruct i as [[]| | | | | | | |]; done).
    apply (shutdown_step _ _ _ _ _ _ _ Hi) in Ht as Hrank. destruct Hrank as [Hrank _].
    pose proof (act_on_client_rank actions (mkPair s (pr_client p) (pr_signalled p)
      match send_result (Outer i) with Some ok => ok | None => pr_open p end)) as Hc.
    apply tunnel_emits_one in Ht. simpl in *. lia.
  - destruct Hs as (c & Hc & (c' & Hi & [= <- <-])%bind_Some).
    apply client_rank_step in Hi. unfold pair_rank, pair_pass. rewrite Hc. simpl.
    destruct (client_pass c i) eqn:Hp.
    + split; [lia|]. destruct c, i; try done.
    + split; [lia|]. destruct i as [| | | | | |[]], (sending c); simpl; lia.
Qed.

(** The receiver is alive, and the client's task fits the supervisor. *)
Definition pair_inv (p : Pair) : Prop := pr_open p = true /\ exists r, pair_ok server p r.

Lemma pair_inv_step at_ p i p' events :
  pair_inv p -> send_result i <> Some false -> step at_ p i = Some (p', events) -> pair_inv p'.
Proof.
  intros [Ho [r Hok]] Hne Hs.
  destruct (step_open _ _ _ _ _ _ _ _ _ _ _ _ _ Hs) as (Ho' & _).
  assert (pr_open p' = true) as Hp' by (rewrite Ho'; by destruct (send_result i) as [[]|]).
  split; [done|].
  destruct (step_ok env server spec from_str value_error timestamp_error utf8_error
    true at_ p p' r i events (fun _ => Hok) Hs) as (r' & _ & H'). eauto.
Qed.

Lemma pair_rank_bound p : pair_inv p -> pair_rank p <= 26.
Proof.
  intros _. unfold pair_rank.
  assert (remaining (pr_supervisor p) <= 8) by (destruct (pr_supervisor p); simpl; lia).
  assert (from_option client_rank 0 (pr_client p) <= 2)
    by (destruct (pr_client p) as [[]|]; simpl; lia).
  lia.
Qed.

(** A client that was signalled goes on by itself. *)
Lemma inner_progress s c :
  client_over c = false ->
  exists i, client_awaits c i /\ client_pass c i = false /\ send_result (Inner i) <> Some false /\
    forall at_, is_Some (step at_ (mkPair s (Some c) true true) (Inner i)).
Proof.
  intros Hover.
  destruct (client_progress env server true from_str value_error timestamp_error utf8_error c Hover)
    as (i & Ha & Hp & Hs).
  assert (enabled true (mkPair s (Some c) true true) (Inner i) = true /\
    send_result (Inner i) <> Some false) as [He Hne]
    by (destruct c; simpl in Ha; try done; by subst).
  exists i. split; [done|]. split; [done|]. split; [done|]. intros at_.
  unfold pair_step. rewrite He. simpl. destruct (Hs at_) as [c' ->]. simpl. eauto.
Qed.

Definition joins (s : Supervisor) : bool :=
  match s with JoinThenFail _ _ | JoinThenStop _ => true | _ => false end.

(** A supervisor that does not join goes on by itself. *)
Lemma outer_progress s c signalled :
  joins s = false -> s <> Done -> unkilled s = false ->
  exists i, awaits s i /\ i <> Sent false /\
    forall at_, is_Some (step at_ (mkPair s c signalled true) (Outer i)).
Proof.
  intros Hj Hd Hu. assert (exists i', awaits s i' /\ i' <> Sent false /\
    enabled true (mkPair s c signalled true) (Outer i') = true) as (i' & Ha' & Hne & He).
  { destruct s; simpl in *; try done.
    - by exists (Top true (Err "")); eauto.
    - by exists ShutdownChanged.
    - by exists (Sent true); eauto.
    - by exists ShutdownChanged.
    - by exists (Drained ReaderTimedOut ReaderTimedOut); eauto.
    - by exists (Sent true); eauto.
    - by exists ShutdownChanged; eauto.
    - by exists (ChildExited (Err "")); eauto.
    - by exists (Drained ReaderTimedOut ReaderTimedOut); eauto. }
  exists i'. split; [done|]. split; [done|]. intros at_. unfold pair_step. rewrite He.
  cbn [negb pr_supervisor].
  destruct (awaits_accepted (cfg_id server) spec at_ s i' Ha') as [[s' actions] ->]. simpl. eauto.
Qed.

Lemma pair_progress p :
  pair_inv p -> pair_over p = false -> unkilled (pr_supervisor p) = false ->
  exists i, pair_awaits p i /\ send_result i <> Some false /\ pair_pass p i = false /\
    forall at_, is_Some (step at_ p i).
Proof.
  intros [Ho [r Hok]] Hover Hu. destruct p as [s c signalled open]. simpl in Ho, Hu. subst open.
  destruct (joins s) eqn:Hj.
  - assert (client_runs server (mkPair s c signalled true) r /\ signalled = true)
      as [(c0 & l & Hc & _ & _) ->] by (destruct s; done).
    simpl in Hc. subst c. destruct (client_over c0) eqn:Hc0.
    + exists (Outer ClientStopped). destruct c0; try done.
      destruct s; try done; (split; [done|]; split; [done|]; split; [done|]); intros at_;
        unfold pair_step; simpl; eauto.
    + destruct (inner_progress s c0 Hc0) as (i & Ha & Hp & Hne & Hs).
      exists (Inner i). split; [|by split]. unfold pair_awaits.
      destruct s; try done; simpl; rewrite Hc0; eauto.
  - destruct (outer_progress s c signalled Hj) as (i & Ha & Hne & Hs); [by intros ->|done|].
    exists (Outer i). split; [|split; [by destruct i as [| | | | | |[]| |]|by split]].
    unfold pair_awaits. destruct s; try done; simpl; eauto.
Qed.
End PairRank.

(** ** The tasks *)

(** What [run_client] runs for a server. *)
Inductive Service :=
| Direct (server : ServerConfig) (c : Client)
| Tunneled (server : ServerConfig) (spec : CommandSpec) (p : Pair).

(** [None] is a panic of an [expect]. *)
Definition run_client (server : ServerConfig) : option Service :=
  match cfg_tunnel server with
  | Some _ =>
      spec ← for_server server;
      spec ← spec;
      Some (Tunneled server spec pair_start)
  | None => Some (Direct server Preparing)
  end.

(** The tasks that [run_async] spawns. *)
Definition network_tasks (config : Config) : option (list Service) :=
  mapM run_client (cfg_servers (ws_client config)).

Inductive ServiceInput := ToClient (i : ClientInput) | ToPair (i : PairInput).

Section Services.
Context `{Rfc3339} (env : ClientEnv).
Context (from_str : string -> Result Envelope) (value_error timestamp_error : string).
Context (utf8_error : bytes -> string).

(** The flag is set, and a send never fails because the receiver outlives the tasks. *)
Definition service_step (at_ : OffsetDateTime) (t : Service) (i : ServiceInput)
    : option (Service * list Event) :=
  match t, i with
  | Direct server c, ToClient i =>
      if bool_decide (send_result (Inner i) = Some false) then None
      else
        c' ← client_step env server false ClientOptions_default from_str value_error
               timestamp_error utf8_error at_ c i;
        Some (Direct server c',
              match i, sending c with Delivered true, Some ev => [ev] | _, _ => [] end)
  | Tunneled server spec p, ToPair i =>
      if bool_decide (send_result i = Some false) then None
      else
        '(p', events) ← pair_step env server spec from_str value_error timestamp_error
                          utf8_error true at_ p i;
        Some (Tunneled server spec p', events)
  | _, _ => None
  end.

#[export] Instance service_task : NetworkTask Service ServiceInput := {
  task_step := service_step;
  task_over t := match t with Direct _ c => client_over c | Tunneled _ _ p => pair_over p end;
  task_awaits t i :=
    match t, i with
    | Direct _ c, ToClient i => client_awaits c i
    | Tunneled _ _ p, ToPair i => pair_awaits p i
    | _, _ => False
    end;
  task_held t := match t with Direct _ _ => false | Tunneled _ _ p => unkilled (pr_supervisor p) end;
}.

Definition service_inv (t : Service) : Prop :=
  match t with Direct _ _ => True | Tunneled server _ p => pair_inv server p end.
Definition service_rank (t : Service) : nat :=
  match t with Direct _ c => client_rank c | Tunneled _ _ p => pair_rank p end.
Definition service_pass (t : Service) (i : ServiceInput) : bool :=
  match t, i with
  | Direct _ c, ToClient i => client_pass c i
  | Tunneled _ _ p, ToPair i => pair_pass p i
  | _, _ => false
  end.

Lemma service_inv_step at_ t i t' events :
  service_inv t -> service_step at_ t i = Some (t', events) -> service_inv t'.
Proof.
  intros Hinv Hs. destruct t as [server c|server spec p], i as [i|i];
    simpl in Hs; try discriminate Hs; case_bool_decide as Hf; try discriminate Hs;
    apply bind_Some in Hs.
  - by destruct Hs as (c' & _ & [= <- _]).
  - destruct Hs as ([p' ev] & Hp & [= <- _]). by eapply pair_inv_step.
Qed.

Lemma service_rank_step at_ t i t' events :
  service_step at_ t i = Some (t', events) ->
  if service_pass t i then service_rank t' <= S (service_rank t) /\ events = []
  else service_rank t' < service_rank t /\ length events <= 1.
Proof.
  intros Hs. destruct t as [server c|server spec p], i as [i|i];
    simpl in Hs; try discriminate Hs; case_bool_decide as Hf; try discriminate Hs;
    apply bind_Some in Hs.
  - destruct Hs as (c' & Hc & [= <- <-]). apply client_rank_step in Hc. simpl.
    destruct (client_pass c i) eqn:Hp; (split; [done|]).
    + by destruct c, i.
    + destruct i as [| | | | | |[]], (sending c); simpl; lia.
  - destruct Hs as ([p' ev] & Hp & [= <- <-]). by apply pair_rank_step in Hp.
Qed.

Lemma service_progress t :
  service_inv t -> task_over t = false -> task_held t = false ->
  exists i, task_awaits t i /\ service_pass t i = false /\
    forall at_, is_Some (service_step at_ t i).
Proof.
  destruct t as [server c|server spec p]; simpl; intros Hinv Hover Hheld.
  - destruct (client_progress env server false from_str value_error timestamp_error utf8_error
      c Hover) as (i & Ha & Hp & Hs).
    exists (ToClient i). split; [done|]. split; [done|]. intros at_. simpl.
    rewrite bool_decide_eq_false_2 by (destruct c; simpl in Ha; try done; by subst).
    destruct (Hs at_) as [c' ->]. simpl. eauto.
  - destruct (pair_progress env server spec from_str value_error timestamp_error utf8_error
      p Hinv Hover Hheld) as (i & Ha & Hne & Hp & Hs).
    exists (ToPair i). split; [done|]. split; [done|]. intros at_. simpl.
    rewrite bool_decide_eq_false_2 by done. destruct (Hs at_) as [[p' ev] ->]. simpl. eauto.
Qed.

#[export] Instance service_winds_down : WindsDown Service ServiceInput.
Proof.
  refine {| winds_inv := service_inv; winds_rank := service_rank; winds_pass := service_pass |}.
  - exact service_inv_step.
  - intros at_ t i t' events _. apply service_rank_step.
  - intros [server c|server spec p] Hinv; simpl; [destruct c; simpl; lia|by eapply pair_rank_bound].
  - exact service_progress.
Defined.
End Services.

(** ** The drain *)

(** The capacity of the event channel. *)
Definition EVENT_CAPACITY : nat := 64.

Lemma sum_with_insert {A} (f : A -> nat) (l : list A) (k : nat) (x y : A) :
  l !! k = Some x -> sum_list_with f (<[k := y]> l) + f x = sum_list_with f l + f y.
Proof.
  revert k. induction l as [|z l IH]; intros [|k] Hk; simpl in *; simplify_eq; [lia|].
  specialize (IH _ Hk). lia.
Qed.

Lemma sum_with_delete {A} (f : A -> nat) (l : list A) (k : nat) (x : A) :
  l !! k = Some x -> sum_list_with f (delete k l) + f x = sum_list_with f l.
Proof.
  revert k. induction l as [|z l IH]; intros [|k] Hk; simpl in *; simplify_eq; [lia|].
  specialize (IH _ Hk). lia.
Qed.

Section Drain.
Context {T I : Type} `{WindsDown T I}.

(** The tasks that are not joined, and the events that are not received. *)
Record Services := mkServices {
  sv_tasks : list T;
  sv_queue : list Event;
}.

(** What can happen while [run_async] drains. *)
Inductive DrainInput :=
| Advance (k : nat) (at_ : OffsetDateTime) (i : I)  (* a task runs *)
| Receive                                           (* [recv] returns an event *)
| ReceiveClosed                                     (* [recv] returns [None] *)
| JoinNext (k : nat).                               (* [join_next] returns the task *)

(** A send completes only if there is room; [recv] returns [None] once the queue is empty
    and every sender is dropped. *)
Definition drain_step (s : Services) (d : DrainInput) : option Services :=
  match d with
  | Advance k at_ i =>
      t ← sv_tasks s !! k;
      '(t', events) ← task_step at_ t i;
      if Nat.leb (length (sv_queue s ++ events)) EVENT_CAPACITY
      then Some (mkServices (<[k := t']> (sv_tasks s)) (sv_queue s ++ events))
      else None
  | Receive =>
      match sv_queue s with [] => None | _ :: queue => Some (mkServices (sv_tasks s) queue) end
  | ReceiveClosed =>
      if bool_decide (sv_queue s = []) && forallb task_over (sv_tasks s) then Some s else None
  | JoinNext k =>
      t ← sv_tasks s !! k;
      if task_over t then Some (mkServices (delete k (sv_tasks s)) (sv_queue s)) else None
  end.

Fixpoint drain (s : Services) (ds : list DrainInput) : option Services :=
  match ds with
  | [] => Some s
  | d :: ds => s ← drain_step s d; drain s ds
  end.

(** A step that took another branch of a select than the one that ends something. *)
Definition passes (s : Services) (d : DrainInput) : bool :=
  match d with
  | Advance k _ i => match sv_tasks s !! k with Some t => winds_pass t i | None => false end
  | ReceiveClosed => true
  | _ => false
  end.

Fixpoint count_passes (s : Services) (ds : list DrainInput) : nat :=
  match ds with
  | [] => 0
  | d :: ds =>
      (if passes s d then 1 else 0) +
      match drain_step s d with Some s => count_passes s ds | None => 0 end
  end.

Definition task_measure (t : T) : nat := S (2 * winds_rank t).
Definition measure (s : Services) : nat :=
  sum_list_with task_measure (sv_tasks s) + length (sv_queue s).

Definition services_ok (s : Services) : Prop :=
  Forall winds_inv (sv_tasks s) /\ length (sv_queue s) <= EVENT_CAPACITY.

Lemma drain_step_ok (s s' : Services) (d : DrainInput) :
  services_ok s -> drain_step s d = Some s' -> services_ok s'.
Proof.
  intros [Hf Hq] Hs. destruct d as [k at_ i| | |k]; simpl in Hs.
  - apply bind_Some in Hs as (t & Hk & ([t' events] & Ht & Hs)%bind_Some).
    destruct (Nat.leb_spec (length (sv_queue s ++ events)) EVENT_CAPACITY); [|discriminate Hs].
    injection Hs as <-. split; [|done]. apply Forall_insert; [done|].
    eapply winds_inv_step; [|exact Ht]. by eapply Forall_lookup_1 in Hk.
  - destruct (sv_queue s) eqn:E; [discriminate Hs|]. injection Hs as <-.
    split; [done|]. simpl in *. lia.
  - destruct (_ && _); [|discriminate Hs]. injection Hs as <-. by split.
  - apply bind_Some in Hs as (t & Hk & Hs). destruct (task_over t); [|discriminate Hs].
    injection Hs as <-. split; [|done]. by apply Forall_delete.
Qed.
Lemma drain_step_measure (s s' : Services) (d : DrainInput) :
  services_ok s -> drain_step s d = Some s' ->
  if passes s d then measure s' <= 2 + measure s else measure s' < measure s.
Proof.
  intros [Hf Hq] Hs. unfold measure. destruct d as [k at_ i| | |k]; simpl in Hs |- *.
  - apply bind_Some in Hs as (t & Hk & ([t' events] & Ht & Hs)%bind_Some).
    destruct (Nat.leb_spec (length (sv_queue s ++ events)) EVENT_CAPACITY); [|discriminate Hs].
    injection Hs as <-. simpl. rewrite Hk, length_app.
    pose proof (sum_with_insert task_measure (sv_tasks s) k t t' Hk) as Hsum.
    apply winds_rank_step in Ht; [|by eapply Forall_lookup_1 in Hk].
    assert (task_measure t = S (2 * winds_rank t) /\ task_measure t' = S (2 * winds_rank t'))
      as [Hm Hm'] by done.
    destruct (winds_pass t i); destruct Ht as [Hr He]; [subst events; simpl|]; lia.
  - destruct (sv_queue s); [discriminate Hs|]. injection Hs as <-. simpl. lia.
  - destruct (_ && _); [|discriminate Hs]. injection Hs as <-. lia.
  - apply bind_Some in Hs as (t & Hk & Hs). destruct (task_over t); [|discriminate Hs].
    injection Hs as <-. simpl. pose proof (sum_with_delete task_measure (sv_tasks s) k t Hk) as Hsum.
    assert (1 <= task_measure t) by (unfold task_measure; lia). lia.
Qed.

Lemma drain_measure (ds : list DrainInput) (s s' : Services) :
  services_ok s -> drain s ds = Some s' ->
  services_ok s' /\ length ds + measure s' <= measure s + 3 * count_passes s ds.
Proof.
  revert s. induction ds as [|d ds IH]; intros s Hok; simpl.
  { intros [= <-]. split; [done|lia]. }
  intros (s1 & H1 & H2)%bind_Some. rewrite H1.
  destruct (IH s1) as [Hok' Hm]; [by eapply drain_step_ok|done|]. split; [done|].
  pose proof (drain_step_measure s s1 d Hok H1) as Hd. destruct (passes s d); lia.
Qed.

Lemma measure_bound (s : Services) :
  services_ok s -> measure s <= 53 * length (sv_tasks s) + EVENT_CAPACITY.
Proof.
  intros [Hf Hq]. unfold measure.
  assert (sum_list_with task_measure (sv_tasks s) <= 53 * length (sv_tasks s)); [|lia].
  induction Hf as [|t l Ht _ IH]; cbn [sum_list_with length]; [lia|].
  apply winds_rank_bound in Ht. assert (task_measure t = S (2 * winds_rank t)) by done. lia.
Qed.

(** What the drain waits for: an event, the end of a task, or what a task waits for. *)
Definition drain_awaits (s : Services) (d : DrainInput) : Prop :=
  match d with
  | Advance k _ i => exists t, sv_tasks s !! k = Some t /\ task_awaits t i
  | Receive | JoinNext _ => True
  | ReceiveClosed => False
  end.

(** The drain waits for nothing but children that were not killed. *)
Definition drain_held (s : Services) : Prop :=
  sv_queue s = [] /\ Forall (fun t => task_held t = true) (sv_tasks s).

(** A task that is neither over nor held moves; its events fit an empty queue. *)
Lemma task_progress (s : Services) (k : nat) (t : T) :
  sv_tasks s !! k = Some t -> sv_queue s = [] -> winds_inv t -> task_held t = false ->
  exists d, drain_awaits s d /\ passes s d = false /\ is_Some (drain_step s d).
Proof.
  intros Hk Hqueue Ht Hheld. destruct (task_over t) eqn:Hover.
  { exists (JoinNext k). simpl. rewrite Hk. simpl. rewrite Hover. by eauto. }
  destruct (winds_progress t Ht Hover Hheld) as (i & Ha & Hp & Hs).
  destruct (Hs 0%Z) as [[t' events] Hstep].
  exists (Advance k 0%Z i). simpl. rewrite Hk, Hqueue. simpl. rewrite Hstep. simpl.
  split; [by eauto|]. split; [done|].
  apply winds_rank_step in Hstep; [|done]. rewrite Hp in Hstep. destruct Hstep as [_ Hlen].
  destruct (Nat.leb_spec (length events) EVENT_CAPACITY) as [|Hgt]; [by eauto|].
  unfold EVENT_CAPACITY in Hgt. lia.
Qed.

Lemma drain_progress (s : Services) :
  services_ok s -> sv_tasks s <> [] ->
  (exists d, drain_awaits s d /\ passes s d = false /\ is_Some (drain_step s d)) \/ drain_held s.
Proof.
  intros [Hf Hq] Hne. destruct (sv_queue s) as [|ev queue] eqn:Hqueue.
  2: { left. exists Receive. simpl. rewrite Hqueue. by eauto. }
  destruct (decide (Forall (fun t => task_held t = true) (sv_tasks s))) as [Hall|Hsome].
  { right. by split. }
  left. apply not_Forall_Exists in Hsome; [|intros t; apply _].
  apply Exists_exists in Hsome as (t & Hin & Hheld%not_true_is_false).
  apply list_elem_of_In, list_elem_of_lookup in Hin as [k Hk].
  apply (task_progress s k t); try done. by eapply Forall_lookup_1 in Hk.
Qed.
End Drain.

(** ** Properties *)

Section Runtime.
Context `{Rfc3339} (env : ClientEnv).
Context (from_str : string -> Result Envelope) (value_error timestamp_error : string).
Context (utf8_error : bytes -> string).
Abbreviation task := (service_task env from_str value_error timestamp_error utf8_error).
Abbreviation winds := (service_winds_down env from_str value_error timestamp_error utf8_error).

(** The states a network task can be in while the pump receives its events. *)
Definition reached (t : Service) : Prop :=
  match t with
  | Direct _ _ => True
  | Tunneled server spec p => pr_open p = true /\ exists inputs events,
      pair_run env server spec from_str value_error timestamp_error utf8_error pair_start inputs
        = Some (p, events)
  end.

Lemma reached_inv (t : Service) : reached t -> service_inv t.
Proof.
  destruct t as [server c|server spec p]; [done|]. intros (Ho & inputs & events & Hr).
  split; [done|].
  destruct (run_ok env server spec from_str value_error timestamp_error utf8_error inputs
    pair_start p RootDown events) as (r & _ & Hok); [intros _; apply pair_start_ok|done|].
  eauto.
Qed.

Lemma run_client_reached (server : ServerConfig) :
  valid_server server -> exists t, run_client server = Some t /\ reached t.
Proof.
  intros Hv. unfold run_client. destruct (cfg_tunnel server) as [tunnel|] eqn:Ht.
  2: { eexists. by split. }
  assert (exists spec, for_server server = Some (Some spec)) as [spec ->].
  { pose proof (valid_server_tunnel _ Hv _ Ht) as Hvt. unfold valid_tunnel in Hvt.
    unfold for_server. rewrite Ht.
    destruct (tun_ssh tunnel), (tun_custom_command tunnel) as [custom|]; try done; [by eexists|].
    destruct Hvt as [(program & args & -> & _) _]. by eexists. }
  eexists. split; [reflexivity|]. split; [done|]. by exists [], [].
Qed.

(** With a validated configuration no task panics at its start, there is one per server,
    and each starts in a state from which it winds down. *)
Lemma network_tasks_reached (debug_str : string -> string) (config : Config) :
  validate debug_str config = Ok tt ->
  exists tasks, network_tasks config = Some tasks /\
    length tasks = length (cfg_servers (ws_client config)) /\ Forall reached tasks.
Proof.
  intros [_ _ Hv]%validate_iff. unfold network_tasks.
  induction Hv as [|server servers Hs _ (tasks & Hm & Hlen & Hr)]; simpl; [by exists []|].
  destruct (run_client_reached server Hs) as (t & -> & Ht). simpl. rewrite Hm. simpl.
  exists (t :: tasks). simpl. rewrite Hlen. auto.
Qed.

(** A held service takes the exit of its child, and nothing else moves it on. *)
Lemma held_service (s : Services (T := Service)) (k : nat) (t : Service) :
  sv_tasks s !! k = Some t -> sv_queue s = [] -> service_inv t ->
  task_held (NetworkTask := task) t = true ->
  exists server spec p g, t = Tunneled server spec p /\ pr_supervisor p = AwaitExit g /\
    forall at_ status, is_Some (drain_step (H := task) s
      (Advance k at_ (ToPair (Outer (ChildExited status))))).
Proof.
  intros Hk Hq Hinv Hheld. destruct t as [server c|server spec p]; [done|].
  simpl in Hheld, Hinv. destruct Hinv as [Ho _].
  destruct p as [[] c signalled open]; try done. simpl in Ho. subst open.
  do 4 eexists. split; [reflexivity|]. split; [reflexivity|]. intros at_ status.
  simpl. rewrite Hk, Hq. simpl. eauto.
Qed.

(** C9: The drain at the end of [run_async]. From any states that the network tasks can
    reach, with any events still queued, and whatever the tasks, the channel and the joins
    do in whatever order: the drain takes at most 53 steps per server and 64 more, plus
    three for each time a select took another branch although the one that ends it was
    ready (how often it does is not bounded); the queue never exceeds its capacity; and
    until every task is joined something that comes by itself can happen, also when the
    queue is full, with one exception: the queue is empty and every task left is a
    supervisor whose child closed its pipes before it was ready. That child is waited for
    without being killed, and the drain goes on only when it exits. *)
Theorem shutdown_drains (tasks : list Service) (queue : list Event)
    (ds : list (DrainInput (I := ServiceInput))) (s : Services (T := Service)) :
  Forall reached tasks -> length queue <= EVENT_CAPACITY ->
  drain (H := task) (mkServices tasks queue) ds = Some s ->
  length ds <= 53 * length tasks + 64 +
    3 * count_passes (H0 := winds) (mkServices tasks queue) ds /\
  length (sv_queue s) <= 64 /\
  (sv_tasks s <> [] ->
    (exists d, drain_awaits (H := task) s d /\ passes (H0 := winds) s d = false /\
       is_Some (drain_step (H := task) s d)) \/
    (sv_queue s = [] /\ forall k t, sv_tasks s !! k = Some t ->
       exists server spec p g, t = Tunneled server spec p /\ pr_supervisor p = AwaitExit g /\
         forall at_ status, is_Some (drain_step (H := task) s
           (Advance k at_ (ToPair (Outer (ChildExited status))))))).
Proof.
  intros Hr Hq Hd.
  assert (services_ok (H0 := winds) (mkServices tasks queue)) as Hok.
  { split; [|done]. eapply Forall_impl; [exact reached_inv|exact Hr]. }
  destruct (drain_measure (H0 := winds) ds _ _ Hok Hd) as [Hok' Hm].
  pose proof (measure_bound (H0 := winds) _ Hok) as Hb.
  change (length (sv_tasks (mkServices tasks queue))) with (length tasks) in Hb.
  change EVENT_CAPACITY with 64 in Hb.
  split; [lia|]. split; [apply Hok'|]. intros Hne.
  destruct (drain_progress (H0 := winds) s Hok' Hne) as [Hp|[Hempty Hheld]]; [by left|right].
  split; [done|]. intros k t Hk. destruct Hok' as [Hinv _].
  apply held_service; [done|done| |].
  - exact (Forall_lookup_1 _ _ _ _ Hinv Hk).
  - exact (Forall_lookup_1 _ _ _ _ Hheld Hk).
Qed.
End Runtime.

(** A client that still reports a lost connection and a tunnel that is running, with a
    full queue. *)
Definition demo_setup : ConnectionSetup :=
  {| scheme := "ws"; connector := None; bearer := None; tls_name := None |}.
Definition demo_lost : Service :=
  Direct demo_server (SendDisconnected demo_setup 0 (Disconnected "prod" 3 "lost")).
Definition demo_running : Service :=
  Tunneled demo_server demo_spec (mkPair (Running (Some 7%N)) (Some Preparing) false true).
Definition demo_full : Services :=
  mkServices [demo_lost; demo_running] (replicate EVENT_CAPACITY (Heartbeat "prod" 1)).

Abbreviation demo_task := (service_task (H := decimal_rfc3339) demo_env (fun _ => Err []) "" ""
  (fun _ => "")).
Abbreviation demo_winds := (service_winds_down (H := decimal_rfc3339) demo_env (fun _ => Err [])
  "" "" (fun _ => "")).

(** Without the drain the first client could not end: nothing but receiving an event lets
    its send complete. *)
Example send_blocks_until_received :
  (forall at_ i, drain_step (H := demo_task) demo_full (Advance 0 at_ i) = None) /\
  exists s, drain (H := demo_task) demo_full
    [Receive; Advance 0 4%Z (ToClient (Delivered true))] = Some s.
Proof.
  split; [|by eexists; vm_compute]. intros at_ i.
  destruct i as [[| | | | | |[]]|i]; reflexivity.
Qed.

Definition demo_drain : list (DrainInput (I := ServiceInput)) :=
  [Receive; Advance 0 4%Z (ToClient (Delivered true)); Advance 0 4%Z (ToClient Changed);
   JoinNext 0;
   Advance 0 4%Z (ToPair (Inner Prepared)); Advance 0 4%Z (ToPair (Outer ShutdownChanged));
   Advance 0 4%Z (ToPair (Inner Changed)); Advance 0 4%Z (ToPair (Outer ClientStopped));
   Advance 0 4%Z (ToPair (Outer (ChildExited (Err ""))));
   Advance 0 4%Z (ToPair (Outer (Drained ReaderTimedOut ReaderTimedOut)));
   JoinNext 0].

Lemma shutdown_drains_witness :
  exists s, drain (H := demo_task) demo_full demo_drain = Some s /\ sv_tasks s = [] /\
    length demo_drain <= 53 * 2 + 64 + 3 * count_passes (H0 := demo_winds) demo_full demo_drain /\
    length (sv_queue s) <= 64.
Proof.
  destruct (drain (H := demo_task) demo_full demo_drain) as [s|] eqn:Hd;
    [|vm_compute in Hd; discriminate Hd].
  assert (Forall (reached (H := decimal_rfc3339) demo_env (fun _ => Err []) "" "" (fun _ => ""))
    [demo_lost; demo_running]) as Hr.
  { constructor; [exact I|]. constructor; [|constructor]. split; [reflexivity|].
    exists [(false, 0%Z, Outer (Top false (Ok (Some 7%N)))); (false, 0%Z, Outer Marker);
            (false, 0%Z, Outer (Sent true))]. eexists. reflexivity. }
  assert (length (replicate EVENT_CAPACITY (Heartbeat "prod" 1)) <= EVENT_CAPACITY) as Hq
    by (vm_compute; lia).
  destruct (shutdown_drains (H := decimal_rfc3339) demo_env (fun _ => Err []) "" "" (fun _ => "")
    _ _ _ _ Hr Hq Hd) as (H1 & H2 & _).
  exists s. split; [reflexivity|]. split; [by vm_compute in Hd; injection Hd as <-|].
  split; [exact H1|exact H2].
Defined.
