(* ===== verification/Desktop.v ===== *)
(** * Desktop entries and quoting

    The textual part of [src/cmd/montray-ui/src/setup.rs]: the desktop entries that
    setup writes, the escaping of their command line, the recognition of entries
    written by earlier versions and by Salmon Watch, and the quoting of commands
    shown to the user. *)

From Stdlib Require Import ZArith Lia Ascii.
From stdpp Require Import base strings list option.
From S2P Require Import Prelude RustStr Output RustPath.

Definition dquote : string := of_byte 34.
Definition squote : string := of_byte 39.
Definition backslash : ascii := "\".
Definition backtick : ascii := "`".

(** ** Desktop entries *)

Definition DESKTOP_EXEC_PLACEHOLDER : string := "{{EXEC}}".
Definition DESKTOP_ENTRY_VERSION_KEY : string := "X-Montray-Desktop-Entry-Version".

(** The embedded template, line by line. *)
Definition template_head : list string :=
  ["[Desktop Entry]"; "Type=Application"; "Name=Montray";
   "Comment=Show Montray status in the desktop tray"; "Categories=System;Monitor;";
   "Icon=montray-ui"; "X-Montray-Desktop-Entry-Version=2"].
Definition text_of_lines (l : list string) : string :=
  foldr (fun line rest => line +:+ newline +:+ rest) "" l.
Definition DESKTOP_ENTRY_TEMPLATE : string :=
  text_of_lines (template_head ++ ["Exec={{EXEC}}"; "Terminal=false"]).

(** The characters with an escape are ASCII, so that working byte by byte is
    working character by character. *)
Definition exec_char (c : ascii) : string :=
  if Ascii.eqb c backslash then String backslash (String backslash (String backslash (String backslash "")))
  else if Ascii.eqb c (ascii_of_N 34) || Ascii.eqb c backtick then String backslash (String c "")
  else if Ascii.eqb c "$" then String backslash (String backslash "$")
  else if Ascii.eqb c "%" then "%%"
  else String c "".

Fixpoint exec_chars (s : string) : string :=
  match s with
  | EmptyString => ""
  | String c s => exec_char c +:+ exec_chars s
  end.

Definition desktop_exec_argument (argument : string) : string :=
  dquote +:+ exec_chars argument +:+ dquote.

Definition render_desktop_entry_template (template command : string) : Result string :=
  match split DESKTOP_EXEC_PLACEHOLDER template with
  | [] | [_] => bail "desktop entry template is missing {{EXEC}}"
  | [before; after] => Ok (before +:+ command +:+ after)
  | _ => bail "desktop entry template contains {EXEC} more than once"
  end.

Definition desktop_command (executable config_filename : string) (start_hidden : bool) : string :=
  desktop_exec_argument executable +:+ " --config " +:+ desktop_exec_argument config_filename +:+
  (if start_hidden then " --start-hidden" else "").

Definition desktop_entry (executable config_filename : string) (start_hidden : bool)
    : Result string :=
  executable ← opt_context "executable path must be valid UTF-8 for a desktop entry"
                 (to_str executable);
  config_filename ← opt_context "config path must be valid UTF-8 for a desktop entry"
                      (to_str config_filename);
  render_desktop_entry_template DESKTOP_ENTRY_TEMPLATE
    (desktop_command executable config_filename start_hidden).

(** ** Recognition *)

Definition has_desktop_entry_version (contents : string) : bool :=
  existsb (fun line =>
    match split_once "=" line with
    | Some (key, _) => bool_decide (trim key = DESKTOP_ENTRY_VERSION_KEY)
    | None => false
    end) (lines contents).

Record Signature := {
  in_desktop_entry : bool;
  sig_application : bool;
  sig_name : bool;
  sig_comment : bool;
  sig_icon : bool;
  sig_exec : bool;
}.
Definition no_signature : Signature :=
  {| in_desktop_entry := false; sig_application := false; sig_name := false;
     sig_comment := false; sig_icon := false; sig_exec := false |}.

Definition enter_section (b : bool) (s : Signature) : Signature :=
  {| in_desktop_entry := b; sig_application := sig_application s; sig_name := sig_name s;
     sig_comment := sig_comment s; sig_icon := sig_icon s; sig_exec := sig_exec s |}.

(** Whether an [Exec] value runs a program named [montray-ui]. *)
Definition runs_montray (value : string) : bool :=
  match split_once " --config " value with
  | Some (executable, _) =>
      bool_decide (rsplit_next "/" (trim_chars (fun ch => bool_decide (ch = dquote)) executable)
                   = "montray-ui")
  | None => false
  end.

Definition record_key (key value : string) (s : Signature) : Signature :=
  let '{| in_desktop_entry := d; sig_application := a; sig_name := n; sig_comment := c;
          sig_icon := i; sig_exec := e |} := s in
  if bool_decide (key = "Type") then
    {| in_desktop_entry := d; sig_application := bool_decide (value = "Application");
       sig_name := n; sig_comment := c; sig_icon := i; sig_exec := e |}
  else if bool_decide (key = "Name") then
    {| in_desktop_entry := d; sig_application := a; sig_name := bool_decide (value = "Montray");
       sig_comment := c; sig_icon := i; sig_exec := e |}
  else if bool_decide (key = "Comment") then
    {| in_desktop_entry := d; sig_application := a; sig_name := n;
       sig_comment := bool_decide (value = "Show Montray status in the desktop tray");
       sig_icon := i; sig_exec := e |}
  else if bool_decide (key = "Icon") then
    {| in_desktop_entry := d; sig_application := a; sig_name := n; sig_comment := c;
       sig_icon := bool_decide (value = "montray-ui"); sig_exec := e |}
  else if bool_decide (key = "Exec") then
    {| in_desktop_entry := d; sig_application := a; sig_name := n; sig_comment := c;
       sig_icon := i; sig_exec := runs_montray value |}
  else s.

(** The loop over the trimmed lines; a version marker ends it. *)
Fixpoint scan_signature (s : Signature) (ls : list string) : option Signature :=
  match ls with
  | [] => Some s
  | line :: rest =>
      if starts_with "[" line && ends_with "]" line
      then scan_signature (enter_section (bool_decide (line = "[Desktop Entry]")) s) rest
      else if negb (in_desktop_entry s) || is_empty line || starts_with "#" line
      then scan_signature s rest
      else
        match split_once "=" line with
        | None => scan_signature s rest
        | Some (key, value) =>
            if bool_decide (trim key = DESKTOP_ENTRY_VERSION_KEY) then None
            else scan_signature (record_key (trim key) (trim value) s) rest
        end
  end.

Definition is_legacy_desktop_entry (contents : string) : bool :=
  match scan_signature no_signature (trim <$> lines contents) with
  | None => false
  | Some s => sig_application s && sig_name s && sig_comment s && sig_icon s && sig_exec s
  end.

(** The part of [generated_salmon_executable] after the entry was read. *)
Definition salmon_executable (contents : string) : option string :=
  if negb (contains "X-Salmon-Watch-Desktop-Entry-Version=2" contents) then None
  else
    value ← head (omap (strip_prefix "Exec=") (lines contents));
    let executable :=
      match strip_prefix dquote value with
      | Some quoted => default "" (head (split dquote quoted))
      | None => default "" (first_word value)
      end in
    let path := replace "%%" "%" executable in
    if bool_decide (file_name path = Some "salmon-watch") ||
       bool_decide (file_name path = Some "salmon-watch-legacy")
    then Some path else None.

(** ** Commands shown to the user *)

Definition plain_shell_byte (c : ascii) : bool :=
  is_ascii_alphanumeric c ||
  existsb (Ascii.eqb c) (as_bytes "_@%+=:,./-").

Definition shell_argument (argument : string) : string :=
  if negb (is_empty argument) && all_bytes plain_shell_byte argument then argument
  else squote +:+
       replace squote (squote +:+ dquote +:+ squote +:+ dquote +:+ squote) argument +:+ squote.

Definition start_command (default_path : Result string) (executable config_filename : string)
    : Result string :=
  executable ← shell_argument <$>
    opt_context "executable path must be valid UTF-8 for a shell command" (to_str executable);
  config_text ← opt_context "config path must be valid UTF-8 for a shell command"
                  (to_str config_filename);
  if match default_path with Ok path => path_eq path config_filename | Err _ => false end
  then Ok executable
  else Ok (executable +:+ " --config " +:+ shell_argument config_text).

(** ** Reference readers

    What a desktop environment and a shell make of the text: the escapes of a string
    value of a desktop entry (an unknown escape is kept as it is), the field codes of
    a command line, and the words of a command line with single and double quotes.
    An expansion, a redirection or any other special meaning is refused. *)

Fixpoint unescape_value (s : string) : string :=
  match s with
  | EmptyString => ""
  | String c s1 =>
      if Ascii.eqb c backslash then
        match s1 with
        | EmptyString => String c ""
        | String d s2 =>
            if Ascii.eqb d backslash then String backslash (unescape_value s2)
            else if Ascii.eqb d "s" then String " " (unescape_value s2)
            else if Ascii.eqb d "n" then String (ascii_of_N 10) (unescape_value s2)
            else if Ascii.eqb d "t" then String (ascii_of_N 9) (unescape_value s2)
            else if Ascii.eqb d "r" then String (ascii_of_N 13) (unescape_value s2)
            else String backslash (String d (unescape_value s2))
        end
      else String c (unescape_value s1)
  end.

Fixpoint expand_field_codes (s : string) : option string :=
  match s with
  | EmptyString => Some ""
  | String c s1 =>
      if Ascii.eqb c "%" then
        match s1 with
        | String d s2 => if Ascii.eqb d "%" then String "%" <$> expand_field_codes s2 else None
        | EmptyString => None
        end
      else String c <$> expand_field_codes s1
  end.

Inductive Quote := Bare | Single | Double.

Definition shell_meta (c : ascii) : bool :=
  existsb (Ascii.eqb c) (as_bytes "|&;<>()$`\*?[]#~{}!" ++ (ascii_of_N <$> [9; 10; 13]%N)).

Definition add_byte (word : option string) (c : ascii) : option string :=
  Some (default "" word +:+ String c "").

(** [word] is the word being read; quotes start one even if it stays empty. *)
Fixpoint shell_words (q : Quote) (word : option string) (s : string) : option (list string) :=
  match s with
  | EmptyString => match q with Bare => Some (option_list word) | _ => None end
  | String c s1 =>
      match q with
      | Single =>
          if Ascii.eqb c (ascii_of_N 39) then shell_words Bare word s1
          else shell_words Single (add_byte word c) s1
      | Double =>
          if Ascii.eqb c (ascii_of_N 34) then shell_words Bare word s1
          else if Ascii.eqb c backslash then
            match s1 with
            | EmptyString => None
            | String d s2 =>
                if existsb (Ascii.eqb d) [backslash; ascii_of_N 34; backtick; "$"%char]
                then shell_words Double (add_byte word d) s2
                else shell_words Double (add_byte (add_byte word c) d) s2
            end
          else if Ascii.eqb c backtick || Ascii.eqb c "$" then None
          else shell_words Double (add_byte word c) s1
      | Bare =>
          if Ascii.eqb c " " then
            match word with
            | None => shell_words Bare None s1
            | Some w => cons w <$> shell_words Bare None s1
            end
          else if Ascii.eqb c (ascii_of_N 39) then shell_words Single (Some (default "" word)) s1
          else if Ascii.eqb c (ascii_of_N 34) then shell_words Double (Some (default "" word)) s1
          else if shell_meta c then None
          else shell_words Bare (add_byte word c) s1
      end
  end.

(** The arguments a desktop environment runs for an [Exec] value. *)
Definition exec_argv (value : string) : option (list string) :=
  s ← expand_field_codes (unescape_value value); shell_words Bare None s.

(** The first [Exec] line of an entry. *)
Definition exec_value (contents : string) : option string :=
  head (omap (strip_prefix "Exec=") (lines contents)).

(** ** Replacing one byte *)

Fixpoint subst_byte (c : ascii) (to s : string) : string :=
  match s with
  | EmptyString => ""
  | String d s => (if Ascii.eqb c d then to else String d "") +:+ subst_byte c to s
  end.

Lemma split_go_nonempty (pat : string) (skip : nat) (s : string) : split_go pat skip s <> [].
Proof.
  revert skip. induction s as [|d s IH]; intros [|k]; simpl; try done.
  destruct (starts_with _ _); [done|]. by destruct (split_go pat 0 s).
Qed.

Lemma join_cons (sep p : string) (l : list string) :
  l <> [] -> join sep (p :: l) = p +:+ sep +:+ join sep l.
Proof. by destruct l. Qed.

Lemma replace_byte (c : ascii) (to s : string) :
  replace (String c "") to s = subst_byte c to s.
Proof.
  unfold replace, split. induction s as [|d s IH]; [done|].
  cbn [split_go subst_byte]. unfold starts_with. cbn [strip_prefix].
  pose proof (split_go_nonempty (String c "") 0 s) as Hne. simpl (String.length _ - 1).
  destruct (Ascii.eqb_spec c d) as [->|Hcd].
  - rewrite join_cons by done. by rewrite IH.
  - destruct (split_go (String c "") 0 s) as [|p ps]; [done|]. rewrite <-IH.
    by destruct ps.
Qed.

(** ** Shell quoting *)

Lemma plain_not_special (c : ascii) :
  plain_shell_byte c = true ->
  Ascii.eqb c " " = false /\ Ascii.eqb c (ascii_of_N 39) = false /\
  Ascii.eqb c (ascii_of_N 34) = false /\ shell_meta c = false.
Proof. destruct c as [[] [] [] [] [] [] [] []]; vm_compute; tauto || done. Qed.

Lemma add_byte_Some (w : string) (c : ascii) : add_byte (Some w) c = Some (w +:+ String c "").
Proof. done. Qed.

Lemma shell_words_plain (word a rest : string) :
  all_bytes plain_shell_byte a = true ->
  shell_words Bare (Some word) (a +:+ rest) = shell_words Bare (Some (word +:+ a)) rest.
Proof.
  revert word. induction a as [|c a IH]; intros word Ha; [by autorewrite with montray_str|].
  simpl in Ha. apply andb_prop in Ha as [Hc Ha].
  destruct (plain_not_special c Hc) as (H1 & H2 & H3 & H4).
  cbn [String.append shell_words]. rewrite H1, H2, H3, H4, add_byte_Some, IH by done.
  by rewrite append_assoc.
Qed.

Lemma shell_words_single (word a rest : string) :
  shell_words Single (Some word)
    (subst_byte (ascii_of_N 39) (squote +:+ dquote +:+ squote +:+ dquote +:+ squote) a +:+ rest)
  = shell_words Single (Some (word +:+ a)) rest.
Proof.
  revert word. induction a as [|c a IH]; intros word; [by autorewrite with montray_str|].
  cbn [subst_byte]. rewrite append_assoc.
  destruct (Ascii.eqb_spec (ascii_of_N 39) c) as [<-|Hc].
  - change (shell_words Single (Some word) ((squote +:+ dquote +:+ squote +:+ dquote +:+ squote) +:+ ?r))
      with (shell_words Single (Some (word +:+ squote)) r).
    rewrite IH. by rewrite append_assoc.
  - cbn [String.append shell_words].
    destruct (Ascii.eqb_spec c (ascii_of_N 39)) as [->|_]; [done|].
    rewrite add_byte_Some, IH. by rewrite append_assoc.
Qed.

(** A quoted argument at the start of a word is the whole argument. *)
Lemma shell_words_argument (a rest : string) :
  shell_words Bare None (shell_argument a +:+ rest) = shell_words Bare (Some a) rest.
Proof.
  unfold shell_argument. destruct (negb (is_empty a) && all_bytes plain_shell_byte a) eqn:Hp.
  - apply andb_prop in Hp as [Hne Hp]. destruct a as [|c a]; [done|].
    simpl in Hp. apply andb_prop in Hp as [Hc Ha].
    destruct (plain_not_special c Hc) as (H1 & H2 & H3 & H4).
    cbn [String.append shell_words]. rewrite H1, H2, H3, H4.
    by apply (shell_words_plain (String c "") a).
  - rewrite append_assoc.
    change (shell_words Bare None (squote +:+ ?r)) with (shell_words Single (Some "") r).
    unfold squote at 1. change (of_byte 39) with (String (ascii_of_N 39) "").
    rewrite replace_byte, append_assoc, shell_words_single. done.
Qed.

Lemma shell_words_whole (a : string) : shell_words Bare None (shell_argument a) = Some [a].
Proof.
  pose proof (shell_words_argument a "") as H. rewrite append_nil_r in H. by rewrite H.
Qed.

(** ** Exec quoting *)

(** An escaped argument after the value's escapes were undone, and after the field
    codes were expanded. *)
Definition quoted_char (percent : string) (c : ascii) : string :=
  if Ascii.eqb c backslash || Ascii.eqb c (ascii_of_N 34) || Ascii.eqb c backtick ||
     Ascii.eqb c "$"
  then String backslash (String c "")
  else if Ascii.eqb c "%" then percent else String c "".
Fixpoint quoted_chars (percent s : string) : string :=
  match s with
  | EmptyString => ""
  | String c s => quoted_char percent c +:+ quoted_chars percent s
  end.

Ltac each_byte c := destruct c as [[] [] [] [] [] [] [] []]; try reflexivity.

Lemma unescape_exec_char (c : ascii) (rest : string) :
  unescape_value (exec_char c +:+ rest) = quoted_char "%%" c +:+ unescape_value rest.
Proof. each_byte c. Qed.

Lemma unescape_exec (a rest : string) :
  unescape_value (exec_chars a +:+ rest) = quoted_chars "%%" a +:+ unescape_value rest.
Proof.
  induction a as [|c a IH]; [done|]. cbn [exec_chars quoted_chars].
  by rewrite !append_assoc, unescape_exec_char, IH.
Qed.

Lemma expand_literal (l rest : string) :
  all_bytes (fun c => negb (Ascii.eqb c "%")) l = true ->
  expand_field_codes (l +:+ rest) = (fun s => l +:+ s) <$> expand_field_codes rest.
Proof.
  induction l as [|c l IH]; [intros _; simpl; by destruct (expand_field_codes rest)|].
  cbn [all_bytes String.append expand_field_codes]. intros [Hc Hl]%andb_prop.
  apply negb_true_iff in Hc. rewrite Hc, IH by done. by destruct (expand_field_codes rest).
Qed.

Lemma expand_quoted_char (c : ascii) (rest : string) :
  expand_field_codes (quoted_char "%%" c +:+ rest) =
  (fun s => quoted_char "%" c +:+ s) <$> expand_field_codes rest.
Proof.
  unfold quoted_char. destruct (_ || Ascii.eqb c "$") eqn:H1.
  - cbn [String.append expand_field_codes].
    destruct (Ascii.eqb_spec c "%") as [->|]; [done|].
    change (Ascii.eqb backslash "%") with false. cbn iota. by destruct (expand_field_codes rest).
  - destruct (Ascii.eqb c "%") eqn:H2.
    + change (expand_field_codes ("%%" +:+ rest)) with (String "%" <$> expand_field_codes rest).
      by destruct (expand_field_codes rest).
    + cbn [String.append expand_field_codes]. rewrite H2. by destruct (expand_field_codes rest).
Qed.

Lemma expand_quoted (a rest : string) :
  expand_field_codes (quoted_chars "%%" a +:+ rest) =
  (fun s => quoted_chars "%" a +:+ s) <$> expand_field_codes rest.
Proof.
  induction a as [|c a IH]; cbn [quoted_chars]; [simpl; by destruct (expand_field_codes rest)|].
  rewrite append_assoc, expand_quoted_char, IH. destruct (expand_field_codes rest); [|done].
  simpl. by rewrite append_assoc.
Qed.

Lemma shell_words_quoted_char (word : string) (c : ascii) (rest : string) :
  shell_words Double (Some word) (quoted_char "%" c +:+ rest) =
  shell_words Double (Some (word +:+ String c "")) rest.
Proof. each_byte c. Qed.

Lemma shell_words_quoted (word a rest : string) :
  shell_words Double (Some word) (quoted_chars "%" a +:+ rest) =
  shell_words Double (Some (word +:+ a)) rest.
Proof.
  revert word. induction a as [|c a IH]; intros word; cbn [quoted_chars];
    [by autorewrite with montray_str|].
  rewrite append_assoc, shell_words_quoted_char, IH. by rewrite append_assoc.
Qed.

(** What is left of a quoted argument before it is split into words. *)
Definition quoted_argument (percent a : string) : string :=
  dquote +:+ quoted_chars percent a +:+ dquote.

Lemma unescape_argument (a rest : string) :
  unescape_value (desktop_exec_argument a +:+ rest) =
  quoted_argument "%%" a +:+ unescape_value rest.
Proof.
  unfold desktop_exec_argument, quoted_argument. rewrite !append_assoc.
  change (unescape_value (dquote +:+ ?r)) with (dquote +:+ unescape_value r).
  by rewrite unescape_exec.
Qed.

Lemma expand_argument (a rest s : string) :
  expand_field_codes rest = Some s ->
  expand_field_codes (quoted_argument "%%" a +:+ rest) = Some (quoted_argument "%" a +:+ s).
Proof.
  intros Hs. unfold quoted_argument. rewrite !append_assoc.
  change (expand_field_codes (dquote +:+ ?r)) with (String (ascii_of_N 34) <$> expand_field_codes r).
  rewrite expand_quoted.
  change (expand_field_codes (dquote +:+ ?r)) with (String (ascii_of_N 34) <$> expand_field_codes r).
  by rewrite Hs.
Qed.

Lemma shell_words_quoted_argument (a rest : string) :
  shell_words Bare None (quoted_argument "%" a +:+ rest) = shell_words Bare (Some a) rest.
Proof.
  unfold quoted_argument. rewrite !append_assoc.
  change (shell_words Bare None (dquote +:+ ?r)) with (shell_words Double (Some "") r).
  by rewrite shell_words_quoted.
Qed.

Lemma exec_argv_command (executable config_filename : string) (hidden : bool) :
  exec_argv (desktop_command executable config_filename hidden) =
  Some ([executable; "--config"; config_filename] ++ (if hidden then ["--start-hidden"] else [])).
Proof.
  unfold exec_argv, desktop_command. rewrite unescape_argument.
  change (unescape_value (" --config " +:+ ?r)) with (" --config " +:+ unescape_value r).
  rewrite unescape_argument.
  assert (exists tail, unescape_value (if hidden then " --start-hidden" else "") = tail /\
    expand_field_codes tail = Some tail /\
    shell_words Bare (Some config_filename) tail =
      Some (config_filename :: (if hidden then ["--start-hidden"] else []))) as (tail & -> & H1 & H2)
    by (destruct hidden; eexists; repeat split).
  rewrite (expand_argument executable _ (" --config " +:+ quoted_argument "%" config_filename +:+ tail)).
  2:{ by rewrite expand_literal, (expand_argument config_filename tail tail H1). }
  cbn [mbind option_bind]. rewrite shell_words_quoted_argument.
  change (shell_words Bare (Some executable) (" --config " +:+ ?r))
    with (cons executable <$> (cons "--config" <$> shell_words Bare None r)).
  by rewrite shell_words_quoted_argument, H2.
Qed.

(** ** Lines of a text *)

Definition no_newline (s : string) : bool :=
  all_bytes (fun c => negb (Ascii.eqb c (ascii_of_N 10))) s.
Definition strip_cr (line : string) : string :=
  match strip_suffix carriage_return line with Some q => q | None => line end.

Lemma split_newline (line rest : string) :
  no_newline line = true -> split newline (line +:+ newline +:+ rest) = line :: split newline rest.
Proof.
  unfold split. induction line as [|c line IH]; [done|].
  unfold no_newline. cbn [all_bytes String.append split_go]. intros [Hc Hl]%andb_prop.
  unfold starts_with. cbn [newline of_byte strip_prefix].
  apply negb_true_iff in Hc. rewrite Ascii.eqb_sym, Hc. cbn iota. by rewrite IH.
Qed.

Lemma lines_cons (line rest : string) :
  no_newline line = true -> lines (line +:+ newline +:+ rest) = strip_cr line :: lines rest.
Proof.
  intros Hl. unfold lines. rewrite split_newline by done.
  pose proof (split_go_nonempty newline 0 rest) as Hne. unfold split in *. simpl.
  by destruct (split_go newline 0 rest).
Qed.

Lemma lines_text (l : list string) (rest : string) :
  Forall (fun line => no_newline line = true) l ->
  lines (text_of_lines l +:+ rest) = (strip_cr <$> l) ++ lines rest.
Proof.
  induction 1 as [|line l Hl _ IH]; [done|].
  change (text_of_lines (line :: l)) with (line +:+ newline +:+ text_of_lines l).
  rewrite !append_assoc, lines_cons by done. csimpl. by f_equal.
Qed.

Lemma render_template (command : string) :
  render_desktop_entry_template DESKTOP_ENTRY_TEMPLATE command =
  Ok (text_of_lines template_head +:+ ("Exec=" +:+ command) +:+ newline +:+
      "Terminal=false" +:+ newline).
Proof. reflexivity. Qed.

Lemma template_lines (rest : string) :
  lines (text_of_lines template_head +:+ rest) = template_head ++ lines rest.
Proof. rewrite lines_text by (repeat constructor). reflexivity. Qed.

Lemma no_newline_append (a b : string) :
  no_newline (a +:+ b) = (no_newline a && no_newline b)%bool.
Proof. apply all_bytes_append. Qed.

Lemma no_newline_exec (a : string) : no_newline a = true -> no_newline (exec_chars a) = true.
Proof.
  induction a as [|c a IH]; [done|]. unfold no_newline at 1. cbn [all_bytes exec_chars].
  intros [Hc Ha]%andb_prop. rewrite no_newline_append, IH by done. rewrite andb_true_r.
  revert Hc. each_byte c; done.
Qed.

Lemma no_newline_command (executable config_filename : string) (hidden : bool) :
  no_newline executable = true -> no_newline config_filename = true ->
  no_newline (desktop_command executable config_filename hidden) = true.
Proof.
  intros H1%no_newline_exec H2%no_newline_exec. unfold desktop_command, desktop_exec_argument.
  rewrite !no_newline_append, H1, H2. by destruct hidden.
Qed.

(** A command line ends in a quote or a letter, so that no carriage return is cut. *)
Lemma rev_app_append (a b acc : string) :
  String.rev_app (a +:+ b) acc = String.rev_app b (String.rev_app a acc).
Proof. revert acc. induction a; simpl; auto. Qed.

Lemma strip_cr_last (s : string) (c : ascii) :
  Ascii.eqb (ascii_of_N 13) c = false -> strip_cr (s +:+ String c "") = s +:+ String c "".
Proof.
  intros Hc. unfold strip_cr, strip_suffix, String.rev. rewrite rev_app_append.
  cbn [String.rev_app carriage_return of_byte strip_prefix]. by rewrite Hc.
Qed.

Lemma command_last (executable config_filename : string) (hidden : bool) :
  exists s c, "Exec=" +:+ desktop_command executable config_filename hidden = s +:+ String c "" /\
    Ascii.eqb (ascii_of_N 13) c = false.
Proof.
  unfold desktop_command, desktop_exec_argument. destruct hidden.
  - eexists ("Exec=" +:+ (dquote +:+ exec_chars executable +:+ dquote) +:+ " --config " +:+
      (dquote +:+ exec_chars config_filename +:+ dquote) +:+ " --start-hidde"), "n"%char.
    split; [|done]. by rewrite !append_assoc.
  - eexists ("Exec=" +:+ (dquote +:+ exec_chars executable +:+ dquote) +:+ " --config " +:+
      dquote +:+ exec_chars config_filename), (ascii_of_N 34).
    split; [|done]. by rewrite !append_assoc.
Qed.

(** ** Legacy entries

    The keys and values of the [[Desktop Entry]] section, in order. *)

Fixpoint section_pairs (inside : bool) (ls : list string) : list (string * string) :=
  match ls with
  | [] => []
  | line :: rest =>
      if starts_with "[" line && ends_with "]" line
      then section_pairs (bool_decide (line = "[Desktop Entry]")) rest
      else if negb inside || is_empty line || starts_with "#" line then section_pairs inside rest
      else
        match split_once "=" line with
        | None => section_pairs inside rest
        | Some (key, value) => (trim key, trim value) :: section_pairs inside rest
        end
  end.
Definition entry_pairs (contents : string) : list (string * string) :=
  section_pairs false (trim <$> lines contents).

(** The value that counts when a key is given several times. *)
Definition last_value (key : string) (pairs : list (string * string)) : option string :=
  snd <$> list.last (filter (fun pair => pair.1 = key) pairs).

Definition record_pairs (s : Signature) (pairs : list (string * string)) : Signature :=
  foldl (fun s '(key, value) => record_key key value s) s pairs.

Lemma record_key_inside key value s :
  in_desktop_entry (record_key key value s) = in_desktop_entry s.
Proof. destruct s. unfold record_key. repeat case_bool_decide; done. Qed.

Lemma record_key_section b key value s :
  record_key key value (enter_section b s) = enter_section b (record_key key value s).
Proof. destruct s. unfold record_key, enter_section. repeat case_bool_decide; done. Qed.

Lemma record_pairs_section b b' pairs s :
  enter_section b (record_pairs (enter_section b' s) pairs) = enter_section b (record_pairs s pairs).
Proof.
  revert s. induction pairs as [|[k v] pairs IH]; intros s; [done|].
  unfold record_pairs in *. cbn [foldl]. by rewrite record_key_section.
Qed.

Lemma scan_signature_pairs s ls :
  match scan_signature s ls with
  | None => exists v, (DESKTOP_ENTRY_VERSION_KEY, v) ∈ section_pairs (in_desktop_entry s) ls
  | Some s' =>
      (forall v, (DESKTOP_ENTRY_VERSION_KEY, v) ∉ section_pairs (in_desktop_entry s) ls) /\
      exists b, s' = enter_section b (record_pairs s (section_pairs (in_desktop_entry s) ls))
  end.
Proof.
  revert s. induction ls as [|line ls IH]; intros s; cbn [scan_signature section_pairs].
  { split; [intros v; apply not_elem_of_nil|]. exists (in_desktop_entry s). by destruct s. }
  destruct (starts_with "[" line && ends_with "]" line).
  { specialize (IH (enter_section (bool_decide (line = "[Desktop Entry]")) s)). simpl in IH.
    destruct (scan_signature _ _); [|done]. destruct IH as [H1 [b ->]]. split; [done|].
    exists b. apply record_pairs_section. }
  destruct (negb (in_desktop_entry s) || is_empty line || starts_with "#" line); [apply IH|].
  destruct (split_once "=" line) as [[key value]|]; [|apply IH].
  case_bool_decide as Hk.
  { exists (trim value). rewrite Hk. left. }
  specialize (IH (record_key (trim key) (trim value) s)). rewrite record_key_inside in IH.
  destruct (scan_signature _ _).
  - destruct IH as [H1 [b ->]]. split; [|by exists b].
    intros v [Heq|Hin]%elem_of_cons; [|by eapply H1]. injection Heq. congruence.
  - destruct IH as [v Hv]. exists v. by right.
Qed.

Lemma last_value_cons key k v pairs :
  last_value key ((k, v) :: pairs) =
  match last_value key pairs with
  | Some x => Some x
  | None => if bool_decide (k = key) then Some v else None
  end.
Proof.
  unfold last_value. rewrite filter_cons. simpl. case_decide as Hk.
  - rewrite bool_decide_eq_true_2 by done. rewrite last_cons.
    by destruct (list.last (filter _ pairs)).
  - rewrite bool_decide_eq_false_2 by done. by destruct (list.last (filter _ pairs)).
Qed.

(** A field after recording: the test of the last value, or what it was. *)
Lemma record_pairs_field (field : Signature -> bool) key (test : string -> bool) pairs s :
  (forall k v s, field (record_key k v s) = if bool_decide (k = key) then test v else field s) ->
  field (record_pairs s pairs) =
  match last_value key pairs with Some v => test v | None => field s end.
Proof.
  intros Hf. revert s. induction pairs as [|[k v] pairs IH]; intros s; [done|].
  unfold record_pairs in *. cbn [foldl]. rewrite IH, last_value_cons, Hf.
  destruct (last_value key pairs); [done|]. by case_bool_decide.
Qed.

Ltac record_field := intros ? ? []; unfold record_key; repeat case_bool_decide; subst; done.

Lemma last_value_test (o : option string) (value : string) :
  match o with Some v => bool_decide (v = value) | None => false end = true <-> o = Some value.
Proof. destruct o; [rewrite bool_decide_eq_true|]; naive_solver. Qed.

Lemma to_str_Some (p q : string) : to_str p = Some q -> q = p.
Proof. unfold to_str. case_bool_decide; congruence. Qed.

Lemma entry_has_version (executable config_filename text : string) (hidden : bool) :
  desktop_entry executable config_filename hidden = Ok text -> has_desktop_entry_version text = true.
Proof.
  unfold desktop_entry.
  destruct (to_str executable) as [e|], (to_str config_filename) as [c|]; try done.
  cbn [opt_context mbind result_bind]. rewrite render_template. intros Ht.
  assert (forall a b : string, Ok (E := anyhow) a = Ok b -> a = b) as Hok by congruence.
  apply Hok in Ht as <-. unfold has_desktop_entry_version. rewrite template_lines, existsb_app.
  apply orb_true_iff. left. vm_compute. reflexivity.
Qed.

(** ** Properties *)

(** C40: An entry that setup writes says what was meant. It exists for all paths that
    are UTF-8; it carries the version marker and is not taken for a legacy one; and
    for paths without line breaks a desktop environment that reads it runs the
    executable with exactly the configuration path, and the flag for login, however
    many special characters the paths hold. *)
Theorem desktop_entry_spec (executable config_filename : string) (hidden : bool) :
  match desktop_entry executable config_filename hidden with
  | Ok text =>
      has_desktop_entry_version text = true /\ is_legacy_desktop_entry text = false /\
      (no_newline executable = true -> no_newline config_filename = true ->
       exec_value text ≫= exec_argv =
         Some ([executable; "--config"; config_filename] ++
               if hidden then ["--start-hidden"] else []))
  | Err _ => to_str executable = None \/ to_str config_filename = None
  end.
Proof.
  pose proof (entry_has_version executable config_filename) as Hversion. revert Hversion.
  unfold desktop_entry.
  destruct (to_str executable) as [e|] eqn:He; [|by left]. apply to_str_Some in He as ->.
  destruct (to_str config_filename) as [c|] eqn:Hc; [|by right]. apply to_str_Some in Hc as ->.
  cbn [opt_context mbind result_bind]. rewrite render_template. intros Hversion.
  split; [by eapply Hversion|split].
  - unfold is_legacy_desktop_entry. rewrite template_lines, fmap_app. reflexivity.
  - intros H1 H2. unfold exec_value. rewrite template_lines, omap_app.
    pose proof (no_newline_command _ _ hidden H1 H2) as Hn.
    rewrite lines_cons by (by rewrite no_newline_append, Hn).
    destruct (command_last executable config_filename hidden) as (s & ch & Heq & Hch).
    rewrite Heq, strip_cr_last, <-Heq by done.
    change (omap (strip_prefix "Exec=") template_head) with (@nil string).
    cbn [app omap list_omap]. rewrite strip_prefix_app. cbn [head mbind option_bind].
    apply exec_argv_command.
Qed.

(** The command shown after setup can be pasted into a shell. Whatever the paths
    hold, the shell reads the executable, and unless the configuration is the default
    one also the option and the configuration path, each as one word. *)
Theorem start_command_spec (default_path : Result string) (executable config_filename : string) :
  match start_command default_path executable config_filename with
  | Ok command =>
      shell_words Bare None command =
        Some (executable ::
              if match default_path with
                 | Ok path => path_eq path config_filename | Err _ => false end
              then [] else ["--config"; config_filename])
  | Err _ => to_str executable = None \/ to_str config_filename = None
  end.
Proof.
  unfold start_command.
  destruct (to_str executable) as [e|] eqn:He; [|by left]. apply to_str_Some in He as ->.
  destruct (to_str config_filename) as [c|] eqn:Hc; [|by right]. apply to_str_Some in Hc as ->.
  cbn [opt_context fmap result_fmap mbind result_bind]. destruct (match default_path with Ok _ => _ | Err _ => _ end).
  - by rewrite shell_words_whole.
  - rewrite shell_words_argument.
    change (shell_words Bare (Some executable) (" --config " +:+ ?r))
      with (cons executable <$> (cons "--config" <$> shell_words Bare None r)).
    by rewrite shell_words_whole.
Qed.

(** Recognition of the older desktop integration is by its complete signature: in
    the desktop entry section, no version marker, and for each of the five keys the
    value given last is the generated one. *)
Theorem is_legacy_desktop_entry_spec (contents : string) :
  is_legacy_desktop_entry contents = true <->
  let pairs := entry_pairs contents in
  (forall v, (DESKTOP_ENTRY_VERSION_KEY, v) ∉ pairs) /\
  last_value "Type" pairs = Some "Application" /\
  last_value "Name" pairs = Some "Montray" /\
  last_value "Comment" pairs = Some "Show Montray status in the desktop tray" /\
  last_value "Icon" pairs = Some "montray-ui" /\
  exists v, last_value "Exec" pairs = Some v /\ runs_montray v = true.
Proof.
  unfold is_legacy_desktop_entry, entry_pairs.
  pose proof (scan_signature_pairs no_signature (trim <$> lines contents)) as H.
  cbn [in_desktop_entry no_signature] in H.
  set (pairs := section_pairs false (trim <$> lines contents)) in *.
  destruct (scan_signature _ _) as [s|]; cbv zeta; [|naive_solver].
  destruct H as [Hv [b ->]]. simpl.
  rewrite (record_pairs_field sig_application "Type" (fun v => bool_decide (v = "Application")))
    by record_field.
  rewrite (record_pairs_field sig_name "Name" (fun v => bool_decide (v = "Montray")))
    by record_field.
  rewrite (record_pairs_field sig_comment "Comment"
    (fun v => bool_decide (v = "Show Montray status in the desktop tray"))) by record_field.
  rewrite (record_pairs_field sig_icon "Icon" (fun v => bool_decide (v = "montray-ui")))
    by record_field.
  rewrite (record_pairs_field sig_exec "Exec" runs_montray) by record_field.
  rewrite !andb_true_iff, !last_value_test. simpl.
  destruct (last_value "Exec" pairs); naive_solver.
Qed.

(** A line break in a path is not escaped: what follows it is a line of its own. *)
Example newline_adds_key :
  match desktop_entry "/opt/montray-ui" ("/a" +:+ newline +:+ "Hidden=true" +:+ newline) true with
  | Ok text => bool_decide (last_value "Hidden" (entry_pairs text) = Some "true")
  | Err _ => false
  end = true.
Proof. vm_compute. reflexivity. Qed.
