(* ===== verification/Io.v ===== *)
(** * Files and effects

    The part of the operating system that setup, token generation and the
    application shell act on. A file tree maps paths to files, directories and
    symbolic links. Code runs in a monad of state and errors: every system call may
    fail, as a script of outcomes says, possibly after part of its data was written,
    and another process may create a file just before any call. The trees passed
    through are kept, so that a property can be stated of every moment at which the
    process may be killed.

    Paths are keys: two spellings of one path are two keys, and a directory's
    entries are the keys below it. [Path::exists] is taken not to fail. *)

From Stdlib Require Import ZArith Lia Ascii.
From stdpp Require Import base gmap strings list option infinite pretty.
From S2P Require Import Prelude RustStr Output RustPath.

Inductive ErrorKind := NotFound | AlreadyExists | PermissionDenied | OtherKind.
#[global] Instance ErrorKind_eq_dec : EqDecision ErrorKind.
Proof. solve_decision. Defined.

Record IoError := mkIoError {
  io_kind : ErrorKind;
  io_text : string;
}.

Inductive Node :=
| NFile (data : string) (mode : N)
| NDir (mode : N)
| NLink (target : string).
#[global] Instance Node_eq_dec : EqDecision Node.
Proof. solve_decision. Defined.
Abbreviation Tree := (gmap string Node).

(** ** Worlds *)

(** What happens at a system call. A failure is not about the presence of a file:
    that is what the tree says. *)
Inductive Outcome :=
| Fine
| Fails (denied : bool) (text : string) (written : option string)
| Races (path data : string) (mode : N).

Record World := {
  w_tree : Tree;
  w_script : list Outcome;  (* of the calls to come; afterwards all is fine *)
  w_out : string;           (* what was printed *)
  w_past : list Tree;       (* the trees before, latest first *)
}.

(** A world before any call. *)
Definition world_of (files : list (string * Node)) (script : list Outcome) : World :=
  {| w_tree := list_to_map files; w_script := script; w_out := ""; w_past := [] |}.

(** Names no other process uses: temporary files and backup directories. *)
Definition TEMP_PREFIX : string := ".tmp".
Definition BACKUP_PREFIX : string := "montray-ui-reinstall-".
Definition private_path (path : string) : bool :=
  contains TEMP_PREFIX path || contains BACKUP_PREFIX path.

(** Another process creates a file where there is none. *)
Definition race (path data : string) (mode : N) (t : Tree) : Tree :=
  if private_path path then t
  else match t !! path with Some _ => t | None => <[path := NFile data mode]> t end.

Definition IO (E A : Type) : Type := World -> World * result E A.
#[global] Instance io_ret {E} : MRet (IO E) := fun A a w => (w, Ok a).
#[global] Instance io_bind {E} : MBind (IO E) := fun A B f m w =>
  let '(w, r) := m w in
  match r with Ok a => f a w | Err e => (w, Err e) end.

Definition throw {E A} (e : E) : IO E A := fun w => (w, Err e).
Definition lift {E A} (r : result E A) : IO E A := fun w => (w, r).
(** The tree now. *)
Definition tree {E} : IO E Tree := fun w => (w, Ok (w_tree w)).
(** A [match] on the result of a call. *)
Definition try_io {E F A} (m : IO E A) : IO F (result E A) := fun w =>
  let '(w, r) := m w in (w, Ok r).
(** [.context(c)?] and [?] on a system call. *)
Definition ctx {A} (c : string) (m : IO IoError A) : IO anyhow A := fun w =>
  let '(w, r) := m w in
  (w, match r with Ok a => Ok a | Err e => Err [c; io_text e] end).
(** [.context(c)?] on a function of the program. *)
Definition context {A} (c : string) (m : IO anyhow A) : IO anyhow A := fun w =>
  let '(w, r) := m w in (w, with_context c r).

Fixpoint io_iter {E A} (f : A -> IO E unit) (l : list A) : IO E unit :=
  match l with
  | [] => mret tt
  | x :: l => _ ← f x; io_iter f l
  end.

(** ** System calls *)

Definition pass (w : World) (t : Tree) (script : list Outcome) : World :=
  {| w_tree := t; w_script := script; w_out := w_out w; w_past := w_tree w :: w_past w |}.

(** [partial] is what a failed call may leave, [op] what the call does. *)
Definition sys {A} (partial : string -> Tree -> Tree)
    (op : Tree -> Tree * result IoError A) : IO IoError A := fun w =>
  match w_script w with
  | Fails denied text written :: rest =>
      (pass w (match written with Some data => partial data (w_tree w) | None => w_tree w end) rest,
       Err (mkIoError (if denied then PermissionDenied else OtherKind) text))
  | Races path data mode :: rest =>
      let w := pass w (race path data mode (w_tree w)) rest in
      let '(t, r) := op (w_tree w) in (pass w t rest, r)
  | script => let '(t, r) := op (w_tree w) in (pass w t (drop 1 script), r)
  end.

Definition nothing_left (_ : string) (t : Tree) : Tree := t.
Definition refuse {A} (kind : ErrorKind) (text : string) (t : Tree) : Tree * result IoError A :=
  (t, Err (mkIoError kind text)).

(** Linux follows at most forty links. *)
Fixpoint resolve_links (fuel : nat) (t : Tree) (path : string) : option string :=
  match fuel with
  | O => None
  | S fuel =>
      match t !! path with
      | Some (NLink target) =>
          resolve_links fuel t (path_join (default "" (path_parent path)) target)
      | _ => Some path
      end
  end.
Definition resolve : Tree -> string -> option string := resolve_links 41.

(** [Path::exists] and [Path::is_dir]. *)
Definition path_exists (t : Tree) (path : string) : bool :=
  match resolve t path with Some q => bool_decide (is_Some (t !! q)) | None => false end.
Definition is_dir (t : Tree) (path : string) : bool :=
  match q ← resolve t path; t !! q with Some (NDir _) => true | _ => false end.

Definition symlink_metadata (path : string) : IO IoError unit :=
  sys nothing_left (fun t =>
    match t !! path with
    | Some _ => (t, Ok tt)
    | None => refuse NotFound "No such file or directory (os error 2)" t
    end).

(** The data and mode of the file a path leads to. *)
Definition read_node (path : string) (t : Tree) : result IoError (string * N) :=
  match resolve t path with
  | None => Err (mkIoError OtherKind "Too many levels of symbolic links (os error 40)")
  | Some q =>
      match t !! q with
      | Some (NFile data mode) => Ok (data, mode)
      | Some _ => Err (mkIoError OtherKind "Is a directory (os error 21)")
      | None => Err (mkIoError NotFound "No such file or directory (os error 2)")
      end
  end.

Definition read_bytes (path : string) : IO IoError string :=
  sys nothing_left (fun t => (t, fst <$> read_node path t)).

(** [fs::read_to_string] also refuses invalid UTF-8. *)
Definition read_text (path : string) : IO IoError string :=
  sys nothing_left (fun t =>
    (t, '(data, _) ← read_node path t;
        if bool_decide (to_str data = Some data) then Ok data
        else Err (mkIoError OtherKind "stream did not contain valid UTF-8"))).

Definition mkdir (mode : N) (path : string) : IO IoError unit :=
  sys nothing_left (fun t =>
    match t !! path with
    | Some _ => refuse AlreadyExists "File exists (os error 17)" t
    | None => (<[path := NDir mode]> t, Ok tt)
    end).

(** The directories from the root down to a path. *)
Fixpoint ancestors (fuel : nat) (path : string) : list string :=
  match fuel with
  | O => []
  | S fuel =>
      match path_parent path with
      | Some parent => if is_empty parent then [path] else ancestors fuel parent ++ [path]
      | None => if is_empty path then [] else [path]
      end
  end.

(** [DirBuilder::recursive(true)]: a directory that is there is kept. *)
Definition create_dir_all (mode : N) (path : string) : IO IoError unit :=
  io_iter (fun dir =>
    r ← try_io (mkdir mode dir);
    match r with
    | Ok _ => mret tt
    | Err e => t ← tree; if is_dir t dir then mret tt else throw e
    end) (ancestors (S (String.length path)) path).

Definition default_dir_mode : N := 493.  (* 0o755 *)

(** Creates a file that is not there. *)
Definition create_new (mode : N) (path : string) : IO IoError unit :=
  sys nothing_left (fun t =>
    match t !! path with
    | Some _ => refuse AlreadyExists "File exists (os error 17)" t
    | None => (<[path := NFile "" mode]> t, Ok tt)
    end).

Definition append_data (path data : string) (t : Tree) : Tree :=
  alter (fun n => match n with NFile old mode => NFile (old +:+ data) mode | _ => n end) path t.

(** [write_all] on an open file; part of the data may be written before it fails. *)
Definition write_all (path data : string) : IO IoError unit :=
  sys (append_data path) (fun t => (append_data path data t, Ok tt)).
Definition flush_file : IO IoError unit := sys nothing_left (fun t => (t, Ok tt)).

Definition set_permissions (path : string) (mode : N) : IO IoError unit :=
  sys nothing_left (fun t =>
    (alter (fun n => match n with NFile data _ => NFile data mode | NDir _ => NDir mode
                     | NLink _ => n end) path t, Ok tt)).

(** [NamedTempFile::persist]: a rename over the destination. *)
Definition persist_temp (temp path : string) : IO IoError unit :=
  sys nothing_left (fun t =>
    match t !! temp, t !! path with
    | _, Some (NDir _) => refuse OtherKind "Is a directory (os error 21)" t
    | Some node, _ => (<[path := node]> (delete temp t), Ok tt)
    | None, _ => refuse NotFound "No such file or directory (os error 2)" t
    end).

(** [NamedTempFile::persist_noclobber]. *)
Definition persist_new (temp path : string) : IO IoError unit :=
  sys nothing_left (fun t =>
    match t !! temp, t !! path with
    | _, Some _ => refuse AlreadyExists "File exists (os error 17)" t
    | Some node, None => (<[path := node]> (delete temp t), Ok tt)
    | None, None => refuse NotFound "No such file or directory (os error 2)" t
    end).

Definition remove_file (path : string) : IO IoError unit :=
  sys nothing_left (fun t =>
    match t !! path with
    | Some (NDir _) => refuse OtherKind "Is a directory (os error 21)" t
    | Some _ => (delete path t, Ok tt)
    | None => refuse NotFound "No such file or directory (os error 2)" t
    end).

(** The destination of a copy is opened through links and truncated. *)
Definition put_file (path data : string) (mode : N) (t : Tree) : Tree :=
  match resolve t path with
  | Some q => match t !! q with Some (NDir _) => t | _ => <[q := NFile data mode]> t end
  | None => t
  end.

Definition copy_file (source path : string) : IO IoError unit :=
  sys (fun written => put_file path written 420) (fun t =>
    match read_node source t with
    | Err e => (t, Err e)
    | Ok (data, mode) =>
        match q ← resolve t path; t !! q with
        | Some (NDir _) => refuse OtherKind "Is a directory (os error 21)" t
        | _ => (put_file path data mode t, Ok tt)
        end
    end).

(** The entries of a directory, with their type, in some order. *)
Definition children (path : string) (t : Tree) : list (string * Node) :=
  filter (fun '(key, _) => path_parent key = Some path) (btree_iter t).
Definition dir_entries (path real : string) (t : Tree) : list (string * Node) :=
  (fun '(key, node) => (path_join path (default "" (file_name key)), node)) <$> children real t.
Definition read_dir (path : string) : IO IoError (list (string * Node)) :=
  sys nothing_left (fun t =>
    match q ← resolve t path; t !! q with
    | Some (NDir _) => (t, Ok (dir_entries path (default path (resolve t path)) t))
    | Some _ => refuse OtherKind "Not a directory (os error 20)" t
    | None => refuse NotFound "No such file or directory (os error 2)" t
    end).

(** Advancing the iterator of [fs::read_dir] may fail as well. *)
Definition next_entry : IO IoError unit := sys nothing_left (fun t => (t, Ok tt)).

(** [write!] and [writeln!] on the given output. *)
Definition print (text : string) : IO anyhow unit := fun w =>
  match w_script w with
  | Fails _ text _ :: rest => (pass w (w_tree w) rest, Err [text])
  | script =>
      let t := match script with
               | Races path data mode :: _ => race path data mode (w_tree w)
               | _ => w_tree w
               end in
      ({| w_tree := t; w_script := drop 1 script; w_out := w_out w +:+ text;
          w_past := w_tree w :: w_past w |}, Ok tt)
  end.
Definition println (text : string) : IO anyhow unit := print (text +:+ newline).

(** ** Temporary names *)

(** A path with the prefix such that there is nothing at it or below it. *)
Class TempNames := {
  fresh_path : string -> Tree -> string;
  fresh_path_prefix (prefix : string) (t : Tree) :
    exists suffix, fresh_path prefix t = prefix +:+ suffix;
  fresh_path_new (prefix rest : string) (t : Tree) : t !! (fresh_path prefix t +:+ rest) = None;
}.

(** Longer than every path in use. *)
Definition longest (t : Tree) : nat := max_list (String.length <$> (map_to_list t).*1).
Fixpoint xs (n : nat) : string := match n with O => "" | S n => String "x" (xs n) end.
Definition long_path (prefix : string) (t : Tree) : string := prefix +:+ xs (S (longest t)).

Lemma longest_spec (t : Tree) (path : string) (node : Node) :
  t !! path = Some node -> String.length path <= longest t.
Proof.
  intros Hn. apply max_list_elem_of_le, list_elem_of_fmap. exists path. split; [done|].
  apply list_elem_of_fmap. exists (path, node). split; [done|]. by apply elem_of_map_to_list.
Qed.

Lemma length_xs (n : nat) : String.length (xs n) = n.
Proof. induction n; simpl; auto. Qed.

Lemma long_path_new (prefix rest : string) (t : Tree) : t !! (long_path prefix t +:+ rest) = None.
Proof.
  apply eq_None_not_Some. intros [node Hn%longest_spec]. revert Hn. unfold long_path.
  rewrite !length_append, length_xs. lia.
Qed.

#[global] Instance long_names : TempNames :=
  {| fresh_path := long_path;
     fresh_path_prefix prefix t := ex_intro _ _ eq_refl;
     fresh_path_new := long_path_new |}.

(** A closure with a temporary file in a directory: dropping the handle removes the
    file if it is still there, and ignores the failure to do so. *)
Definition with_temp `{TempNames} {A} (error dir : string) (body : string -> IO anyhow A)
    : IO anyhow A :=
  t ← tree;
  let temp := fresh_path (path_join dir TEMP_PREFIX) t in
  _ ← ctx error (create_new 384 temp);
  r ← try_io (body temp);
  t ← tree;
  _ ← match t !! temp with Some _ => try_io (remove_file temp) | None => mret (Ok tt) end;
  lift r.

(** ** Reasoning *)

Definition hoare {E A} (P : World -> Prop) (m : IO E A) (Q : result E A -> World -> Prop) : Prop :=
  forall w w' r, P w -> m w = (w', r) -> Q r w'.
(** What holds before holds after, whatever the outcome. *)
Definition keeps {E A} (I : World -> Prop) (m : IO E A) : Prop := hoare I m (fun _ => I).

Lemma hoare_bind {E A B} P (m : IO E A) (f : A -> IO E B) R Q :
  hoare P m R -> (forall a, hoare (R (Ok a)) (f a) Q) ->
  (forall e w, R (Err e) w -> Q (Err e) w) -> hoare P (m ≫= f) Q.
Proof.
  intros Hm Hf He w w' r Hw. unfold mbind, io_bind.
  destruct (m w) as [w1 [a|e]] eqn:H1; intros H2.
  - eapply (Hf a); [|exact H2]. by eapply Hm.
  - injection H2 as <- <-. apply He. by eapply Hm.
Qed.

Lemma hoare_weaken {E A} (P P' : World -> Prop) (m : IO E A) (Q Q' : result E A -> World -> Prop) :
  hoare P m Q -> (forall w, P' w -> P w) -> (forall r w, Q r w -> Q' r w) -> hoare P' m Q'.
Proof. intros H HP HQ w w' r Hw Hm. eapply HQ, H; [|done]. by apply HP. Qed.

Lemma hoare_and {E A} P1 P2 (m : IO E A) Q1 Q2 :
  hoare P1 m Q1 -> hoare P2 m Q2 ->
  hoare (fun w => P1 w /\ P2 w) m (fun r w => Q1 r w /\ Q2 r w).
Proof. intros H1 H2 w w' r [Hw1 Hw2] Hm. split; [by eapply H1|by eapply H2]. Qed.

Lemma hoare_pure {E A} P (φ : Prop) (m : IO E A) Q :
  (φ -> hoare P m Q) -> hoare (fun w => P w /\ φ) m Q.
Proof. intros Hm w w' r [Hw Hφ]. by apply (Hm Hφ). Qed.

Lemma hoare_try {E F A B} P (m : IO E A) (f : result E A -> IO F B) R Q :
  hoare P m R -> (forall r, hoare (R r) (f r) Q) -> hoare P (try_io m ≫= f) Q.
Proof.
  intros Hm Hf w w' r Hw. unfold mbind, io_bind, try_io. destruct (m w) as [w1 r1] eqn:H1.
  apply (Hf r1). by eapply Hm.
Qed.

(** The result of a pure part. *)
Lemma hoare_lift {E A B} P (r : result E A) (f : A -> IO E B) Q :
  (forall a, r = Ok a -> hoare P (f a) Q) -> (forall e w, r = Err e -> P w -> Q (Err e) w) ->
  hoare P (lift r ≫= f) Q.
Proof.
  intros Hf He w w' r' Hw. unfold mbind, io_bind, lift. destruct r as [a|e].
  - by apply (Hf a).
  - intros [= <- <-]. auto.
Qed.

Lemma hoare_tree_bind {E B} P (f : Tree -> IO E B) Q :
  (forall t, hoare (fun w => P w /\ w_tree w = t) (f t) Q) -> hoare P (tree ≫= f) Q.
Proof. intros Hf w w' r Hw Hr. eapply (Hf (w_tree w)); [|exact Hr]. done. Qed.

Section Keeps.
Context (I : World -> Prop).

Lemma keeps_ret {E A} (a : A) : keeps I (mret (M := IO E) a).
Proof. intros w w' r Hw [= <- <-]. done. Qed.
Lemma keeps_throw {E A} (e : E) : keeps I (throw (A := A) e).
Proof. intros w w' r Hw [= <- <-]. done. Qed.
Lemma keeps_lift {E A} (r : result E A) : keeps I (lift r).
Proof. intros w w' r' Hw [= <- <-]. done. Qed.
Lemma keeps_tree {E} : keeps I (tree (E := E)).
Proof. intros w w' r Hw [= <- <-]. done. Qed.

Lemma keeps_bind {E A B} (m : IO E A) (f : A -> IO E B) :
  keeps I m -> (forall a, keeps I (f a)) -> keeps I (m ≫= f).
Proof. intros Hm Hf. eapply hoare_bind; [exact Hm|exact Hf|auto]. Qed.
Lemma keeps_try {E F A} (m : IO E A) : keeps I m -> keeps I (try_io (F := F) m).
Proof.
  intros Hm w w' r Hw. unfold try_io. destruct (m w) as [w1 r1] eqn:H1. intros [= <- <-].
  by eapply Hm.
Qed.
Lemma keeps_ctx {A} c (m : IO IoError A) : keeps I m -> keeps I (ctx c m).
Proof.
  intros Hm w w' r Hw. unfold ctx. destruct (m w) as [w1 r1] eqn:H1. intros [= <- <-].
  by eapply Hm.
Qed.
Lemma keeps_context {A} c (m : IO anyhow A) : keeps I m -> keeps I (context c m).
Proof.
  intros Hm w w' r Hw. unfold context. destruct (m w) as [w1 r1] eqn:H1. intros [= <- <-].
  by eapply Hm.
Qed.
Lemma keeps_iter {E A} (f : A -> IO E unit) (l : list A) :
  (forall x, x ∈ l -> keeps I (f x)) -> keeps I (io_iter f l).
Proof.
  induction l as [|x l IH]; intros Hf; simpl; [apply keeps_ret|].
  apply keeps_bind; [apply Hf; left|]. intros _. apply IH. intros y Hy. apply Hf. by right.
Qed.
End Keeps.

Create HintDb io.
#[export] Hint Resolve keeps_ret keeps_throw keeps_lift keeps_tree : io.

(** Splits a program into its calls. *)
Ltac io_step :=
  match goal with
  | |- keeps _ (_ ≫= _) => apply keeps_bind; [|intros ?]
  | |- keeps _ (try_io _) => apply keeps_try
  | |- keeps _ (ctx _ _) => apply keeps_ctx
  | |- keeps _ (context _ _) => apply keeps_context
  | |- keeps _ (io_iter _ _) => apply keeps_iter; intros ? ?
  | |- keeps _ (match ?x with _ => _ end) => destruct x eqn:?
  | |- keeps _ (let _ := _ in _) => cbv zeta
  | |- keeps _ _ => solve [auto with io]
  end.
Ltac io_keeps := repeat (cbv beta iota zeta; io_step).

(** [P] holds of the tree at every moment since those of [base], and [Q] of the tree
    now, and other processes create only files that satisfy [ok]. *)
Section Moments.
Context (base : list Tree) (ok : string -> string -> N -> Prop) (P Q : Tree -> Prop).

Definition outcome_ok (o : Outcome) : Prop :=
  match o with Races path data mode => ok path data mode | _ => True end.
Definition moments (w : World) : Prop :=
  P (w_tree w) /\ Q (w_tree w) /\ (exists l, w_past w = l ++ base /\ Forall P l) /\
  Forall outcome_ok (w_script w).

(** Preserved by what other processes do. *)
Definition stable : Prop :=
  forall path data mode t, ok path data mode -> P t -> Q t ->
    P (race path data mode t) /\ Q (race path data mode t).

Lemma moments_pass (w : World) (t : Tree) script :
  moments w -> P t -> Q t -> Forall outcome_ok script -> moments (pass w t script).
Proof.
  intros (H1 & H2 & (l & Hl & HP) & H4) Hp Hq Hs. split; [done|]. split; [done|]. split; [|done].
  exists (w_tree w :: l). simpl. rewrite Hl. split; [done|]. by constructor.
Qed.

Lemma keeps_sys {A} partial (op : Tree -> Tree * result IoError A) :
  stable -> (forall data t, P t -> Q t -> P (partial data t) /\ Q (partial data t)) ->
  (forall t, P t -> Q t -> P (op t).1 /\ Q (op t).1) ->
  keeps moments (sys partial op).
Proof.
  intros Hs Hp Ho w w' r Hw. pose proof Hw as (HP & HQ & _ & Hok). unfold sys.
  destruct (w_script w) as [|[|denied text written|path data mode] rest]; simpl.
  - destruct (Ho _ HP HQ). destruct (op (w_tree w)) as [t r']. intros [= <- <-].
    by apply moments_pass.
  - apply list.Forall_cons in Hok as [_ Hok]. destruct (Ho _ HP HQ).
    destruct (op (w_tree w)) as [t r']. intros [= <- <-]. by apply moments_pass.
  - apply list.Forall_cons in Hok as [_ Hok]. intros [= <- <-].
    destruct written as [data|]; [destruct (Hp data _ HP HQ)|]; by apply moments_pass.
  - apply list.Forall_cons in Hok as [Hr Hok]. destruct (Hs path data mode _ Hr HP HQ) as [HP' HQ'].
    destruct (Ho _ HP' HQ'). destruct (op (race _ _ _ _)) as [t r']. intros [= <- <-].
    by repeat apply moments_pass.
Qed.

Lemma keeps_print line : stable -> keeps moments (print line).
Proof.
  intros Hs w w' r (HP & HQ & (l & Hl & Hpast) & Hok). unfold print.
  destruct (w_script w) as [|[|denied text written|path data mode] rest]; intros [= <- <-];
    try apply list.Forall_cons in Hok as [Hr Hok];
    (split; [|split; [|split; [|done]]]; simpl;
      [try done; by eapply Hs..|exists (w_tree w :: l); rewrite Hl; split; [done|by constructor]]).
Qed.
End Moments.

Definition anything : string -> string -> N -> Prop := fun _ _ _ => True.
Definition whatever : Tree -> Prop := fun _ => True.
Definition nowhere (_ : string) : Prop := False.

(** ** Files that stay as they are *)

Section Unchanged.
Context (base : list Tree) (allowed : string -> Prop) (t0 : Tree).

(** What was there at the start is there, but for allowed paths. *)
Definition unchanged (t : Tree) : Prop :=
  forall p n, t0 !! p = Some n -> ~ allowed p -> t !! p = Some n.

Definition may_change (p : string) : Prop := ~ allowed p -> t0 !! p = None.

Lemma unchanged_start : unchanged t0.
Proof. by intros p n Hp _. Qed.

Lemma unchanged_absent (p : string) (t : Tree) :
  unchanged t -> t !! p = None -> ~ allowed p -> t0 !! p = None.
Proof.
  intros Hu Hp Ha. destruct (t0 !! p) as [n|] eqn:H0; [|done].
  by rewrite (Hu p n H0 Ha) in Hp.
Qed.

Lemma unchanged_insert (p : string) (n : Node) (t : Tree) :
  may_change p \/ t !! p = None -> unchanged t -> unchanged (<[p := n]> t).
Proof.
  intros Hp Hu q m Hq Ha. destruct (decide (p = q)) as [->|Hne].
  - pose proof (Hu q m Hq Ha). destruct Hp as [Hp|Hp]; [specialize (Hp Ha)|]; congruence.
  - rewrite lookup_insert_ne by done. by apply Hu.
Qed.

Lemma unchanged_delete (p : string) (t : Tree) :
  may_change p -> unchanged t -> unchanged (delete p t).
Proof.
  intros Hp Hu q m Hq Ha. rewrite lookup_delete_ne; [by apply Hu|].
  intros ->. specialize (Hp Ha). congruence.
Qed.

Lemma unchanged_alter (p : string) (f : Node -> Node) (t : Tree) :
  may_change p -> unchanged t -> unchanged (alter f p t).
Proof.
  intros Hp Hu q m Hq Ha. rewrite lookup_alter_ne; [by apply Hu|].
  intros ->. specialize (Hp Ha). congruence.
Qed.

Lemma unchanged_race path data mode t : unchanged t -> unchanged (race path data mode t).
Proof.
  intros Hu. unfold race. destruct (private_path path); [done|].
  destruct (t !! path) eqn:Ht; [done|]. apply unchanged_insert; auto.
Qed.

Lemma unchanged_move (temp p : string) (n : Node) (t : Tree) :
  may_change temp -> may_change p \/ t !! p = None -> unchanged t ->
  unchanged (<[p := n]> (delete temp t)).
Proof.
  intros Htemp Hp Hu. apply unchanged_insert; [|by apply unchanged_delete].
  destruct Hp as [|Hp]; [by left|right]. by apply lookup_delete_None; right.
Qed.

Abbreviation inv := (moments base anything unchanged whatever).

Lemma stable_unchanged : stable anything unchanged whatever.
Proof. intros path data mode t _ Hu _. split; [by apply unchanged_race|done]. Qed.

(** A call whose effect on the tree leaves the old files alone. *)
Lemma keeps_sys_unchanged {A} partial (op : Tree -> Tree * result IoError A) :
  (forall data t, unchanged t -> unchanged (partial data t)) ->
  (forall t, unchanged t -> unchanged (op t).1) -> keeps inv (sys partial op).
Proof.
  intros Hp Ho. apply keeps_sys; [apply stable_unchanged|..]; intros; split; auto; done.
Qed.

#[local] Hint Resolve unchanged_insert unchanged_delete unchanged_alter unchanged_move : core.
Ltac sys_unchanged :=
  apply keeps_sys_unchanged; [unfold nothing_left; auto|intros t Htree; simpl; auto].

Lemma keeps_symlink_metadata path : keeps inv (symlink_metadata path).
Proof. sys_unchanged. by destruct (t !! path). Qed.
Lemma keeps_read_bytes path : keeps inv (read_bytes path).
Proof. sys_unchanged. Qed.
Lemma keeps_read_text path : keeps inv (read_text path).
Proof. sys_unchanged. Qed.
Lemma keeps_mkdir mode path : keeps inv (mkdir mode path).
Proof. sys_unchanged. destruct (t !! path) eqn:?; simpl; auto. Qed.
Lemma keeps_create_new mode path : keeps inv (create_new mode path).
Proof. sys_unchanged. destruct (t !! path) eqn:?; simpl; auto. Qed.
Lemma keeps_flush : keeps inv flush_file.
Proof. sys_unchanged. Qed.
Lemma keeps_next_entry : keeps inv next_entry.
Proof. sys_unchanged. Qed.
Lemma keeps_read_dir path : keeps inv (read_dir path).
Proof. sys_unchanged. by destruct (q ← resolve t path; t !! q) as [[]|]. Qed.
Lemma keeps_write_all path data : may_change path -> keeps inv (write_all path data).
Proof. intros Hp. apply keeps_sys_unchanged; intros; by apply unchanged_alter. Qed.
Lemma keeps_set_permissions path mode : may_change path -> keeps inv (set_permissions path mode).
Proof. intros Hp. sys_unchanged. Qed.
Lemma keeps_remove_file path : may_change path -> keeps inv (remove_file path).
Proof. intros Hp. sys_unchanged. destruct (t !! path) as [[]|]; simpl; auto. Qed.
Lemma keeps_persist_temp temp path :
  may_change temp -> may_change path -> keeps inv (persist_temp temp path).
Proof.
  intros Ht Hp. sys_unchanged. destruct (t !! temp), (t !! path) as [[]|]; simpl; auto.
Qed.
Lemma keeps_persist_new temp path : may_change temp -> keeps inv (persist_new temp path).
Proof.
  intros Ht. sys_unchanged. destruct (t !! temp), (t !! path) eqn:?; simpl; auto.
Qed.
Lemma keeps_println_unchanged text : keeps inv (println text).
Proof. apply keeps_print, stable_unchanged. Qed.
Lemma keeps_print_unchanged text : keeps inv (print text).
Proof. apply keeps_print, stable_unchanged. Qed.

Lemma keeps_create_dir_all mode path : keeps inv (create_dir_all mode path).
Proof.
  unfold create_dir_all. apply keeps_iter. intros dir _.
  apply keeps_bind; [apply keeps_try, keeps_mkdir|]. intros [[]|e]; [apply keeps_ret|].
  apply keeps_bind; [apply keeps_tree|]. intros t. destruct (is_dir t dir);
    auto using keeps_ret, keeps_throw.
Qed.

Lemma hoare_tree {E} (I : World -> Prop) :
  hoare (E := E) I tree (fun r w => I w /\ r = Ok (w_tree w)).
Proof. intros w w' r Hw [= <- <-]. done. Qed.

(** What a program learns of the tree it reads. *)
Lemma keeps_bind_tree {E A} (I : World -> Prop) (f : Tree -> IO E A) :
  (forall t w, I w -> w_tree w = t -> keeps I (f t)) -> keeps I (tree ≫= f).
Proof. intros Hf w w' r Hw Hr. exact (Hf (w_tree w) w Hw eq_refl w w' r Hw Hr). Qed.

Lemma keeps_bind_now {E A} (I : World -> Prop) (f : Tree -> IO E A) :
  (forall w w' r, I w -> f (w_tree w) w = (w', r) -> I w') -> keeps I (tree ≫= f).
Proof. intros Hf w w' r Hw Hr. exact (Hf w w' r Hw Hr). Qed.

Lemma keeps_with_temp `{TempNames} {A} error dir (body : string -> IO anyhow A) :
  (forall temp, may_change temp -> keeps inv (body temp)) ->
  keeps inv (with_temp error dir body).
Proof.
  intros Hbody. unfold with_temp. apply keeps_bind_tree. intros t w (Hu & _) Ht. cbv zeta.
  set (temp := fresh_path _ t).
  assert (t !! temp = None) as Hnew.
  { rewrite <-(append_nil_r temp). apply fresh_path_new. }
  assert (may_change temp) as Htemp.
  { intros Ha. apply (unchanged_absent temp (w_tree w)); [done|by rewrite Ht|done]. }
  apply keeps_bind; [apply keeps_ctx, keeps_create_new|]. intros _.
  apply keeps_bind; [by apply keeps_try, Hbody|]. intros r.
  apply keeps_bind; [apply keeps_tree|]. intros t'.
  apply keeps_bind; [|intros _; apply keeps_lift].
  destruct (t' !! temp); [|apply keeps_ret]. by apply keeps_try, keeps_remove_file.
Qed.
End Unchanged.

#[export] Hint Resolve keeps_symlink_metadata keeps_read_bytes keeps_read_text keeps_mkdir
  keeps_create_new keeps_flush keeps_read_dir keeps_next_entry keeps_write_all keeps_set_permissions
  keeps_remove_file keeps_persist_temp keeps_persist_new keeps_println_unchanged
  keeps_print_unchanged
  keeps_create_dir_all : io.

(** ** Copies into a private directory *)

Definition no_links_below (dir : string) (t : Tree) : Prop :=
  forall rest target, t !! (dir +:+ rest) <> Some (NLink target).

Lemma resolve_not_link (t : Tree) (path : string) :
  (forall target, t !! path <> Some (NLink target)) -> resolve t path = Some path.
Proof.
  intros Hl. unfold resolve. simpl. destruct (t !! path) as [[| |target]|]; try done.
  by destruct (Hl target).
Qed.

Lemma no_links_insert dir p n t :
  (forall target, n <> NLink target) -> no_links_below dir t -> no_links_below dir (<[p := n]> t).
Proof.
  intros Hn Hl rest target. destruct (decide (p = dir +:+ rest)) as [->|Hne].
  - rewrite lookup_insert_eq. intros [= ->]. by apply (Hn target).
  - rewrite lookup_insert_ne by done. apply Hl.
Qed.

Lemma no_links_race dir path data mode t :
  no_links_below dir t -> no_links_below dir (race path data mode t).
Proof.
  intros Hl. unfold race. destruct (private_path path), (t !! path); try done.
  by apply no_links_insert.
Qed.

Section PrivateDir.
Context (base : list Tree) (allowed : string -> Prop) (t0 : Tree) (dir : string).
Abbreviation inv := (moments base anything (unchanged allowed t0) (no_links_below dir)).

Lemma stable_private : stable anything (unchanged allowed t0) (no_links_below dir).
Proof.
  intros path data mode t _ Hu Hl. split; [by apply unchanged_race|by apply no_links_race].
Qed.

Lemma keeps_mkdir_private mode path : keeps inv (mkdir mode path).
Proof.
  apply keeps_sys; [apply stable_private|done|]. intros t Hu Hl.
  destruct (t !! path) eqn:Hp; simpl; [done|].
  split; [by apply unchanged_insert; auto|by apply no_links_insert].
Qed.

Lemma keeps_create_dir_all_private mode path : keeps inv (create_dir_all mode path).
Proof.
  unfold create_dir_all. apply keeps_iter. intros d _.
  apply keeps_bind; [apply keeps_try, keeps_mkdir_private|]. intros [[]|e]; [apply keeps_ret|].
  apply keeps_bind; [apply keeps_tree|]. intros t. destruct (is_dir t d);
    auto using keeps_ret, keeps_throw.
Qed.

Lemma keeps_set_permissions_private rest mode :
  may_change allowed t0 (dir +:+ rest) -> keeps inv (set_permissions (dir +:+ rest) mode).
Proof.
  intros Hdir.   apply keeps_sys; [apply stable_private|done|]. intros t Hu Hl. simpl.
  split; [by apply unchanged_alter|]. intros rest' target.
  destruct (decide (dir +:+ rest = dir +:+ rest')) as [<-|Hne].
  - rewrite lookup_alter_eq. specialize (Hl rest). destruct (t !! (dir +:+ rest)) as [[]|]; naive_solver.
  - rewrite lookup_alter_ne by done. apply Hl.
Qed.

Lemma put_file_private rest data mode t :
  no_links_below dir t ->
  put_file (dir +:+ rest) data mode t =
  match t !! (dir +:+ rest) with
  | Some (NDir _) => t | _ => <[dir +:+ rest := NFile data mode]> t end.
Proof. intros Hl. unfold put_file. by rewrite resolve_not_link. Qed.

Lemma keeps_put_file rest data mode t :
  may_change allowed t0 (dir +:+ rest) -> unchanged allowed t0 t -> no_links_below dir t ->
  unchanged allowed t0 (put_file (dir +:+ rest) data mode t) /\
  no_links_below dir (put_file (dir +:+ rest) data mode t).
Proof.
  intros Hdir Hu Hl. rewrite put_file_private by done.
  destruct (t !! (dir +:+ rest)) as [[]|]; try done;
    (split; [apply unchanged_insert; auto|by apply no_links_insert]).
Qed.

Lemma keeps_copy_private source rest :
  may_change allowed t0 (dir +:+ rest) -> keeps inv (copy_file source (dir +:+ rest)).
Proof.
  intros Hdir. apply keeps_sys; [apply stable_private|intros data t; by apply keeps_put_file|].
  intros t Hu Hl. destruct (read_node source t) as [[data mode]|e]; [|done].
  destruct (q ← resolve t (dir +:+ rest); t !! q) as [[]|]; simpl; try done;
    by apply keeps_put_file.
Qed.
End PrivateDir.

#[export] Hint Resolve keeps_mkdir_private keeps_create_dir_all_private
  keeps_set_permissions_private keeps_copy_private : io.

(** ** Results of calls *)

(** [Q2] holds after a success. *)
Definition after {E A} (Q2 : A -> Tree -> Prop) (r : result E A) : Tree -> Prop :=
  match r with Ok a => Q2 a | Err _ => whatever end.

Section Results.
Context (base : list Tree) (ok : string -> string -> N -> Prop) (P : Tree -> Prop).

Lemma moments_whatever Q w : moments base ok P Q w -> moments base ok P whatever w.
Proof. intros (H1 & _ & H3). exact (conj H1 (conj I H3)). Qed.

Lemma moments_mono (P' Q Q' : Tree -> Prop) w :
  (forall t, P t -> P' t) -> (Q (w_tree w) -> Q' (w_tree w)) ->
  moments base ok P Q w -> moments base ok P' Q' w.
Proof.
  intros HP HQ (H1 & H2 & (l & Hl & Hall) & H4). split; [auto|]. split; [auto|]. split; [|done].
  exists l. split; [done|]. by eapply list.Forall_impl.
Qed.

(** A call after which [P'] holds if it succeeds and [P] if not, and [Q2] of the result
    and the tree. *)
Lemma hoare_sys_turn {A} partial (op : Tree -> Tree * result IoError A) (Q1 P' : Tree -> Prop)
    (Q2 : result IoError A -> Tree -> Prop) :
  stable ok P Q1 -> (forall t, P t -> P' t) ->
  (forall data t, P t -> Q1 t -> P (partial data t)) ->
  (forall kind text t, kind = PermissionDenied \/ kind = OtherKind ->
     Q2 (Err (mkIoError kind text)) t) ->
  (forall t, P t -> Q1 t ->
     (if is_ok (op t).2 then P' (op t).1 else P (op t).1) /\ Q2 (op t).2 (op t).1) ->
  hoare (moments base ok P Q1) (sys partial op)
    (fun r => moments base ok (if is_ok r then P' else P) (Q2 r)).
Proof.
  intros Hs HPP Hp Hfail Ho w w' r Hw. pose proof Hw as (HP & HQ & _ & Hok).
  apply moments_whatever in Hw. unfold sys.
  assert (forall w t rest, moments base ok P whatever w -> P t -> Q1 t ->
    Forall (outcome_ok ok) rest -> op t = (w_tree w', r) -> w' = pass w (w_tree w') rest ->
    moments base ok (if is_ok r then P' else P) (Q2 r) w') as Hend.
  { intros w1 t rest Hw1 HP1 HQ1 Hok1 Hop ->. destruct (Ho t HP1 HQ1) as [H1 H2].
    rewrite Hop in H1, H2. simpl in H1, H2.
    destruct (moments_pass base ok (if is_ok r then P' else P) whatever w1 (w_tree w') rest)
      as (H3 & _ & H4); [|by destruct (is_ok r)|done..|exact (conj H3 (conj H2 H4))].
    destruct (is_ok r); [by eapply moments_mono|done]. }
  destruct (w_script w) as [|[|denied text written|path data mode] rest];
    simpl; try apply list.Forall_cons in Hok as [Hr Hok].
  - destruct (op (w_tree w)) as [t r'] eqn:Hop. intros [= <- <-]. by eapply Hend.
  - destruct (op (w_tree w)) as [t r'] eqn:Hop. intros [= <- <-]. by eapply Hend.
  - intros [= <- <-]. simpl.
    destruct (moments_pass base ok P whatever w
      (match written with Some data => partial data (w_tree w) | None => w_tree w end) rest)
      as (H3 & _ & H4); [done|destruct written; auto|done|done|].
    refine (conj H3 (conj _ H4)). apply Hfail. destruct denied; auto.
  - destruct (Hs path data mode _ Hr HP HQ) as [HP' HQ'].
    destruct (op (race _ _ _ _)) as [t r'] eqn:Hop. intros [= <- <-].
    eapply (Hend (pass w (race path data mode (w_tree w)) rest)); try done.
    by apply moments_pass.
Qed.

Lemma hoare_sys {A} partial (op : Tree -> Tree * result IoError A) (Q1 : Tree -> Prop)
    (Q2 : A -> Tree -> Prop) :
  stable ok P Q1 -> (forall data t, P t -> Q1 t -> P (partial data t)) ->
  (forall t, P t -> Q1 t -> P (op t).1 /\ after Q2 (op t).2 (op t).1) ->
  hoare (moments base ok P Q1) (sys partial op) (fun r => moments base ok P (after Q2 r)).
Proof.
  intros Hs Hp Ho.
  eapply hoare_weaken; [apply (hoare_sys_turn partial op Q1 P (after Q2))|done|]; auto.
  - done.
  - intros t H1 H2. destruct (Ho t H1 H2). by destruct (is_ok _).
  - intros [a|e] w Hw; exact Hw.
Qed.

Lemma hoare_ctx {A} c (m : IO IoError A) Q1 Q2 :
  hoare Q1 m (fun r => moments base ok P (after Q2 r)) ->
  hoare Q1 (ctx c m) (fun r => moments base ok P (after Q2 r)).
Proof.
  intros Hm w w' r Hw. unfold ctx. destruct (m w) as [w1 r1] eqn:H1. intros [= <- <-].
  specialize (Hm w w1 r1 Hw H1). by destruct r1.
Qed.

(** Its error has the context. *)
Lemma hoare_ctx_error {A} c (m : IO IoError A) Q1 (Q2 : A -> Tree -> Prop) :
  hoare Q1 m (fun r => moments base ok P (after Q2 r)) ->
  hoare Q1 (ctx c m) (fun r w => match r with
    | Ok a => moments base ok P (Q2 a) w
    | Err e => moments base ok P whatever w /\ exists text, e = [c; text] end).
Proof.
  intros Hm w w' r Hw. unfold ctx. destruct (m w) as [w1 r1] eqn:H1. intros [= <- <-].
  specialize (Hm w w1 r1 Hw H1). destruct r1; [done|]. split; [done|]. by eexists.
Qed.

Lemma hoare_seq {E A B} (m : IO E A) (f : A -> IO E B) Q1 Q2 Q3 :
  hoare Q1 m (fun r => moments base ok P (after Q2 r)) ->
  (forall a, hoare (moments base ok P (Q2 a)) (f a) (fun r => moments base ok P (after Q3 r))) ->
  hoare Q1 (m ≫= f) (fun r => moments base ok P (after Q3 r)).
Proof. intros Hm Hf. eapply hoare_bind; [exact Hm|exact Hf|]. intros e w Hw. exact Hw. Qed.
End Results.

(** A call that, if it succeeds, ends [P] and begins [P']. *)
Lemma hoare_sys_commit {A} base ok (P Q P' : Tree -> Prop) partial
    (op : Tree -> Tree * result IoError A) :
  stable ok P Q -> (forall data t, P t -> Q t -> P (partial data t)) ->
  (forall t, P t -> Q t -> if is_ok (op t).2 then P' (op t).1 else P (op t).1) ->
  hoare (moments base ok P Q) (sys partial op) (fun r w =>
    if is_ok r then exists l, l <> [] /\ Forall P l /\ moments (l ++ base) ok P' whatever w
    else moments base ok P whatever w).
Proof.
  intros Hs Hp Ho w w' r Hw. pose proof Hw as (HP & HQ & (l & Hl & Hall) & Hok).
  apply moments_whatever in Hw. unfold sys.
  assert (forall w1 t rest, moments base ok P whatever w1 -> Q t -> P t ->
    Forall (outcome_ok ok) rest -> op t = (w_tree w', r) -> w' = pass w1 (w_tree w') rest ->
    if is_ok r then exists l, l <> [] /\ Forall P l /\ moments (l ++ base) ok P' whatever w'
    else moments base ok P whatever w') as Hend.
  { intros w1 t rest Hw1 HQ1 HP1 Hok1 Hop ->. specialize (Ho t HP1 HQ1). rewrite Hop in Ho.
    simpl in Ho. destruct (is_ok r); [|by apply moments_pass].
    destruct Hw1 as (HP2 & _ & (l1 & Hl1 & Hall1) & _).
    exists (w_tree w1 :: l1). split; [done|]. split; [by constructor|].
    split; [done|]. split; [done|]. split; [|done]. exists []. simpl. by rewrite Hl1. }
  destruct (w_script w) as [|[|denied text written|path data mode] rest];
    simpl; try apply list.Forall_cons in Hok as [Hr Hok].
  - destruct (op (w_tree w)) as [t r'] eqn:Hop. intros [= <- <-]. by eapply Hend.
  - destruct (op (w_tree w)) as [t r'] eqn:Hop. intros [= <- <-]. by eapply Hend.
  - intros [= <- <-]. simpl. apply moments_pass; [done|destruct written; auto|done|done].
  - destruct (Hs path data mode _ Hr HP HQ) as [HP' HQ'].
    destruct (op (race _ _ _ _)) as [t r'] eqn:Hop. intros [= <- <-].
    eapply (Hend (pass w (race path data mode (w_tree w)) rest)); try done.
    by apply moments_pass.
Qed.

(** What a reader saw is still there after the call. *)
Lemma read_text_saw base allowed t0 path :
  hoare (moments base anything (unchanged allowed t0) whatever) (read_text path)
    (fun r w => moments base anything (unchanged allowed t0) whatever w /\
       forall text, r = Ok text -> exists mode, read_node path (w_tree w) = Ok (text, mode)).
Proof.
  eapply hoare_weaken.
  - apply (hoare_sys base anything (unchanged allowed t0) _ _ whatever
      (fun text t => exists mode, read_node path t = Ok (text, mode)));
      [apply stable_unchanged|done|].
    intros t Hu _. simpl. split; [done|].
    destruct (read_node path t) as [[data mode]|e] eqn:Hr; simpl; [|done].
    case_bool_decide; simpl; [eauto|done].
  - done.
  - intros r w Hw. split; [exact (moments_whatever _ _ _ _ _ Hw)|]. intros text ->. apply Hw.
Qed.

(** ** Moments of a run *)

Definition moment (w : World) (t : Tree) : Prop := t = w_tree w \/ t ∈ w_past w.

Lemma moment_sys {A} partial (op : Tree -> Tree * result IoError A) w w' r t :
  sys partial op w = (w', r) -> moment w t -> moment w' t.
Proof.
  intros Hr Ht. right. revert Hr. unfold sys, moment in *.
  destruct (w_script w) as [|[| |] rest];
    try destruct (op _) as [t' r']; intros [= <- _]; simpl; set_solver.
Qed.

(** The past is never forgotten. *)
Lemma keeps_moment_sys {A} partial (op : Tree -> Tree * result IoError A) t :
  keeps (fun w => moment w t) (sys partial op).
Proof. intros w w' r Ht Hr. by eapply moment_sys. Qed.
Lemma keeps_moment_println line t : keeps (fun w => moment w t) (println line).
Proof.
  intros w w' r Ht Hr. right. revert Hr. unfold println, print, moment in *.
  destruct (w_script w) as [|[| |] rest]; intros [= <- _]; simpl; set_solver.
Qed.

Lemma moments_begin ok (P : Tree -> Prop) w :
  P (w_tree w) -> Forall (outcome_ok ok) (w_script w) ->
  moments (w_past w) ok P whatever w.
Proof. intros HP Hok. split; [done|]. split; [done|]. split; [by exists []|done]. Qed.

Lemma moments_at ok (P Q : Tree -> Prop) w t : moments [] ok P Q w -> moment w t -> P t.
Proof.
  intros (HP & _ & (l & Hl & Hall) & _) [->|Ht]; [done|].
  rewrite Hl, app_nil_r in Ht. rewrite list.Forall_forall in Hall. auto.
Qed.

Lemma script_anything l : Forall (outcome_ok anything) l.
Proof. apply list.Forall_forall. by intros []. Qed.

Lemma unchanged_moments {E A} (m : IO E A) allowed w w' r t :
  keeps (moments [] anything (unchanged allowed (w_tree w)) whatever) m -> w_past w = [] -> m w = (w', r) -> moment w' t -> unchanged allowed (w_tree w) t.
Proof.
  intros Hm Hp Hr Ht. eapply moments_at; [|exact Ht]. eapply Hm; [|exact Hr].
  rewrite <-Hp. apply moments_begin; [apply unchanged_start|apply script_anything].
Qed.

Lemma race_lookup p d m (t : Tree) q :
  race p d m t !! q = t !! q \/
  (p = q /\ t !! q = None /\ private_path p = false /\ race p d m t !! q = Some (NFile d m)).
Proof.
  unfold race. destruct (private_path p) eqn:Hp; [by left|].
  destruct (t !! p) eqn:Ht; [by left|]. destruct (decide (p = q)) as [->|Hne].
  - right. by rewrite lookup_insert_eq.
  - left. by rewrite lookup_insert_ne.
Qed.

(** What is there, and what is private, is not touched by other processes. *)
Lemma race_present p d m (t : Tree) q : t !! q <> None -> race p d m t !! q = t !! q.
Proof. intros Hq. by destruct (race_lookup p d m t q) as [|(-> & ? & _)]. Qed.
Lemma race_private p d m (t : Tree) q : private_path q = true -> race p d m t !! q = t !! q.
Proof. intros Hq. destruct (race_lookup p d m t q) as [|(-> & _ & ? & _)]; congruence. Qed.

(** ** Ancestors *)

Lemma path_parent_shorter (path parent : string) :
  path_parent path = Some parent -> String.length parent < String.length path.
Proof.
  unfold path_parent. destruct (is_empty path) eqn:He; [done|]. apply is_empty_false in He.
  case_bool_decide as Hr; [done|]. simpl.
  destruct (rsplit_once "/" path) as [[dir rest]|] eqn:Hs; intros [= <-].
  - apply rsplit_once_Some in Hs as ->. rewrite length_append. simpl.
    destruct (is_empty dir) eqn:Hd; simpl; [|lia].
    apply is_empty_true in Hd as ->. destruct rest; [done|]. simpl. lia.
  - destruct path; [done|]. simpl. lia.
Qed.

Lemma ancestors_shorter fuel (path d : string) :
  d ∈ ancestors fuel path -> String.length d <= String.length path.
Proof.
  revert path. induction fuel as [|fuel IH]; intros path; simpl; [by intros ?%not_elem_of_nil|].
  destruct (path_parent path) as [parent|] eqn:Hp.
  - apply path_parent_shorter in Hp.
    destruct (is_empty parent); [intros ->%list_elem_of_singleton; lia|].
    intros [Hd%IH| ->%list_elem_of_singleton]%elem_of_app; lia.
  - destruct (is_empty path); [by intros ?%not_elem_of_nil|]. by intros ->%list_elem_of_singleton.
Qed.

(** ** Failures *)

(** How many calls are still to fail. *)
Definition is_failure (o : Outcome) : bool := match o with Fails _ _ _ => true | _ => false end.
Definition failures (w : World) : nat := length (List.filter is_failure (w_script w)).

Lemma sys_failures {A} partial (op : Tree -> Tree * result IoError A) w w' r :
  sys partial op w = (w', r) -> failures w' <= failures w.
Proof.
  unfold sys, failures. destruct (w_script w) as [|[| |] rest];
    try destruct (op _) as [t' r']; intros [= <- _]; simpl; rewrite ?drop_0; lia.
Qed.

Lemma keeps_failures_sys {A} partial (op : Tree -> Tree * result IoError A) k :
  keeps (fun w => failures w <= k) (sys partial op).
Proof. intros w w' r Hw Hr%sys_failures. lia. Qed.

(** An error is a failure or one of the operation, on a tree that another process may
    have added to. *)
Lemma sys_error {A} partial (op : Tree -> Tree * result IoError A) w w' e :
  sys partial op w = (w', Err e) ->
  failures w' < failures w \/ (op (w_tree w)).2 = Err e \/
  exists p d m, (op (race p d m (w_tree w))).2 = Err e.
Proof.
  unfold sys, failures. destruct (w_script w) as [|[| |p d m] rest]; simpl.
  - right; left. by destruct (op _) as [t' r']; simplify_eq/=.
  - right; left. by destruct (op _) as [t' r']; simplify_eq/=.
  - intros [= <- _]. left. simpl. lia.
  - intros Hr. right; right. exists p, d, m. by destruct (op _) as [t' r']; simplify_eq/=.
Qed.
