(* ===== verification/Atomic.v ===== *)
(** * Files that appear at once

    A file that is written under a temporary name and then moved to its path: at every
    moment the path has the old file, one that another process created, or the complete
    new one. The installation of setup and the import of the state file are such. *)

From Stdlib Require Import ZArith Lia Ascii.
From stdpp Require Import base gmap strings list option.
From S2P Require Import Prelude RustStr Output RustPath Io.

Lemma path_exists_present (t : Tree) p : path_exists t p = true -> t !! p <> None.
Proof.
  unfold path_exists, resolve. simpl. destruct (t !! p) eqn:Hp; [done|].
  case_bool_decide as Hs; [|done]. rewrite Hp in Hs. by destruct Hs.
Qed.

Lemma private_temp `{TempNames} dir t :
  private_path (fresh_path (path_join dir TEMP_PREFIX) t) = true.
Proof.
  destruct (fresh_path_prefix (path_join dir TEMP_PREFIX) t) as [suffix ->].
  unfold private_path. apply orb_true_iff. left. apply contains_true. unfold path_join. simpl.
  destruct (is_empty dir || ends_with "/" dir); [by exists dir, suffix; rewrite append_assoc|].
  exists (dir +:+ "/"), suffix. by rewrite !append_assoc.
Qed.

Section Atomic.
Context `{TempNames} (path contents : string) (mode : N) (script : list Outcome) (t0 : Tree)
  (base : list Tree).
Hypothesis Hpath : private_path path = false.

Definition races_in (p d : string) (m : N) : Prop := Races p d m ∈ script.

(** The file is still the old one, or one that another process created. *)
Definition pending (t : Tree) : Prop :=
  t !! path = t0 !! path \/
  exists data mode, races_in path data mode /\ t !! path = Some (NFile data mode).
(** Or it is the complete new one. *)
Definition whole (t : Tree) : Prop :=
  pending t \/ t !! path = Some (NFile contents mode).

Abbreviation before Q := (moments base races_in pending Q).
Abbreviation later Q := (moments base races_in whole Q).

Lemma pending_same t t' : t' !! path = t !! path -> pending t -> pending t'.
Proof. unfold pending. by intros ->. Qed.
Lemma whole_same t t' : t' !! path = t !! path -> whole t -> whole t'.
Proof. unfold whole, pending. by intros ->. Qed.

Lemma pending_race p d m t : races_in p d m -> pending t -> pending (race p d m t).
Proof.
  intros Hr Hw. destruct (race_lookup p d m t path) as [He|(-> & _ & _ & He)];
    [by eapply pending_same|]. right. eauto.
Qed.

Lemma stable_pending (Q : Tree -> Prop) :
  (forall p d m t, Q t -> Q (race p d m t)) -> stable races_in pending Q.
Proof. intros HQ p d m t Hr HP Ht. split; [by apply pending_race|by apply HQ]. Qed.

Lemma stable_whole (Q : Tree -> Prop) :
  (forall p d m t, Q t -> Q (race p d m t)) -> stable races_in whole Q.
Proof.
  intros HQ p d m t Hr HP Ht. split; [|by apply HQ]. destruct HP as [HP|HP].
  - left. by apply pending_race.
  - right. rewrite race_present; [done|]. by rewrite HP.
Qed.

Lemma before_mkdir m d : d <> path -> keeps (before whatever) (mkdir m d).
Proof.
  intros Hd. apply keeps_sys; [by apply stable_pending|done|]. intros t HP _.
  destruct (t !! d); simpl; [done|]. split; [|done].
  eapply pending_same; [|exact HP]. by rewrite lookup_insert_ne.
Qed.

Lemma before_create_dir_all m dir :
  String.length dir < String.length path -> keeps (before whatever) (create_dir_all m dir).
Proof.
  intros Hd. unfold create_dir_all. apply keeps_iter. intros d Hin%ancestors_shorter.
  assert (d <> path) by (intros ->; lia). pose proof (before_mkdir m d). io_keeps.
Qed.

Section Temp.
Context (temp : string).
Hypothesis (Htemp : private_path temp = true) (Hne : temp <> path).
Abbreviation holds d m := (before (fun t => t !! temp = Some (NFile d m))).

Lemma stable_temp d m :
  stable races_in pending (fun t => t !! temp = Some (NFile d m)).
Proof. apply stable_pending. intros p d' m' t Ht. by rewrite race_private. Qed.

(** A change of the temporary file. *)
Lemma alter_temp f d m d' m' :
  f (NFile d m) = NFile d' m' ->
  forall t, pending t -> t !! temp = Some (NFile d m) ->
    pending (alter f temp t) /\ alter f temp t !! temp = Some (NFile d' m').
Proof.
  intros Hf t HP Ht. split.
  - eapply pending_same; [|exact HP]. by rewrite lookup_alter_ne.
  - by rewrite lookup_alter_eq, Ht; simpl; f_equal.
Qed.

Lemma temp_permissions d m m' :
  hoare (holds d m) (set_permissions temp m')
    (fun r => before (after (fun _ t => t !! temp = Some (NFile d m')) r)).
Proof.
  apply hoare_sys; [apply stable_temp|done|]. intros t HP Ht. simpl. by eapply alter_temp.
Qed.
Lemma temp_write d m data :
  hoare (holds d m) (write_all temp data)
    (fun r => before (after (fun _ t => t !! temp = Some (NFile (d +:+ data) m)) r)).
Proof.
  apply hoare_sys; [apply stable_temp|..]; intros; unfold append_data; simpl; by eapply alter_temp.
Qed.
Lemma temp_flush d m :
  hoare (holds d m) flush_file (fun r => before (after (fun _ t => t !! temp = Some (NFile d m)) r)).
Proof. apply hoare_sys; [apply stable_temp|done|]. intros t HP Ht. done. Qed.

(** The file appears at its path in one step. *)
Definition persisted (r : result IoError unit) (t : Tree) : Prop :=
  match r with
  | Ok _ => t !! path = Some (NFile contents mode)
  | Err e => io_kind e = AlreadyExists -> t !! path <> None
  end.

Lemma temp_persist :
  hoare (holds contents mode) (persist_temp temp path)
    (fun r => moments base races_in (if is_ok r then whole else pending) (persisted r)).
Proof.
  apply hoare_sys_turn; [apply stable_temp|by left|done|by intros ? ? ? [-> | ->]|].
  intros t HP Ht. rewrite Ht.
  destruct (t !! path) as [[]|] eqn:Hp; simpl; rewrite ?Hp, ?lookup_insert_eq; try done;
    (split; [right; apply lookup_insert_eq|done]).
Qed.

Lemma temp_persist_new :
  hoare (holds contents mode) (persist_new temp path)
    (fun r => moments base races_in (if is_ok r then whole else pending) (persisted r)).
Proof.
  apply hoare_sys_turn; [apply stable_temp|by left|done|by intros ? ? ? [-> | ->]|].
  intros t HP Ht. rewrite Ht.
  destruct (t !! path) as [n|] eqn:Hp; simpl; rewrite ?Hp, ?lookup_insert_eq; [done|].
  split; [right; apply lookup_insert_eq|done].
Qed.

End Temp.

Lemma temp_create temp :
  temp <> path -> hoare (before whatever) (create_new 384 temp)
    (fun r => before (after (fun _ t => t !! temp = Some (NFile "" 384)) r)).
Proof.
  intros Hne. apply hoare_sys; [by apply stable_pending|done|]. intros t HP _.
  destruct (t !! temp) eqn:Ht; simpl; [done|]. rewrite lookup_insert_eq. split; [|done].
  eapply pending_same; [|exact HP]. by rewrite lookup_insert_ne.
Qed.

(** A program [body] on a temporary file, whose end [Q] does not depend on that file. *)
Lemma hoare_with_temp {A} error dir (body : string -> IO anyhow A) (Q : Result A -> World -> Prop) :
  (forall text w, before whatever w -> Q (Err [error; text]) w) ->
  (forall temp r, temp <> path -> keeps (Q r) (remove_file temp)) ->
  (forall temp, private_path temp = true -> temp <> path ->
     hoare (before (fun t => t !! temp = Some (NFile "" 384))) (body temp) Q) ->
  hoare (before whatever) (with_temp error dir body) Q.
Proof.
  intros Herr Hrem Hbody. unfold with_temp. apply hoare_tree_bind.
  intros t. cbv zeta. set (temp := fresh_path _ t).
  assert (private_path temp = true) as Htemp by apply private_temp.
  assert (temp <> path) as Hne by (intros He; congruence).
  eapply (hoare_weaken (before whatever)); [|by intros w [Hw _]|exact (fun r w Hw => Hw)].
  eapply hoare_bind; [by apply hoare_ctx_error, temp_create| |intros e w [Hw [text ->]]; by apply Herr].
  intros []. intros w w' r Hw. unfold mbind, io_bind, try_io.
  destruct (body temp w) as [w1 r1] eqn:Hb.
  pose proof (Hbody temp Htemp Hne w w1 r1 Hw Hb) as Hi. unfold tree, lift.
  destruct (w_tree w1 !! temp); [|by intros [= <- <-]].
  destruct (remove_file temp w1) as [w2 r2] eqn:Hr. intros [= <- <-].
  by eapply Hrem.
Qed.

(** How a file comes to its path: [Ok true] if it was moved there, [Ok false] if
    something was there already. *)
Definition placed_at (r : Result bool) : World -> Prop :=
  match r with
  | Ok true => later (fun t => t !! path = Some (NFile contents mode))
  | Ok false => before (fun t => t !! path <> None)
  | Err _ => before whatever
  end.

Lemma placed_remove (r : Result bool) temp : temp <> path -> keeps (placed_at r) (remove_file temp).
Proof.
  intros Hne.
  assert (forall t : Tree, delete temp t !! path = t !! path) as Hd
    by (intros t; by apply lookup_delete_ne).
  destruct r as [[]|e]; simpl; apply keeps_sys;
    try (apply stable_whole || apply stable_pending; intros p d m t Ht; unfold whatever;
         rewrite ?race_present; rewrite ?Ht; done);
    try done; intros t HP HQ; destruct (t !! temp) as [[]|]; simpl; try done;
    (split; [eapply whole_same || eapply pending_same; [apply Hd|exact HP]|by rewrite ?Hd]).
Qed.
End Atomic.
