(* ===== verification/ImportState.v ===== *)
(** * Import of the state file

    [default_state_path] of [src/cmd/montray-ui/src/persistence.rs] and what it calls:
    the state of the former application is copied to the new name, and kept in a legacy
    copy when it is from before version 1. The code runs on the file tree of [Io], where
    any call may fail, and other processes may create files at any moment. *)

From Stdlib Require Import ZArith Lia Ascii.
From stdpp Require Import base gmap strings list option.
From S2P Require Import Prelude RustStr Output RustPath Protocol StateFile Persistence Io Atomic.

Section StateImporting.
Context `{TempNames} `{C : JsonCodec}.

(** ** The operations *)

Definition copy_body (data destination temporary : string) : IO anyhow bool :=
  _ ← ctx "failed to set state-file permissions" (set_permissions temporary owner_only);
  _ ← ctx "failed to copy legacy state into temporary file" (write_all temporary data);
  _ ← ctx "failed to flush temporary legacy state file" flush_file;
  _ ← ctx "failed to sync temporary legacy state file" flush_file;
  r ← try_io (persist_new temporary destination);
  match r with
  | Ok _ => mret true
  | Err e =>
      if bool_decide (io_kind e = AlreadyExists) then mret false
      else throw ["failed to preserve state at " +:+ to_string_lossy destination; io_text e]
  end.

Definition persist_copy_noclobber (data destination : string) : IO anyhow bool :=
  parent ← lift (opt_context "state filename has no parent directory" (path_parent destination));
  with_temp ("failed to create temporary state file in " +:+ to_string_lossy parent) parent
    (copy_body data destination).

Definition copy_renamed_state (source destination : string) : IO anyhow bool :=
  t ← tree;
  if path_exists t destination then mret false
  else
    r ← try_io (read_bytes source);
    match r with
    | Ok data => persist_copy_noclobber data destination
    | Err e =>
        if bool_decide (io_kind e = NotFound) then mret false
        else throw ["failed to read former state file " +:+ to_string_lossy source; io_text e]
    end.

(** Whether a document is from before version 1. *)
Definition is_legacy_state (source : string) (v : Value) : Result bool :=
  match v with
  | VObject entries =>
      match lookup_entry "schema_version" entries with
      | None => Ok true
      | Some (VNumber (PosInt n)) => Ok (n <? 1)%N
      | Some _ => bail "state schema_version is not a non-negative integer"
      end
  | _ => bail ("state file for migration is not a JSON object: " +:+ to_string_lossy source)
  end.

Definition inspect (source data : string) : Result bool :=
  v ← with_context ("failed to inspect state file for migration " +:+ to_string_lossy source)
        (json_from_slice data);
  is_legacy_state source v.

Definition preserve_legacy_state (source legacy_path : string) : IO anyhow bool :=
  t ← tree;
  if path_exists t legacy_path then mret false
  else
    r ← try_io (read_bytes source);
    match r with
    | Ok data =>
        is_legacy ← lift (inspect source data);
        if negb is_legacy then mret false else persist_copy_noclobber data legacy_path
    | Err e =>
        if bool_decide (io_kind e = NotFound) then mret false
        else throw ["failed to read state file for migration " +:+ to_string_lossy source; io_text e]
    end.

Definition default_state_path (home : option string) : IO anyhow string :=
  home ← lift (opt_context "could not determine the user home directory" home);
  let state_path := path_join home STATE_FILENAME in
  let former_path := path_join home FORMER_STATE_FILENAME in
  let legacy_path := path_join home LEGACY_STATE_FILENAME in
  t ← tree;
  if path_exists t state_path then mret state_path
  else
    _ ← preserve_legacy_state former_path legacy_path;
    _ ← copy_renamed_state former_path state_path;
    mret state_path.

(** ** No file is replaced *)

Section Undisturbed.
Context (base : list Tree) (allowed : string -> Prop) (t0 : Tree).
Abbreviation inv := (moments base anything (unchanged allowed t0) whatever).

Lemma keeps_persist_copy data destination : keeps inv (persist_copy_noclobber data destination).
Proof.
  unfold persist_copy_noclobber. apply keeps_bind; [apply keeps_lift|intros parent].
  apply keeps_with_temp. intros temp Htemp. unfold copy_body. io_keeps.
Qed.

Lemma keeps_preserve source legacy : keeps inv (preserve_legacy_state source legacy).
Proof. pose proof keeps_persist_copy. unfold preserve_legacy_state. io_keeps. Qed.

Lemma keeps_copy_renamed source destination : keeps inv (copy_renamed_state source destination).
Proof. pose proof keeps_persist_copy. unfold copy_renamed_state. io_keeps. Qed.

Lemma keeps_default_state_path home : keeps inv (default_state_path home).
Proof.
  pose proof keeps_preserve. pose proof keeps_copy_renamed. unfold default_state_path. io_keeps.
Qed.
End Undisturbed.

(** ** One copy *)

Section Copy.
Context (path data : string) (script : list Outcome) (t0 : Tree) (base : list Tree).
Hypothesis Hpath : private_path path = false.
Abbreviation before Q := (moments base (races_in script) (pending path script t0) Q).
Abbreviation copied := (placed_at path data owner_only script t0 base).

Lemma copy_body_placed temp :
  private_path temp = true -> temp <> path ->
  hoare (before (fun t => t !! temp = Some (NFile "" 384))) (copy_body data path temp) copied.
Proof.
  intros Htemp Hne. unfold copy_body.
  eapply hoare_bind; [by apply hoare_ctx, temp_permissions| |by intros e w Hw].
  intros []. eapply hoare_bind; [by apply hoare_ctx, temp_write| |by intros e w Hw].
  intros []. eapply hoare_bind; [by apply hoare_ctx, temp_flush| |by intros e w Hw].
  intros []. eapply hoare_bind; [by apply hoare_ctx, temp_flush| |by intros e w Hw].
  intros [] w w' r Hw. unfold mbind, io_bind, try_io.
  destruct (persist_new temp path w) as [w1 r1] eqn:H1.
  pose proof (temp_persist_new path data owner_only script t0 base temp Htemp _ _ _ Hw H1) as Hp.
  destruct r1 as [[]|e]; [by intros [= <- <-]|].
  simpl in Hp. case_bool_decide; intros [= <- <-]; simpl.
  - eapply moments_mono; [| |exact Hp]; [done|]. simpl. auto.
  - by eapply moments_whatever.
Qed.

Lemma persist_copy_placed : hoare (before whatever) (persist_copy_noclobber data path) copied.
Proof.
  unfold persist_copy_noclobber. apply hoare_lift; [|by intros e w _ Hw]. intros parent _.
  apply hoare_with_temp; [done|by intros e w Hw| |].
  - intros temp r Hne. by apply placed_remove.
  - intros temp Htemp Hne. by apply copy_body_placed.
Qed.

(** Reading changes nothing. *)
Lemma before_read source : keeps (before whatever) (read_bytes source).
Proof. apply keeps_sys; [by apply stable_pending|done|done]. Qed.
End Copy.

(** A copy to another path. [P] and [Q] are about what is at [path]. *)
Section Elsewhere.
Context (path : string) (base : list Tree) (ok : string -> string -> N -> Prop) (P Q : Tree -> Prop).
Hypothesis (Hpath : private_path path = false) (Hstable : stable ok P Q).
Hypothesis Hlocal : forall t t', t' !! path = t !! path -> P t -> Q t -> P t' /\ Q t'.

Lemma keeps_elsewhere {A} partial (op : Tree -> Tree * result IoError A) :
  (forall data t, partial data t !! path = t !! path) ->
  (forall t, (op t).1 !! path = t !! path) -> keeps (moments base ok P Q) (sys partial op).
Proof.
  intros Hp Ho. apply keeps_sys; [done|intros data t|intros t]; intros HP HQ; by apply (Hlocal t).
Qed.

Lemma elsewhere_read source : keeps (moments base ok P Q) (read_bytes source).
Proof. by apply keeps_elsewhere. Qed.

Lemma elsewhere_copy data destination :
  destination <> path -> keeps (moments base ok P Q) (persist_copy_noclobber data destination).
Proof.
  intros Hne. unfold persist_copy_noclobber, with_temp. apply keeps_bind; [apply keeps_lift|].
  intros parent. apply keeps_bind; [apply keeps_tree|]. intros t. cbv zeta.
  set (temp := fresh_path _ t).
  assert (private_path temp = true) as Hpriv by apply private_temp.
  assert (temp <> path) as Htemp by (intros He; congruence).
  assert (keeps (moments base ok P Q) (create_new 384 temp)).
  { apply keeps_elsewhere; [done|]. intros t'. destruct (t' !! temp); simpl; [done|].
    by rewrite lookup_insert_ne. }
  assert (forall m, keeps (moments base ok P Q) (set_permissions temp m)).
  { intros m. apply keeps_elsewhere; [done|]. intros t'. simpl. by rewrite lookup_alter_ne. }
  assert (keeps (moments base ok P Q) (write_all temp data)).
  { apply keeps_elsewhere; intros; unfold append_data; simpl; by rewrite lookup_alter_ne. }
  assert (keeps (moments base ok P Q) flush_file) by (by apply keeps_elsewhere).
  assert (keeps (moments base ok P Q) (persist_new temp destination)).
  { apply keeps_elsewhere; [done|]. intros t'. destruct (t' !! temp), (t' !! destination); simpl;
      try done. by rewrite lookup_insert_ne, lookup_delete_ne. }
  assert (keeps (moments base ok P Q) (remove_file temp)).
  { apply keeps_elsewhere; [done|]. intros t'. destruct (t' !! temp) as [[]|]; simpl; try done;
      by rewrite lookup_delete_ne. }
  unfold copy_body. io_keeps.
Qed.

Lemma elsewhere_preserve source legacy :
  legacy <> path -> keeps (moments base ok P Q) (preserve_legacy_state source legacy).
Proof.
  intros Hne. pose proof (elsewhere_read source). pose proof (fun d => elsewhere_copy d legacy Hne).
  unfold preserve_legacy_state. io_keeps.
Qed.

Lemma elsewhere_copy_renamed source destination :
  destination <> path -> keeps (moments base ok P Q) (copy_renamed_state source destination).
Proof.
  intros Hne. pose proof (elsewhere_read source). pose proof (fun d => elsewhere_copy d destination Hne).
  unfold copy_renamed_state. io_keeps.
Qed.
End Elsewhere.

(** ** The copies of a file that is there *)

Lemma read_source source data mode w w' r :
  w_tree w !! source = Some (NFile data mode) -> read_bytes source w = (w', r) ->
  match r with Ok text => text = data | Err e => io_kind e <> NotFound end.
Proof.
  intros Hs. assert (forall t : Tree, t !! source = Some (NFile data mode) ->
    read_node source t = Ok (data, mode)) as Hread.
  { intros t Ht. unfold read_node. rewrite resolve_not_link; [by rewrite Ht|]. by rewrite Ht. }
  assert (forall p d m, race p d m (w_tree w) !! source = Some (NFile data mode)) as Hrace
    by (intros; rewrite race_present; rewrite Hs; done).
  unfold read_bytes, sys. destruct (w_script w) as [|[|denied text written|p d m] rest];
    try rewrite Hread by (simpl; auto); intros [= <- <-]; simpl; try done.
  by destruct denied.
Qed.

Section Copies.
Context (source path data : string) (mode : N) (w : World).
Hypothesis (Hpath : private_path path = false).
Hypothesis (Hsource : w_tree w !! source = Some (NFile data mode)).
Context (script : list Outcome) (t0 : Tree) (base : list Tree).
Abbreviation before Q := (moments base (races_in script) (pending path script t0) Q).
Abbreviation copied := (placed_at path data owner_only script t0 base).
Abbreviation later :=
  (moments base (races_in script) (whole path data owner_only script t0) whatever).

Lemma existing_placed :
  before whatever w -> path_exists (w_tree w) path = true -> copied (Ok false) w.
Proof.
  intros Hw He. eapply moments_mono; [| |exact Hw]; [done|]. intros _. by apply path_exists_present.
Qed.

Lemma copy_renamed_run w' r :
  before whatever w -> copy_renamed_state source path w = (w', r) -> copied r w'.
Proof.
  intros Hw. unfold copy_renamed_state, mbind, io_bind, tree, try_io.
  destruct (path_exists (w_tree w) path) eqn:He; [intros [= <- <-]; by apply existing_placed|].
  destruct (read_bytes source w) as [w1 r1] eqn:H1.
  pose proof (before_read path script t0 base source _ _ _ Hw H1) as Hw1.
  pose proof (read_source _ _ _ _ _ _ Hsource H1) as Hr1. destruct r1 as [text|e].
  - subst text. intros Hr. by eapply (persist_copy_placed path data script t0 base Hpath).
  - rewrite bool_decide_false by done. by intros [= <- <-].
Qed.

Lemma before_later Q w1 : before Q w1 -> later w1.
Proof. intros Hw. eapply moments_mono; [| |exact Hw]; [by left|done]. Qed.

Lemma copied_later r w1 : copied r w1 -> later w1.
Proof.
  destruct r as [[]|e]; simpl; intros Hw; [by eapply moments_whatever|by eapply before_later..].
Qed.

(** Whether there is a copy depends on the document. *)
Lemma preserve_run w' r :
  before whatever w -> preserve_legacy_state source path w = (w', r) ->
  later w' /\ (inspect source data = Ok true -> copied r w').
Proof.
  intros Hw. unfold preserve_legacy_state, mbind, io_bind, tree, try_io, lift.
  destruct (path_exists (w_tree w) path) eqn:He.
  { intros [= <- <-]. split; [by eapply before_later|]. intros _. by apply existing_placed. }
  destruct (read_bytes source w) as [w1 r1] eqn:H1.
  pose proof (before_read path script t0 base source _ _ _ Hw H1) as Hw1.
  pose proof (read_source _ _ _ _ _ _ Hsource H1) as Hr1. destruct r1 as [text|e].
  2: { rewrite bool_decide_false by done. intros [= <- <-]. split; [by eapply before_later|done]. }
  subst text. destruct (inspect source data) as [[]|e]; simpl.
  - intros Hr. pose proof (persist_copy_placed path data script t0 base Hpath _ _ _ Hw1 Hr) as Hp.
    split; [by eapply copied_later|done].
  - intros [= <- <-]. split; [by eapply before_later|done].
  - intros [= <- <-]. split; [by eapply before_later|done].
Qed.
End Copies.

(** Without other processes, a success is the copy. *)
Lemma alone_copied path data script (t0 : Tree) base b w :
  (forall p d m, ~ races_in script p d m) -> t0 !! path = None ->
  placed_at path data owner_only script t0 base (Ok b) w ->
  w_tree w !! path = Some (NFile data owner_only).
Proof.
  intros Halone Hno. destruct b; simpl; [by intros (_ & Hq & _)|].
  intros ([Hp|(d & m & Hr & _)] & Hq & _); [congruence|by destruct (Halone path d m)].
Qed.

(** ** Success *)

Lemma calm_sys {A} partial (op : Tree -> Tree * result IoError A) w :
  w_script w = [] -> sys partial op w = (pass w (op (w_tree w)).1 [], (op (w_tree w)).2).
Proof. intros Hs. unfold sys. rewrite Hs. by destruct (op (w_tree w)). Qed.

(** With nothing that fails and no other process, a copy succeeds. *)
Lemma calm_copy data destination w :
  w_script w = [] -> private_path destination = false -> is_Some (path_parent destination) ->
  exists w' b, persist_copy_noclobber data destination w = (w', Ok b) /\ w_script w' = [].
Proof.
  intros Hs Hd [parent Hparent]. unfold persist_copy_noclobber, mbind, io_bind, lift.
  rewrite Hparent. cbn [opt_context]. unfold with_temp, mbind, io_bind, tree at 1.
  set (temp := fresh_path _ _).
  assert (w_tree w !! temp = None) as Hnew by (rewrite <-(append_nil_r temp); apply fresh_path_new).
  assert (private_path temp = true) as Hpriv by apply private_temp.
  assert (destination <> temp) as Hne by (intros He; congruence).
  unfold ctx at 1, create_new. rewrite calm_sys, Hnew by done. cbn [fst snd].
  unfold try_io at 1, copy_body, mbind, io_bind, ctx, set_permissions, write_all, flush_file,
    try_io, persist_new, append_data.
  rewrite !calm_sys by done. cbn [fst snd pass w_tree].
  rewrite !lookup_alter_eq, lookup_insert_eq, !lookup_alter_ne, lookup_insert_ne by done.
  destruct (w_tree w !! destination) as [n|]; simpl.
  - rewrite !lookup_alter_eq, lookup_insert_eq. cbn [fmap option_fmap option_map].
    unfold remove_file. rewrite calm_sys by done. by eexists _, _.
  - rewrite lookup_insert_ne, lookup_delete_eq by done. by eexists _, _.
Qed.

Lemma calm_read source data mode w :
  w_script w = [] -> w_tree w !! source = Some (NFile data mode) ->
  read_bytes source w = (pass w (w_tree w) [], Ok data).
Proof.
  intros Hs Hf. unfold read_bytes. rewrite calm_sys by done. simpl. unfold read_node.
  rewrite resolve_not_link by (by rewrite Hf). by rewrite Hf.
Qed.

Lemma calm_preserve source legacy data mode w :
  w_script w = [] -> private_path legacy = false -> is_Some (path_parent legacy) ->
  w_tree w !! source = Some (NFile data mode) -> is_ok (inspect source data) = true ->
  exists w' b, preserve_legacy_state source legacy w = (w', Ok b) /\ w_script w' = [].
Proof.
  intros Hs Hl Hparent Hf Hi. unfold preserve_legacy_state, mbind, io_bind, tree, try_io, lift.
  destruct (path_exists (w_tree w) legacy) eqn:He; [by eexists _, _|].
  rewrite (calm_read _ data mode) by done. destruct (inspect source data) as [[]|]; [|by eexists _, _|done].
  simpl. apply calm_copy; done.
Qed.

Lemma calm_copy_renamed source destination data mode w :
  w_script w = [] -> private_path destination = false -> is_Some (path_parent destination) ->
  w_tree w !! source = Some (NFile data mode) ->
  is_ok (copy_renamed_state source destination w).2 = true.
Proof.
  intros Hs Hd Hparent Hf. unfold copy_renamed_state, mbind, io_bind, tree, try_io.
  destruct (path_exists (w_tree w) destination); [done|]. rewrite (calm_read _ data mode) by done.
  by destruct (calm_copy data destination (pass w (w_tree w) [])) as (w' & b & -> & _).
Qed.

(** ** The import *)

Section Whole.
Context (home data : string) (mode : N) (w w' : World) (r : Result string).
Abbreviation state_path := (path_join home STATE_FILENAME).
Abbreviation former_path := (path_join home FORMER_STATE_FILENAME).
Abbreviation legacy_path := (path_join home LEGACY_STATE_FILENAME).
Hypothesis (Hstate : private_path state_path = false) (Hlegacy : private_path legacy_path = false).
Hypothesis Hformer : w_tree w !! former_path = Some (NFile data mode).
Hypothesis Hnone : w_tree w !! state_path = None.
Hypothesis Hrun : default_state_path (Some home) w = (w', r).
Hypothesis Hpast : w_past w = [].

Lemma state_not_legacy : state_path <> legacy_path.
Proof. by apply (path_join_ne 13). Qed.

Abbreviation ok := (races_in (w_script w)).
Abbreviation wholly path := (whole path data owner_only (w_script w) (w_tree w)).

Lemma import_start path : moments [] ok (pending path (w_script w) (w_tree w)) whatever w.
Proof.
  rewrite <-Hpast. apply moments_begin; [by left|]. apply list.Forall_forall. by intros [] Hin.
Qed.

Lemma former_kept w1 r1 :
  preserve_legacy_state former_path legacy_path w = (w1, r1) ->
  w_tree w1 !! former_path = Some (NFile data mode).
Proof.
  intros H1. assert (moments [] anything (unchanged nowhere (w_tree w)) whatever w) as Hu.
  { rewrite <-Hpast. apply moments_begin; [apply unchanged_start|apply script_anything]. }
  destruct (keeps_preserve [] nowhere (w_tree w) former_path legacy_path _ _ _ Hu H1) as [Hu1 _].
  by apply Hu1; [|intros []].
Qed.

Lemma import_steps :
  moments [] ok (wholly state_path) whatever w' /\ moments [] ok (wholly legacy_path) whatever w' /\
  (is_ok r = true -> r = Ok state_path /\ (exists b, placed_at state_path data owner_only
     (w_script w) (w_tree w) [] (Ok b) w') /\
   (inspect former_path data = Ok true -> (forall p d m, ~ ok p d m) ->
      w_tree w !! legacy_path = None -> w_tree w' !! legacy_path = Some (NFile data owner_only))).
Proof.
  revert Hrun. unfold default_state_path, mbind, io_bind, lift, tree. simpl.
  destruct (path_exists (w_tree w) state_path) eqn:He;
    [by apply path_exists_present in He|].
  destruct (preserve_legacy_state former_path legacy_path w) as [w1 r1] eqn:H1.
  destruct (preserve_run former_path legacy_path data mode w Hlegacy Hformer _ _ _ _ _
    (import_start legacy_path) H1) as [Hl1 Hc1].
  pose proof (elsewhere_preserve state_path [] ok (pending state_path (w_script w) (w_tree w)) whatever
    Hstate) as Hs1.
  assert (moments [] ok (pending state_path (w_script w) (w_tree w)) whatever w1) as Hp1.
  { eapply Hs1; [..|exact (import_start state_path)|exact H1].
    - by apply stable_pending.
    - intros t t' Ht Hp _. split; [by eapply pending_same|done].
    - intros Heq. by apply state_not_legacy. }
  destruct r1 as [b1|e1].
  2: { intros [= <- <-]. split; [by eapply before_later|]. by split. }
  destruct (copy_renamed_state former_path state_path w1) as [w2 r2] eqn:H2.
  assert (w_tree w1 !! former_path = Some (NFile data mode)) as Hf1 by (by eapply former_kept).
  pose proof (copy_renamed_run former_path state_path data mode w1 Hstate Hf1 _ _ _ _ _ Hp1 H2) as Hc2.
  assert (moments [] ok (wholly legacy_path) whatever w2) as Hl2.
  { eapply (elsewhere_copy_renamed legacy_path [] ok (wholly legacy_path) whatever Hlegacy);
      [by apply stable_whole| |apply state_not_legacy|exact Hl1|exact H2].
    intros t t' Ht Hw Hq. split; [by eapply whole_same|done]. }
  pose proof (copied_later _ _ _ _ _ _ _ Hc2) as Hs2.
  destruct r2 as [b2|e2]; intros [= <- <-]; (split; [done|]); (split; [done|]); [|done].
  intros _. split; [done|]. split; [by exists b2|]. intros Hi Halone Hno.
  pose proof (alone_copied _ _ _ _ _ _ _ Halone Hno (Hc1 Hi)) as Hl.
  eapply (elsewhere_copy_renamed legacy_path [] ok (wholly legacy_path)
    (fun t => t !! legacy_path = Some (NFile data owner_only)) Hlegacy);
    [| |apply state_not_legacy| |exact H2].
  - apply stable_whole. intros p d m t Ht. by rewrite race_present; rewrite Ht.
  - intros t t' Ht Hw Hq. split; [by eapply whole_same|congruence].
  - eapply moments_mono; [| |exact Hl1]; done.
Qed.

Lemma joined_parent name :
  starts_with "/" name = false -> 1 < String.length name -> is_Some (path_parent (path_join home name)).
Proof.
  intros Hn Hl. destruct (path_join_ends home name Hn) as [before ->]. unfold path_parent.
  assert (1 < String.length (before +:+ name)) as Hlen by (rewrite length_append; lia).
  destruct (is_empty (before +:+ name)) eqn:He; [apply is_empty_true in He; rewrite He in Hlen; simpl in Hlen; lia|].
  case_bool_decide as Hr; [rewrite Hr in Hlen; simpl in Hlen; lia|]. simpl.
  by destruct (rsplit_once "/" (before +:+ name)) as [[]|].
Qed.

Lemma import_calm :
  w_script w = [] -> is_ok (inspect former_path data) = true -> is_ok r = true.
Proof.
  intros Hs Hi. revert Hrun. unfold default_state_path, mbind, io_bind, lift, tree. simpl.
  destruct (path_exists (w_tree w) state_path); [by intros [= _ <-]|].
  destruct (calm_preserve former_path legacy_path data mode w Hs Hlegacy) as (w1 & b & H1 & Hs1);
    [by apply joined_parent; [|simpl; lia]|done..|]. rewrite H1.
  assert (w_tree w1 !! former_path = Some (NFile data mode)) as Hf1 by (by eapply former_kept).
  pose proof (calm_copy_renamed former_path state_path data mode w1 Hs1 Hstate) as Hc.
  destruct (copy_renamed_state former_path state_path w1) as [w2 [b2|e2]]; intros [= _ <-]; [done|].
  apply Hc; [by apply joined_parent; [|simpl; lia]|done].
Qed.
End Whole.
End StateImporting.

(** ** Properties *)

(** C29: Importing the state of the former application never harms a file. At no moment,
    whatever call fails, whatever other processes create and wherever the process is
    killed, is anything that was there changed. If there is a former state and no new
    one, then at every moment the new state file and the legacy copy are absent, or what
    was there or another process put there, or complete copies of the former state with
    mode 0600. If no other process interferes, a success leaves the new state, and the legacy
    copy too when the former state is from before version 1; and if no call fails, the
    import of a well-formed document does succeed. *)
Theorem import_preserves `{TempNames} `{C : JsonCodec} (home : string) (w w' : World)
    (r : Result string) :
  let state_path := path_join home STATE_FILENAME in
  let former_path := path_join home FORMER_STATE_FILENAME in
  let legacy_path := path_join home LEGACY_STATE_FILENAME in
  w_past w = [] -> default_state_path (Some home) w = (w', r) ->
  (forall t p n, moment w' t -> w_tree w !! p = Some n -> t !! p = Some n) /\
  forall data mode, private_path state_path = false -> private_path legacy_path = false ->
  w_tree w !! former_path = Some (NFile data mode) -> w_tree w !! state_path = None ->
  (forall t p, moment w' t -> p = state_path \/ p = legacy_path ->
     t !! p = w_tree w !! p \/
     (exists d m, Races p d m ∈ w_script w /\ t !! p = Some (NFile d m)) \/
     t !! p = Some (NFile data 384)) /\
  ((forall p d m, Races p d m ∉ w_script w) -> is_ok r = true ->
     r = Ok state_path /\ w_tree w' !! state_path = Some (NFile data 384) /\
     (inspect former_path data = Ok true -> w_tree w !! legacy_path = None ->
        w_tree w' !! legacy_path = Some (NFile data 384))) /\
  (w_script w = [] -> is_ok (inspect former_path data) = true -> is_ok r = true).
Proof.
  intros state_path former_path legacy_path Hpast Hrun. split.
  { intros t p n Ht Hp. eapply (unchanged_moments _ nowhere); [|done|exact Hrun|exact Ht|exact Hp|by intros []].
    apply keeps_default_state_path. }
  intros data mode Hs Hl Hf Hno.
  destruct (import_steps home data mode w w' r Hs Hl Hf Hno Hrun Hpast) as (Hs1 & Hl1 & Hok).
  split; [|split].
  - intros t p Ht [-> | ->]; [pose proof (moments_at _ _ _ _ _ Hs1 Ht) as [[]|]
      |pose proof (moments_at _ _ _ _ _ Hl1 Ht) as [[]|]]; auto.
  - intros Halone Hr. destruct (Hok Hr) as (-> & (b & Hb) & Hlegacy). split; [done|].
    split; [by eapply alone_copied|]. intros Hi. by apply Hlegacy.
  - by eapply import_calm.
Qed.

(** A format in which every text is the empty object. *)
Definition blank_codec : JsonCodec :=
  {| to_writer_pretty _ := "{}"; json_from_slice _ := Ok (VObject []); printable v := v = VObject [] |}.

Definition former_world : World :=
  world_of [("/h", NDir 493); ("/h/.salmon-watch-state.json", NFile "{}" 420)] [].

Lemma import_preserves_witness :
  exists w', default_state_path (C := blank_codec) (Some "/h") former_world =
      (w', Ok "/h/.montray-state.json") /\
    w_tree w' !! "/h/.montray-state.json" = Some (NFile "{}" owner_only) /\
    w_tree w' !! "/h/.salmon-watch-legacy-state.json" = Some (NFile "{}" owner_only).
Proof.
  destruct (default_state_path (C := blank_codec) (Some "/h") former_world) as [w' r] eqn:Hrun.
  destruct (import_preserves (C := blank_codec) "/h" former_world w' r eq_refl Hrun) as [_ H].
  destruct (H "{}" 420%N eq_refl eq_refl eq_refl eq_refl) as (_ & H1 & H2).
  destruct H1 as (-> & H3 & H4); [intros p d m Hin; inversion Hin|by apply H2|].
  exists w'. split; [reflexivity|]. split; [exact H3|]. by apply H4.
Defined.
