(* ===== verification/Store.v ===== *)
(** * The store on the file tree

    [load], [save] and the transactions of [Store] in
    [src/cmd/montray-ui/src/persistence.rs], on the file tree of [Io]: every system call
    may fail, with part of its data written, other processes create files, and the text
    goes through a buffered writer that is flushed once more when it is dropped. The
    sequence of file-system states of [Persistence] is the specification: the file at the
    store's path goes through the same versions, and an error is one of its faults. *)

From Stdlib Require Import ZArith Lia Ascii.
From stdpp Require Import base gmap strings list option.
From S2P Require Import Prelude RustStr Output RustPath Protocol StateFile Persistence Io Atomic.

(** ** The buffered writer *)

(** The pieces in which the serializer hands over its text. *)
Class JsonChunks (C : JsonCodec) := {
  json_chunks : Value -> list string;
  json_chunks_text (v : Value) : String.concat "" (json_chunks v) = to_writer_pretty v;
}.

(** [BufWriter::new]: eight kibibytes. *)
Definition BUF_CAPACITY : N := 8192.
Definition len (s : string) : N := N.of_nat (String.length s).

(** How many bytes a file has. *)
Definition file_len (t : Tree) (path : string) : nat :=
  match t !! path with Some (NFile data _) => String.length data | _ => 0 end.

(** Writes the buffer out. What was written of it before a failure is not written
    again. The result is the buffer that is left, and the outcome. *)
Definition flush_buf (path buf : string) : IO anyhow (string * result IoError unit) :=
  if is_empty buf then mret ("", Ok tt)
  else
    before ← tree;
    r ← try_io (write_all path buf);
    after ← tree;
    mret (match r with
          | Ok _ => ("", Ok tt)
          | Err e => let written := file_len after path - file_len before path in
                     (String.substring written (String.length buf - written) buf, Err e)
          end).

(** [BufWriter::write_all]: a piece that fits is kept, a piece as large as the buffer
    goes to the file at once. *)
Definition buf_write (path data buf : string) : IO anyhow (string * result IoError unit) :=
  if (len data <? BUF_CAPACITY - len buf)%N then mret (buf +:+ data, Ok tt)
  else
    '(buf, r) ← if (BUF_CAPACITY - len buf <? len data)%N then flush_buf path buf
                else mret (buf, Ok tt);
    match r with
    | Err e => mret (buf, Err e)
    | Ok _ =>
        if (BUF_CAPACITY <=? len data)%N then
          r ← try_io (write_all path data); mret (buf, r)
        else mret (buf +:+ data, Ok tt)
    end.

Fixpoint buf_write_chunks (path : string) (chunks : list string) (buf : string)
    : IO anyhow (string * result IoError unit) :=
  match chunks with
  | [] => mret (buf, Ok tt)
  | chunk :: chunks =>
      '(buf, r) ← buf_write path chunk buf;
      match r with
      | Ok _ => buf_write_chunks path chunks buf
      | Err e => mret (buf, Err e)
      end
  end.

(** [BufWriter::flush]. *)
Definition buf_flush (path buf : string) : IO anyhow (string * result IoError unit) :=
  '(buf, r) ← flush_buf path buf;
  match r with
  | Ok _ => r ← try_io flush_file; mret (buf, r)
  | Err e => mret (buf, Err e)
  end.

(** [.context(c)?] inside the writer's scope: an error drops the writer, which tries to
    write the rest of the buffer and ignores the failure to do so. *)
Definition or_drop (path c : string) (m : IO anyhow (string * result IoError unit))
    : IO anyhow string :=
  '(buf, r) ← m;
  match r with
  | Ok _ => mret buf
  | Err e => _ ← flush_buf path buf; throw [c; io_text e]
  end.

(** ** The operations *)

Section Store.
Context `{TempNames} `{C : JsonCodec} `{!JsonChunks C} (state_error : string).

(** [Store::load]. *)
Definition store_load (path : string) : IO anyhow StateFile :=
  r ← try_io (read_bytes path);
  match r with
  | Ok data =>
      lift (with_context ("failed to parse state file " +:+ to_string_lossy path)
              (parse_state state_error data))
  | Err e =>
      if bool_decide (io_kind e = NotFound) then mret StateFile_default
      else throw ["failed to read state file " +:+ to_string_lossy path; io_text e]
  end.

Definition write_state (temporary : string) (state : StateFile) : IO anyhow unit :=
  buf ← or_drop temporary "failed to encode state file"
          (buf_write_chunks temporary (json_chunks (state_value state)) "");
  buf ← or_drop temporary "failed to finish state file" (buf_write temporary newline buf);
  _ ← or_drop temporary "failed to flush state file" (buf_flush temporary buf);
  mret tt.

Definition save_body (path : string) (state : StateFile) (temporary : string) : IO anyhow unit :=
  _ ← ctx "failed to set state-file permissions" (set_permissions temporary owner_only);
  _ ← write_state temporary state;
  _ ← ctx "failed to sync state file" flush_file;
  ctx ("failed to replace state file " +:+ to_string_lossy path) (persist_temp temporary path).

Definition store_save (path : string) (state : StateFile) : IO anyhow unit :=
  parent ← lift (opt_context "state filename has no parent directory" (path_parent path));
  with_temp ("failed to create temporary state file in " +:+ to_string_lossy parent) parent
    (save_body path state).

(** [Store::update]. *)
Definition store_update (path : string) (change : StateFile -> Result StateFile)
    : IO anyhow unit :=
  state ← store_load path;
  state ← lift (change state);
  store_save path state.

(** The transactions of all clones, in the order in which they get the lock. *)
Fixpoint store_updates (path : string) (changes : list (StateFile -> Result StateFile))
    (w : World) : World * list (Result unit) :=
  match changes with
  | [] => (w, [])
  | change :: changes =>
      let '(w, r) := store_update path change w in
      let '(w, rs) := store_updates path changes w in
      (w, r :: rs)
  end.
End Store.

(** ** One version after another *)

(** The regular files of a tree, as the specification has them. *)
Definition files_of (t : Tree) : FS :=
  omap (fun n => match n with NFile data mode => Some {| f_data := data; f_mode := mode |}
                 | _ => None end) t.

Lemma files_of_same (path : string) (t t' : Tree) :
  t' !! path = t !! path -> files_of t' !! path = files_of t !! path.
Proof. intros Ht. unfold files_of. by rewrite !lookup_omap, Ht. Qed.

Section SaveLemmas.
Context `{TempNames} `{C : JsonCodec} `{!JsonChunks C}.
Context (path : string) (script : list Outcome) (t0 : Tree) (base : list Tree).
Hypothesis Hpath : private_path path = false.
Abbreviation before Q := (moments base (races_in script) (pending path script t0) Q).

Lemma before_whatever Q w : before Q w -> before whatever w.
Proof. apply moments_whatever. Qed.

Section Buffer.
Context (temp : string).
Hypothesis (Htemp : private_path temp = true) (Hne : temp <> path).

(** Of [total], all is in the file but what the buffer holds. *)
Definition written (total buf : string) (t : Tree) : Prop :=
  exists data, t !! temp = Some (NFile data owner_only) /\ data +:+ buf = total.

(** What an operation of the writer leaves, of the buffer and the tree. *)
Definition buffered (R : string -> Tree -> Prop) (r : Result (string * result IoError unit))
    (w : World) : Prop :=
  match r with
  | Ok (buf, Ok _) => before (R buf) w
  | Ok (_, Err _) => before whatever w
  | Err _ => False
  end.
Definition flushed (total buf : string) (t : Tree) : Prop := buf = "" /\ written total "" t.

Lemma hoare_written {E A} total buf (m : IO E A) Q :
  (forall data, data +:+ buf = total ->
     hoare (before (fun t => t !! temp = Some (NFile data owner_only))) m Q) ->
  hoare (before (written total buf)) m Q.
Proof.
  intros Hm w w' r Hw. pose proof Hw as (_ & (data & Hd & Htotal) & _).
  apply (Hm data Htotal). by eapply moments_mono; [..|exact Hw].
Qed.

(** The whole buffer is written out. *)
Lemma hoare_write_out total buf :
  hoare (before (written total buf)) (write_all temp buf)
    (fun r => before (after (fun _ => written total "") r)).
Proof.
  apply hoare_written. intros data <-.
  eapply hoare_weaken; [by apply temp_write|done|]. intros r w Hw.
  eapply moments_mono; [done| |exact Hw]. destruct r; [|done].
  intros Ht. eexists. by rewrite append_nil_r.
Qed.

Lemma hoare_flush_buf total buf :
  hoare (before (written total buf)) (flush_buf temp buf) (buffered (flushed total)).
Proof.
  unfold flush_buf. destruct (is_empty buf) eqn:He.
  { apply is_empty_true in He as ->. intros w w' r Hw [= <- <-].
    eapply moments_mono; [done| |exact Hw]. by split. }
  intros w w' r Hw. unfold mbind, io_bind, tree, try_io.
  destruct (write_all temp buf w) as [w1 r1] eqn:H1. intros [= <- <-].
  pose proof (hoare_write_out total buf w w1 r1 Hw H1) as Hw1.
  destruct r1 as [[]|e]; [|exact Hw1]. eapply moments_mono; [done| |exact Hw1]. by split.
Qed.

(** Trying to write out the rest does no harm. *)
Lemma keeps_flush_buf buf : keeps (before whatever) (flush_buf temp buf).
Proof.
  assert (keeps (before whatever) (write_all temp buf)).
  { apply keeps_sys; [by apply stable_pending|..]; intros; (split; [|done]);
      (eapply pending_same; [|eassumption]); unfold append_data; simpl; by rewrite lookup_alter_ne. }
  unfold flush_buf. io_keeps; auto with io.
Qed.

Lemma hoare_buf_write total data buf :
  hoare (before (written total buf)) (buf_write temp data buf) (buffered (written (total +:+ data))).
Proof.
  assert (forall b w, before (written total b) w ->
    before (written (total +:+ data) (b +:+ data)) w) as Hpush.
  { intros b w Hw. eapply moments_mono; [done| |exact Hw]. intros (d & Hd & <-).
    exists d. by rewrite append_assoc. }
  unfold buf_write. destruct (_ <? _)%N eqn:Hsmall.
  { intros w w' r Hw [= <- <-]. by apply Hpush. }
  eapply hoare_bind with (R := buffered (fun b t => written total b t /\
    ((BUF_CAPACITY <=? len data)%N = true -> b = ""))).
  - destruct (_ - _ <? _)%N eqn:Hlarge.
    + eapply hoare_weaken; [apply hoare_flush_buf|done|]. intros [[b [[]|]]|] w Hw; try done.
      eapply moments_mono; [done| |exact Hw]. by intros [-> ?].
    + intros w w' r Hw [= <- <-]. eapply moments_mono; [done| |exact Hw]. intros Ht.
      split; [done|]. intros Hcap.
      apply N.ltb_ge in Hsmall, Hlarge. apply N.leb_le in Hcap. unfold len, BUF_CAPACITY in *.
      destruct buf; [done|]. exfalso. cbn [String.length] in *. lia.
  - intros [b [[]|e]]; simpl.
    2:{ intros w w' r Hw [= <- <-]. exact Hw. }
    intros w w' r Hw. pose proof Hw as (_ & [_ Hb] & _).
    assert (before (written total b) w) as Hw0
      by (eapply moments_mono; [done| |exact Hw]; by intros []).
    destruct (BUF_CAPACITY <=? len data)%N eqn:Hcap; [|intros [= <- <-]; by apply Hpush].
    rewrite (Hb eq_refl) in *. apply Hpush in Hw0.
    unfold mbind, io_bind, try_io. destruct (write_all temp data w) as [w1 r1] eqn:H1.
    intros [= <- <-]. pose proof (hoare_write_out _ _ _ _ _ Hw0 H1) as Hw1.
    destruct r1 as [[]|]; exact Hw1.
  - intros e w [].
Qed.

Lemma hoare_buf_write_chunks chunks total buf :
  hoare (before (written total buf)) (buf_write_chunks temp chunks buf)
    (buffered (written (total +:+ String.concat "" chunks))).
Proof.
  revert total buf. induction chunks as [|chunk chunks IH]; intros total buf.
  { intros w w' r Hw [= <- <-]. simpl. by rewrite append_nil_r. }
  assert (chunk +:+ String.concat "" chunks = String.concat "" (chunk :: chunks)) as Hc.
  { destruct chunks; [by rewrite append_nil_r|done]. }
  rewrite <-Hc, <-append_assoc. cbn [buf_write_chunks].
  eapply hoare_bind; [apply hoare_buf_write| |by intros e w []].
  intros [b [[]|e]]; simpl.
  - apply IH.
  - intros w w' r Hw [= <- <-]. exact Hw.
Qed.

Lemma hoare_file_flush total buf :
  hoare (before (written total buf)) flush_file
    (fun r => before (after (fun _ => written total buf) r)).
Proof.
  apply hoare_written. intros data Hd. eapply hoare_weaken; [by apply temp_flush|done|].
  intros r w Hw. eapply moments_mono; [done| |exact Hw]. destruct r; [|done].
  intros Ht. by exists data.
Qed.

Lemma hoare_buf_flush total buf :
  hoare (before (written total buf)) (buf_flush temp buf) (buffered (flushed total)).
Proof.
  unfold buf_flush. eapply hoare_bind; [apply hoare_flush_buf| |by intros e w []].
  intros [b [[]|e]]; simpl; intros w w' r Hw.
  2:{ intros [= <- <-]. exact Hw. }
  pose proof Hw as (_ & [-> _] & _).
  assert (before (written total "") w) as Hw0
    by (eapply moments_mono; [done| |exact Hw]; by intros []).
  unfold mbind, io_bind, try_io. destruct (flush_file w) as [w1 r1] eqn:H1. intros [= <- <-].
  pose proof (hoare_file_flush total "" w w1 r1 Hw0 H1) as Hw1.
  destruct r1 as [[]|]; [|exact Hw1]. eapply moments_mono; [done| |exact Hw1]. by split.
Qed.

(** The error of an operation of the writer, which has been dropped. *)
Lemma hoare_or_drop c (m : IO anyhow (string * result IoError unit)) P R :
  hoare P m (buffered R) ->
  hoare P (or_drop temp c m) (fun r w => match r with
    | Ok buf => before (R buf) w
    | Err e => before whatever w /\ exists text, e = [c; text] end).
Proof.
  intros Hm. unfold or_drop. eapply hoare_bind; [exact Hm| |by intros e w []].
  intros [b [[]|e]]; simpl; intros w w' r Hw.
  - by intros [= <- <-].
  - unfold mbind, io_bind, throw. destruct (flush_buf temp b w) as [w1 r1] eqn:H1.
    pose proof (keeps_flush_buf b _ _ _ Hw H1) as Hw1.
    assert (exists x, r1 = Ok x) as [x ->].
    { revert H1. unfold flush_buf, mbind, io_bind, tree, try_io.
      destruct (is_empty b); [intros [= _ <-]; eauto|].
      destruct (write_all temp b w). intros [= _ <-]. eauto. }
    intros [= <- <-]. split; [done|]. by eexists.
Qed.
End Buffer.

(** ** One save *)

(** The context of the error at a stage. *)
Definition stage_contexts (state : StateFile) (parent : string) : list (Stage * string) :=
  (save_steps "" path parent state).*1.

(** The file is the new one since a moment, and was the old one until then. *)
Definition replaced (text : string) (w : World) : Prop :=
  exists l, l <> [] /\ Forall (pending path script t0) l /\
    moments (l ++ base) (races_in script)
      (fun t => t !! path = Some (NFile text owner_only)) whatever w.

Definition failed_at (state : StateFile) (parent : string) (e : anyhow) (w : World) : Prop :=
  before whatever w /\
  exists stage c text, (stage, c) ∈ stage_contexts state parent /\ e = [c; text].

Definition saved (state : StateFile) (parent : string) (r : Result unit) (w : World) : Prop :=
  match r with
  | Ok _ => replaced (state_text state) w
  | Err e => failed_at state parent e w
  end.

Lemma failed_stage state parent stage c text w :
  (stage, c) ∈ stage_contexts state parent -> before whatever w ->
  failed_at state parent [c; text] w.
Proof. intros Hin Hw. split; [done|]. by exists stage, c, text. Qed.

Section Body.
Context (temp parent : string) (state : StateFile).
Hypothesis (Htemp : private_path temp = true) (Hne : temp <> path).

(** A step of the body at a stage, before the last. *)
Lemma hoare_stage {A B} stage c P (m : IO anyhow A) (Q : A -> Tree -> Prop)
    (f : A -> IO anyhow B) R :
  (stage, c) ∈ stage_contexts state parent ->
  hoare P m (fun r w => match r with
    | Ok a => before (Q a) w
    | Err e => before whatever w /\ exists text, e = [c; text] end) ->
  (forall a, hoare (before (Q a)) (f a) R) ->
  (forall e w, failed_at state parent e w -> R (Err e) w) ->
  hoare P (m ≫= f) R.
Proof.
  intros Hin Hm Hf HR. eapply hoare_bind; [exact Hm|exact Hf|].
  intros e w [Hw [text ->]]. apply HR. by eapply failed_stage.
Qed.

Ltac in_stages := unfold stage_contexts; simpl;
  repeat first [apply list_elem_of_here | apply list_elem_of_further].

Lemma hoare_write_state :
  hoare (before (written temp "" "")) (write_state temp state) (fun r w => match r with
    | Ok _ => before (written temp (state_text state) "") w
    | Err e => failed_at state parent e w end).
Proof.
  unfold write_state.
  eapply (hoare_stage WriteData); [in_stages|by apply hoare_or_drop, hoare_buf_write_chunks| |done].
  intros buf. rewrite json_chunks_text.
  eapply (hoare_stage WriteEnd); [in_stages|by apply hoare_or_drop, hoare_buf_write| |done].
  intros buf'.
  eapply (hoare_stage FlushData); [in_stages|by apply hoare_or_drop, hoare_buf_flush| |done].
  intros buf'' w w' r Hw [= <- <-]. eapply moments_mono; [done| |exact Hw]. by intros [_ ?].
Qed.

Lemma hoare_persist :
  hoare (before (written temp (state_text state) "")) (persist_temp temp path) (fun r w =>
    if is_ok r then replaced (state_text state) w else before whatever w).
Proof.
  apply hoare_sys_commit; [|done|].
  - apply stable_pending. intros p d m t (data & Ht & Hd). exists data. by rewrite race_private.
  - intros t HP (data & Ht & Hd). rewrite append_nil_r in Hd. subst data. rewrite Ht.
    destruct (t !! path) as [[]|] eqn:Hp; simpl; try done; by rewrite lookup_insert_eq.
Qed.

Lemma hoare_save_body :
  hoare (before (fun t => t !! temp = Some (NFile "" 384))) (save_body path state temp)
    (saved state parent).
Proof.
  unfold save_body.
  eapply (hoare_stage SetPermissions);
    [in_stages|by apply hoare_ctx_error, temp_permissions| |done].
  intros []. eapply hoare_weaken with (P := before (written temp "" "")); [|
    intros w Hw; (eapply moments_mono; [done| |exact Hw]); intros Ht; by exists ""|done].
  eapply hoare_bind; [apply hoare_write_state| |done]. intros []. simpl.
  eapply (hoare_stage SyncData);
    [in_stages|by apply hoare_ctx_error, hoare_file_flush| |done].
  intros [] w w' r Hw. unfold ctx. destruct (persist_temp temp path w) as [w1 r1] eqn:H1.
  pose proof (hoare_persist _ _ _ Hw H1) as Hw1. intros [= <- <-].
  destruct r1 as [[]|e]; [exact Hw1|]. eapply (failed_stage _ _ PersistTemp); [in_stages|done].
Qed.
End Body.

Lemma keeps_saved state parent (r : Result unit) temp :
  temp <> path -> keeps (saved state parent r) (remove_file temp).
Proof.
  intros Hne.
  assert (forall t : Tree, delete temp t !! path = t !! path) as Hd
    by (intros t; by apply lookup_delete_ne).
  destruct r as [[]|e]; simpl; intros w w' r.
  - intros (l & Hl & Hall & Hw) Hr. exists l. split; [done|]. split; [done|].
    revert Hr. apply keeps_sys with (w := w); try done.
    + intros p d m t _ Ht _. split; [|done]. by rewrite race_present; rewrite Ht.
    + intros t Ht _. split; [|done]. destruct (t !! temp) as [[]|]; simpl; by rewrite ?Hd.
  - intros [Hw He] Hr. split; [|done]. revert Hr. apply keeps_sys with (w := w); try done.
    + by apply stable_pending.
    + intros t HP _. split; [|done]. destruct (t !! temp) as [[]|]; simpl; try done;
        (eapply pending_same; [apply Hd|exact HP]).
Qed.

Lemma hoare_store_save state parent :
  path_parent path = Some parent ->
  hoare (before whatever) (store_save path state) (saved state parent).
Proof.
  intros Hparent. unfold store_save. rewrite Hparent. apply hoare_lift; [|done].
  intros p [= <-]. apply hoare_with_temp; [done|..].
  - intros text w Hw. eapply (failed_stage _ _ CreateTemp); [|done]. left.
  - intros temp r Hne. by apply keeps_saved.
  - intros temp Htemp Hne. by apply hoare_save_body.
Qed.

(** A read says what is there, unless it fails. *)
Definition read_result (r : result IoError string) (t : Tree) : Prop :=
  match r with
  | Ok data => exists mode, t !! path = Some (NFile data mode)
  | Err e => io_kind e = NotFound -> t !! path = None
  end.

Lemma hoare_read :
  (forall d m, ~ races_in script path d m) -> (forall target, t0 !! path <> Some (NLink target)) ->
  hoare (before whatever) (read_bytes path) (fun r => before (read_result r)).
Proof.
  intros Hraces Hlink. eapply hoare_weaken.
  - apply (hoare_sys_turn base (races_in script) (pending path script t0) _ _ whatever (pending path script t0) read_result); try done.
    + by apply stable_pending.
    + by intros kind text t [-> | ->].
    + intros t HP _. destruct (read_node path t) as [[data mode]|e] eqn:Hr; simpl.
      all: split; [done|]; revert Hr; unfold read_node;
        rewrite resolve_not_link by
          (destruct HP as [-> |(d & m & Hr & _)]; [done|by destruct (Hraces d m)]).
      * destruct (t !! path) as [[]|] eqn:Hp; intros [= -> ->]; try done. by exists mode.
      * destruct (t !! path) as [[]|] eqn:Hp; by intros [= <-].
  - done.
  - intros r w Hw. destruct r; exact Hw.
Qed.
End SaveLemmas.

(** ** The specification *)

#[global] Instance File_eq_dec : EqDecision File.
Proof. solve_decision. Defined.
#[global] Instance Stage_eq_dec : EqDecision Stage.
Proof. solve_decision. Defined.

(** One stage fails. *)
Definition fault_at (stage : Stage) (e : anyhow) : Faults :=
  fun stage' => if decide (stage = stage') then Some e else None.

Section Spec.
Context `{C : JsonCodec} (path parent temp : string) (state : StateFile) (fs : FS).
Hypothesis (Hparent : path_parent path = Some parent) (Hne : temp <> path).
Abbreviation old := (fun fs' : FS => fs' !! path = fs !! path).

Ltac old_states := repeat constructor; unfold create, set_mode, set_data, id;
  by rewrite ?lookup_delete_ne, ?lookup_alter_ne, ?lookup_insert_ne.

Lemma save_fails stage c e :
  (stage, c) ∈ stage_contexts path state parent ->
  exists states, save (fault_at stage e) temp path state fs = (states, Err (c :: e)) /\
    states <> [] /\ Forall old states.
Proof.
  unfold stage_contexts, save_steps. cbn [fmap list_fmap fst].
  intros Hin. unfold save. rewrite Hparent. unfold save_steps.
  repeat (apply elem_of_cons in Hin as [[= -> ->]|Hin];
    [eexists; split; [reflexivity|]; split; [done|old_states]|]).
  by apply not_elem_of_nil in Hin.
Qed.

Lemma save_succeeds :
  exists states fs', save no_faults temp path state fs = (states ++ [fs'], Ok tt) /\
    states <> [] /\ Forall old states /\
    fs' !! path = Some {| f_data := state_text state; f_mode := owner_only |}.
Proof.
  destruct (save no_faults temp path state fs) as [states r] eqn:Hs.
  destruct (save_crash_safe _ _ _ _ _ _ _ Hne Hs) as (_ & Hok & _).
  revert Hs. unfold save. rewrite Hparent. simpl. intros [= <- <-].
  destruct (Hok eq_refl) as [Hf _]. unfold final in Hf. simpl in Hf.
  eexists [_; _; _; _; _; _; _], _. split; [reflexivity|]. split; [done|]. split; [old_states|done].
Qed.
End Spec.

(** The versions of a file, where the same one is counted once: latest first. *)
Fixpoint versions {A} `{EqDecision A} (l : list A) : list A :=
  match l with
  | [] => []
  | x :: l =>
      match versions l with
      | y :: vs => if decide (x = y) then y :: vs else x :: y :: vs
      | [] => [x]
      end
  end.

Lemma versions_cons {A} `{EqDecision A} (x : A) l : exists vs, versions (x :: l) = x :: vs.
Proof. simpl. destruct (versions l) as [|y vs]; [eauto|]. case_decide; subst; eauto. Qed.

Lemma versions_prefix {A} `{EqDecision A} (x : A) l1 l2 :
  l1 <> [] -> Forall (eq x) l1 -> versions (l1 ++ l2) = versions (x :: l2).
Proof.
  intros Hl Hall. destruct Hall as [|? l1 <- Hall]; [done|]. clear Hl.
  induction Hall as [|? l1 <- Hall IH]; [done|]. simpl in *. rewrite IH.
  destruct (versions l2) as [|y vs]; simpl; [by rewrite decide_True|].
  repeat case_decide; congruence.
Qed.

Lemma versions_const {A} `{EqDecision A} (x : A) l :
  l <> [] -> Forall (eq x) l -> versions l = [x].
Proof. intros Hl Hall. rewrite <-(app_nil_r l). by rewrite (versions_prefix x). Qed.

Lemma versions_two {A} `{EqDecision A} (x y : A) l1 l2 :
  l1 <> [] -> Forall (eq x) l1 -> l2 <> [] -> Forall (eq y) l2 ->
  versions (l1 ++ l2) = versions [x; y].
Proof.
  intros H1 H2 H3 H4. rewrite (versions_prefix x) by done. simpl.
  by rewrite (versions_const y l2).
Qed.

(** The file at [path] has had the versions that the specification says, since [w]. *)
Definition refines (path : string) (w w' : World) (states : list FS) : Prop :=
  exists l, w_past w' = l ++ w_past w /\
    versions ((fun t => files_of t !! path) <$> w_tree w' :: l) =
    versions ((fun fs : FS => fs !! path) <$> reverse states).

Lemma refines_final path w w' states fs :
  states <> [] -> refines path w w' states ->
  files_of (w_tree w') !! path = final fs states !! path.
Proof.
  intros Hne (l & _ & Hv). destruct states as [|fs' states _] using rev_ind; [done|].
  unfold final. rewrite last_snoc. rewrite reverse_snoc in Hv. csimpl in Hv.
  destruct (versions_cons (files_of (w_tree w') !! path) ((fun t => files_of t !! path) <$> l))
    as [vs1 H1].
  destruct (versions_cons (fs' !! path) ((fun fs : FS => fs !! path) <$> reverse states))
    as [vs2 H2].
  simpl in H1, H2. simpl. congruence.
Qed.

(** Other processes do not create the state file. *)
Definition undisturbed (path : string) (o : Outcome) : Prop :=
  match o with Races p _ _ => p <> path | _ => True end.

(** The state file is not a link, and is the store's. *)
Definition calm (path : string) (w : World) : Prop :=
  (forall target, w_tree w !! path <> Some (NLink target)) /\
  Forall (undisturbed path) (w_script w).

Section Refinement.
Context `{TempNames} `{C : JsonCodec} `{!JsonChunks C} (state_error : string).
Context (path : string) (w : World).
Hypothesis Hpath : private_path path = false.
Hypothesis Hcalm : calm path w.
Abbreviation since P Q :=
  (moments (w_past w) (races_in (w_script w)) P Q).
Abbreviation waiting := (pending path (w_script w) (w_tree w)).

Lemma no_race d m : ~ races_in (w_script w) path d m.
Proof.
  destruct Hcalm as [_ Hscript]. intros Hin. rewrite list.Forall_forall in Hscript.
  by apply (Hscript _ Hin).
Qed.

Lemma calm_script w' :
  Forall (outcome_ok (races_in (w_script w))) (w_script w') -> Forall (undisturbed path) (w_script w').
Proof.
  intros Hs. eapply list.Forall_impl; [exact Hs|]. intros [| |p d m] Hr; try done.
  intros ->. by apply (no_race d m).
Qed.

Lemma calm_since w' : since waiting whatever w' -> calm path w'.
Proof.
  intros (HP & _ & _ & Hs). split; [|by apply calm_script]. intros target.
  destruct HP as [-> |(d & m & Hr & _)]; [apply Hcalm|]. by destruct (no_race d m).
Qed.

Lemma calm_replaced text w' :
  replaced path (w_script w) (w_tree w) (w_past w) text w' -> calm path w'.
Proof.
  intros (l & _ & _ & HP & _ & _ & Hs). split; [|by apply calm_script]. intros target. by rewrite HP.
Qed.

Lemma waiting_same t : waiting t -> files_of t !! path = files_of (w_tree w) !! path.
Proof.
  intros [Ht|(d & m & Hr & _)]; [by apply files_of_same|]. by destruct (no_race d m).
Qed.

Lemma since_begin : since waiting whatever w.
Proof.
  apply moments_begin; [by left|]. apply list.Forall_forall. intros [| |p d m] Hin; done.
Qed.

Lemma refines_same w' states :
  since waiting whatever w' -> states <> [] ->
  Forall (fun fs : FS => fs !! path = files_of (w_tree w) !! path) states ->
  refines path w w' states.
Proof.
  intros (HP & _ & (l & Hl & Hall) & _) Hne Hst. exists l. split; [done|].
  rewrite !(versions_const (files_of (w_tree w) !! path)); [done|..].
  - destruct states as [|s states _] using rev_ind; [done|]. by rewrite reverse_snoc.
  - apply Forall_fmap, Forall_reverse. eapply list.Forall_impl; [exact Hst|]. done.
  - done.
  - apply Forall_fmap. constructor; [symmetry; by apply waiting_same|].
    eapply list.Forall_impl; [exact Hall|]. intros t Ht. symmetry. by apply waiting_same.
Qed.

Lemma refines_replaced w' text states fs' :
  replaced path (w_script w) (w_tree w) (w_past w) text w' -> states <> [] ->
  Forall (fun fs : FS => fs !! path = files_of (w_tree w) !! path) states ->
  fs' !! path = Some {| f_data := text; f_mode := owner_only |} ->
  refines path w w' (states ++ [fs']).
Proof.
  intros (l2 & Hne2 & Hall2 & HP & _ & (l1 & Hl1 & Hall1) & _) Hne Hst Hfs.
  assert (forall t : Tree, t !! path = Some (NFile text owner_only) ->
    Some {| f_data := text; f_mode := owner_only |} = files_of t !! path) as Hnew.
  { intros t Ht. unfold files_of. by rewrite lookup_omap, Ht. }
  exists (l1 ++ l2). split; [by rewrite Hl1, app_assoc|].
  transitivity (versions [Some {| f_data := text; f_mode := owner_only |};
                          files_of (w_tree w) !! path]).
  - rewrite app_comm_cons, fmap_app. apply versions_two; [done| |by destruct l2|].
    + apply Forall_fmap. constructor; [by apply Hnew|].
      eapply list.Forall_impl; [exact Hall1|exact Hnew].
    + apply Forall_fmap. eapply list.Forall_impl; [exact Hall2|].
      intros t Ht. symmetry. by apply waiting_same.
  - rewrite reverse_snoc. symmetry.
    change (versions ([fs' !! path] ++ ((fun fs : FS => fs !! path) <$> reverse states)) = 
            versions [Some {| f_data := text; f_mode := owner_only |}; files_of (w_tree w) !! path]).
    apply versions_two; [done|by repeat constructor| |].
    + destruct states as [|s states _] using rev_ind; [done|]. by rewrite reverse_snoc.
    + apply Forall_fmap, Forall_reverse. eapply list.Forall_impl; [exact Hst|]. done.
Qed.

(** A name for the temporary file of the specification. *)
Lemma path_tilde : path +:+ "~" <> path.
Proof. intros He%(f_equal String.length). rewrite length_append in He. simpl in He. lia. Qed.

(** The store replaces the file as the specification does, with its error if it fails. *)
Lemma store_save_refines state w1 w' r :
  since waiting whatever w1 -> store_save path state w1 = (w', r) ->
  exists faults temp states, faults ReadFile = None /\ temp <> path /\
    save faults temp path state (files_of (w_tree w)) = (states, r) /\
    refines path w w' states /\ calm path w'.
Proof.
  intros Hw1 Hs. set (temp := path +:+ "~"). pose proof path_tilde : temp <> path as Hne.
  destruct (path_parent path) as [parent|] eqn:Hparent.
  - pose proof (hoare_store_save path _ _ _ Hpath state parent Hparent _ _ _ Hw1 Hs) as Hr.
    destruct r as [[]|e]; simpl in Hr.
    + destruct (save_succeeds path parent temp state (files_of (w_tree w)))
        as (states & fs' & H1 & H2 & H3 & H4); [done..|].
      exists no_faults, temp, (states ++ [fs']). repeat (split; [done|]).
      split; [by eapply refines_replaced|by eapply calm_replaced].
    + destruct Hr as (Hw' & stage & c & text & Hin & ->).
      destruct (save_fails path parent temp state (files_of (w_tree w)) Hparent Hne stage c [text])
        as (states & H1 & H2 & H3); [done|].
      exists (fault_at stage [text]), temp, states.
      split; [|repeat (split; [done|]); split; [by apply refines_same|by apply calm_since]].
      unfold fault_at. case_decide; [|done]. subst stage. exfalso. revert Hin. clear.
      unfold stage_contexts, save_steps. cbn [fmap list_fmap fst].
      intros Hin. repeat (apply elem_of_cons in Hin as [Hin|Hin]; [done|]). by apply not_elem_of_nil in Hin.
  - unfold store_save, mbind, io_bind, lift in Hs. rewrite Hparent in Hs. injection Hs as <- <-.
    exists no_faults, temp, [files_of (w_tree w)]. split; [done|]. split; [done|].
    unfold save. rewrite Hparent. split; [done|].
    split; [apply refines_same; [done..|by constructor]|by apply calm_since].
Qed.

(** What the store reads, or why it cannot. *)
Lemma store_load_refines w1 r :
  store_load state_error path w = (w1, r) ->
  since waiting whatever w1 /\ exists fault, forall faults, faults ReadFile = fault ->
    load state_error faults path (files_of (w_tree w)) = r.
Proof.
  unfold store_load, mbind, io_bind, try_io, lift, mret, io_ret, throw.
  destruct (read_bytes path w) as [w2 r2] eqn:H2. intros Hl.
  pose proof (hoare_read path _ _ _ no_race (proj1 Hcalm) _ _ _ since_begin H2) as Hw2.
  assert (w1 = w2) as -> by (destruct r2; [|case_bool_decide]; congruence).
  split; [exact (moments_whatever _ _ _ _ _ Hw2)|]. destruct Hw2 as (HP & Hr & _).
  apply waiting_same in HP. destruct r2 as [data|e]; simpl in Hr.
  - exists None. intros faults Hf. unfold load. rewrite Hf, <-HP. unfold files_of.
    destruct Hr as [mode Hr]. rewrite lookup_omap, Hr. simpl. by injection Hl as <-.
  - case_bool_decide as Hk; injection Hl as <-.
    + exists None. intros faults Hf. unfold load. rewrite Hf, <-HP. unfold files_of.
      by rewrite lookup_omap, (Hr Hk).
    + exists (Some [io_text e]). intros faults Hf. unfold load. by rewrite Hf.
Qed.

Lemma store_update_spec change w' r :
  store_update state_error path change w = (w', r) ->
  exists faults temp states, temp <> path /\
    update state_error faults temp path change (files_of (w_tree w)) = (states, r) /\
    refines path w w' states /\ calm path w'.
Proof.
  unfold store_update, mbind, io_bind, lift.
  destruct (store_load state_error path w) as [w1 r1] eqn:Hl.
  destruct (store_load_refines _ _ Hl) as [Hw1 [fault Hf]].
  set (faults := fun stage => if decide (stage = ReadFile) then fault else None).
  specialize (Hf faults eq_refl) as Hload.
  assert (forall e, (s ← r1; change s) = Err e -> w' = w1 -> r = Err e ->
    exists faults temp states, temp <> path /\
      update state_error faults temp path change (files_of (w_tree w)) = (states, r) /\
      refines path w w' states /\ calm path w') as Hend.
  { intros e He -> ->. exists faults, (path +:+ "~"), [files_of (w_tree w)].
    split; [by apply path_tilde|]. unfold update. rewrite Hload, He. split; [done|].
    split; [apply refines_same; [done..|by constructor]|by apply calm_since]. }
  destruct r1 as [state|e]; [|by intros [= <- <-]; eapply Hend].
  destruct (change state) as [state'|e] eqn:Hc.
  2:{ intros [= <- <-]. eapply Hend; [|done..]. simpl. exact Hc. }
  intros Hs. destruct (store_save_refines _ _ _ _ Hw1 Hs) as (faults' & temp & states & H1 & H2 & H3 & H4).
  exists faults', temp, states. split; [done|]. split; [|done]. unfold update.
  assert (fault = None) as ->.
  { destruct fault as [e|]; [|done]. unfold load in Hload. by simpl in Hload. }
  rewrite (Hf faults' H1). simpl. by rewrite Hc.
Qed.
End Refinement.

(** ** Transactions *)

Lemma versions_elem {A} `{EqDecision A} (x : A) l : x ∈ versions l <-> x ∈ l.
Proof.
  induction l as [|y l IH]; [done|]. simpl. destruct (versions l) as [|z vs] eqn:Hv.
  - rewrite !elem_of_cons, <-IH. done.
  - rewrite elem_of_cons, <-IH. case_decide; subst; rewrite !elem_of_cons; naive_solver.
Qed.

(** Every version that could be found is one of the specification's states. *)
Lemma refines_moment path w w' l states t :
  refines path w w' states -> w_past w' = l ++ w_past w -> t ∈ w_tree w' :: l ->
  exists fs, fs ∈ states /\ fs !! path = files_of t !! path.
Proof.
  intros (l' & Hl' & Hv) Hl Ht. rewrite Hl in Hl'. apply app_inv_tail in Hl' as <-.
  assert (files_of t !! path ∈ versions ((fun t => files_of t !! path) <$> w_tree w' :: l)) as Hin.
  { apply versions_elem, list_elem_of_fmap. by exists t. }
  rewrite Hv in Hin. apply versions_elem, list_elem_of_fmap in Hin as (fs & Hfs & Hin).
  exists fs. split; [by apply elem_of_reverse|done].
Qed.

(** A transaction has two versions at most: what was there, and what it leaves. *)
Lemma update_two_versions `{C : JsonCodec} state_error faults temp path change fs states r :
  temp <> path -> update state_error faults temp path change fs = (states, r) ->
  states <> [] /\
  Forall (fun fs' : FS => fs' !! path = fs !! path \/ fs' !! path = final fs states !! path) states /\
  (final fs states !! path = fs !! path \/
   exists data, final fs states !! path = Some {| f_data := data; f_mode := owner_only |}).
Proof.
  intros Hne. unfold update. destruct (s ← _; _) as [s|e];
    [|intros [= <- _]; split; [done|split; [constructor; [by left|constructor]|by left]]].
  intros Hs. split.
  { revert Hs. unfold save. destruct (path_parent path) as [parent|]; [|by intros [= <- _]].
    intros He. pose proof (exec_nonempty faults temp (save_steps temp path parent s) fs) as Hx.
    by rewrite He in Hx. }
  destruct r as [[]|e].
  - destruct (save_crash_safe _ _ _ _ _ _ _ Hne Hs) as (Hall & Hok & _).
    destruct (Hok eq_refl) as [-> _]. split; [|right; by eexists].
    eapply list.Forall_impl; [exact Hall|]. by intros fs' [[] _]; auto.
  - destruct (save_crash_safe _ _ _ _ _ _ _ Hne Hs) as (_ & _ & Herr).
    split; [|left; by eapply Herr].
    apply save_error in Hs; [|done]. eapply list.Forall_impl; [exact Hs|]. auto.
Qed.

(** ** Other files *)

Section Others.
Context `{TempNames} `{C : JsonCodec} `{!JsonChunks C} (state_error path : string).
Context (base : list Tree) (t0 : Tree).
Abbreviation inv := (moments base anything (unchanged (eq path) t0) whatever).

Lemma keeps_flush_unchanged temp buf : may_change (eq path) t0 temp -> keeps inv (flush_buf temp buf).
Proof. intros Ht. unfold flush_buf. io_keeps. Qed.
Lemma keeps_buf_write temp data buf :
  may_change (eq path) t0 temp -> keeps inv (buf_write temp data buf).
Proof. intros Ht. pose proof keeps_flush_unchanged. unfold buf_write. io_keeps. Qed.
Lemma keeps_buf_write_chunks temp chunks buf :
  may_change (eq path) t0 temp -> keeps inv (buf_write_chunks temp chunks buf).
Proof.
  intros Ht. pose proof keeps_buf_write. revert buf.
  induction chunks as [|chunk chunks IH]; intros buf; cbn [buf_write_chunks]; io_keeps; auto.
Qed.
Lemma keeps_or_drop temp c m :
  may_change (eq path) t0 temp -> keeps inv m -> keeps inv (or_drop temp c m).
Proof. intros Ht Hm. pose proof keeps_flush_unchanged. unfold or_drop. io_keeps; auto. Qed.

Lemma keeps_write_state temp state :
  may_change (eq path) t0 temp -> keeps inv (write_state temp state).
Proof.
  intros Ht. unfold write_state, buf_flush. pose proof keeps_flush_unchanged.
  apply keeps_bind; [by apply keeps_or_drop, keeps_buf_write_chunks|intros buf].
  apply keeps_bind; [by apply keeps_or_drop, keeps_buf_write|intros buf'].
  apply keeps_bind; [|intros _; apply keeps_ret]. apply keeps_or_drop; [done|]. io_keeps.
Qed.

Lemma keeps_store_update change : keeps inv (store_update state_error path change).
Proof.
  assert (may_change (eq path) t0 path) as Hp by (intros Hn; by destruct Hn).
  unfold store_update, store_load, store_save. pose proof keeps_write_state.
  assert (forall state parent error, keeps inv (with_temp error parent (save_body path state))).
  { intros state parent error. apply keeps_with_temp. intros temp Ht. unfold save_body. io_keeps. }
  io_keeps.
Qed.

Lemma keeps_store_updates changes w w' rs :
  inv w -> store_updates state_error path changes w = (w', rs) -> inv w'.
Proof.
  revert w rs. induction changes as [|change changes IH]; intros w rs Hw; cbn [store_updates].
  { by intros [= <- _]. }
  destruct (store_update state_error path change w) as [w1 r] eqn:Hu.
  destruct (store_updates state_error path changes w1) as [w2 rs2] eqn:Hus. intros [= <- _].
  eapply IH; [|exact Hus]. by eapply keeps_store_update.
Qed.
End Others.

Section Commit.
Context `{TempNames} `{C : JsonCodec} `{!JsonLaws C} `{!JsonChunks C} (state_error path : string).
Hypothesis Hpath : private_path path = false.
Abbreviation reads t := (load state_error no_faults path (files_of t)).

(** The file is the one of [t0], or readable by its owner only. *)
Definition kept_or_private (t0 t : Tree) : Prop :=
  files_of t !! path = files_of t0 !! path \/
  exists data, files_of t !! path = Some {| f_data := data; f_mode := owner_only |}.
Lemma kept_trans t0 t1 t2 : kept_or_private t0 t1 -> kept_or_private t1 t2 -> kept_or_private t0 t2.
Proof. intros H1 [H2|H2]; [|by right]. unfold kept_or_private in *. by rewrite H2. Qed.

(** At every moment of a transaction, a reader finds what was there or what it commits. *)
Lemma store_update_moments change w w' r s :
  calm path w -> Persistence.keeps change -> state_ok s -> reads (w_tree w) = Ok s ->
  store_update state_error path change w = (w', r) ->
  calm path w' /\ exists s', committed [change] [r] s = Ok s' /\ state_ok s' /\
    reads (w_tree w') = Ok s' /\
    exists l, w_past w' = l ++ w_past w /\
      Forall (fun t => (reads t = Ok s \/ reads t = Ok s') /\ kept_or_private (w_tree w) t)
        (w_tree w' :: l).
Proof.
  intros Hcalm Hk Hok Hl Hu.
  destruct (store_update_spec _ _ _ Hpath Hcalm _ _ _ Hu)
    as (faults & temp & states & Hne & Hup & Href & Hcalm').
  split; [done|].
  destruct (update_two_versions _ _ _ _ _ _ _ _ Hne Hup) as (Hst & Hall & Hprivate).
  pose proof (refines_final _ _ _ _ (files_of (w_tree w)) Hst Href) as Hfin.
  pose proof (load_same state_error path _ _ Hfin) as Hrd.
  pose proof (update_effect _ _ _ _ _ _ _ _ _ Hne Hk Hok Hl Hup) as Heff.
  assert (exists s', committed [change] [r] s = Ok s' /\ state_ok s' /\
    reads (w_tree w') = Ok s') as (s' & Hc & Hok' & Hl').
  { rewrite Hrd. destruct r as [[]|e]; [|by exists s]. destruct Heff as (s' & Hc & Hok' & Hl').
    exists s'. simpl. by rewrite Hc. }
  exists s'. do 3 (split; [done|]). pose proof Href as (l & Hpast & _).
  exists l. split; [done|]. apply list.Forall_forall. intros t Ht.
  destruct (refines_moment _ _ _ _ _ _ Href Hpast Ht) as (fs & Hin & Hfs).
  rewrite list.Forall_forall in Hall. destruct (Hall fs Hin) as [Ho|Hn].
  - split; [left; rewrite <-Hl; apply load_same; congruence|left; congruence].
  - split; [right; rewrite <-Hl'; apply load_same; congruence|]. unfold kept_or_private.
    by rewrite <-Hfs, Hn.
Qed.

Lemma committed_cons change r changes rs s s' :
  committed [change] [r] s = Ok s' ->
  committed (change :: changes) (r :: rs) s = committed changes rs s'.
Proof. destruct r as [[]|e]; simpl; [destruct (change s)|]; simpl; congruence. Qed.

Lemma store_updates_moments changes w w' rs s :
  calm path w -> Forall Persistence.keeps changes -> state_ok s -> reads (w_tree w) = Ok s ->
  store_updates state_error path changes w = (w', rs) ->
  (exists s', committed changes rs s = Ok s' /\ reads (w_tree w') = Ok s') /\
  exists l, w_past w' = l ++ w_past w /\
    Forall (fun t => (exists k, reads t = committed (take k changes) (take k rs) s) /\
      kept_or_private (w_tree w) t) (w_tree w' :: l).
Proof.
  intros Hcalm Hk. revert w w' rs s Hcalm.
  induction Hk as [|change changes Hk _ IH]; intros w w' rs s Hcalm Hok Hl; cbn [store_updates].
  { intros [= <- <-]. split; [by exists s|]. exists []. split; [done|].
    constructor; [split; [by exists 0|by left]|constructor]. }
  destruct (store_update state_error path change w) as [w1 r] eqn:Hu.
  destruct (store_updates state_error path changes w1) as [w2 rs2] eqn:Hus. intros [= <- <-].
  destruct (store_update_moments _ _ _ _ _ Hcalm Hk Hok Hl Hu)
    as (Hcalm1 & s1 & Hc & Hok1 & Hl1 & l1 & Hp1 & Hall1).
  destruct (IH _ _ _ _ Hcalm1 Hok1 Hl1 Hus) as ((s2 & Hc2 & Hl2) & l2 & Hp2 & Hall2).
  pose proof (committed_cons _ _ changes rs2 _ _ Hc) as Hcons. split.
  { exists s2. by rewrite Hcons. }
  exists (l2 ++ l1). split; [by rewrite Hp2, Hp1, app_assoc|].
  rewrite app_comm_cons. apply Forall_app. split.
  - apply list.Forall_cons in Hall1 as [[_ Hp] _].
    eapply list.Forall_impl; [exact Hall2|]. intros t [[k Ht] Hpt].
    split; [|by eapply kept_trans]. exists (S k). cbn [take].
    by rewrite (committed_cons _ _ _ _ _ _ Hc).
  - apply list.Forall_cons in Hall1 as [_ Hall1].
    eapply list.Forall_impl; [exact Hall1|]. intros t [[Ht|Ht] Hpt]; (split; [|done]).
    + by exists 0.
    + exists 1. rewrite Ht. cbn [take]. by rewrite !take_0.
Qed.
End Commit.

(** ** An instance of the serializer, which writes its text at once *)

#[global] Instance coded_chunks : JsonChunks coded :=
  {| json_chunks v := [to_writer_pretty (JsonCodec := coded) v];
     json_chunks_text v := eq_refl |}.

(** ** Properties *)

(** C7: A transaction of the store refines its specification. On a file tree where any
    call may fail and other files appear, the code with its buffered writer, temporary
    file and rename ends with the result of a run of the specification with some faults,
    and from its first call to its last the state file goes through the same versions,
    the last of which is what is left. *)
Theorem store_update_refines `{TempNames} `{C : JsonCodec} `{!JsonChunks C}
    (state_error path : string) (change : StateFile -> Result StateFile)
    (w w' : World) (r : Result unit) :
  private_path path = false -> calm path w ->
  store_update state_error path change w = (w', r) ->
  exists faults temp states, temp <> path /\
    update state_error faults temp path change (files_of (w_tree w)) = (states, r) /\
    files_of (w_tree w') !! path = final (files_of (w_tree w)) states !! path /\
    exists l, w_past w' = l ++ w_past w /\
      versions ((fun t => files_of t !! path) <$> w_tree w' :: l) =
      versions ((fun fs : FS => fs !! path) <$> reverse states).
Proof.
  intros Hpath Hcalm Hu.
  destruct (store_update_spec _ _ _ Hpath Hcalm _ _ _ Hu)
    as (faults & temp & states & Hne & Hup & Href & _).
  exists faults, temp, states. do 2 (split; [done|]). split; [|exact Href].
  destruct (update_two_versions _ _ _ _ _ _ _ _ Hne Hup) as (Hst & _). by eapply refines_final.
Qed.

(** A full disk and a file of another process. *)
Definition demo_disk : World :=
  world_of [("/home", NDir 493)]
    [Fine; Fine; Fine; Fails false "disk full" (Some "01"); Fine; Fine; Fine;
     Races "/home/other" "x" 420; Fine].
Lemma demo_disk_calm : calm "/home/state" demo_disk.
Proof. split; [done|]. by repeat constructor. Qed.

Definition demo_changes : list (StateFile -> Result StateFile) :=
  [theme_writer Light; snooze_writer {[ "a" := 5%Z ]}].
Definition demo_outcomes : list (Result unit) :=
  [Err ["failed to flush state file"; "disk full"]; Ok tt].

Lemma demo_disk_outcomes :
  (store_updates (C := coded) "" "/home/state" demo_changes demo_disk).2 = demo_outcomes.
Proof. vm_compute. reflexivity. Qed.

Lemma store_update_refines_witness :
  exists w' faults temp states,
    store_update (C := coded) "" "/home/state" (theme_writer Light) demo_disk =
      (w', Err ["failed to flush state file"; "disk full"]) /\
    update (C := coded) "" faults temp "/home/state" (theme_writer Light)
      (files_of (w_tree demo_disk)) = (states, Err ["failed to flush state file"; "disk full"]).
Proof.
  destruct (store_update (C := coded) "" "/home/state" (theme_writer Light) demo_disk)
    as [w' r] eqn:Hu.
  assert (r = Err ["failed to flush state file"; "disk full"]) as ->.
  { change ((w', r).2 = Err ["failed to flush state file"; "disk full"]). rewrite <-Hu.
    vm_compute. reflexivity. }
  destruct (store_update_refines (C := coded) "" "/home/state" (theme_writer Light) demo_disk w' _
    eq_refl demo_disk_calm Hu) as (faults & temp & states & _ & Hup & _).
  exists w', faults, temp, states. split; [reflexivity|exact Hup].
Defined.

(** C1: The store survives a crash at any moment. Whichever transactions share the state
    file and whichever calls of theirs fail, a reader finds at every moment the initial
    state with the successful changes among the first few applied in the order of the
    lock, and at the end all of them; a file the store has written is readable by its
    owner only, and every other file that was there stays as it is. *)
Theorem store_crash_consistent `{TempNames} `{C : JsonCodec} `{!JsonLaws C} `{!JsonChunks C}
    (state_error path : string) (changes : list (StateFile -> Result StateFile))
    (w w' : World) (rs : list (Result unit)) (s : StateFile) :
  private_path path = false -> calm path w -> Forall Persistence.keeps changes -> state_ok s ->
  load state_error no_faults path (files_of (w_tree w)) = Ok s ->
  store_updates state_error path changes w = (w', rs) ->
  (exists s', committed changes rs s = Ok s' /\
     load state_error no_faults path (files_of (w_tree w')) = Ok s') /\
  exists l, w_past w' = l ++ w_past w /\
    Forall (fun t =>
      (exists k, load state_error no_faults path (files_of t) =
         committed (take k changes) (take k rs) s) /\
      (files_of t !! path = files_of (w_tree w) !! path \/
       exists data, files_of t !! path = Some {| f_data := data; f_mode := owner_only |}) /\
      forall p n, w_tree w !! p = Some n -> path <> p -> t !! p = Some n) (w_tree w' :: l).
Proof.
  intros Hpath Hcalm Hk Hok Hl Hu.
  destruct (store_updates_moments state_error path Hpath changes w w' rs s Hcalm Hk Hok Hl Hu)
    as (Hend & l & Hp & Hall).
  split; [done|]. exists l. split; [done|].
  pose proof (keeps_store_updates state_error path (w_past w) (w_tree w) changes w w' rs
    (moments_begin anything _ w (unchanged_start _ _) (script_anything _)) Hu)
    as (Hw' & _ & (l' & Hp' & Hall') & _).
  assert (l' = l) as -> by (eapply app_inv_tail; by rewrite <-Hp).
  apply list.Forall_forall. intros t Ht. rewrite list.Forall_forall in Hall.
  destruct (Hall t Ht) as [H1 H2]. split; [done|]. split; [done|].
  assert (unchanged (eq path) (w_tree w) t) as Hun; [|intros p n Hn Hne; by apply Hun].
  apply elem_of_cons in Ht as [->|Ht]; [done|]. rewrite list.Forall_forall in Hall'. by apply Hall'.
Qed.

Lemma store_crash_consistent_witness :
  exists w' s',
    store_updates (C := coded) "" "/home/state" demo_changes demo_disk = (w', demo_outcomes) /\
    load (C := coded) "" no_faults "/home/state" (files_of (w_tree w')) = Ok s' /\
    pref_theme (sf_preferences s') = Dark /\ is_Some (sf_snoozed s' !! "a").
Proof.
  destruct (store_updates (C := coded) "" "/home/state" demo_changes demo_disk)
    as [w' rs] eqn:Hu.
  assert (rs = demo_outcomes) as -> by (by rewrite <-demo_disk_outcomes, Hu).
  destruct (store_crash_consistent (C := coded) "" "/home/state" demo_changes demo_disk w'
    demo_outcomes StateFile_default) as [(s' & Hc & Hl) _].
  - reflexivity.
  - apply demo_disk_calm.
  - apply list.Forall_cons. split; [apply theme_writer_keeps|].
    apply list.Forall_cons. split; [apply snooze_writer_keeps|constructor].
  - apply StateFile_default_ok.
  - vm_compute. reflexivity.
  - exact Hu.
  - exists w', s'. split; [reflexivity|]. split; [exact Hl|].
    assert (exists s0, committed demo_changes demo_outcomes StateFile_default = Ok s0 /\
      pref_theme (sf_preferences s0) = Dark /\ is_Some (sf_snoozed s0 !! "a"))
      as (s0 & H0 & H1 & H2).
    { eexists. split; [vm_compute; reflexivity|]. split; [reflexivity|]. by eexists. }
    rewrite H0 in Hc. injection Hc as <-. split; [exact H1|exact H2].
Defined.
