(* ===== verification/Cli.v ===== *)
(** * Command line, logging and build information

    [src/cmd/montray-ui/src/cli.rs], [logging.rs], [build_info.rs] and the build
    script's metadata: what the parsed arguments mean, which log records are
    written and how, and the version text. The argument parser is a library; its
    result [Cli] is the input here, and its function that of the two entry points. *)

From Stdlib Require Import ZArith Lia Ascii.
From stdpp Require Import base strings list option.
From S2P Require Import Prelude RustStr.

(** ** Logging *)

(** From the least to the most severe. *)
Inductive LogLevel := LTrace | LDebug | LInfo | LWarn | LError.
#[global] Instance LogLevel_eq_dec : EqDecision LogLevel.
Proof. solve_decision. Defined.

(** The order of [log::Level]: an error is the smallest. *)
Definition level_rank (level : LogLevel) : nat :=
  match level with LError => 1 | LWarn => 2 | LInfo => 3 | LDebug => 4 | LTrace => 5 end.

(** [LogLevel::filter]: the maximum of the filter, as a rank. *)
Definition level_filter (level : LogLevel) : nat :=
  match level with
  | LTrace => level_rank LTrace
  | LDebug => level_rank LDebug
  | LInfo => level_rank LInfo
  | LWarn => level_rank LWarn
  | LError => level_rank LError
  end.

(** [{value:?}] is a parameter. *)
Definition level_from_str (debug_str : string -> string) (value : string) : Result LogLevel :=
  let lower := to_ascii_lowercase value in
  if bool_decide (lower = "trace") then Ok LTrace
  else if bool_decide (lower = "debug") then Ok LDebug
  else if bool_decide (lower = "info") then Ok LInfo
  else if bool_decide (lower = "warn") || bool_decide (lower = "warning") then Ok LWarn
  else if bool_decide (lower = "error") then Ok LError
  else bail ("invalid log level " +:+ debug_str value +:+
             "; expected trace, debug, info, warn, or error").

Record LogRecord := {
  rec_target : string;
  rec_level : LogLevel;
  rec_args : string;
}.

(** [max_level] is the rank set by [init]; it is zero before. *)
Definition log_enabled (max_level : nat) (target : string) (level : LogLevel) : bool :=
  (bool_decide (target = "montray_ui") || starts_with "montray_ui::" target) &&
  (level_rank level <=? max_level).

Definition component_name (target : string) : string :=
  default "" (strip_prefix "montray_ui::" target).

Definition level_text (level : LogLevel) : string :=
  match level with
  | LError => "ERROR" | LWarn => "WARN" | LInfo => "INFO" | LDebug => "DEBUG" | LTrace => "TRACE"
  end.

(** The line written for a record, if it is. *)
Definition log_line (max_level : nat) (timestamp : string) (r : LogRecord) : option string :=
  if log_enabled max_level (rec_target r) (rec_level r) then
    let component := component_name (rec_target r) in
    Some (timestamp +:+ " " +:+ level_text (rec_level r) +:+
      (if is_empty component then " montray-ui: " else " montray-ui[" +:+ component +:+ "]: ") +:+
      rec_args r)
  else None.

(** The process-global logger. *)
Record Logger := {
  log_installed : bool;
  log_max_level : nat;
  log_initialized : bool;
}.
Definition no_logger : Logger :=
  {| log_installed := false; log_max_level := 0; log_initialized := false |}.

(** [log::set_logger] succeeds once. *)
Definition log_init (level : LogLevel) (logger : Logger) : Logger * Result unit :=
  if log_installed logger then (logger, bail "failed to initialize logger")
  else ({| log_installed := true; log_max_level := level_filter level; log_initialized := true |},
        Ok tt).
Definition is_initialized (logger : Logger) : bool := log_initialized logger.

(** ** Arguments *)

Inductive SetupOperation := Complete | CreateConfig | InstallAutostart | InstallLauncher.
#[global] Instance SetupOperation_eq_dec : EqDecision SetupOperation.
Proof. solve_decision. Defined.

Inductive CliMode :=
| Run
| Setup (operation : SetupOperation) (reinstall ignore_salmon : bool)
| MigrateFromSalmon (dry_run : bool)
| GenerateBearerToken (server_id : string) (output : option string).

(** A scale factor is its text: floating point is a parameter of its parser. *)
Record Options := {
  opt_start_hidden : bool;
  opt_scale : option string;
  opt_log_level : LogLevel;
  opt_config : option string;
  opt_command : CliMode;
  opt_version : bool;
}.

Record MigrationArgs := {
  args_dry_run : bool;
}.

Inductive SetupCommand :=
| SubCreateConfig
| SubInstallAutostart
| SubInstallLauncher
| SubMigrateFromSalmon (args : MigrationArgs).

Record SetupArgs := {
  args_reinstall : bool;
  args_ignore_salmon : bool;
  args_operation : option SetupCommand;
}.

Record GenerateBearerTokenArgs := {
  args_server_id : string;
  args_output : option string;
}.

Inductive CliCommand :=
| CliSetup (args : SetupArgs)
| CliGenerateBearerToken (args : GenerateBearerTokenArgs).

Record Cli := {
  cli_config : option string;
  cli_start_hidden : bool;
  cli_scale : option string;
  cli_log_level : LogLevel;
  cli_version : bool;
  cli_command : option CliCommand;
}.

(** The build feature [packaged] drops the arguments of setup. *)
Definition setup_command (packaged : bool) (setup : SetupArgs) : CliMode :=
  if packaged then Setup Complete false false
  else
    match args_operation setup with
    | Some (SubMigrateFromSalmon migration) => MigrateFromSalmon (args_dry_run migration)
    | operation =>
        Setup match operation with
              | None => Complete
              | Some SubCreateConfig => CreateConfig
              | Some SubInstallAutostart => InstallAutostart
              | Some SubInstallLauncher => InstallLauncher
              | Some (SubMigrateFromSalmon _) => Complete  (* taken above *)
              end (args_reinstall setup) (args_ignore_salmon setup)
    end.

Definition options_of_cli (packaged : bool) (cli : Cli) : Options :=
  {| opt_start_hidden := cli_start_hidden cli;
     opt_scale := cli_scale cli;
     opt_log_level := cli_log_level cli;
     opt_config := cli_config cli;
     opt_command :=
       match cli_command cli with
       | None => Run
       | Some (CliSetup setup) => setup_command packaged setup
       | Some (CliGenerateBearerToken token) =>
           GenerateBearerToken (args_server_id token) (args_output token)
       end;
     opt_version := cli_version cli |}.

(** [parse::<f32>], whether it is finite, and whether it is positive. *)
Record FloatParser := {
  parses_f32 : string -> bool;
  is_finite_f32 : string -> bool;
  is_positive_f32 : string -> bool;
}.
Definition parse_scale (f : FloatParser) (debug_str : string -> string) (value : string)
    : result string string :=
  if parses_f32 f value then
    if is_finite_f32 f value && is_positive_f32 f value then Ok value
    else Err "scale factor must be greater than zero"
  else Err ("invalid scale factor " +:+ debug_str value).

(** Clap's derived parser is a parameter: what it makes of the name of the program and
    its arguments, or why it refuses them. *)
Section Parsing.
Context {clap_error : Type} (try_parse_from : list string -> result clap_error Cli).
Context (packaged : bool).

Definition parse (args : list string) : result clap_error Options :=
  options_of_cli packaged <$> try_parse_from ("montray-ui" :: args).

(** Where [Cli::parse] refuses the arguments, it prints why and ends the process. *)
Definition parse_env (argv : list string) : result clap_error Options :=
  options_of_cli packaged <$> try_parse_from argv.
End Parsing.

(** ** Build information *)

(** The value the build script exports for a variable. *)
Definition export_build_metadata (env : string -> option string) (name fallback : string) : string :=
  default fallback (env name).

(** What the build script prints. It panics without Cargo's TARGET, and when the
    user interface does not compile. *)
Definition export_lines (env : string -> option string) (name fallback : string) : list string :=
  ["cargo:rerun-if-env-changed=" +:+ name;
   "cargo:rustc-env=" +:+ name +:+ "=" +:+ export_build_metadata env name fallback].
Definition build_main (env : string -> option string) (compiled : bool) : option (list string) :=
  target ← env "TARGET";
  if compiled then
    Some (export_lines env "MONTRAY_BUILD_VERSION" "dev"
          ++ export_lines env "MONTRAY_BUILD_COMMIT" "none"
          ++ export_lines env "MONTRAY_BUILD_DATE" "unknown"
          ++ export_lines env "MONTRAY_BUILT_BY" "cargo"
          ++ ["cargo:rustc-env=MONTRAY_BUILD_TARGET=" +:+ target])
  else None.

Definition format_description (version commit date built_by build_mode target : string) : string :=
  "Montray UI " +:+ version +:+ newline +:+
  "Commit: " +:+ commit +:+ newline +:+
  "Build time: " +:+ date +:+ newline +:+
  "Built by: " +:+ built_by +:+ " (" +:+ build_mode +:+ ")" +:+ newline +:+
  "Target: " +:+ target +:+ newline +:+ newline +:+
  "Written by Dmitry Frank (https://dmitryfrank.com)" +:+ newline.

(** [target] is Cargo's TARGET. *)
Definition full_description (env : string -> option string) (packaged : bool) (target : string)
    : string :=
  format_description
    (export_build_metadata env "MONTRAY_BUILD_VERSION" "dev")
    (export_build_metadata env "MONTRAY_BUILD_COMMIT" "none")
    (export_build_metadata env "MONTRAY_BUILD_DATE" "unknown")
    (export_build_metadata env "MONTRAY_BUILT_BY" "cargo")
    (if packaged then "for packaging" else "standalone")
    target.

(** ** Properties *)

(** The logger writes exactly the records of the application itself that are
    at least as severe as the level chosen at the start, whatever happens after;
    nothing is written before, and a second initialization changes nothing. *)
Theorem log_selective (level : LogLevel) (later : list LogLevel) (timestamp : string)
    (r : LogRecord) :
  let logger := foldl (fun logger level => (log_init level logger).1) no_logger
                  (level :: later) in
  is_initialized logger = true /\ is_initialized no_logger = false /\
  log_line (log_max_level no_logger) timestamp r = None /\
  (is_Some (log_line (log_max_level logger) timestamp r) <->
   (rec_target r = "montray_ui" \/ exists m, rec_target r = "montray_ui::" +:+ m) /\
   level_rank (rec_level r) <= level_rank level).
Proof.
  cbv zeta. cbn [foldl log_init fst no_logger log_installed].
  set (logger := {| log_installed := true; log_max_level := _; log_initialized := _ |}).
  assert (foldl (fun logger level => (log_init level logger).1) logger later = logger) as ->
    by (induction later; done).
  split; [done|]. split; [done|]. split.
  { unfold log_line, log_enabled. simpl. destruct (rec_level r); by rewrite andb_false_r. }
  unfold log_line. assert (log_max_level logger = level_rank level) as -> by (by destruct level).
  unfold log_enabled. rewrite <-starts_with_true.
  destruct (bool_decide_reflect (rec_target r = "montray_ui")),
    (starts_with "montray_ui::" (rec_target r)),
    (Nat.leb_spec (level_rank (rec_level r)) (level_rank level)); simpl;
    (split; [intros [? [=]]|intros [? ?]]; try (split; [auto|lia]); try lia; eauto; naive_solver).
Qed.

(** The level's name, in any case, is read back as the level. *)
Lemma level_roundtrip (debug_str : string -> string) (level : LogLevel) :
  level_from_str debug_str (level_text level) = Ok level.
Proof. by destruct level. Qed.
