(* ===== verification/Setup.v ===== *)
(** * Desktop setup

    The operations of [src/cmd/montray-ui/src/setup.rs] that install the desktop
    integration: single files, backups, the setup command, and the autostart
    switch. What the process learns from its environment is a record. *)

From Stdlib Require Import ZArith Lia Ascii.
From stdpp Require Import base gmap strings list option.
From S2P Require Import Prelude RustStr Output RustPath Config Desktop Io Atomic Cli.

Record SetupEnv := {
  env_os : string;                    (* std::env::consts::OS *)
  env_config_dir : option string;     (* dirs::config_dir() *)
  env_data_dir : option string;       (* dirs::data_dir() *)
  env_current_exe : Result string;    (* std::env::current_exe() *)
  env_canonicalize : string -> Result string;
  env_temp_dir : string;
  env_current_dir : Result string;
  env_debug_str : string -> string;   (* {:?} of a string *)
  env_from_slice : string -> Result Config;  (* serde_yaml::from_slice *)
  DEFAULT_CONFIG : string;            (* embedded assets *)
  APPLICATION_ICON : string;
}.

Inductive FileResult := Created | Preserved | Reinstalled.
#[global] Instance FileResult_eq_dec : EqDecision FileResult.
Proof. solve_decision. Defined.

Record InstallPaths := {
  path_autostart : string;
  path_launcher : string;
  path_icon : string;
}.

Definition public_mode : N := 420.   (* 0o644 *)
Definition private_dir : N := 448.   (* 0o700 *)

Section Setup.
Context `{TempNames} (env : SetupEnv).

(** ** Single files *)

(** What [install_file] does with its temporary file. *)
Definition install_body (path contents : string) (replace_ : bool) (temporary : string)
    : IO anyhow FileResult :=
  _ ← ctx "set file permissions" (set_permissions temporary public_mode);
  _ ← ctx "write file" (write_all temporary contents);
  _ ← ctx "write file" flush_file;
  t ← tree;
  let existed := path_exists t path in
  if replace_ then
    _ ← ctx "replace file" (persist_temp temporary path);
    mret (if existed then Reinstalled else Created)
  else
    r ← try_io (persist_new temporary path);
    match r with
    | Ok _ => mret (if existed then Reinstalled else Created)
    | Err e =>
        if bool_decide (io_kind e = AlreadyExists) then mret Preserved
        else throw ["create file"; io_text e]
    end.

Definition install_file (path contents : string) (replace_ : bool) : IO anyhow FileResult :=
  parent ← lift (opt_context "installation filename has no parent" (path_parent path));
  _ ← ctx "create parent directory" (create_dir_all default_dir_mode parent);
  t ← tree;
  if negb replace_ && path_exists t path then mret Preserved
  else with_temp "create temporary file" parent (install_body path contents replace_).

Definition create_default_config (config_filename : string) : IO anyhow bool :=
  r ← install_file config_filename (DEFAULT_CONFIG env) false;
  mret (bool_decide (r = Created)).

Definition report (description path : string) (r : FileResult) : IO anyhow unit :=
  match r with
  | Created => println ("Created " +:+ description +:+ " at " +:+ path)
  | Preserved =>
      println (to_ascii_uppercase (String.substring 0 1 description) +:+
               String.substring 1 (String.length description) description +:+
               " already exists at " +:+ path +:+ "; leaving it unchanged")
  | Reinstalled => println ("Reinstalled " +:+ description +:+ " at " +:+ path)
  end.

(** ** Backups *)

(** [symlink_metadata] as a question; an error other than absence is one. *)
Definition lexists (error path : string) : IO anyhow bool :=
  r ← try_io (symlink_metadata path);
  match r with
  | Ok _ => mret true
  | Err e => if bool_decide (io_kind e = NotFound) then mret false
             else throw [error +:+ path; io_text e]
  end.

Fixpoint existing_targets (targets : list (string * string)) : IO anyhow (list (string * string)) :=
  match targets with
  | [] => mret []
  | target :: targets =>
      b ← lexists "inspect file to back up at " target.1;
      rest ← existing_targets targets;
      mret (if b : bool then target :: rest else rest)
  end.

(** Dropping a temporary directory removes it with its contents. *)
Definition remove_dir_all (dir : string) : IO IoError unit :=
  sys nothing_left (fun t =>
    (filter (fun '(key, _) => key <> dir /\ starts_with (dir +:+ "/") key = false) t, Ok tt)).

(** The copies into the temporary directory [temporary], which is kept on success. *)
Definition backup_into (temporary : string) (existing : list (string * string))
    : IO anyhow (option string) :=
  r ← try_io (
    _ ← ctx "set reinstall backup directory permissions" (set_permissions temporary private_dir);
    io_iter (fun '(source, relative) =>
      let destination := path_join temporary relative in
      _ ← ctx "create reinstall backup subdirectory"
            (create_dir_all default_dir_mode (default "" (path_parent destination)));
      ctx ("back up " +:+ source +:+ " to " +:+ destination) (copy_file source destination))
      existing);
  match r with
  | Ok _ => mret (Some temporary)
  | Err e => _ ← try_io (remove_dir_all temporary); throw e
  end.

Definition backup_existing_files (targets : list (string * string)) (backup_parent : string)
    : IO anyhow (option string) :=
  existing ← existing_targets targets;
  if bool_decide (existing = []) then mret None
  else
    _ ← ctx "create backup parent directory" (create_dir_all default_dir_mode backup_parent);
    t ← tree;
    let temporary := fresh_path (path_join backup_parent BACKUP_PREFIX) t in
    _ ← ctx "create reinstall backup directory" (mkdir private_dir temporary);
    backup_into temporary existing.

(** ** The setup command *)

Definition validate_platform : Result unit :=
  if negb (bool_decide (env_os env = "linux"))
  then bail ("montray-ui setup is not implemented on this platform (" +:+ env_os env +:+ ")")
  else Ok tt.

Definition executable_path : Result string :=
  executable ← with_context "locate executable" (env_current_exe env);
  with_context "resolve executable" (env_canonicalize env executable).

Definition validate_executable_path (executable temporary_directory : string) : Result string :=
  executable ← with_context "resolve executable" (absolute (env_current_dir env) executable);
  temporary_directory ← with_context "resolve temporary directory"
                          (absolute (env_current_dir env) temporary_directory);
  if path_starts_with executable temporary_directory
  then bail ("refusing to install from temporary executable " +:+ executable)
  else Ok executable.

(** [Config::load] of a file in the tree. *)
Definition load_config (path : string) : IO anyhow Config :=
  data ← ctx ("failed to read config " +:+ path) (read_bytes path);
  lift (Config.load (env_debug_str env) (fun _ => Ok data) (env_from_slice env) path).

Definition is_legacy_desktop_entry_file (path : string) : IO anyhow bool :=
  r ← try_io (read_text path);
  mret (match r with Ok contents => is_legacy_desktop_entry contents | Err _ => false end).

Definition install_paths (config_home data_home : string) : InstallPaths :=
  {| path_autostart := path_join config_home "autostart/montray-ui.desktop";
     path_launcher := path_join data_home "applications/montray-ui.desktop";
     path_icon := path_join data_home "icons/hicolor/scalable/apps/montray-ui.svg" |}.

Definition legacy_note : string :=
  newline +:+
  "NOTE: detected desktop integration from the older web-based Montray UI." +:+ newline +:+
  "Run this setup command again with --reinstall to replace the old files. The configuration will not be overwritten.".

Definition done_note (command : string) : string :=
  newline +:+
  "Montray UI is configured and installed for desktop autostart and application-menu launch. To start it now, run:"
  +:+ newline +:+ newline +:+ "    " +:+ command.

Definition config_part (operation : SetupOperation) : bool :=
  bool_decide (operation = Complete) || bool_decide (operation = CreateConfig).
Definition autostart_part (operation : SetupOperation) : bool :=
  bool_decide (operation = Complete) || bool_decide (operation = InstallAutostart).
Definition launcher_part (operation : SetupOperation) : bool :=
  bool_decide (operation = Complete) || bool_decide (operation = InstallLauncher).

Definition backup_targets (operation : SetupOperation) (reinstall : bool) (paths : InstallPaths)
    : list (string * string) :=
  if reinstall then
    (if autostart_part operation
     then [(path_autostart paths, "autostart/montray-ui.desktop")] else []) ++
    (if launcher_part operation
     then [(path_launcher paths, "applications/montray-ui.desktop");
           (path_icon paths, "icons/montray-ui.svg")] else [])
  else [].

(** A statement under a condition. *)
Definition when_ (b : bool) (m : IO anyhow unit) : IO anyhow unit := if b then m else mret tt.

(** The files of the desktop integration, once everything was checked. *)
Definition install_desktop (operation : SetupOperation) (reinstall : bool) (paths : InstallPaths)
    (autostart_entry launcher_entry : string) : IO anyhow unit :=
  _ ← when_ (autostart_part operation)
        (r ← install_file (path_autostart paths) autostart_entry reinstall;
         report "desktop autostart entry" (path_autostart paths) r);
  when_ (launcher_part operation)
    (icon ← install_file (path_icon paths) (APPLICATION_ICON env) reinstall;
     _ ← report "application icon" (path_icon paths) icon;
     launcher ← install_file (path_launcher paths) launcher_entry reinstall;
     report "application launcher" (path_launcher paths) launcher).

Definition default_config_path : Result string := default_path (env_config_dir env).

(** The part of [execute_with] after the configuration file. *)
Definition execute_desktop (config_filename : string) (operation : SetupOperation)
    (reinstall : bool) (paths : InstallPaths) (executable backup_parent : string)
    : IO anyhow (option string) :=
  config_filename ← lift (with_context "resolve config path"
                            (absolute (env_current_dir env) config_filename));
  _ ← context ("validate config at " +:+ config_filename) (load_config config_filename);
  executable ← lift (validate_executable_path executable (env_temp_dir env));
  autostart_entry ← lift (desktop_entry executable config_filename true);
  launcher_entry ← lift (desktop_entry executable config_filename false);
  legacy ←
    (if negb reinstall && bool_decide (operation = Complete) then
       a ← is_legacy_desktop_entry_file (path_autostart paths);
       if a : bool then is_legacy_desktop_entry_file (path_launcher paths) else mret false
     else mret false);
  backup ← backup_existing_files (backup_targets operation reinstall paths) backup_parent;
  _ ← (match backup with
       | Some directory => println ("Backed up files that will be replaced to " +:+ directory)
       | None => mret tt
       end);
  _ ← install_desktop operation reinstall paths autostart_entry launcher_entry;
  _ ← when_ legacy (println legacy_note);
  _ ← when_ (bool_decide (operation = Complete))
        (command ← lift (start_command default_config_path executable config_filename);
         println (done_note command));
  mret backup.

Definition execute_with (config_filename : string) (operation : SetupOperation)
    (reinstall : bool) (paths : InstallPaths) (executable backup_parent : string)
    : IO anyhow (option string) :=
  _ ← when_ (config_part operation)
        (r ← install_file config_filename (DEFAULT_CONFIG env) false;
         report "configuration" config_filename r);
  if negb (autostart_part operation) && negb (launcher_part operation) then mret None
  else execute_desktop config_filename operation reinstall paths executable backup_parent.

(** ** Salmon Watch *)

Record SalmonWatchPaths := {
  salmon_config : string;
  salmon_autostart : list string;
  salmon_launcher : list string;
  salmon_icons : list string;
}.

Definition salmon_watch_paths (config_home data_home : string) : SalmonWatchPaths :=
  {| salmon_config := path_join config_home "salmon-watch/salmon-watch.yml";
     salmon_autostart := [path_join config_home "autostart/salmon-watch.desktop";
                          path_join config_home "autostart/salmon-watch-legacy.desktop"];
     salmon_launcher := [path_join data_home "applications/salmon-watch.desktop";
                         path_join data_home "applications/salmon-watch-legacy.desktop"];
     salmon_icons := [path_join data_home "icons/hicolor/scalable/apps/salmon-watch.svg";
                      path_join data_home "icons/hicolor/scalable/apps/salmon-watch-legacy.svg"] |}.

Definition salmon_desktop (s : SalmonWatchPaths) : list string :=
  salmon_autostart s ++ salmon_launcher s ++ salmon_icons s.

Fixpoint existing_paths (paths : list string) : IO anyhow (list string) :=
  match paths with
  | [] => mret []
  | path :: paths =>
      b ← lexists "inspect Salmon Watch file " path;
      rest ← existing_paths paths;
      mret (if b : bool then path :: rest else rest)
  end.
Definition existing_salmon_paths (s : SalmonWatchPaths) : IO anyhow (list string) :=
  existing_paths (salmon_config s :: salmon_desktop s).

Definition salmon_detected (existing : list string) : string :=
  "a Salmon Watch installation was detected:" +:+ newline +:+
  join newline ((fun path => "  " +:+ path) <$> existing) +:+ newline +:+ newline +:+
  "Migrate it explicitly with:" +:+ newline +:+ newline +:+
  "    montray-ui setup migrate-from-salmon" +:+ newline +:+ newline +:+
  "To create a separate Montray UI installation, rerun setup with --ignore-salmon".

Definition reject_salmon_watch_installation (config_filename : string) (montray : InstallPaths)
    (config_home data_home : string) : IO anyhow unit :=
  existing ← existing_salmon_paths (salmon_watch_paths config_home data_home);
  t ← tree;
  if bool_decide (existing = []) ||
     (path_exists t config_filename &&
      (path_exists t (path_autostart montray) || path_exists t (path_launcher montray)))
  then mret tt
  else throw [salmon_detected existing].

Definition execute (config_filename : string) (operation : SetupOperation)
    (reinstall ignore_salmon : bool) : IO anyhow unit :=
  _ ← lift validate_platform;
  if bool_decide (operation = CreateConfig) then
    r ← install_file config_filename (DEFAULT_CONFIG env) false;
    report "configuration" config_filename r
  else
    config_home ← lift (if autostart_part operation
                        then opt_context "determine user configuration directory"
                               (env_config_dir env)
                        else Ok "");
    data_home ← lift (if launcher_part operation
                      then opt_context "determine user data directory" (env_data_dir env)
                      else Ok "");
    let paths := install_paths config_home data_home in
    _ ← when_ (bool_decide (operation = Complete) && negb ignore_salmon)
          (reject_salmon_watch_installation config_filename paths config_home data_home);
    executable ← lift executable_path;
    _ ← execute_with config_filename operation reinstall paths executable (env_temp_dir env);
    mret tt.

(** ** Autostart *)

Definition autostart_file : Result string :=
  config_home ← opt_context "determine user configuration directory" (env_config_dir env);
  Ok (path_join config_home "autostart/montray-ui.desktop").

Definition autostart_enabled_at (path : string) : IO anyhow bool := lexists "inspect " path.

Definition autostart_enabled : IO anyhow bool :=
  path ← lift autostart_file;
  autostart_enabled_at path.

Definition set_autostart_file (path entry : string) (enabled : bool) : IO anyhow bool :=
  if enabled then
    _ ← install_file path entry false;
    mret true
  else
    r ← try_io (read_text path);
    match r with
    | Err e => if bool_decide (io_kind e = NotFound) then mret false
               else throw ["read " +:+ path; io_text e]
    | Ok contents =>
        if negb (has_desktop_entry_version contents) && negb (is_legacy_desktop_entry contents)
        then throw ["autostart file " +:+ path +:+
                    " was not created by Montray; leaving it unchanged"]
        else
          _ ← ctx ("remove " +:+ path) (remove_file path);
          mret false
    end.

Definition set_autostart (config_filename : string) (enabled : bool) : IO anyhow bool :=
  _ ← lift validate_platform;
  path ← lift autostart_file;
  if negb enabled then set_autostart_file path "" false
  else
    executable ← lift executable_path;
    config_filename ← lift (with_context "resolve config path"
                              (absolute (env_current_dir env) config_filename));
    entry ← lift (desktop_entry executable config_filename true);
    set_autostart_file path entry true.
End Setup.

(** ** Files that setup leaves alone *)

Lemma starts_with_spec (p s : string) :
  starts_with p s = true -> exists rest, s = p +:+ rest.
Proof. by intros ?%starts_with_true. Qed.

Section Undisturbed.
Context `{TempNames} (env : SetupEnv) (base : list Tree) (allowed : string -> Prop)
  (t0 : Tree).
Abbreviation inv := (moments base anything (unchanged allowed t0) whatever).

Lemma keeps_install_file path contents replace_ :
  (replace_ = true -> may_change allowed t0 path) -> keeps inv (install_file path contents replace_).
Proof.
  intros Hp. unfold install_file.
  apply keeps_bind; [apply keeps_lift|intros parent].
  apply keeps_bind; [apply keeps_ctx, keeps_create_dir_all|intros _].
  apply keeps_bind; [apply keeps_tree|intros t].
  destruct (negb replace_ && path_exists t path); [apply keeps_ret|].
  apply keeps_with_temp. intros temp Htemp. unfold install_body. io_keeps.
Qed.

Lemma keeps_report description path r : keeps inv (report description path r).
Proof. destruct r; apply keeps_println_unchanged. Qed.

Lemma keeps_lexists error path : keeps inv (lexists error path).
Proof. unfold lexists. io_keeps. Qed.

Lemma keeps_existing_targets targets :
  hoare inv (existing_targets targets)
    (fun r w => inv w /\ forall l, r = Ok l -> forall x, x ∈ l -> x ∈ targets).
Proof.
  induction targets as [|target targets IH]; simpl.
  { intros w w' r Hw [= <- <-]. split; [done|]. intros l [= <-]. done. }
  eapply hoare_bind; [apply keeps_lexists| |by intros e w Hw].
  intros b. eapply hoare_bind; [exact IH| |by intros e w [Hw _]].
  intros rest w w' r [Hw Hrest] [= <- <-]. split; [done|]. intros l [= <-] x Hx.
  destruct b; [apply elem_of_cons in Hx as [->|Hx]; [left|right]|right]; by eapply Hrest.
Qed.

Section Backup.
Context (dir : string).
Hypothesis Hdir : forall rest, may_change allowed t0 (dir +:+ rest).
Abbreviation strong := (moments base anything (unchanged allowed t0) (no_links_below dir)).

Lemma unchanged_remove_dir t :
  unchanged allowed t0 t ->
  unchanged allowed t0
    (filter (fun '(key, _) => key <> dir /\ starts_with (dir +:+ "/") key = false) t).
Proof.
  intros Hu p n Hp Ha. apply map_lookup_filter_Some. split; [by apply Hu|].
  split.
  - intros ->. rewrite <-(append_nil_r dir) in Hp, Ha. specialize (Hdir "" Ha). congruence.
  - destruct (starts_with (dir +:+ "/") p) eqn:Hs; [|done].
    apply starts_with_spec in Hs as [rest ->]. rewrite append_assoc in Hp, Ha.
    specialize (Hdir _ Ha). congruence.
Qed.

Lemma keeps_remove_dir_all : keeps inv (remove_dir_all dir).
Proof. apply keeps_sys_unchanged; [done|]. intros t. apply unchanged_remove_dir. Qed.

Lemma keeps_remove_dir_all_private : keeps strong (remove_dir_all dir).
Proof.
  apply keeps_sys; [apply stable_private|done|]. intros t Hu Hl. simpl.
  split; [by apply unchanged_remove_dir|].
  intros rest target Hn. apply map_lookup_filter_Some in Hn as [Hn _]. by apply Hl in Hn.
Qed.

Lemma path_join_below relative :
  starts_with "/" relative = false -> exists rest, path_join dir relative = dir +:+ rest.
Proof. intros Hr. unfold path_join. rewrite Hr. destruct (_ || _); eauto. Qed.

Lemma keeps_backup_into existing :
  Forall (fun target => starts_with "/" target.2 = false) existing ->
  keeps strong (backup_into dir existing).
Proof.
  intros Hall. rewrite list.Forall_forall in Hall. unfold backup_into.
  apply keeps_bind; [apply keeps_try|intros [[]|e]; [apply keeps_ret|]].
  - apply keeps_bind; [apply keeps_ctx|intros _].
    { rewrite <-(append_nil_r dir) at 2. by apply keeps_set_permissions_private. }
    apply keeps_iter. intros [source relative] Hin. cbv zeta.
    apply keeps_bind; [apply keeps_ctx, keeps_create_dir_all_private|intros _].
    apply keeps_ctx. destruct (path_join_below relative (Hall _ Hin)) as [rest ->].
    by apply keeps_copy_private.
  - apply keeps_bind; [apply keeps_try, keeps_remove_dir_all_private|intros _; apply keeps_throw].
Qed.
End Backup.

Lemma strong_inv (Q : Tree -> Prop) {E A} (m : IO E A) w w' r :
  keeps (moments base anything (unchanged allowed t0) Q) m -> inv w -> Q (w_tree w) ->
  m w = (w', r) -> inv w'.
Proof.
  intros Hm (H1 & _ & H3) Hq Hr.
  destruct (Hm w w' r (conj H1 (conj Hq H3)) Hr) as (H1' & _ & H3').
  exact (conj H1' (conj I H3')).
Qed.

(** Nothing at or below a fresh path was there at the start. *)
Lemma fresh_may_change prefix t :
  unchanged allowed t0 t -> forall rest, may_change allowed t0 (fresh_path prefix t +:+ rest).
Proof.
  intros Hu rest Ha. eapply unchanged_absent; [exact Hu|apply fresh_path_new|done].
Qed.
Lemma fresh_no_links prefix t : no_links_below (fresh_path prefix t) t.
Proof. intros rest target. by rewrite fresh_path_new. Qed.

Lemma keeps_backup targets backup_parent :
  Forall (fun target => starts_with "/" target.2 = false) targets ->
  keeps inv (backup_existing_files targets backup_parent).
Proof.
  intros Hall. unfold backup_existing_files.
  eapply hoare_bind; [apply keeps_existing_targets| |by intros e w [Hw _]].
  intros existing. apply (hoare_weaken (fun w => inv w /\ forall x, x ∈ existing -> x ∈ targets)
    _ _ (fun _ => inv)); [|intros w [Hw He]; split; [done|by apply He]|done].
  intros w w' r [Hw Hsub]. case_bool_decide; [by apply keeps_ret|].
  assert (Forall (fun target => starts_with "/" target.2 = false) existing) as Hall'.
  { rewrite list.Forall_forall in *. auto. }
  revert w w' r Hw. apply keeps_bind; [apply keeps_ctx, keeps_create_dir_all|intros _].
  apply keeps_bind_now. intros w w' r Hw.
  pose proof (fresh_may_change (path_join backup_parent BACKUP_PREFIX) (w_tree w) (proj1 Hw)).
  cbv zeta. eapply strong_inv; [|done|apply fresh_no_links].
  apply keeps_bind; [apply keeps_ctx, keeps_mkdir_private|intros _].
  by apply keeps_backup_into.
Qed.

Lemma targets_relative operation reinstall paths :
  Forall (fun target => starts_with "/" target.2 = false)
    (backup_targets operation reinstall paths).
Proof.
  unfold backup_targets. destruct reinstall, (autostart_part operation), (launcher_part operation);
    repeat constructor.
Qed.

Lemma keeps_load_config path : keeps inv (load_config env path).
Proof. unfold load_config. io_keeps. Qed.
Lemma keeps_is_legacy_file path : keeps inv (is_legacy_desktop_entry_file path).
Proof. unfold is_legacy_desktop_entry_file. io_keeps. Qed.
Lemma keeps_when b m : keeps inv m -> keeps inv (when_ b m).
Proof. destruct b; [done|]. intros _. apply keeps_ret. Qed.

#[local] Hint Resolve keeps_report keeps_load_config keeps_is_legacy_file keeps_install_file
  keeps_lexists : io.

(** The paths a setup operation may replace. *)
Definition replaceable (operation : SetupOperation) (reinstall : bool) (paths : InstallPaths)
    (p : string) : Prop :=
  reinstall = true /\
  ((autostart_part operation = true /\ p = path_autostart paths) \/
   (launcher_part operation = true /\ (p = path_icon paths \/ p = path_launcher paths))).

Section Desktop.
Context (operation : SetupOperation) (reinstall : bool) (paths : InstallPaths).
Hypothesis Hallowed : forall p, replaceable operation reinstall paths p -> allowed p.

Lemma keeps_install_desktop autostart_entry launcher_entry :
  keeps inv (install_desktop env operation reinstall paths autostart_entry launcher_entry).
Proof.
  unfold install_desktop.
  assert (forall p, replaceable operation reinstall paths p -> may_change allowed t0 p) as Hm
    by (intros p Hp Ha; by destruct Ha; apply Hallowed).
  apply keeps_bind; [|intros _].
  - unfold when_. destruct (autostart_part operation) eqn:Ha; [|apply keeps_ret].
    apply keeps_bind; [apply keeps_install_file|intros r; apply keeps_report].
    intros Hr. apply Hm. split; auto.
  - unfold when_. destruct (launcher_part operation) eqn:Hl; [|apply keeps_ret].
    apply keeps_bind; [apply keeps_install_file|intros r].
    { intros Hr. apply Hm. split; auto. }
    apply keeps_bind; [apply keeps_report|intros _].
    apply keeps_bind; [apply keeps_install_file|intros r'; apply keeps_report].
    intros Hr. apply Hm. split; auto.
Qed.

Lemma keeps_execute_desktop config_filename executable backup_parent :
  keeps inv (execute_desktop env config_filename operation reinstall paths executable backup_parent).
Proof.
  pose proof (keeps_install_desktop) as Hi.
  pose proof (keeps_backup _ backup_parent (targets_relative operation reinstall paths)) as Hb.
  unfold execute_desktop, when_. io_keeps.
Qed.

Lemma keeps_execute_with config_filename executable backup_parent :
  keeps inv (execute_with env config_filename operation reinstall paths executable backup_parent).
Proof.
  unfold execute_with. apply keeps_bind; [apply keeps_when|intros _].
  - apply keeps_bind; [by apply keeps_install_file|intros r; apply keeps_report].
  - destruct (_ && _); [apply keeps_ret|apply keeps_execute_desktop].
Qed.
End Desktop.

Lemma keeps_existing_paths ps : keeps inv (existing_paths ps).
Proof. induction ps; simpl; [apply keeps_ret|]. io_keeps. Qed.

Lemma keeps_reject config_filename montray config_home data_home :
  keeps inv (reject_salmon_watch_installation config_filename montray config_home data_home).
Proof.
  unfold reject_salmon_watch_installation, existing_salmon_paths.
  apply keeps_bind; [apply keeps_existing_paths|intros existing]. io_keeps.
Qed.

Lemma keeps_execute config_filename operation reinstall ignore_salmon :
  (forall config_home data_home p,
     env_config_dir env = Some config_home \/ autostart_part operation = false ->
     env_data_dir env = Some data_home \/ launcher_part operation = false ->
     replaceable operation reinstall (install_paths config_home data_home) p -> allowed p) ->
  keeps inv (execute env config_filename operation reinstall ignore_salmon).
Proof.
  intros Ha. unfold execute. apply keeps_bind; [apply keeps_lift|intros _].
  case_bool_decide.
  { apply keeps_bind; [by apply keeps_install_file|intros r; apply keeps_report]. }
  apply hoare_lift; [intros config_home Hc|by intros].
  apply hoare_lift; [intros data_home Hd|by intros]. cbv zeta. fold inv.
  apply keeps_bind; [apply keeps_when, keeps_reject|intros _].
  apply keeps_bind; [apply keeps_lift|intros executable].
  apply keeps_bind; [apply keeps_execute_with|intros _; apply keeps_ret].
  intros p. apply Ha.
  - destruct (autostart_part operation); [left|by right]. by destruct (env_config_dir env); simplify_eq/=.
  - destruct (launcher_part operation); [left|by right]. by destruct (env_data_dir env); simplify_eq/=.
Qed.
End Undisturbed.

(** ** One file *)

Section Install.
Context `{TempNames} (path contents : string) (script : list Outcome) (t0 : Tree)
  (base : list Tree).
Hypothesis Hpath : private_path path = false.

Abbreviation before Q := (moments base (races_in script) (pending path script t0) Q).
Abbreviation later Q :=
  (moments base (races_in script) (whole path contents public_mode script t0) Q).

(** How an installation ends. *)
Definition installed (r : Result FileResult) : World -> Prop :=
  placed_at path contents public_mode script t0 base
    (match r with Ok Preserved => Ok false | Ok _ => Ok true | Err e => Err e end).

Lemma body_installed temp replace_ :
  private_path temp = true -> temp <> path ->
  hoare (before (fun t => t !! temp = Some (NFile "" 384)))
    (install_body path contents replace_ temp) installed.
Proof.
  intros Htemp Hne. unfold install_body.
  eapply hoare_bind; [by apply hoare_ctx, temp_permissions| |by intros e w Hw].
  intros []. eapply hoare_bind; [by apply hoare_ctx, temp_write| |by intros e w Hw].
  intros []. eapply hoare_bind; [by apply hoare_ctx, temp_flush| |by intros e w Hw].
  intros [] w w' r Hw. unfold tree at 1, mbind, io_bind. cbv beta iota zeta.
  set (existed := path_exists (w_tree w) path). clearbody existed. destruct replace_.
  - unfold ctx. destruct (persist_temp temp path w) as [w1 r1] eqn:H1.
    pose proof (temp_persist path contents public_mode script t0 base temp Htemp _ _ _ Hw H1) as Hp. destruct r1 as [[]|e]; intros [= <- <-].
    + by destruct existed.
    + simpl. by eapply moments_whatever.
  - unfold try_io. destruct (persist_new temp path w) as [w1 r1] eqn:H1.
    pose proof (temp_persist_new path contents public_mode script t0 base temp Htemp _ _ _ Hw H1)
      as Hp. destruct r1 as [[]|e].
    + intros [= <- <-]. by destruct existed.
    + simpl in Hp. case_bool_decide; intros [= <- <-]; simpl.
      * eapply moments_mono; [| |exact Hp]; [done|]. simpl. auto.
      * by eapply moments_whatever.
Qed.

Lemma with_temp_installed error dir replace_ :
  hoare (before whatever) (with_temp error dir (install_body path contents replace_)) installed.
Proof.
  apply hoare_with_temp; [done|by intros e w Hw| |].
  - intros temp r Hne. by apply placed_remove.
  - intros temp Htemp Hne. by apply body_installed.
Qed.

Lemma install_file_installed replace_ :
  hoare (before whatever) (install_file path contents replace_) installed.
Proof.
  unfold install_file. apply hoare_lift; [|by intros e w _ Hw].
  intros parent Hparent. unfold opt_context in Hparent.
  destruct (path_parent path) as [dir|] eqn:Hdir; [|done]. simplify_eq/=.
  apply path_parent_shorter in Hdir.
  eapply hoare_bind; [by apply keeps_ctx, before_create_dir_all| |by intros e w Hw].
  intros []. apply hoare_tree_bind. intros t.
  destruct (negb replace_ && path_exists t path) eqn:Hb.
  - intros w w' r [Hw Ht] [= <- <-]. apply andb_true_iff in Hb as [_ Hb].
    apply path_exists_present in Hb. subst t. eapply moments_mono; [| |exact Hw]; auto.
  - eapply hoare_weaken; [apply with_temp_installed|by intros w [Hw _]|done].
Qed.
End Install.

(** Nothing is replaced without [replace]. *)
Lemma persist_new_present temp path w :
  w_tree w !! path <> None -> is_ok (persist_new temp path w).2 = false.
Proof.
  intros Hp. unfold persist_new. match goal with |- context [sys _ ?f _] => set (op := f) end.
  assert (forall t, t !! path <> None -> is_ok (op t).2 = false) as Hop.
  { intros t Ht. unfold op. by destruct (t !! temp), (t !! path). }
  unfold sys. destruct (w_script w) as [|[| |q d m] rest]; try done; cbn [pass w_tree].
  1,2: specialize (Hop (w_tree w) Hp); by destruct (op (w_tree w)).
  specialize (Hop (race q d m (w_tree w))). rewrite race_present in Hop by done.
  specialize (Hop Hp). by destruct (op (race q d m (w_tree w))).
Qed.

Lemma install_body_keeps_old path contents temp w :
  (install_body path contents false temp w).2 <> Ok Reinstalled.
Proof.
  unfold install_body, mbind, io_bind.
  destruct (ctx _ (set_permissions _ _) w) as [w1 [[]|e]]; [|done].
  destruct (ctx _ (write_all _ _) w1) as [w2 [[]|e]]; [|done].
  destruct (ctx _ flush_file w2) as [w3 [[]|e]]; [|done]. unfold tree, try_io.
  destruct (path_exists (w_tree w3) path) eqn:He.
  - apply path_exists_present in He. pose proof (persist_new_present temp path w3 He) as Hp.
    destruct (persist_new temp path w3) as [w4 [[]|e]]; [done|]. by destruct (bool_decide _).
  - destruct (persist_new temp path w3) as [w4 [[]|e]]; [done|]. by destruct (bool_decide _).
Qed.

Lemma install_keeps_old `{TempNames} path contents w :
  (install_file path contents false w).2 <> Ok Reinstalled.
Proof.
  unfold install_file, mbind, io_bind, lift. destruct (opt_context _ _) as [parent|e]; [|done].
  destruct (ctx _ _ w) as [w1 [[]|e]]; [|done]. unfold tree.
  destruct (negb false && _); [done|]. unfold with_temp, mbind, io_bind, tree, try_io, lift.
  destruct (ctx _ _ w1) as [w2 [[]|e]]; [|done].
  match goal with |- context [install_body path contents false ?temp w2] =>
    pose proof (install_body_keeps_old path contents temp w2) as Hb;
    destruct (install_body path contents false temp w2) as [w3 r3] end.
  destruct (w_tree w3 !! _); [|done]. by destruct (remove_file _ w3) as [w4 r4].
Qed.

Lemma script_races script : Forall (outcome_ok (races_in script)) script.
Proof. apply list.Forall_forall. by intros []. Qed.

Lemma install_file_run `{TempNames} path contents replace_ w w' r :
  private_path path = false -> w_past w = [] -> install_file path contents replace_ w = (w', r) ->
  installed path contents (w_script w) (w_tree w) [] r w'.
Proof.
  intros Hpath Hpast Hrun. eapply install_file_installed; [done| |exact Hrun].
  rewrite <-Hpast. apply moments_begin; [by left|apply script_races].
Qed.

(** C14: [install_file] is atomic and does not clobber. Whatever system calls fail, in
    the middle of a write too, and whatever files other processes create meanwhile:
    at every moment of the run the path holds what it held before, or a file that
    another process put there, or the complete contents with mode 0644. It reports
    [Created] or [Reinstalled] only when the complete contents are in place,
    [Preserved] only when something is there and the contents never were, and after an
    error the contents never were there either. Without [replace] nothing that was
    there changes. *)
Theorem install_file_atomic `{TempNames} (path contents : string) (replace_ : bool)
    (w w' : World) (r : Result FileResult) :
  private_path path = false -> w_past w = [] ->
  install_file path contents replace_ w = (w', r) ->
  let new := Some (NFile contents 420) in  (* 0o644 *)
  let old t := t !! path = w_tree w !! path \/
    exists data mode, Races path data mode ∈ w_script w /\ t !! path = Some (NFile data mode) in
  match r with
  | Ok Preserved => w_tree w' !! path <> None /\ forall t, moment w' t -> old t
  | Ok _ => w_tree w' !! path = new /\ forall t, moment w' t -> old t \/ t !! path = new
  | Err _ => forall t, moment w' t -> old t
  end /\
  (replace_ = false -> forall t, moment w' t ->
     forall p n, w_tree w !! p = Some n -> t !! p = Some n).
Proof.
  intros Hpath Hpast Hrun new old. split.
  - pose proof (install_file_run _ _ _ _ _ _ Hpath Hpast Hrun) as Hi.
    destruct r as [[| |]|e]; simpl in Hi;
      try (split; [apply Hi|]); intros t Ht; exact (moments_at _ _ _ _ _ Hi Ht).
  - intros -> t Ht p n Hp. eapply (unchanged_moments _ (fun _ => False)); try done; [|by intros []].
    by apply keeps_install_file.
Qed.

(** A fresh file, one that is already there, and a full disk during the write. *)
Lemma install_file_atomic_witness :
  let w := world_of [("/c/a", NFile "old" 384)]
    [Fine; Fine; Fine; Fine; Fails false "No space left on device" (Some "ne")] in
  let '(w', r) := install_file "/c/a" "new" true w in
  r = Err ["write file"; "No space left on device"] /\
  w_tree w' !! "/c/a" = Some (NFile "old" 384).
Proof.
  cbv zeta. destruct (install_file "/c/a" "new" true _) as [w' r] eqn:Hrun.
  assert (r = Err ["write file"; "No space left on device"]) as ->.
  { vm_compute in Hrun. by injection Hrun as _ <-. }
  split; [done|]. apply install_file_atomic in Hrun as [Hrun _]; [|reflexivity..].
  destruct (Hrun (w_tree w') (or_introl eq_refl)) as [He|(data & mode & Hin & _)]; [exact He|].
  exfalso. simpl in Hin. rewrite !elem_of_cons in Hin.
  destruct Hin as [?|[?|[?|[?|[?|Hin]]]]]; try done. by apply not_elem_of_nil in Hin.
Defined.

(** The files [--reinstall] replaces. *)
Definition reinstalled (env : SetupEnv) (operation : SetupOperation) (reinstall : bool)
    : list string :=
  if reinstall then
    (if autostart_part operation
     then (fun home => path_join home "autostart/montray-ui.desktop") <$>
            option_list (env_config_dir env) else []) ++
    (if launcher_part operation
     then home ← option_list (env_data_dir env);
          [path_join home "applications/montray-ui.desktop";
           path_join home "icons/hicolor/scalable/apps/montray-ui.svg"] else [])
  else [].

(** Setup replaces nothing it was not asked to. Whatever calls fail and whatever
    other processes create, at every moment of [execute] every file, directory and link
    that was there at the start is there unchanged; only with [--reinstall] may the
    entries and the icon of the chosen operation change, and never the configuration. *)
Theorem setup_undisturbed `{TempNames} (env : SetupEnv) (config_filename : string)
    (operation : SetupOperation) (reinstall ignore_salmon : bool) (w w' : World)
    (r : Result unit) (t : Tree) (p : string) (n : Node) :
  w_past w = [] ->
  execute env config_filename operation reinstall ignore_salmon w = (w', r) ->
  moment w' t -> w_tree w !! p = Some n -> p ∉ reinstalled env operation reinstall ->
  t !! p = Some n.
Proof.
  intros Hpast Hrun Ht Hp Hr.
  eapply (unchanged_moments _ (fun q => q ∈ reinstalled env operation reinstall)); try done.
  apply keeps_execute. intros config_home data_home q Hc Hd [-> Hq]. unfold reinstalled.
  apply elem_of_app. destruct Hq as [[Ha ->]|[Hl Hq]]; [left|right].
  - rewrite Ha in Hc |- *. destruct Hc as [-> |]; [|done]. by left.
  - rewrite Hl in Hd |- *. destruct Hd as [-> |]; [|done]. simpl. set_solver.
Qed.

Definition demo_env : SetupEnv :=
  {| env_os := "linux"; env_config_dir := Some "/c"; env_data_dir := Some "/d";
     env_current_exe := Ok "/b/montray-ui"; env_canonicalize := Ok; env_temp_dir := "/t";
     env_current_dir := Ok "/"; env_debug_str := fun s => s;
     env_from_slice := fun _ => Ok demo_config;
     DEFAULT_CONFIG := "ws_client: {}"; APPLICATION_ICON := "<svg/>" |}.

Definition demo_world (script : list Outcome) : World :=
  world_of [("/c/montray.yml", NFile "mine" 384);
         ("/c/autostart/montray-ui.desktop", NFile "old" 420)] script.

Lemma setup_undisturbed_witness :
  let '(w', r) := execute demo_env "/c/montray.yml" Complete true true (demo_world []) in
  r = Ok tt /\ w_tree w' !! "/c/montray.yml" = Some (NFile "mine" 384).
Proof.
  destruct (execute _ _ _ _ _ _) as [w' r] eqn:Hrun. split.
  { apply (f_equal snd) in Hrun. vm_compute in Hrun. by symmetry. }
  eapply setup_undisturbed; [|exact Hrun|by left|reflexivity|]; [reflexivity|].
  by apply (bool_decide_unpack (_ ∉ _)); vm_compute.
Defined.
