(* ===== verification/Reinstall.v ===== *)
(** * Reinstallation

    What [--reinstall] replaces is backed up before: the copies of
    [backup_existing_files] and the order of the steps of [execute_with]
    (src/cmd/montray-ui/src/setup.rs). *)

From Stdlib Require Import ZArith Lia Ascii.
From stdpp Require Import base gmap strings list option.
From S2P Require Import Prelude RustStr Output RustPath Config Desktop Io Atomic Cli Setup.


Section Backups.
Context `{TempNames} (base : list Tree) (t0 : Tree).
Abbreviation P := (unchanged nowhere t0).
Abbreviation now Q := (moments base anything P Q).

Lemma not_nowhere p : ~ nowhere p.
Proof. by intros []. Qed.
#[local] Hint Resolve not_nowhere : core.

Lemma P_lookup t p n : P t -> t0 !! p = Some n -> t !! p = Some n.
Proof. intros HP Hp. by apply HP. Qed.

(** Every target that is there is found. *)
Definition covers (targets existing : list (string * string)) : Prop :=
  (forall x, x ∈ existing -> x ∈ targets) /\
  (NoDup targets.*2 -> NoDup existing.*2) /\
  forall x n, x ∈ targets -> t0 !! x.1 = Some n -> x ∈ existing.

Lemma lexists_finds error path :
  hoare (now whatever) (lexists error path)
    (fun r w => now whatever w /\ forall b n, r = Ok b -> t0 !! path = Some n -> b = true).
Proof.
  intros w w' r Hw. unfold lexists, try_io, mbind, io_bind.
  destruct (symlink_metadata path w) as [w1 r1] eqn:H1.
  pose proof (hoare_sys_turn base anything P nothing_left
    (fun t => match t !! path with
      | Some _ => (t, Ok tt)
      | None => refuse NotFound "No such file or directory (os error 2)" t end) whatever P
    (fun r t => match r with Err e => io_kind e = NotFound -> t !! path = None | _ => True end))
    as Hs.
  assert (moments base anything (if is_ok r1 then P else P)
    (fun t => match r1 with Err e => io_kind e = NotFound -> t !! path = None | _ => True end) w1)
    as Hw1.
  { eapply Hs; [apply stable_unchanged|done|done|by intros ? ? ? [-> | ->]| |exact Hw|exact H1].
    intros t HP _. destruct (t !! path) eqn:Hp; simpl; by rewrite ?Hp. }
  assert (now whatever w1) as Hn by (destruct (is_ok r1); by eapply moments_whatever).
  destruct r1 as [[]|e]; [intros [= <- <-]; split; [done|]; by intros b n [= <-]|].
  case_bool_decide as Hk; intros [= <- <-]; (split; [done|]); intros b n [= <-] Hp.
  destruct Hw1 as (HP & Hnone & _). specialize (Hnone Hk). by rewrite (P_lookup _ _ _ HP Hp) in Hnone.
Qed.

Lemma existing_covers targets :
  hoare (now whatever) (existing_targets targets)
    (fun r w => now whatever w /\ forall l, r = Ok l -> covers targets l).
Proof.
  induction targets as [|target targets IH]; simpl.
  { intros w w' r Hw [= <- <-]. split; [done|]. intros l [= <-]. split; [done|]. split; [done|]. set_solver. }
  eapply hoare_bind; [apply lexists_finds| |by intros e w [Hw _]].
  intros b. apply hoare_pure. intros Hb.
  eapply hoare_bind; [apply IH| |by intros e w [Hw _]].
  intros rest. apply hoare_pure. intros Hrest w w' r Hw [= <- <-]. split; [done|].
  intros l [= <-]. destruct (Hrest rest eq_refl) as (H1 & Hnd & H2). split; [|split].
  - intros x Hx. destruct b; set_solver.
  - intros [Hn Hnd']%list.NoDup_cons. destruct b; [|by apply Hnd].
    apply list.NoDup_cons. split; [|by apply Hnd]. contradict Hn.
    apply list_elem_of_fmap in Hn as (x & -> & Hx%H1). apply list_elem_of_fmap. eauto.
  - intros x n [->|Hx]%elem_of_cons Hn; [rewrite (Hb b n eq_refl Hn); by left|].
    destruct b; [right|]; by eapply H2.
Qed.

(** The copies made so far. *)
Section Dir.
Context (dir : string).
Hypothesis Hprivate : forall rest, private_path (dir +:+ rest) = true.
Hypothesis Hfresh : forall rest, t0 !! (dir +:+ rest) = None.

Definition saved (finished : list (string * string)) (t : Tree) : Prop :=
  no_links_below dir t /\
  forall source relative data mode, (source, relative) ∈ finished ->
    t0 !! source = Some (NFile data mode) ->
    t !! path_join dir relative = Some (NFile data mode).

Definition relative_path (target : string * string) : Prop := starts_with "/" target.2 = false.

Lemma path_join_inj a b :
  starts_with "/" a = false -> starts_with "/" b = false ->
  path_join dir a = path_join dir b -> a = b.
Proof.
  unfold path_join. intros -> ->.
  destruct (_ || _); rewrite ?append_assoc; intros Heq%(inj (String.append dir)); by simplify_eq/=.
Qed.

Lemma below_may_change rest : may_change nowhere t0 (dir +:+ rest).
Proof. intros _. apply Hfresh. Qed.

Lemma stable_saved finished :
  Forall relative_path finished -> stable anything P (saved finished).
Proof.
  intros Hrel path data mode t _ HP [Hl Hs]. split; [by apply unchanged_race|].
  split; [by apply no_links_race|]. intros source relative d m Hin H0.
  rewrite list.Forall_forall in Hrel. destruct (path_join_below dir relative) as [rest Hj];
    [exact (Hrel _ Hin)|]. rewrite Hj in *. rewrite race_private by apply Hprivate.
  rewrite <-Hj. by eapply Hs.
Qed.

Lemma saved_mkdir finished mode d :
  Forall relative_path finished -> keeps (now (saved finished)) (mkdir mode d).
Proof.
  intros Hrel. apply keeps_sys; [by apply stable_saved|done|]. intros t HP [Hl Hs].
  destruct (t !! d) eqn:Hd; simpl; [done|]. split; [by apply unchanged_insert; auto|].
  split; [by apply no_links_insert|]. intros source relative data m Hin H0.
  specialize (Hs _ _ _ _ Hin H0). rewrite lookup_insert_ne; [done|]. intros ->. congruence.
Qed.

Lemma saved_create_dir_all finished mode d :
  Forall relative_path finished -> keeps (now (saved finished)) (create_dir_all mode d).
Proof.
  intros Hrel. pose proof (saved_mkdir finished mode) as Hm. unfold create_dir_all. io_keeps.
Qed.

Lemma saved_nil t : saved [] t <-> no_links_below dir t.
Proof. split; [by intros []|]. intros Hl. split; [done|]. intros ? ? ? ? ?%not_elem_of_nil. done. Qed.

Lemma saved_permissions mode : keeps (now (saved [])) (set_permissions dir mode).
Proof.
  pose proof (keeps_set_permissions_private base nowhere t0 dir "" mode (below_may_change ""))
    as Hp. rewrite append_nil_r in Hp. eapply hoare_weaken; [exact Hp|..].
  - intros w. apply moments_mono; [done|]. by intros ?%saved_nil.
  - intros r w. apply moments_mono; [done|]. by intros ?%saved_nil.
Qed.

Lemma read_regular source t data mode :
  P t -> t0 !! source = Some (NFile data mode) -> read_node source t = Ok (data, mode).
Proof.
  intros HP Hs. pose proof (P_lookup _ _ _ HP Hs) as Ht. unfold read_node.
  rewrite resolve_not_link by (intros target; congruence). by rewrite Ht.
Qed.

Section Copy.
Context (finished : list (string * string)) (source relative : string).
Hypothesis (Hrel : Forall relative_path finished) (Hr : starts_with "/" relative = false)
  (Hnew : relative ∉ finished.*2).

Lemma put_unchanged data mode t :
  P t -> no_links_below dir t ->
  P (put_file (path_join dir relative) data mode t) /\
  no_links_below dir (put_file (path_join dir relative) data mode t).
Proof.
  intros HP Hl. destruct (path_join_below dir relative Hr) as [rest ->].
  by apply keeps_put_file; [apply below_may_change|..].
Qed.

Lemma resolve_join t :
  no_links_below dir t -> resolve t (path_join dir relative) = Some (path_join dir relative).
Proof.
  intros Hl. destruct (path_join_below dir relative Hr) as [rest ->].
  apply resolve_not_link. apply Hl.
Qed.

Lemma saved_put data mode t :
  P t -> saved finished t -> read_node source t = Ok (data, mode) ->
  (forall m, t !! path_join dir relative <> Some (NDir m)) ->
  saved (finished ++ [(source, relative)]) (put_file (path_join dir relative) data mode t).
Proof.
  intros HP [Hl Hs] Hread Hd. split; [by apply put_unchanged|].
  assert (put_file (path_join dir relative) data mode t =
          <[path_join dir relative := NFile data mode]> t) as ->.
  { unfold put_file. rewrite resolve_join by done.
    destruct (t !! path_join dir relative) as [[]|]; try done. by destruct (Hd mode0). }
  intros source' relative' d m [Hin|[= -> ->]%list_elem_of_singleton]%elem_of_app H0.
  - rewrite lookup_insert_ne; [by eapply Hs|]. rewrite list.Forall_forall in Hrel.
    intros ->%path_join_inj; [|done|exact (Hrel _ Hin)].
    apply Hnew, list_elem_of_fmap. by exists (source', relative').
  - rewrite (read_regular _ _ _ _ HP H0) in Hread. injection Hread as -> ->.
    apply lookup_insert_eq.
Qed.

Lemma saved_copy :
  hoare (now (saved finished)) (copy_file source (path_join dir relative))
    (fun r => now (after (fun _ => saved (finished ++ [(source, relative)])) r)).
Proof.
  apply hoare_sys; [by apply stable_saved|intros data t HP [Hl _]; by apply put_unchanged|].
  intros t HP Hs. destruct (read_node source t) as [[data mode]|e] eqn:Hread; [|done].
  rewrite resolve_join by apply Hs. cbn [mbind option_bind].
  assert (forall n, t !! path_join dir relative = n -> (forall m, n <> Some (NDir m)) ->
    P (put_file (path_join dir relative) data mode t) /\
    saved (finished ++ [(source, relative)]) (put_file (path_join dir relative) data mode t)).
  { intros n <- Hn. split; [apply put_unchanged; [done|apply Hs]|by apply saved_put]. }
  destruct (t !! path_join dir relative) as [[]|] eqn:Hd; try done; simpl; eauto.
Qed.
End Copy.

Lemma saved_all existing finished :
  Forall relative_path (finished ++ existing) -> NoDup (finished ++ existing).*2 ->
  hoare (now (saved finished))
    (io_iter (fun '(source, relative) =>
      let destination := path_join dir relative in
      _ ← ctx "create reinstall backup subdirectory"
            (create_dir_all default_dir_mode (default "" (path_parent destination)));
      ctx ("back up " +:+ source +:+ " to " +:+ destination) (copy_file source destination))
      existing)
    (fun r => now (after (fun _ => saved (finished ++ existing)) r)).
Proof.
  revert finished. induction existing as [|[source relative] existing IH];
    intros finished Hrel Hnd; cbn [io_iter].
  { intros w w' r Hw [= <- <-]. simpl. by rewrite app_nil_r. }
  pose proof Hrel as [Hf [Hr _]%list.Forall_cons]%list.Forall_app.
  eapply (hoare_seq base anything P _ _ _ (fun _ => saved (finished ++ [(source, relative)]))).
  - cbv zeta. eapply hoare_bind; [by apply keeps_ctx, saved_create_dir_all| |].
    + intros []. apply hoare_ctx, saved_copy; [done|done|].
      rewrite fmap_app in Hnd. apply list.NoDup_app in Hnd as (_ & Hnd & _).
      intros Hin. apply (Hnd _ Hin). simpl. by left.
    + intros e w. apply moments_whatever.
  - intros []. specialize (IH (finished ++ [(source, relative)])).
    rewrite <-app_assoc in IH. by apply IH.
Qed.

Lemma backup_into_saved existing :
  Forall relative_path existing -> NoDup existing.*2 ->
  hoare (now (saved [])) (backup_into dir existing)
    (fun r w => now whatever w /\
       forall d, r = Ok d -> d = Some dir /\ saved existing (w_tree w)).
Proof.
  intros Hrel Hnd. unfold backup_into.
  eapply (hoare_try _ _ _ (fun r => now (after (fun _ => saved existing) r))).
  - eapply hoare_bind; [apply (keeps_ctx (now (saved []))), saved_permissions| |].
    + intros []. by apply (saved_all existing []).
    + intros e w. apply moments_whatever.
  - intros [[]|e].
    + intros w w' r Hw [= <- <-]. split; [by eapply moments_whatever|]. intros d [= <-].
      split; [done|]. apply Hw.
    + eapply hoare_try; [|intros r w w' r' Hw [= <- <-]; split; [exact Hw|done]].
      apply keeps_remove_dir_all, below_may_change.
Qed.
End Dir.

(** After a backup every target that was a regular file has a copy. *)
Definition backed_up (parent : string) (targets : list (string * string)) (d : option string)
    (t : Tree) : Prop :=
  match d with
  | None => forall target, target ∈ targets -> t0 !! target.1 = None
  | Some dir => (exists suffix, dir = path_join parent BACKUP_PREFIX +:+ suffix) /\
                (forall rest, private_path (dir +:+ rest) = true) /\ saved dir targets t
  end.

Lemma private_backup parent t rest :
  private_path (fresh_path (path_join parent BACKUP_PREFIX) t +:+ rest) = true.
Proof.
  destruct (fresh_path_prefix (path_join parent BACKUP_PREFIX) t) as [suffix ->].
  unfold private_path. apply orb_true_iff. right. apply contains_true. unfold path_join.
  change (starts_with "/" BACKUP_PREFIX) with false. cbv iota.
  destruct (is_empty parent || ends_with "/" parent).
  - exists parent, (suffix +:+ rest). by rewrite !append_assoc.
  - exists (parent +:+ "/"), (suffix +:+ rest). by rewrite !append_assoc.
Qed.

Lemma backup_spec targets parent :
  Forall relative_path targets -> NoDup targets.*2 ->
  hoare (now whatever) (backup_existing_files targets parent)
    (fun r w => now whatever w /\ forall d, r = Ok d -> backed_up parent targets d (w_tree w)).
Proof.
  intros Hrel Hnd. unfold backup_existing_files.
  eapply hoare_bind; [apply existing_covers| |by intros e w [Hw _]].
  intros existing. apply hoare_pure. intros Hc.
  destruct (Hc existing eq_refl) as (Hsub & Hnd' & Hcov). specialize (Hnd' Hnd).
  case_bool_decide as He.
  { intros w w' r Hw [= <- <-]. split; [done|]. intros d [= <-] target Hin.
    destruct (t0 !! target.1) as [n|] eqn:Hn; [|done]. specialize (Hcov _ _ Hin Hn).
    subst. by apply not_elem_of_nil in Hcov. }
  eapply hoare_bind; [apply (keeps_ctx (now whatever)), keeps_create_dir_all| |by intros e w Hw].
  intros []. apply hoare_tree_bind. intros t. cbv zeta. set (dir := fresh_path _ t).
  assert (forall rest, private_path (dir +:+ rest) = true) as Hprivate by apply private_backup.
  intros w w' r [Hw <-].
  assert (forall rest, may_change nowhere t0 (dir +:+ rest)) as Hfresh
    by (apply fresh_may_change, Hw).
  assert (now (saved dir []) w) as Hs.
  { eapply moments_mono; [| |exact Hw]; [done|]. intros _. apply saved_nil, fresh_no_links. }
  revert Hs. generalize w w' r. change (hoare (now (saved dir []))
    (_ ← ctx "create reinstall backup directory" (mkdir private_dir dir); backup_into dir existing)
    (fun r w => now whatever w /\ forall d, r = Ok d -> backed_up parent targets d (w_tree w))).
  eapply hoare_bind; [by apply (keeps_ctx (now (saved dir []))), saved_mkdir| |].
  - intros []. eapply hoare_weaken.
    + apply (backup_into_saved dir Hprivate (fun rest => Hfresh rest (not_nowhere _)) existing);
        [|done]. rewrite list.Forall_forall in *. auto.
    + done.
    + intros r' w1 [Hw1 Hr]. split; [done|]. intros d Hd.
      destruct (Hr d Hd) as [-> [Hl Hs]]. split; [apply fresh_path_prefix|]. split; [done|]. split; [done|].
      intros source relative data mode Hin H0. eapply Hs; [|done]. by eapply Hcov.
  - intros e w1 Hw1. split; [exact (moments_whatever _ _ _ _ _ Hw1)|done].
Qed.

(** At a moment before or after the backup the old data of a target can be found. *)
Definition recoverable (parent : string) (targets : list (string * string)) (t : Tree) : Prop :=
  forall source relative data mode, (source, relative) ∈ targets ->
    t0 !! source = Some (NFile data mode) ->
    t !! source = Some (NFile data mode) \/
    exists suffix, t !! path_join (path_join parent BACKUP_PREFIX +:+ suffix) relative
                   = Some (NFile data mode).

Lemma recoverable_before parent targets t : P t -> recoverable parent targets t.
Proof. intros HP source relative data mode _ H0. left. by apply HP. Qed.

Lemma recoverable_after parent targets d allowed t1 t :
  Forall relative_path targets -> (forall p, allowed p -> private_path p = false) ->
  backed_up parent targets d t1 -> unchanged allowed t1 t -> recoverable parent targets t.
Proof.
  intros Hrel Ha Hb Hu source relative data mode Hin H0. destruct d as [dir|]; simpl in Hb.
  - destruct Hb as ([suffix Hdir] & Hp & _ & Hs). right. exists suffix. rewrite <-Hdir.
    apply Hu; [by eapply Hs|]. intros Hall%Ha. rewrite list.Forall_forall in Hrel.
    destruct (path_join_below dir relative (Hrel _ Hin)) as [rest Hj].
    rewrite Hj in Hall. by rewrite Hp in Hall.
  - specialize (Hb _ Hin). simpl in Hb. congruence.
Qed.
End Backups.

(** The moments of a run in two parts. *)
Lemma moments_join (P1 P2 R : Tree -> Prop) ok w w' :
  (forall t, P1 t -> R t) -> (forall t, P2 t -> R t) ->
  moments [] ok P1 whatever w -> moments (w_past w) ok P2 whatever w' ->
  moments [] ok R whatever w'.
Proof.
  intros H1 H2 (_ & _ & (l1 & Hl1 & Ha1) & _) (Hn & _ & (l2 & Hl2 & Ha2) & Hs).
  split; [auto|]. split; [done|]. split; [|done].
  exists (l2 ++ l1). rewrite Hl2, Hl1, !app_nil_r. split; [done|].
  apply list.Forall_app. split; by eapply list.Forall_impl.
Qed.

Section Run.
Context `{TempNames} (env : SetupEnv) (t0 : Tree).
Abbreviation before := (moments [] anything (unchanged nowhere t0) whatever).

Section Paths.
Context (operation : SetupOperation) (reinstall : bool) (paths : InstallPaths).
Abbreviation targets := (backup_targets operation reinstall paths).
Abbreviation safe := (moments [] anything (recoverable t0 (env_temp_dir env) targets) whatever).
Hypothesis Hpublic :
  forall p, replaceable operation reinstall paths p -> private_path p = false.

Lemma before_safe w : before w -> safe w.
Proof. apply moments_mono; [|done]. apply recoverable_before. Qed.

Lemma targets_distinct : NoDup targets.*2.
Proof.
  unfold backup_targets. destruct reinstall, (autostart_part operation), (launcher_part operation);
    simpl; repeat (apply list.NoDup_cons; split; [set_solver|]); apply base.NoDup_nil_2.
Qed.

Lemma execute_desktop_safe config_filename executable :
  hoare before
    (execute_desktop env config_filename operation reinstall paths executable (env_temp_dir env))
    (fun _ => safe).
Proof.
  unfold execute_desktop.
  apply hoare_lift; [intros config _|by intros; apply before_safe].
  eapply hoare_bind; [apply (keeps_context before), keeps_load_config| |by intros; apply before_safe].
  intros c. apply hoare_lift; [intros exe _|by intros; apply before_safe].
  apply hoare_lift; [intros autostart_entry _|by intros; apply before_safe].
  apply hoare_lift; [intros launcher_entry _|by intros; apply before_safe].
  eapply (hoare_bind before _ _ (fun _ => before)); [|intros legacy|by intros; apply before_safe].
  { pose proof (keeps_is_legacy_file [] nowhere t0).
    change (keeps before (if negb reinstall && bool_decide (operation = Complete) then
       a ← is_legacy_desktop_entry_file (path_autostart paths);
       if a : bool then is_legacy_desktop_entry_file (path_launcher paths) else mret false
     else mret false)). io_keeps. }
  eapply hoare_bind;
    [apply backup_spec; [apply targets_relative|apply targets_distinct]| |
     by intros e w [Hw _]; apply before_safe].
  intros d w w' r [Hw Hd]. specialize (Hd d eq_refl). intros Hrun.
  eapply (moments_join _ (unchanged (replaceable operation reinstall paths) (w_tree w)));
    [apply recoverable_before| |exact Hw|].
  { intros t. by apply (recoverable_after t0 (env_temp_dir env) targets d _ (w_tree w)); [apply targets_relative|..]. }
  pose proof (keeps_install_desktop env (w_past w) (replaceable operation reinstall paths)
    (w_tree w) operation reinstall paths (fun p Hp => Hp)) as Hi.
  match type of Hrun with ?m w = _ =>
    assert (keeps (moments (w_past w) anything
      (unchanged (replaceable operation reinstall paths) (w_tree w)) whatever) m) as Hk
      by (unfold when_; io_keeps) end.
  eapply Hk; [|exact Hrun]. apply moments_begin; [apply unchanged_start|apply script_anything].
Qed.

Lemma execute_with_safe config_filename executable :
  hoare before
    (execute_with env config_filename operation reinstall paths executable (env_temp_dir env))
    (fun _ => safe).
Proof.
  unfold execute_with.
  eapply (hoare_bind before _ _ (fun _ => before)); [|intros []|by intros; apply before_safe].
  - apply keeps_when, keeps_bind; [by apply keeps_install_file|intros r; apply keeps_report].
  - destruct (_ && _); [|apply execute_desktop_safe].
    intros w w' r Hw [= <- <-]. by apply before_safe.
Qed.
End Paths.

Definition env_paths : InstallPaths :=
  install_paths (default "" (env_config_dir env)) (default "" (env_data_dir env)).

(** Only the parts of the operation matter. *)
Lemma backup_targets_homes operation reinstall config_home data_home :
  (if autostart_part operation
   then opt_context "determine user configuration directory" (env_config_dir env)
   else Ok "") = Ok config_home ->
  (if launcher_part operation
   then opt_context "determine user data directory" (env_data_dir env) else Ok "") = Ok data_home ->
  backup_targets operation reinstall (install_paths config_home data_home) =
  backup_targets operation reinstall env_paths.
Proof.
  unfold backup_targets, env_paths. intros Hc Hd.
  destruct (autostart_part operation), (launcher_part operation), (env_config_dir env),
    (env_data_dir env); simplify_eq/=; done.
Qed.

Lemma replaceable_target operation reinstall paths p :
  replaceable operation reinstall paths p <-> p ∈ (backup_targets operation reinstall paths).*1.
Proof.
  unfold replaceable, backup_targets.
  destruct reinstall, (autostart_part operation), (launcher_part operation); simpl; set_solver.
Qed.

Lemma execute_safe config_filename operation reinstall ignore_salmon :
  (forall p, p ∈ (backup_targets operation reinstall env_paths).*1 -> private_path p = false) ->
  hoare before (execute env config_filename operation reinstall ignore_salmon)
    (fun _ => moments [] anything
       (recoverable t0 (env_temp_dir env) (backup_targets operation reinstall env_paths)) whatever).
Proof.
  intros Hpublic.
  assert (forall w, before w -> moments [] anything
    (recoverable t0 (env_temp_dir env) (backup_targets operation reinstall env_paths)) whatever w)
    as Hsafe by (intros w; apply moments_mono; [|done]; apply recoverable_before).
  unfold execute. apply hoare_lift; [intros [] _|by auto]. case_bool_decide.
  { eapply hoare_weaken; [|exact (fun w Hw => Hw)|intros r; apply Hsafe].
    apply (keeps_bind before); [by apply keeps_install_file|intros r; apply keeps_report]. }
  apply hoare_lift; [intros config_home Hc|by auto].
  apply hoare_lift; [intros data_home Hd|by auto]. cbv zeta.
  pose proof (backup_targets_homes operation reinstall _ _ Hc Hd) as Ht.
  eapply (hoare_bind before _ _ (fun _ => before)); [|intros []|by auto].
  { apply keeps_when, keeps_reject. }
  apply hoare_lift; [intros executable _|by auto].
  eapply (hoare_bind before); [apply execute_with_safe| |].
  - intros p. rewrite replaceable_target, Ht. apply Hpublic.
  - rewrite Ht. intros d w w' r Hw [= <- <-]. exact Hw.
  - rewrite Ht. by intros e w Hw.
Qed.
End Run.

(** The files that a setup operation can replace, each with its name in a backup. *)
Definition desktop_files (config_home data_home : string) : list (string * string) :=
  [(path_join config_home "autostart/montray-ui.desktop", "autostart/montray-ui.desktop");
   (path_join data_home "applications/montray-ui.desktop", "applications/montray-ui.desktop");
   (path_join data_home "icons/hicolor/scalable/apps/montray-ui.svg", "icons/montray-ui.svg")].

Lemma target_desktop_file env operation reinstall target :
  target ∈ backup_targets operation reinstall (env_paths env) ->
  reinstall = true /\
  target ∈ desktop_files (default "" (env_config_dir env)) (default "" (env_data_dir env)).
Proof.
  unfold backup_targets, desktop_files, env_paths.
  destruct reinstall, (autostart_part operation), (launcher_part operation); simpl; set_solver.
Qed.

(** What is not a target stays. *)
Lemma execute_untouched `{TempNames} env config_filename operation reinstall ignore_salmon t0 :
  keeps (moments [] anything
      (unchanged (fun p => p ∈ (backup_targets operation reinstall (env_paths env)).*1) t0) whatever)
    (execute env config_filename operation reinstall ignore_salmon).
Proof.
  apply keeps_execute. intros config_home data_home p Hc Hd. rewrite replaceable_target.
  enough (backup_targets operation reinstall (install_paths config_home data_home) =
    backup_targets operation reinstall (env_paths env)) as -> by done.
  unfold backup_targets, env_paths.
  destruct reinstall, (autostart_part operation), (launcher_part operation); simpl;
    destruct Hc as [Hc|?], Hd as [Hd|?]; rewrite ?Hc, ?Hd; done.
Qed.

(** C33: [--reinstall] loses nothing. Assume that none of the three desktop files is named
    like a temporary file. Whatever calls fail, in the middle of a copy too, and whatever
    files other processes create: at every moment of the setup command, every regular file
    that was there at the start, whichever it is, is there unchanged, or [--reinstall] was
    given, it is one of the three desktop files, and a complete copy with the same data and
    mode is in a backup directory below the temporary directory, under the name for it. *)
Theorem reinstall_backed_up `{TempNames} (env : SetupEnv) (config_filename : string)
    (operation : SetupOperation) (reinstall ignore_salmon : bool) (w w' : World)
    (r : Result unit) (t : Tree) (p data : string) (mode : N) :
  let files := desktop_files (default "" (env_config_dir env)) (default "" (env_data_dir env)) in
  w_past w = [] -> Forall (fun file => private_path file.1 = false) files ->
  execute env config_filename operation reinstall ignore_salmon w = (w', r) ->
  moment w' t -> w_tree w !! p = Some (NFile data mode) ->
  t !! p = Some (NFile data mode) \/
  reinstall = true /\ exists relative suffix, (p, relative) ∈ files /\
    t !! path_join (path_join (env_temp_dir env) "montray-ui-reinstall-" +:+ suffix) relative
    = Some (NFile data mode).
Proof.
  intros files Hpast Hpublic Hrun Ht Hp.
  assert (forall P : Tree -> Prop, P (w_tree w) -> moments [] anything P whatever w) as Hw
    by (intros P HP; rewrite <-Hpast; by apply moments_begin, script_anything).
  destruct (decide (p ∈ (backup_targets operation reinstall (env_paths env)).*1)) as [Hin|Hin].
  - apply list_elem_of_fmap in Hin as ([source relative] & Heq & Hin). simpl in Heq. subst source.
    destruct (target_desktop_file _ _ _ _ Hin) as [-> Hfile].
    assert (recoverable (w_tree w) (env_temp_dir env)
      (backup_targets operation true (env_paths env)) t) as Hrec.
    { eapply moments_at; [|exact Ht]. eapply execute_safe; [|apply Hw, unchanged_start|exact Hrun].
      intros q (target & -> & [_ Hq]%target_desktop_file)%list_elem_of_fmap.
      rewrite list.Forall_forall in Hpublic. by apply Hpublic. }
    destruct (Hrec p relative data mode Hin Hp) as [Hs|[suffix Hs]]; [by left|right].
    split; [done|]. by exists relative, suffix.
  - left. pose proof (execute_untouched env config_filename operation reinstall ignore_salmon
      (w_tree w) w w' r (Hw _ (unchanged_start _ _)) Hrun) as Hk.
    by apply (moments_at _ _ _ _ _ Hk Ht).
Qed.

(** The old entry is replaced, and its copy is there. *)
Lemma reinstall_backed_up_witness :
  let '(w', r) := execute demo_env "/c/montray.yml" Complete true true (demo_world []) in
  r = Ok tt /\ exists relative suffix,
    ("/c/autostart/montray-ui.desktop", relative) ∈ desktop_files "/c" "/d" /\
    w_tree w' !! path_join (path_join "/t" "montray-ui-reinstall-" +:+ suffix) relative
    = Some (NFile "old" 420).
Proof.
  destruct (execute _ _ _ _ _ _) as [w' r] eqn:Hrun. split.
  { apply (f_equal snd) in Hrun. vm_compute in Hrun. by symmetry. }
  destruct (reinstall_backed_up demo_env "/c/montray.yml" Complete true true (demo_world [])
    w' r (w_tree w') "/c/autostart/montray-ui.desktop" "old" 420)
    as [Hold|[_ Hcopy]]; [reflexivity|by repeat constructor|exact Hrun|by left|reflexivity|..].
  - exfalso. apply (f_equal (fun x => w_tree x.1 !! "/c/autostart/montray-ui.desktop")) in Hrun.
    simpl fst in Hrun. rewrite Hold in Hrun. vm_compute in Hrun. discriminate.
  - exact Hcopy.
Defined.
