(* ===== verification/Autostart.v ===== *)
(** * The autostart switch

    Properties of [set_autostart] and [autostart_enabled]
    (src/cmd/montray-ui/src/setup.rs), which the preferences window uses. *)

From Stdlib Require Import ZArith Lia Ascii.
From stdpp Require Import base gmap strings list option.
From S2P Require Import Prelude RustStr Output RustPath Config Desktop Io Cli Setup.

(** A text that Montray takes for its own. *)
Definition ours (contents : string) : bool :=
  has_desktop_entry_version contents || is_legacy_desktop_entry contents.

Section Disable.
Context (base : list Tree) (t0 : Tree).
Abbreviation inv allowed Q := (moments base anything (unchanged allowed t0) Q).
Definition none (_ : string) : Prop := False.

(** Whether the entry is still there, or was ours. *)
Definition kept_or_ours (path : string) (w : World) : Prop :=
  inv none whatever w \/
  (inv (fun p => p = path) whatever w /\
   exists t data mode, moment w t /\ unchanged none t0 t /\
     read_node path t = Ok (data, mode) /\ ours data = true).

Lemma disable_spec `{TempNames} path :
  hoare (inv none whatever) (set_autostart_file path "" false) (fun _ => kept_or_ours path).
Proof.
  unfold set_autostart_file. eapply hoare_try; [apply read_text_saw|].
  intros [text|e] w w' r [Hw Hsaw].
  - destruct (Hsaw text eq_refl) as [mode Hread].
    destruct (negb _ && negb _) eqn:Hours; [by intros [= <- <-]; left|].
    unfold ctx, mbind, io_bind. destruct (remove_file path w) as [w1 r1] eqn:Hr.
    intros Hret. assert (w' = w1) as -> by (by destruct r1; injection Hret).
    right. split.
    + eapply (keeps_remove_file base (fun p => p = path) t0 path); [by intros Hne; destruct Hne| |exact Hr].
      eapply moments_mono; [|done|exact Hw]. intros t Hu p n Hp _.
      apply Hu; [done|by intros []].
    + exists (w_tree w), text, mode. split; [by eapply moment_sys; [exact Hr|left]|].
      split; [apply Hw|]. split; [done|]. unfold ours.
      by destruct (has_desktop_entry_version text), (is_legacy_desktop_entry text).
  - case_bool_decide; intros [= <- <-]; by left.
Qed.
End Disable.

(** What may be removed: a file of ours, or a link to one. *)
Definition removable (path : string) (n : Node) (w : World) : Prop :=
  match n with
  | NFile data _ => ours data = true
  | NDir _ => False
  | NLink _ => exists t data mode,
      moment w t /\ read_node path t = Ok (data, mode) /\ ours data = true
  end.

Lemma read_removable path n t0 w t data mode :
  moment w t -> unchanged none t0 t -> t0 !! path = Some n ->
  read_node path t = Ok (data, mode) -> ours data = true -> removable path n w.
Proof.
  intros Ht Hu Hn Hr Ho. specialize (Hu path n Hn (fun H => H)).
  destruct n as [d m|m|target]; simpl; [..|by exists t, data, mode];
    unfold read_node in Hr; rewrite resolve_not_link, Hu in Hr by (intros; congruence);
    by simplify_eq/=.
Qed.

(** Switching autostart off removes at most Montray's own entry. Whatever calls
    fail and whatever other processes create, at every moment everything that was there
    is unchanged, but for the autostart entry, and that only if it is a file whose text
    carries Montray's version marker or the signature of a legacy entry, or a link
    through which such a text was read. *)
Theorem autostart_disable_safe `{TempNames} (env : SetupEnv) (config_filename : string)
    (w w' : World) (r : Result bool) (t : Tree) (p : string) (n : Node) :
  w_past w = [] -> set_autostart env config_filename false w = (w', r) ->
  moment w' t -> w_tree w !! p = Some n ->
  t !! p = Some n \/ (autostart_file env = Ok p /\ removable p n w').
Proof.
  intros Hpast Hrun Ht Hp.
  assert (hoare (moments [] anything (unchanged none (w_tree w)) whatever)
    (set_autostart env config_filename false) (fun _ w' =>
      moments [] anything (unchanged none (w_tree w)) whatever w' \/
      exists path, autostart_file env = Ok path /\ kept_or_ours [] (w_tree w) path w')) as Hs.
  { unfold set_autostart. apply hoare_lift; [intros [] _|by left].
    apply hoare_lift; [intros path Hpath|by left]. simpl negb. cbv iota.
    eapply hoare_weaken; [apply disable_spec|done|]. right. eauto. }
  apply Hs in Hrun; [|rewrite <-Hpast; apply moments_begin; [apply unchanged_start|apply script_anything]].
  destruct Hrun as [Hk|(path & Hpath & [Hk|[Hk (t1 & data & mode & Ht1 & Hu & Hread & Ho)]])].
  1,2: left; apply (moments_at _ _ _ _ _ Hk Ht); [done|by intros []].
  destruct (decide (p = path)) as [->|Hne].
  - right. split; [done|]. exact (read_removable _ _ _ _ _ _ _ Ht1 Hu Hp Hread Ho).
  - left. by apply (moments_at _ _ _ _ _ Hk Ht).
Qed.

Lemma autostart_disable_safe_witness :
  let w := world_of [("/c/autostart/montray-ui.desktop", NFile "[Desktop Entry]" 420)] [] in
  let '(w', r) := set_autostart demo_env "/c/montray.yml" false w in
  is_ok r = false /\
  w_tree w' !! "/c/autostart/montray-ui.desktop" = Some (NFile "[Desktop Entry]" 420).
Proof.
  cbv zeta. destruct (set_autostart _ _ _ _) as [w' r] eqn:Hrun. split.
  { apply (f_equal (fun x => is_ok x.2)) in Hrun. vm_compute in Hrun. by symmetry. }
  eapply autostart_disable_safe in Hrun as [Hr|[_ Hr]]; [exact Hr| |reflexivity|by left|reflexivity].
  vm_compute in Hr. discriminate.
Defined.

(** ** Switching on and off *)

Lemma read_text_fine w path data mode :
  w_script w = [] -> w_tree w !! path = Some (NFile data mode) -> to_str data = Some data ->
  read_text path w = (pass w (w_tree w) [], Ok data).
Proof.
  intros Hs Hp Hd. unfold read_text, sys. rewrite Hs. unfold read_node.
  rewrite resolve_not_link by (intros; congruence). rewrite Hp.
  cbn [mbind result_bind]. by rewrite bool_decide_eq_true_2.
Qed.

Lemma lexists_fine w error path :
  w_script w = [] -> (lexists error path w).2 = Ok (bool_decide (is_Some (w_tree w !! path))).
Proof.
  intros Hs. unfold lexists, symlink_metadata, mbind, io_bind, try_io, sys. rewrite Hs.
  by destruct (w_tree w !! path).
Qed.

Lemma autostart_enabled_fine `{TempNames} env path w :
  autostart_file env = Ok path -> w_script w = [] ->
  (autostart_enabled env w).2 = Ok (bool_decide (is_Some (w_tree w !! path))).
Proof.
  intros Hp Hs. unfold autostart_enabled. rewrite Hp. cbn [lift mbind io_bind].
  by apply lexists_fine.
Qed.

Lemma disable_fine `{TempNames} w path data mode :
  w_script w = [] -> w_tree w !! path = Some (NFile data mode) -> to_str data = Some data ->
  ours data = true ->
  exists w', set_autostart_file path "" false w = (w', Ok false) /\
    w_tree w' = delete path (w_tree w) /\ w_script w' = [].
Proof.
  intros Hs Hp Hd Ho. unfold set_autostart_file, mbind, io_bind, try_io.
  rewrite (read_text_fine _ _ _ _ Hs Hp Hd). unfold ours in Ho.
  assert (negb (has_desktop_entry_version data) && negb (is_legacy_desktop_entry data) = false)
    as -> by (by destruct (has_desktop_entry_version data), (is_legacy_desktop_entry data)).
  unfold ctx, remove_file, sys. cbn [pass w_script w_tree]. rewrite Hp. eexists. split; [done|].
  by split.
Qed.

(** ** One switch, with failures *)

Definition no_race (path : string) (w : World) : Prop :=
  forall data mode, Races path data mode ∉ w_script w.

Lemma race_elsewhere path p d m (t : Tree) :
  p <> path -> race p d m t !! path = t !! path.
Proof. intros Hne. by destruct (race_lookup p d m t path) as [?|(-> & _)]. Qed.

(** What a read says about the path itself. *)
Lemma read_text_result path w w' r :
  no_race path w -> read_text path w = (w', r) ->
  w_tree w' !! path = w_tree w !! path /\ no_race path w' /\
  match r with
  | Ok text => exists mode, read_node path (w_tree w') = Ok (text, mode)
  | Err e => io_kind e = NotFound ->
      exists q, resolve (w_tree w') path = Some q /\ w_tree w' !! q = None
  end.
Proof.
  intros Hn. unfold read_text, sys, no_race in *.
  assert (forall t : Tree, match ('(data, _) ← read_node path t;
      if bool_decide (to_str data = Some data) then Ok data
      else Err (mkIoError OtherKind "stream did not contain valid UTF-8")) with
    | Ok text => exists mode, read_node path t = Ok (text, mode)
    | Err e => io_kind e = NotFound -> exists q, resolve t path = Some q /\ t !! q = None
    end) as Hop.
  { intros t. unfold read_node. destruct (resolve t path) as [q|]; [|done].
    destruct (t !! q) as [[data mode|mode|target]|] eqn:Hq; simpl; try done; [|by eauto].
    case_bool_decide; [eauto|done]. }
  destruct (w_script w) as [|[|denied text written|p d m] rest]; intros [= <- <-]; cbn [pass w_tree w_script].
  - split; [done|]. split; [exact Hn|apply Hop].
  - split; [done|]. split; [|apply Hop]. intros data mode Hin. apply (Hn data mode). by right.
  - split; [by destruct written|]. split; [|by destruct denied].
    intros data mode Hin. apply (Hn data mode). by right.
  - assert (p <> path) as Hne by (intros ->; apply (Hn d m); by left).
    split; [by apply race_elsewhere|]. split; [|apply Hop].
    intros data mode Hin. apply (Hn data mode). by right.
Qed.

Lemma remove_file_result path w w' :
  remove_file path w = (w', Ok tt) -> w_tree w' !! path = None.
Proof.
  unfold remove_file, sys.
  destruct (w_script w) as [|[|denied text written|p d m] rest]; cbn [pass w_tree]; try done;
    destruct (_ !! path) as [[]|]; intros [= <-]; simpl; try done; apply lookup_delete_eq.
Qed.

(** A link that leads nowhere. *)
Definition dangling (t : Tree) (path : string) : Prop :=
  exists target q, t !! path = Some (NLink target) /\ resolve t path = Some q /\ t !! q = None.

Lemma disable_result `{TempNames} path w w1 b :
  no_race path w -> set_autostart_file path "" false w = (w1, Ok b) ->
  b = false /\
  match w_tree w !! path with
  | None => w_tree w1 !! path = None
  | Some (NFile data _) => ours data = true /\ w_tree w1 !! path = None
  | Some (NDir _) => False
  | Some (NLink target) =>
      (w_tree w1 !! path = None /\ exists t data mode,
         moment w1 t /\ read_node path t = Ok (data, mode) /\ ours data = true) \/
      dangling (w_tree w1) path
  end.
Proof.
  intros Hn. unfold set_autostart_file, mbind, io_bind, try_io.
  destruct (read_text path w) as [w' r] eqn:Hr.
  destruct (read_text_result path w w' r Hn Hr) as (Ht & _ & Hs). rewrite <-Ht.
  destruct r as [text|e].
  - destruct Hs as [mode Hread].
    destruct (negb _ && negb _) eqn:Ho; [done|].
    assert (ours text = true) as Hours
      by (unfold ours; by destruct (has_desktop_entry_version text), (is_legacy_desktop_entry text)).
    unfold ctx. destruct (remove_file path w') as [w2 [[]|e]] eqn:Hrm; [|done].
    intros [= <- <-]. split; [done|]. apply remove_file_result in Hrm as Hgone.
    destruct (w_tree w' !! path) as [[d m|m|target]|] eqn:Hp.
    + unfold read_node in Hread. rewrite resolve_not_link, Hp in Hread by (intros; congruence).
      by injection Hread as -> ->.
    + unfold read_node in Hread. by rewrite resolve_not_link, Hp in Hread by (intros; congruence).
    + left. split; [done|]. exists (w_tree w'), text, mode.
      split; [by eapply moment_sys; [exact Hrm|left]|done].
    + done.
  - case_bool_decide as Hk; [|done]. intros [= <- <-]. split; [done|].
    destruct (Hs Hk) as (q & Hq & Hgone).
    destruct (w_tree w' !! path) as [[d m|m|target]|] eqn:Hp; [..|done];
      try (rewrite resolve_not_link in Hq by (intros; congruence); injection Hq as <-; congruence).
    right. by exists target, q.
Qed.

Lemma enable_result `{TempNames} path entry w w1 b :
  private_path path = false -> w_past w = [] -> no_race path w ->
  set_autostart_file path entry true w = (w1, Ok b) ->
  b = true /\
  w_tree w1 !! path = Some (match w_tree w !! path with Some n => n | None => NFile entry 420 end).
Proof.
  intros Hpriv Hpast Hn. unfold set_autostart_file, mbind, io_bind.
  destruct (install_file path entry false w) as [w1' [fr|e]] eqn:Hi; [|done]. intros [= <- <-].
  split; [done|]. destruct (w_tree w !! path) as [n|] eqn:Hp.
  - assert (moments (w_past w) anything (unchanged none (w_tree w)) whatever w1') as [Hu _].
    { refine (keeps_install_file (w_past w) none (w_tree w) path entry false _ w w1' (Ok fr) _ Hi); [done|].
      apply moments_begin; [apply unchanged_start|apply script_anything]. }
    apply Hu; [done|by intros []].
  - apply install_file_run in Hi; [|done..]. destruct fr; try apply Hi.
    destruct Hi as ([He|(data & mode & Hr & _)] & Hsome & _); [|by apply Hn in Hr].
    simpl in Hsome. congruence.
Qed.

(** C39: What a switch that succeeded did, from any state of the files and whatever calls
    failed, if no other process creates the entry meanwhile. On: whatever was there is
    kept, and if nothing was, Montray's entry for this executable and configuration is in
    place. Off: nothing was there; or it was a file of Montray's own (a file with another
    text, or a directory, makes the switch fail) and is gone; or it was a symbolic link,
    and either a text of Montray's own was read through it and the link is gone, or, the
    exception, it leads nowhere and stays. The switch then reads as on exactly if something
    is at the path, so as it was set but for that exception; and an entry that switching on
    created, if its text is UTF-8, is removed by switching off, and nothing else is. *)
Theorem autostart_switch `{TempNames} (env : SetupEnv) (config_filename path : string)
    (enable b : bool) (w w1 w2 : World) :
  autostart_file env = Ok path -> private_path path = false -> w_past w = [] ->
  (forall data mode, Races path data mode ∉ w_script w) ->
  set_autostart env config_filename enable w = (w1, Ok b) ->
  w_tree w2 = w_tree w1 -> w_script w2 = [] ->
  b = enable /\
  (autostart_enabled env w2).2 = Ok (bool_decide (is_Some (w_tree w1 !! path))) /\
  if enable then
    match w_tree w !! path with
    | Some n => w_tree w1 !! path = Some n
    | None => exists executable config entry,
        executable_path env = Ok executable /\
        absolute (env_current_dir env) config_filename = Ok config /\
        desktop_entry executable config true = Ok entry /\
        w_tree w1 !! path = Some (NFile entry 420) /\
        (to_str entry = Some entry ->
         exists w3, set_autostart env config_filename false w2 = (w3, Ok false) /\
           w_tree w3 = delete path (w_tree w2))
    end
  else
    match w_tree w !! path with
    | None => w_tree w1 !! path = None
    | Some (NFile data _) => ours data = true /\ w_tree w1 !! path = None
    | Some (NDir _) => False
    | Some (NLink target) =>
        (w_tree w1 !! path = None /\ exists t data mode,
           moment w1 t /\ read_node path t = Ok (data, mode) /\ ours data = true) \/
        dangling (w_tree w1) path
    end.
Proof.
  intros Hpath Hpriv Hpast Hraces Hrun Ht2 Hs2.
  assert ((autostart_enabled env w2).2 = Ok (bool_decide (is_Some (w_tree w1 !! path)))) as Hread
    by (rewrite <-Ht2; by apply autostart_enabled_fine).
  revert Hrun. unfold set_autostart, mbind, io_bind, lift at 1.
  destruct (validate_platform env) as [[]|e] eqn:Hv; [|done].
  rewrite Hpath. cbn [lift]. destruct enable; cbn [negb].
  2: { intros Hrun%disable_result; [|done]. destruct Hrun as [-> Hrun]. by split. }
  destruct (executable_path env) as [executable|e] eqn:He; [|done]. cbn [lift].
  destruct (absolute (env_current_dir env) config_filename) as [config|e] eqn:Hc; [|done].
  cbn [lift with_context].
  destruct (desktop_entry executable config true) as [entry|e] eqn:Hd; [|done]. cbn [lift].
  intros Hrun%enable_result; [|done..]. destruct Hrun as [-> Hrun]. split; [done|]. split; [done|].
  destruct (w_tree w !! path); [done|]. exists executable, config, entry.
  repeat (split; [done|]). intros Hutf.
  destruct (disable_fine w2 path entry 420) as (w3 & Hw3 & Ht3 & Hs3); try done; [congruence| |eauto].
  unfold ours. by erewrite entry_has_version.
Qed.

Lemma autostart_switch_witness :
  let run := set_autostart demo_env "/c/montray.yml" true (world_of [] []) in
  let w2 := {| w_tree := w_tree run.1; w_script := []; w_out := ""; w_past := [] |} in
  run.2 = Ok true /\
  (exists entry, desktop_entry "/b/montray-ui" "/c/montray.yml" true = Ok entry /\
    w_tree run.1 !! "/c/autostart/montray-ui.desktop" = Some (NFile entry 420)) /\
  (autostart_enabled demo_env w2).2 = Ok true.
Proof.
  cbv zeta. set (run := set_autostart _ _ _ _).
  assert (run.2 = Ok true) as Hr by (vm_compute; reflexivity).
  destruct (autostart_switch demo_env "/c/montray.yml" "/c/autostart/montray-ui.desktop" true true
    (world_of [] []) run.1 {| w_tree := w_tree run.1; w_script := []; w_out := ""; w_past := [] |})
    as (_ & H0 & executable & config & entry & H1 & H2 & H3 & H4 & _).
  1-3: reflexivity.
  - intros data mode Hin. by apply not_elem_of_nil in Hin.
  - rewrite <-Hr. apply surjective_pairing.
  - reflexivity.
  - reflexivity.
  - clearbody run. vm_compute in H1, H2. injection H1 as <-. injection H2 as <-.
    split; [exact Hr|]. split; [eauto|]. rewrite H0, H4. reflexivity.
Defined.

(** A dangling link at the entry's path: the switch reads as on, and switching it off
    succeeds without removing anything. *)
Example dangling_link :
  let w := world_of [("/c/autostart/montray-ui.desktop", NLink "/gone")] [] in
  (autostart_enabled demo_env w).2 = Ok true /\
  (set_autostart demo_env "/c/montray.yml" false w).2 = Ok false /\
  w_tree (set_autostart demo_env "/c/montray.yml" false w).1 = w_tree w.
Proof. split; [|split]; vm_compute; reflexivity. Qed.
