(* ===== verification/Migration.v ===== *)
(** * Migration from Salmon Watch

    [migrate_from_salmon] of [src/cmd/montray-ui/src/setup.rs]: the configuration is
    copied next to the new one with a journal of created files that an error rolls
    back, the state is imported, the new desktop integration installed, and only then
    the former one removed. *)

From Stdlib Require Import ZArith Lia Ascii.
From stdpp Require Import base gmap strings list option.
From S2P Require Import Prelude RustStr Output RustPath Config Desktop Protocol StateFile Persistence Io Atomic ImportState Cli Setup Reinstall.

(** ** Code that keeps a journal, also when it fails *)

Definition Journal (A : Type) : Type := list string -> World -> World * (list string * Result A).
#[global] Instance journal_ret : MRet Journal := fun A a created w => (w, (created, Ok a)).
#[global] Instance journal_bind : MBind Journal := fun A B f m created w =>
  let '(w, (created, r)) := m created w in
  match r with Ok a => f a created w | Err e => (w, (created, Err e)) end.
Definition plain {A} (m : IO anyhow A) : Journal A := fun created w =>
  let '(w, r) := m w in (w, (created, r)).
Definition record (path : string) : Journal unit := fun created w =>
  (w, (created ++ [path], Ok tt)).
Fixpoint journal_iter {A} (f : A -> Journal unit) (l : list A) : Journal unit :=
  match l with
  | [] => mret tt
  | x :: l => _ ← f x; journal_iter f l
  end.

(** ** The configuration *)

(** The system refuses longer paths, so the recursion is not deeper. *)
Definition PATH_MAX : nat := 4096.

Fixpoint copy_directory_contents_noclobber (fuel : nat) (source destination skipped : string)
    : Journal unit :=
  match fuel with
  | O => plain (throw ["create Montray UI configuration directory";
                       "File name too long (os error 36)"])
  | S fuel =>
      _ ← plain (ctx "create Montray UI configuration directory"
                   (create_dir_all default_dir_mode destination));
      entries ← plain (ctx ("read Salmon Watch directory " +:+ source) (read_dir source));
      journal_iter (fun '(source_path, node) =>
        _ ← plain (ctx "read Salmon Watch directory entry" next_entry);
        if path_eq source_path skipped then mret tt
        else
          let destination_path := path_join destination (default "" (file_name source_path)) in
          match node with
          | NDir _ => copy_directory_contents_noclobber fuel source_path destination_path skipped
          | NFile _ _ =>
              t ← plain tree;
              if path_exists t destination_path then mret tt
              else
                _ ← record destination_path;
                plain (ctx ("copy Salmon Watch file " +:+ source_path +:+ " to " +:+ destination_path)
                         (copy_file source_path destination_path))
          | NLink _ =>
              plain (throw ["refusing to migrate symbolic link in Salmon Watch configuration: "
                              +:+ source_path])
          end) entries
  end.

(** The loop of [rollback_created_files]; the first failure is remembered. *)
Fixpoint remove_created (paths : list string) (rollback_error : option string)
    : IO anyhow (option string) :=
  match paths with
  | [] => mret rollback_error
  | path :: paths =>
      r ← try_io (remove_file path);
      remove_created paths
        (match r with
         | Err e =>
             if negb (bool_decide (io_kind e = NotFound)) && bool_decide (rollback_error = None)
             then Some ("remove " +:+ path +:+ ": " +:+ io_text e) else rollback_error
         | Ok _ => rollback_error
         end)
  end.

Definition rollback_created_files (created_files : list string) (migration_error : anyhow)
    : IO anyhow anyhow :=
  rollback_error ← remove_created (rev created_files) None;
  mret (match rollback_error with
        | Some e => ("migration rollback was incomplete: " +:+ e) :: migration_error
        | None => migration_error
        end).

(** The part of [migrate_salmon_config] after the configuration was created. *)
Definition migrate_siblings (source_directory destination_directory source destination : string)
    : IO anyhow unit := fun w =>
  let '(w, (created, r)) :=
    copy_directory_contents_noclobber PATH_MAX source_directory destination_directory source
      [destination] w in
  match r with
  | Ok _ => (w, Ok tt)
  | Err error => (error ← rollback_created_files created error; throw error) w
  end.

(** [migrate_salmon_config] when there is no configuration yet. The cause is left out
    when the file is not UTF-8. *)
Definition migrate_missing_config `{TempNames} (source destination : string) : IO anyhow unit :=
  source_data ← ctx ("read Salmon Watch config at " +:+ source) (read_bytes source);
  source_text ← lift (opt_context "Salmon Watch config is not UTF-8" (to_str source_data));
  source_directory ← lift (opt_context "Salmon Watch config has no parent" (path_parent source));
  destination_directory ← lift (opt_context "Montray UI config has no parent"
                                  (path_parent destination));
  let migrated := replace (to_string_lossy source_directory)
                    (to_string_lossy destination_directory) source_text in
  r ← install_file destination migrated false;
  match r with
  | Created => migrate_siblings source_directory destination_directory source destination
  | Preserved => mret tt
  | Reinstalled => throw ["entered unreachable code: migration never replaces configuration"]
  end.

Definition migrate_salmon_config `{TempNames} (source destination : string) : IO anyhow unit :=
  t ← tree;
  if path_exists t destination then mret tt else migrate_missing_config source destination.

(** ** Former files *)

Definition generated_salmon_executable (entry : string) : IO anyhow (option string) :=
  r ← try_io (read_text entry);
  match r with
  | Ok contents => mret (salmon_executable contents)
  | Err e => if bool_decide (io_kind e = NotFound) then mret None
             else throw ["read " +:+ entry; io_text e]
  end.

Fixpoint collect_executables (entries : list string) (former : list string)
    : IO anyhow (list string) :=
  match entries with
  | [] => mret former
  | entry :: entries =>
      r ← generated_salmon_executable entry;
      collect_executables entries
        (match r with
         | Some executable => if existsb (path_eq executable) former then former
                              else former ++ [executable]
         | None => former
         end)
  end.

Definition remove_file_if_present (path : string) : IO anyhow unit :=
  r ← try_io (remove_file path);
  match r with
  | Ok _ => mret tt
  | Err e => if bool_decide (io_kind e = NotFound) then mret tt
             else throw ["remove former file " +:+ path; io_text e]
  end.

Definition remove_former_executable (path : string) (remove : string -> IO IoError unit)
    : IO anyhow unit :=
  r ← try_io (remove path);
  match r with
  | Ok _ => mret tt
  | Err e =>
      match io_kind e with
      | NotFound => mret tt
      | PermissionDenied =>
          println ("The former Salmon Watch executable could not be removed without elevated permissions:"
            +:+ newline +:+ "  " +:+ path +:+ newline +:+ "Remove it manually with:" +:+ newline +:+
            "  sudo rm -- " +:+ shell_argument (to_string_lossy path))
      | _ => throw ["remove former executable " +:+ path; io_text e]
      end
  end.

(** ** The migration *)

(** The importer of the state file, a callback of the migration. *)
Class StateImport := {
  migrate_state : IO anyhow string;
  migrate_state_keeps base allowed t0 :
    keeps (moments base anything (unchanged allowed t0) whatever) migrate_state;
}.

(** What [migrate_from_salmon] puts there. *)
Definition state_import `{TempNames} `{C : JsonCodec} (home : option string) : StateImport :=
  {| migrate_state := default_state_path home;
     migrate_state_keeps base allowed t0 := keeps_default_state_path base allowed t0 home |}.

Record MigrationContext := {
  ctx_salmon : SalmonWatchPaths;
  ctx_montray : InstallPaths;
  ctx_executable : string;
  ctx_backup_parent : string;
}.

Definition dry_run_report (existing : list string) (config_filename : string) : IO anyhow unit :=
  _ ← println "Would migrate Salmon Watch to Montray UI:";
  _ ← io_iter (fun path => println ("  detected: " +:+ path)) existing;
  _ ← println ("  copy configuration to: " +:+ config_filename +:+ newline +:+
               "  install Montray UI desktop integration");
  println "  remove former Salmon Watch desktop integration and its referenced executable".

Section Migrate.
Context `{TempNames} `{StateImport} (env : SetupEnv).

(** The removal of the former installation, once the new one is in place. *)
Definition remove_former (context : MigrationContext) : IO anyhow unit :=
  let salmon := ctx_salmon context in
  former_executables ← collect_executables (salmon_autostart salmon ++ salmon_launcher salmon) [];
  _ ← io_iter remove_file_if_present (salmon_desktop salmon);
  _ ← io_iter (fun old_executable =>
        when_ (negb (path_eq old_executable (ctx_executable context)))
          (remove_former_executable old_executable remove_file)) former_executables;
  println "Migration complete. Former Salmon Watch desktop integration was removed; its configuration directory was retained as a backup.".

Definition migrate_from_salmon_with (config_filename : string) (dry_run : bool)
    (context : MigrationContext) : IO anyhow unit :=
  let salmon := ctx_salmon context in
  let montray := ctx_montray context in
  existing ← existing_salmon_paths salmon;
  t ← tree;
  let former_desktop_integration_exists :=
    existsb (fun path => negb (path_eq path (salmon_config salmon))) existing in
  if bool_decide (existing = []) then
    if path_exists t config_filename
    then println "No Salmon Watch installation remains; Montray UI is already configured."
    else throw ["no Salmon Watch installation was found"]
  else if negb former_desktop_integration_exists && path_exists t config_filename &&
          (path_exists t (path_autostart montray) || path_exists t (path_launcher montray))
  then println "No Salmon Watch desktop integration remains; Montray UI is already configured."
  else if dry_run then dry_run_report existing config_filename
  else
    _ ← migrate_salmon_config (salmon_config salmon) config_filename;
    _ ← Io.context ("validate migrated config at " +:+ config_filename)
          (load_config env config_filename);
    _ ← migrate_state;
    _ ← execute_with env config_filename Complete true montray (ctx_executable context)
          (ctx_backup_parent context);
    remove_former context.

Definition migrate_from_salmon (config_filename : string) (dry_run : bool) : IO anyhow unit :=
  _ ← lift (validate_platform env);
  config_home ← lift (opt_context "determine user configuration directory" (env_config_dir env));
  data_home ← lift (opt_context "determine user data directory" (env_data_dir env));
  executable ← lift (executable_path env);
  migrate_from_salmon_with config_filename dry_run
    {| ctx_salmon := salmon_watch_paths config_home data_home;
       ctx_montray := install_paths config_home data_home;
       ctx_executable := executable;
       ctx_backup_parent := env_temp_dir env |}.
End Migrate.

(** ** Files that the migration leaves alone *)

Lemma resolve_race fuel p d m (t : Tree) path :
  resolve_links fuel (race p d m t) path = resolve_links fuel t path.
Proof.
  revert path. induction fuel as [|fuel IH]; intros path; simpl; [done|].
  destruct (race_lookup p d m t path) as [->|(-> & -> & _ & ->)]; [|done].
  destruct (t !! path) as [[]|]; auto.
Qed.

#[export] Instance link_dec (n : Node) : Decision (exists target, n = NLink target).
Proof. destruct n as [| |target]; [right; naive_solver..|left; by exists target]. Defined.

(** Inside a directory, and where the copies of a migration go. *)
Definition inside (dir p : string) : bool :=
  match strip_prefix (path_join dir "") p with
  | Some rest => negb (starts_with "/" rest)
  | None => false
  end.
Definition copied_to (destination p : string) : bool :=
  bool_decide (p = destination) ||
  match path_parent destination with Some dir => inside dir p | None => false end.

Lemma inside_spec dir p :
  inside dir p = true <-> exists rest, starts_with "/" rest = false /\ p = path_join dir rest.
Proof.
  assert (forall rest, starts_with "/" rest = false -> path_join dir rest = path_join dir "" +:+ rest)
    as Hj.
  { intros rest Hr. unfold path_join. rewrite Hr. cbn [starts_with strip_prefix].
    destruct (_ || _); [by rewrite append_nil_r|by rewrite append_assoc]. }
  unfold inside. split.
  - destruct (strip_prefix _ p) as [rest|] eqn:Hs; [|done]. intros Hr%negb_true_iff.
    exists rest. split; [done|]. rewrite Hj by done. by apply strip_prefix_Some.
  - intros (rest & Hr & ->). by rewrite (Hj rest Hr), strip_prefix_app, Hr.
Qed.

Lemma copied_to_itself destination : copied_to destination destination = true.
Proof. unfold copied_to. by rewrite bool_decide_eq_true_2. Qed.

Lemma copied_to_inside destination dir p :
  path_parent destination = Some dir -> inside dir p = true -> copied_to destination p = true.
Proof. unfold copied_to. intros -> ->. apply orb_true_r. Qed.

Lemma relative_append rest s :
  starts_with "/" rest = false -> (rest = "" -> starts_with "/" s = false) ->
  starts_with "/" (rest +:+ s) = false.
Proof.
  destruct rest as [|c rest]; intros H1 H2; [by apply H2|].
  unfold starts_with in *. cbn [strip_prefix] in H1.
  change (String c rest +:+ s) with (String c (rest +:+ s)). cbn [strip_prefix].
  by destruct (Ascii.eqb _ c).
Qed.

Lemma ends_with_slash s : ends_with "/" (s +:+ "/") = true.
Proof.
  unfold ends_with, strip_suffix, String.rev. by rewrite rev_app_append.
Qed.

Lemma inside_join dir p name :
  p = dir \/ inside dir p = true -> starts_with "/" name = false ->
  inside dir (path_join p name) = true.
Proof.
  rewrite !inside_spec. intros [->|(rest & Hrest & ->)] Hname; [by exists name|].
  assert (forall rest', starts_with "/" rest' = false ->
    path_join (path_join dir rest) name =
      (if is_empty dir || ends_with "/" dir then dir +:+ rest' else dir +:+ "/" +:+ rest') ->
    exists rest'', starts_with "/" rest'' = false /\
      path_join (path_join dir rest) name = path_join dir rest'') as Hin.
  { intros rest' H1 H2. exists rest'. split; [done|]. rewrite H2. unfold path_join. by rewrite H1. }
  unfold path_join in Hin at 1. rewrite Hname in Hin. unfold path_join in Hin at 1 2 3 4.
  rewrite Hrest in Hin. destruct (is_empty dir || ends_with "/" dir) eqn:Hd.
  - destruct (is_empty (dir +:+ rest) || ends_with "/" (dir +:+ rest)) eqn:Hp.
    + apply (Hin (rest +:+ name)); [by apply relative_append|by rewrite append_assoc].
    + apply (Hin (rest +:+ "/" +:+ name)); [|by rewrite append_assoc].
      apply relative_append; [done|]. intros ->. rewrite append_nil_r in Hp. congruence.
  - destruct (is_empty (dir +:+ "/" +:+ rest) || ends_with "/" (dir +:+ "/" +:+ rest)) eqn:Hp.
    + apply (Hin (rest +:+ name)); [by apply relative_append|by rewrite !append_assoc].
    + apply (Hin (rest +:+ "/" +:+ name)); [|by rewrite !append_assoc].
      apply relative_append; [done|]. intros ->. exfalso. apply orb_false_elim in Hp as [_ Hp].
      by rewrite ends_with_slash in Hp.
Qed.

Section Keep.
Context `{TempNames} (base : list Tree) (allowed : string -> Prop) (t0 : Tree)
  (destination : string).
Hypothesis Hlinks : forall p target,
  copied_to destination p = true -> t0 !! p = Some (NLink target) -> allowed p.
Abbreviation P := (unchanged allowed t0).
Abbreviation inv := (moments base anything P whatever).
Abbreviation ours := (may_change allowed t0).

(** What a path that does not exist leads to may be created, and it may be removed. *)
Lemma missing_may_change t path :
  copied_to destination path = true -> P t -> path_exists t path = false ->
  ours path /\ forall q, resolve t path = Some q -> ours q.
Proof.
  intros Hpath Hu He. split.
  - intros Ha. destruct (t0 !! path) as [n|] eqn:Hn; [|done]. exfalso.
    pose proof (Hu path n Hn Ha) as Ht. unfold path_exists in He.
    rewrite resolve_not_link in He.
    + apply bool_decide_eq_false in He. by rewrite Ht in He; destruct He.
    + intros target Hl. rewrite Ht in Hl. simplify_eq. by eapply Ha, Hlinks.
  - intros q Hq Ha. unfold path_exists in He. rewrite Hq in He.
    apply bool_decide_eq_false in He. eapply unchanged_absent; [exact Hu| |done].
    by apply eq_None_not_Some.
Qed.

Lemma put_file_unchanged path data mode t :
  P t -> (forall q, resolve t path = Some q -> ours q) -> P (put_file path data mode t).
Proof.
  intros Hu Hq. unfold put_file. destruct (resolve t path) as [q|]; [|done].
  destruct (t !! q) as [[]|]; try done; apply unchanged_insert; auto.
Qed.

Lemma keeps_copy_missing source path :
  hoare (moments base anything P (fun t => forall q, resolve t path = Some q -> ours q))
    (copy_file source path) (fun _ => inv).
Proof.
  eapply hoare_weaken;
    [apply (hoare_sys base anything P _ _
       (fun t => forall q, resolve t path = Some q -> ours q) (fun _ => whatever))|done|].
  - intros p d m t _ Hu Hq. split; [by apply unchanged_race|].
    unfold resolve. rewrite resolve_race. exact Hq.
  - intros data t Hu Hq. by apply put_file_unchanged.
  - intros t Hu Hq. destruct (read_node source t) as [[data mode]|e]; [|done].
    destruct (_ ≫= _) as [[]|]; simpl; try done;
      (split; [by apply put_file_unchanged|done]).
  - intros r w. apply moments_whatever.
Qed.

(** The journal lists only files of which [J] holds, as it does of every file that was
    not there. *)
Section Journal.
Context (J : string -> Prop).
Hypothesis HJ : forall p, ours p -> J p.
Definition journal_ok (created : list string) (w : World) : Prop :=
  inv w /\ Forall J created.
Definition jkeeps {A} (m : Journal A) : Prop :=
  forall created w w' created' r,
    journal_ok created w -> m created w = (w', (created', r)) -> journal_ok created' w'.

Lemma jkeeps_plain {A} (m : IO anyhow A) : keeps inv m -> jkeeps (plain m).
Proof.
  intros Hm created w w' created' r [Hw Hc]. unfold plain. destruct (m w) as [w1 r1] eqn:H1.
  intros [= <- <- <-]. split; [by eapply Hm|done].
Qed.
Lemma jkeeps_ret {A} (a : A) : jkeeps (mret a).
Proof. intros created w w' created' r Hw [= <- <- <-]. done. Qed.
Lemma jkeeps_bind {A B} (m : Journal A) (f : A -> Journal B) :
  jkeeps m -> (forall a, jkeeps (f a)) -> jkeeps (m ≫= f).
Proof.
  intros Hm Hf created w w' created' r Hw. unfold mbind, journal_bind.
  destruct (m created w) as [w1 [c1 [a|e]]] eqn:H1; intros Hr.
  - eapply Hf; [|exact Hr]. by eapply Hm.
  - injection Hr as <- <- <-. by eapply Hm.
Qed.
Lemma jkeeps_iter {A} (f : A -> Journal unit) (l : list A) :
  (forall x, jkeeps (f x)) -> jkeeps (journal_iter f l).
Proof.
  intros Hf. induction l; simpl; [apply jkeeps_ret|]. apply jkeeps_bind; [apply Hf|done].
Qed.

Lemma jkeeps_copy_file source path :
  copied_to destination path = true -> jkeeps (t ← plain tree;
          if path_exists t path then mret tt
          else
            _ ← record path;
            plain (ctx ("copy Salmon Watch file " +:+ source +:+ " to " +:+ path)
                     (copy_file source path))).
Proof.
  intros Hpath created w w' created' r [Hw Hc]. unfold plain, tree, record, mbind, journal_bind.
  destruct (path_exists (w_tree w) path) eqn:He; [by intros [= <- <- <-]|].
  destruct (missing_may_change _ _ Hpath (proj1 Hw) He) as [Hp Hq].
  unfold ctx. destruct (copy_file source path w) as [w1 r1] eqn:H1. intros [= <- <- <-]. split.
  - eapply keeps_copy_missing; [|exact H1]. eapply moments_mono; [..|exact Hw]; auto.
  - apply list.Forall_app. split; [done|]. constructor; auto.
Qed.

Lemma jkeeps_copy_directory fuel source dir to skipped :
  path_parent destination = Some dir -> to = dir \/ inside dir to = true ->
  jkeeps (copy_directory_contents_noclobber fuel source to skipped).
Proof.
  intros Hparent. revert source to. induction fuel as [|fuel IH]; intros source to Hto; simpl.
  { apply jkeeps_plain, keeps_throw. }
  apply jkeeps_bind; [apply jkeeps_plain, keeps_ctx, keeps_create_dir_all|intros _].
  apply jkeeps_bind; [apply jkeeps_plain, keeps_ctx, keeps_read_dir|intros entries].
  apply jkeeps_iter. intros [source_path node].
  apply jkeeps_bind; [apply jkeeps_plain, keeps_ctx, keeps_next_entry|intros _].
  destruct (path_eq source_path skipped); [apply jkeeps_ret|].
  pose proof (inside_join dir to _ Hto (file_name_relative source_path)) as Hin. destruct node.
  - by apply jkeeps_copy_file, (copied_to_inside _ dir).
  - apply IH. by right.
  - apply jkeeps_plain, keeps_throw.
Qed.
End Journal.

Lemma keeps_remove_created paths error :
  Forall ours paths -> keeps inv (remove_created paths error).
Proof.
  intros Hall. revert error. induction Hall as [|path paths Hp _ IH]; intros error; simpl.
  { apply keeps_ret. }
  apply keeps_bind; [by apply keeps_try, keeps_remove_file|intros r; apply IH].
Qed.

Lemma keeps_migrate_siblings a dir c :
  ours destination -> path_parent destination = Some dir ->
  keeps inv (migrate_siblings a dir c destination).
Proof.
  intros Hp Hparent w w' r Hw. unfold migrate_siblings.
  destruct (copy_directory_contents_noclobber PATH_MAX a dir c [destination] w)
    as [w1 [created r1]] eqn:Hc.
  assert (journal_ok ours created w1) as [Hw1 Hall].
  { eapply (jkeeps_copy_directory ours (fun p Hp => Hp) PATH_MAX a dir dir c Hparent
      (or_introl eq_refl)); [|exact Hc].
    split; [done|by constructor]. }
  destruct r1 as [[]|e].
  - by intros [= <- <-].
  - intros Hr. eapply keeps_bind; [|intros e'; apply keeps_throw|exact Hw1|exact Hr].
    apply keeps_bind; [|intros; apply keeps_ret]. by apply keeps_remove_created, List.Forall_rev.
Qed.

(** A copy that succeeds replaces nothing either, the configuration included. *)
Lemma siblings_copied a dir c w w' :
  path_parent destination = Some dir -> inv w ->
  migrate_siblings a dir c destination w = (w', Ok tt) -> inv w'.
Proof.
  intros Hparent Hw. unfold migrate_siblings.
  destruct (copy_directory_contents_noclobber PATH_MAX a dir c [destination] w)
    as [w1 [created r1]] eqn:Hc.
  assert (journal_ok (fun _ => True) created w1) as [Hw1 _].
  { eapply (jkeeps_copy_directory (fun _ => True) (fun _ _ => I) PATH_MAX a dir dir c Hparent
      (or_introl eq_refl)); [|exact Hc]. split; [done|by constructor]. }
  destruct r1 as [[]|e]; [by intros [= <-]|]. unfold mbind, io_bind.
  by destruct (rollback_created_files created e w1) as [w2 [e'|e']].
Qed.

Lemma keeps_migrate_config source :
  keeps inv (migrate_salmon_config source destination).
Proof.
  unfold migrate_salmon_config. apply keeps_bind_now. intros w w' r Hw.
  destruct (path_exists (w_tree w) destination) eqn:He; [by apply keeps_ret|].
  destruct (missing_may_change _ _ (copied_to_itself _) (proj1 Hw) He) as [Hp _].
  clear He. revert w w' r Hw.
  change (keeps inv (migrate_missing_config source destination)).
  pose proof (keeps_install_file base allowed t0 destination).
  unfold migrate_missing_config. apply keeps_bind; [io_keeps|intros data].
  apply keeps_bind; [io_keeps|intros text]. apply keeps_bind; [io_keeps|intros source_directory].
  apply hoare_lift; [|by intros]. intros dir Hdir.
  assert (path_parent destination = Some dir) as Hparent
    by (destruct (path_parent destination); by simplify_eq/=).
  pose proof (fun a c => keeps_migrate_siblings a dir c Hp Hparent). cbv zeta.
  match goal with |- hoare _ ?m _ => change (keeps inv m) end. io_keeps.
Qed.
End Keep.

(** ** The removal of the former installation *)

Section Former.
Context (entries : list string).

(** Read from one of the entries at some moment. *)
Definition named (w : World) (executable : string) : Prop :=
  exists entry t data mode, entry ∈ entries /\ moment w t /\
    read_node entry t = Ok (data, mode) /\ salmon_executable data = Some executable.

Lemma keeps_named {E A} (m : IO E A) former :
  (forall t, keeps (fun w => moment w t) m) -> keeps (fun w => Forall (named w) former) m.
Proof.
  intros Hm w w' r Hw Hr. eapply list.Forall_impl; [exact Hw|].
  intros executable (entry & t & data & mode & H1 & H2 & H3).
  exists entry, t, data, mode. split; [done|]. split; [by eapply Hm|done].
Qed.

Context (base : list Tree) (allowed : string -> Prop) (t0 : Tree).
Abbreviation inv := (moments base anything (unchanged allowed t0) whatever).

Lemma generated_spec former entry :
  entry ∈ entries ->
  hoare (fun w => inv w /\ Forall (named w) former) (generated_salmon_executable entry)
    (fun r w => (inv w /\ Forall (named w) former) /\
       forall executable, r = Ok (Some executable) -> named w executable).
Proof.
  intros He. unfold generated_salmon_executable.
  eapply (hoare_try _ _ _ (fun r w => (inv w /\ Forall (named w) former) /\
    forall text, r = Ok text -> exists mode, read_node entry (w_tree w) = Ok (text, mode))).
  - intros w w' r [Hw Hf] Hr. destruct (read_text_saw _ _ _ _ _ _ _ Hw Hr) as [Hw' Hs].
    split; [|done]. split; [done|]. eapply keeps_named; [|exact Hf|exact Hr].
    intros t. apply keeps_moment_sys.
  - intros [text|e] w w' r [Hw Hs].
    + intros [= <- <-]. split; [done|]. intros executable [= Hx].
      destruct (Hs text eq_refl) as [mode Hm].
      exists entry, (w_tree w), text, mode. split; [done|]. by split; [left|].
    + case_bool_decide; intros [= <- <-]; (split; [done|]); by intros x [= ].
Qed.

Lemma collect_spec todo former :
  (forall e, e ∈ todo -> e ∈ entries) ->
  hoare (fun w => inv w /\ Forall (named w) former) (collect_executables todo former)
    (fun r w => inv w /\ forall l, r = Ok l -> Forall (named w) l).
Proof.
  revert former. induction todo as [|entry todo IH]; intros former Hsub; simpl.
  { intros w w' r [Hw Hf] [= <- <-]. split; [done|]. by intros l [= <-]. }
  eapply hoare_bind; [apply generated_spec, Hsub; by left| |].
  - intros found. eapply hoare_weaken; [apply IH; intros e He; apply Hsub; by right| |done].
    intros w [[Hw Hf] Hn]. split; [done|]. destruct found as [executable|]; [|done].
    destruct (existsb _ _); [done|]. apply list.Forall_app. split; [done|].
    constructor; [by apply Hn|constructor].
  - intros e w [[Hw _] _]. split; [done|]. by intros l [= ].
Qed.
End Former.

(** The tail forgets no moment. *)
Lemma keeps_moment_remove paths t :
  keeps (fun w => moment w t) (io_iter remove_file_if_present paths).
Proof.
  pose proof (fun path => keeps_moment_sys nothing_left (fun t =>
    match t !! path with
    | Some (NDir _) => refuse OtherKind "Is a directory (os error 21)" t
    | Some _ => (delete path t, Ok tt)
    | None => refuse NotFound "No such file or directory (os error 2)" t
    end) t : keeps _ (remove_file path)) as Hr.
  unfold remove_file_if_present. io_keeps.
Qed.
Lemma keeps_moment_executables executable former t :
  keeps (fun w => moment w t)
    (io_iter (fun old => when_ (negb (path_eq old executable))
                           (remove_former_executable old remove_file)) former).
Proof.
  assert (forall path, keeps (fun w => moment w t) (remove_file path)) as Hr
    by (intros; apply keeps_moment_sys).
  pose proof (fun line => keeps_moment_println line t) as Hp.
  unfold when_, remove_former_executable. io_keeps.
Qed.

Section RemoveFormer.
Context (base : list Tree) (allowed : string -> Prop) (t0 : Tree) (context : MigrationContext).
Abbreviation salmon := (ctx_salmon context).
Abbreviation entries := (salmon_autostart salmon ++ salmon_launcher salmon).
Abbreviation inv a := (moments base anything (unchanged a t0) whatever).
Hypothesis Hdesktop : forall p, p ∈ salmon_desktop salmon -> allowed p.

(** The executables that may be removed. *)
Definition removes (former : list string) (p : string) : Prop :=
  allowed p \/ (p ∈ former /\ path_eq p (ctx_executable context) = false).

Lemma keeps_tail former :
  keeps (inv (removes former))
    (_ ← io_iter remove_file_if_present (salmon_desktop salmon);
     _ ← io_iter (fun old_executable =>
        when_ (negb (path_eq old_executable (ctx_executable context)))
          (remove_former_executable old_executable remove_file)) former;
     println "Migration complete. Former Salmon Watch desktop integration was removed; its configuration directory was retained as a backup.").
Proof.
  assert (forall p, removes former p -> keeps (inv (removes former)) (remove_file p)) as Hr
    by (intros p Hp; apply keeps_remove_file; by intros []).
  apply keeps_bind; [|intros _; apply keeps_bind; [|intros _; apply keeps_println_unchanged]].
  - apply keeps_iter. intros p Hp%Hdesktop. unfold remove_file_if_present.
    assert (keeps (inv (removes former)) (remove_file p)) by (apply Hr; by left). io_keeps.
  - apply keeps_iter. intros p Hp. unfold when_.
    destruct (path_eq p (ctx_executable context)) eqn:He; [apply keeps_ret|].
    unfold remove_former_executable. simpl negb. cbv iota.
    assert (keeps (inv (removes former)) (remove_file p)) by (apply Hr; by right). io_keeps.
Qed.

Lemma remove_former_spec :
  hoare (inv allowed) (remove_former context)
    (fun _ w => exists former, Forall (named entries w) former /\ inv (removes former) w).
Proof.
  assert (forall former w, inv allowed w -> inv (removes former) w) as Hweak.
  { intros former w. apply moments_mono; [|done]. intros t Hu p n Hp Ha. apply Hu; [done|].
    intros ?. apply Ha. by left. }
  unfold remove_former. cbv zeta.
  eapply (hoare_bind _ _ _ (fun r w => inv allowed w /\ forall l, r = Ok l -> Forall (named entries w) l)).
  - eapply hoare_weaken; [apply (collect_spec entries base allowed t0 entries []); auto| |done].
    intros w Hw. split; [done|constructor].
  - intros former w w' r [Hw Hf] Hr. exists former. split.
    + refine (keeps_named entries _ former _ _ _ _ (Hf _ eq_refl) Hr). intros t.
      apply keeps_bind; [apply keeps_moment_remove|intros _].
      apply keeps_bind; [apply keeps_moment_executables|intros _; apply keeps_moment_println].
    + eapply keeps_tail; [|exact Hr]. by apply Hweak.
  - intros e w [Hw _]. exists []. split; [constructor|by apply Hweak].
Qed.
End RemoveFormer.

(** ** The whole migration *)

Section Whole.
Context `{TempNames} `{StateImport} (env : SetupEnv) (config_filename : string)
  (context : MigrationContext).
Abbreviation salmon := (ctx_salmon context).
Abbreviation montray := (ctx_montray context).
Abbreviation entries := (salmon_autostart salmon ++ salmon_launcher salmon).

Lemma keeps_dry_run base allowed t0 :
  keeps (moments base anything (unchanged allowed t0) whatever)
    (migrate_from_salmon_with env config_filename true context).
Proof.
  pose proof (keeps_existing_paths base allowed t0).
  unfold migrate_from_salmon_with, existing_salmon_paths, dry_run_report. io_keeps.
Qed.

Definition touched (t0 : Tree) (p : string) : Prop :=
  (copied_to config_filename p = true /\ exists target, t0 !! p = Some (NLink target)) \/
  p ∈ [path_autostart montray; path_icon montray; path_launcher montray] \/
  p ∈ salmon_desktop salmon.

Lemma migrate_with_spec base t0 :
  hoare (moments base anything (unchanged (touched t0) t0) whatever)
    (migrate_from_salmon_with env config_filename false context)
    (fun _ w => exists former, Forall (named entries w) former /\
       moments base anything (unchanged (removes (touched t0) context former) t0) whatever w).
Proof.
  assert (forall w, moments base anything (unchanged (touched t0) t0) whatever w ->
    exists former, Forall (named entries w) former /\
      moments base anything (unchanged (removes (touched t0) context former) t0) whatever w) as Hend.
  { intros w Hw. exists []. split; [constructor|]. eapply moments_mono; [|done|exact Hw].
    intros t Hu p n Hp Ha. apply Hu; [done|]. intros ?. apply Ha. by left. }
  assert (forall {A} (m : IO anyhow A), keeps (moments base anything (unchanged (touched t0) t0) whatever) m ->
    hoare (moments base anything (unchanged (touched t0) t0) whatever) m
      (fun _ w => exists former, Forall (named entries w) former /\
        moments base anything (unchanged (removes (touched t0) context former) t0) whatever w)) as Hk.
  { intros A m Hm. eapply hoare_weaken; [exact Hm|done|auto]. }
  unfold migrate_from_salmon_with. cbv zeta.
  eapply hoare_bind; [apply keeps_existing_paths| |by auto]. intros existing.
  apply (hoare_tree_bind (moments base anything (unchanged (touched t0) t0) whatever)). intros t.
  eapply (hoare_weaken (moments base anything (unchanged (touched t0) t0) whatever));
    [|by intros w [Hw _]|exact (fun r w Hw => Hw)].
  destruct (bool_decide (existing = [])).
  { apply Hk. destruct (path_exists t config_filename);
      [apply keeps_println_unchanged|apply keeps_throw]. }
  destruct (_ && _); [apply Hk, keeps_println_unchanged|].
  eapply hoare_bind; [apply keeps_migrate_config| |by auto].
  { intros p target Hc Hp. left. eauto. }
  intros []. eapply hoare_bind; [apply (keeps_context (moments base anything (unchanged (touched t0) t0) whatever)), keeps_load_config| |by auto].
  intros c. eapply hoare_bind; [apply migrate_state_keeps| |by auto].
  intros s. eapply hoare_bind; [apply keeps_execute_with| |by auto].
  { intros p (_ & [[_ ->]|[_ [->| ->]]]); right; left; set_solver. }
  intros d. apply remove_former_spec. intros p Hp. right. by right.
Qed.
End Whole.

(** C38: The migration touches only what it says. Whatever calls fail and whatever files
    other processes create, at every moment everything that was there at the start is
    unchanged, except, and only without [--dry-run]: the three desktop files that are
    reinstalled, the six former desktop files, executables that one of the former
    entries named with the version marker, under one of the two former names and other
    than the running one, and, among the places that the copies go to (the new
    configuration and paths inside its directory), symbolic links, which a rollback can
    remove ([rollback_removes_link]). The former configuration stays. *)
Theorem migration_undisturbed `{TempNames} `{StateImport} (env : SetupEnv)
    (config_filename : string) (dry_run : bool) (w w' : World) (r : Result unit) (t : Tree)
    (p : string) (n : Node) :
  w_past w = [] -> migrate_from_salmon env config_filename dry_run w = (w', r) ->
  moment w' t -> w_tree w !! p = Some n ->
  t !! p = Some n \/
  dry_run = false /\ exists config_home data_home executable,
    env_config_dir env = Some config_home /\ env_data_dir env = Some data_home /\
    executable_path env = Ok executable /\
    let salmon := salmon_watch_paths config_home data_home in
    p ∈ reinstalled env Complete true \/ p ∈ salmon_desktop salmon \/
    (path_eq p executable = false /\ named (salmon_autostart salmon ++ salmon_launcher salmon) w' p)
    \/ (copied_to config_filename p = true /\ exists target, n = NLink target).
Proof.
  intros Hpast Hrun Ht Hp. revert Hrun. unfold migrate_from_salmon, mbind, io_bind, lift.
  assert (forall allowed, moments [] anything (unchanged allowed (w_tree w)) whatever w) as Hw
    by (intros; rewrite <-Hpast; apply moments_begin; [apply unchanged_start|apply script_anything]).
  assert (w' = w -> t !! p = Some n) as Hsame.
  { intros ->. apply (moments_at _ _ _ _ _ (Hw nowhere) Ht); [done|by intros []]. }
  destruct (validate_platform env) as [[]|e]; [|intros [= <- _]; left; auto].
  destruct (env_config_dir env) as [config_home|] eqn:Hc; cbn [opt_context]; [|intros [= <- _]; left; auto].
  destruct (env_data_dir env) as [data_home|] eqn:Hd; cbn [opt_context]; [|intros [= <- _]; left; auto].
  destruct (executable_path env) as [executable|e] eqn:He; [|intros [= <- _]; left; auto].
  destruct dry_run; intros Hrun.
  { left. pose proof (keeps_dry_run env config_filename _ [] nowhere _ _ _ _ (Hw nowhere) Hrun) as Hk.
    apply (moments_at _ _ _ _ _ Hk Ht); [done|by intros []]. }
  destruct (migrate_with_spec env config_filename _ [] (w_tree w) _ _ _ (Hw _) Hrun)
    as (former & Hf & Hk). rewrite list.Forall_forall in Hf.
  assert ((p ∈ reinstalled env Complete true \/
    p ∈ salmon_desktop (salmon_watch_paths config_home data_home)) \/
    (p ∈ former /\ path_eq p executable = false) \/
    (copied_to config_filename p = true /\ exists target, n = NLink target) \/ t !! p = Some n) as Hcase.
  { destruct (decide (p ∈ reinstalled env Complete true)) as [|H1]; [by left; left|].
    destruct (decide (p ∈ salmon_desktop (salmon_watch_paths config_home data_home))) as [|H2];
      [by left; right|right].
    destruct (decide (p ∈ former /\ path_eq p executable = false)) as [|H3]; [by left|right].
    destruct (decide (copied_to config_filename p = true /\ exists target, n = NLink target))
      as [|H4]; [by left|right].
    apply (moments_at _ _ _ _ _ Hk Ht); [done|].
    intros [[[Hto [target Hl]]|[Hm|Hm]]|Hm]; [apply H4| |done|done].
    - split; [done|]. exists target. congruence.
    - apply H1; unfold reinstalled; rewrite Hc, Hd; revert Hm; clear; simpl; set_solver. }
  destruct Hcase as [[Hcase|Hcase]|[[Hin Hne]|[Hl|Hs]]]; [right..|by left]; (split; [done|]);
    exists config_home, data_home, executable; (split; [done|]); (split; [done|]);
    (split; [done|]); cbv zeta.
  - by left.
  - by right; left.
  - right; right; left. split; [done|]. by apply Hf.
  - by right; right; right.
Qed.

(** ** An installation to migrate *)

Lemma salmon_executable_name contents p :
  salmon_executable contents = Some p ->
  file_name p = Some "salmon-watch" \/ file_name p = Some "salmon-watch-legacy".
Proof.
  unfold salmon_executable. destruct (negb _); [done|].
  destruct (head _) as [value|]; [|done]. simpl.
  destruct (bool_decide _) eqn:H1; simpl.
  - intros [= <-]. left. by apply bool_decide_eq_true in H1.
  - destruct (bool_decide (file_name _ = Some "salmon-watch-legacy")) eqn:H2; [|done].
    intros [= <-]. right. by apply bool_decide_eq_true in H2.
Qed.


Definition demo_import : StateImport := state_import (C := blank_codec) (Some "/h").

Definition former_entry : string :=
  "[Desktop Entry]" +:+ newline +:+ "Exec=/b/salmon-watch --hidden" +:+ newline +:+
  "X-Salmon-Watch-Desktop-Entry-Version=2" +:+ newline.

Definition former_installation : World :=
  world_of [("/c", NDir 493); ("/c/salmon-watch", NDir 493);
         ("/c/salmon-watch/salmon-watch.yml", NFile "token: /c/salmon-watch/a" 420);
         ("/c/salmon-watch/a", NFile "secret" 384);
         ("/c/autostart", NDir 493);
         ("/c/autostart/salmon-watch.desktop", NFile former_entry 420);
         ("/b", NDir 493); ("/b/salmon-watch", NFile "elf" 493); ("/b/montray-ui", NFile "elf" 493);
         ("/h", NDir 493); ("/h/.salmon-watch-state.json", NFile "{}" 420)]
    [].

Lemma migration_undisturbed_witness :
  let '(w', r) := @migrate_from_salmon long_names demo_import demo_env "/c/montray.yml" false
                    former_installation in
  r = Ok tt /\ w_tree w' !! "/b/salmon-watch" = None /\
  w_tree w' !! "/h/.montray-state.json" = Some (NFile "{}" owner_only) /\
  w_tree w' !! "/c/salmon-watch/a" = Some (NFile "secret" 384).
Proof.
  destruct (migrate_from_salmon _ _ _ _) as [w' r] eqn:Hrun.
  assert (r = Ok tt /\ w_tree w' !! "/b/salmon-watch" = None /\
    w_tree w' !! "/h/.montray-state.json" = Some (NFile "{}" owner_only)) as (Hr & Hb & Hi).
  { apply (f_equal (fun x => (x.2, w_tree x.1 !! "/b/salmon-watch",
      w_tree x.1 !! "/h/.montray-state.json"))) in Hrun.
    vm_compute in Hrun. by simplify_eq. }
  split; [exact Hr|]. split; [exact Hb|]. split; [exact Hi|].
  destruct (@migration_undisturbed long_names demo_import demo_env "/c/montray.yml" false
    former_installation w' r (w_tree w') "/c/salmon-watch/a" (NFile "secret" 384))
    as [Hs|(_ & config_home & data_home & executable & Hc & Hd & He & Hcase)];
    [reflexivity|exact Hrun|by left|reflexivity|exact Hs|exfalso].
  vm_compute in Hc, Hd. injection Hc as <-. injection Hd as <-.
  destruct Hcase as [Hin|[Hin|[[_ Hn]|[_ [target Ht]]]]].
  - revert Hin. apply (bool_decide_unpack (_ ∉ _)). vm_compute. done.
  - revert Hin. apply (bool_decide_unpack (_ ∉ _)). vm_compute. done.
  - destruct Hn as (entry & t & data & mode & _ & _ & _ & [Hx|Hx]%salmon_executable_name);
      vm_compute in Hx; discriminate.
  - discriminate Ht.
Defined.

(** Two surprises. A dangling link with the name of a copied file is followed by the
    copy, and the rollback then removes the link itself, which was there before. *)
Example rollback_removes_link :
  let w := world_of [("/c", NDir 493); ("/c/s", NDir 493); ("/c/s/s.yml", NFile "x" 420);
                  ("/c/s/a", NFile "a" 420); ("/c/s/z", NLink "/etc");
                  ("/c/m", NDir 493); ("/c/m/a", NLink "/gone")] [] in
  let '(w', r) := migrate_salmon_config "/c/s/s.yml" "/c/m/m.yml" w in
  is_ok r = false /\ w_tree w' !! "/c/m/a" = None /\ w_tree w' !! "/gone" = Some (NFile "a" 420).
Proof. vm_compute. repeat split. Qed.

(** A destination below the former directory is copied into itself, ever deeper, until
    the system refuses the path. *)
Example copy_into_itself :
  let w := world_of [("/s", NDir 493); ("/s/new", NDir 493)] [] in
  forall fuel, fuel ∈ seq 1 6 ->
  let '(_, (_, r)) := copy_directory_contents_noclobber fuel "/s" "/s/new" "/s/s.yml" [] w in
  r = Err ["create Montray UI configuration directory"; "File name too long (os error 36)"].
Proof.
  cbv zeta. apply list.Forall_forall. repeat (constructor; [vm_compute; reflexivity|]). constructor.
Qed.
