(* ===== verification/Rollback.v ===== *)
(** * Rollback of a failed configuration migration

    The journal of [copy_directory_contents_noclobber] lists every file that
    [migrate_salmon_config] (src/cmd/montray-ui/src/setup.rs) creates, so that after an
    error [rollback_created_files] leaves none of them. *)

From Stdlib Require Import ZArith Lia Ascii.
From stdpp Require Import base gmap strings list option.
From S2P Require Import Prelude RustStr Output RustPath Config Desktop Io Atomic Cli Setup Reinstall Migration.

Section Account.
Context `{TempNames} (base : list Tree) (script : list Outcome) (t0 : Tree) (dir : string).

Definition raced (p : string) : Prop := exists data mode, Races p data mode ∈ script.

(** Where the files that were not there come from. *)
Definition accounted (created : list string) (t : Tree) : Prop :=
  forall p n, t !! p = Some n -> t0 !! p = None ->
    private_path p = true \/ (exists mode, n = NDir mode) \/ p ∈ created \/ raced p.

Definition tidy (created : list string) (t : Tree) : Prop :=
  unchanged nowhere t0 t /\ no_links_below dir t /\ accounted created t.

Abbreviation inv created := (moments base (races_in script) (tidy created) whatever).

Lemma accounted_insert created p n t :
  (private_path p = true \/ (exists mode, n = NDir mode) \/ p ∈ created \/ raced p) ->
  accounted created t -> accounted created (<[p := n]> t).
Proof.
  intros Hp Ha q m Hq H0. destruct (decide (p = q)) as [->|Hne].
  - rewrite lookup_insert_eq in Hq. by simplify_eq.
  - rewrite lookup_insert_ne in Hq by done. by apply Ha.
Qed.

Lemma accounted_delete created p t : accounted created t -> accounted created (delete p t).
Proof. intros Ha q m [_ Hq]%lookup_delete_Some H0. by apply Ha. Qed.

Lemma accounted_alter created f p t :
  (forall mode, exists mode', f (NDir mode) = NDir mode') ->
  accounted created t -> accounted created (alter f p t).
Proof.
  intros Hf Ha q m Hq H0. destruct (decide (p = q)) as [->|Hne].
  - rewrite lookup_alter_eq in Hq. destruct (t !! q) as [n|] eqn:Hn; [|done]. simplify_eq/=.
    destruct (Ha q n Hn H0) as [?|[[mode ->]|?]]; auto.
  - rewrite lookup_alter_ne in Hq by done. by apply Ha.
Qed.

Lemma no_links_delete p t : no_links_below dir t -> no_links_below dir (delete p t).
Proof. intros Hl rest target [_ Hn]%lookup_delete_Some. by apply Hl in Hn. Qed.

Lemma no_links_alter f p t :
  (forall n target, f n = NLink target -> n = NLink target) ->
  no_links_below dir t -> no_links_below dir (alter f p t).
Proof.
  intros Hf Hl rest target. destruct (decide (p = dir +:+ rest)) as [->|Hne].
  - rewrite lookup_alter_eq. destruct (t !! (dir +:+ rest)) as [n|] eqn:Hn; [|done].
    intros [= Hx]. apply Hf in Hx as ->. by apply Hl in Hn.
  - rewrite lookup_alter_ne by done. apply Hl.
Qed.

Lemma clean_race created p d m t :
  races_in script p d m -> tidy created t -> tidy created (race p d m t).
Proof.
  intros Hr (Hu & Hl & Ha). split; [by apply unchanged_race|]. split; [by apply no_links_race|].
  unfold race. destruct (private_path p); [done|]. destruct (t !! p); [done|].
  apply accounted_insert; [|done]. right; right; right. by exists d, m.
Qed.

Lemma clean_stable created : stable (races_in script) (tidy created) whatever.
Proof. intros p d m t Hr Hc _. split; [by apply clean_race|done]. Qed.

Lemma keeps_clean {A} created partial (op : Tree -> Tree * result IoError A) :
  (forall data t, tidy created t -> tidy created (partial data t)) ->
  (forall t, tidy created t -> tidy created (op t).1) -> keeps (inv created) (sys partial op).
Proof. intros Hp Ho. apply keeps_sys; [apply clean_stable|..]; intros; split; auto; done. Qed.

Lemma clean_insert created p n t :
  (may_change nowhere t0 p \/ t !! p = None) -> (forall target, n <> NLink target) ->
  (private_path p = true \/ (exists mode, n = NDir mode) \/ p ∈ created \/ raced p) ->
  tidy created t -> tidy created (<[p := n]> t).
Proof.
  intros Hp Hn Ha (Hu & Hl & Hacc). split; [by apply unchanged_insert|].
  split; [by apply no_links_insert|by apply accounted_insert].
Qed.
Lemma clean_delete created p t :
  may_change nowhere t0 p -> tidy created t -> tidy created (delete p t).
Proof.
  intros Hp (Hu & Hl & Hacc). split; [by apply unchanged_delete|].
  split; [by apply no_links_delete|by apply accounted_delete].
Qed.
Lemma clean_alter created f p t :
  may_change nowhere t0 p -> (forall mode, exists mode', f (NDir mode) = NDir mode') ->
  (forall n target, f n = NLink target -> n = NLink target) ->
  tidy created t -> tidy created (alter f p t).
Proof.
  intros Hp H1 H2 (Hu & Hl & Hacc). split; [by apply unchanged_alter|].
  split; [by apply no_links_alter|by apply accounted_alter].
Qed.

Lemma clean_mkdir created mode p : keeps (inv created) (mkdir mode p).
Proof.
  apply keeps_clean; [done|]. intros t Hc. destruct (t !! p) eqn:Hp; simpl; [done|].
  apply clean_insert; eauto.
Qed.
Lemma clean_create_dir_all created mode p : keeps (inv created) (create_dir_all mode p).
Proof. pose proof (clean_mkdir created mode). unfold create_dir_all. io_keeps. Qed.
Lemma clean_read_bytes created p : keeps (inv created) (read_bytes p).
Proof. by apply keeps_clean. Qed.
Lemma clean_read_dir created p : keeps (inv created) (read_dir p).
Proof. apply keeps_clean; [done|]. intros t Hc. by destruct (_ ≫= _) as [[]|]. Qed.
Lemma clean_remove_file created p :
  may_change nowhere t0 p -> keeps (inv created) (remove_file p).
Proof.
  intros Hp. apply keeps_clean; [done|]. intros t Hc.
  destruct (t !! p) as [[]|]; simpl; auto using clean_delete.
Qed.

(** One file, through a temporary one. *)
Lemma clean_install_body created temp path contents :
  may_change nowhere t0 temp -> private_path temp = true -> path ∈ created ->
  (exists rest, temp = dir +:+ rest) ->
  keeps (inv created) (install_body path contents false temp).
Proof.
  intros Ht Hpriv Hin [rest Hrest].
  assert (keeps (inv created) (set_permissions temp public_mode)) as H1.
  { apply keeps_clean; [done|]. intros t Hc. simpl.
    apply clean_alter; [done|by eauto|by intros []|done]. }
  assert (keeps (inv created) (write_all temp contents)) as H2.
  { apply keeps_clean; intros; (apply clean_alter; [done|by eauto|by intros []|done]). }
  assert (keeps (inv created) flush_file) as H3 by (by apply keeps_clean).
  assert (keeps (inv created) (persist_new temp path)) as H4.
  { apply keeps_clean; [done|]. intros t Hc.
    destruct (t !! temp) as [node|] eqn:Hn, (t !! path) eqn:Hp; simpl; try done.
    apply clean_insert; [|intros target ->; rewrite Hrest in Hn; by eapply Hc; rewrite Hn|auto|by apply clean_delete].
    right. apply lookup_delete_None. by right. }
  unfold install_body. io_keeps.
Qed.

Lemma below_join rest relative :
  starts_with "/" relative = false ->
  exists rest', path_join (dir +:+ rest) relative = dir +:+ rest'.
Proof.
  intros Hr. destruct (path_join_below (dir +:+ rest) relative Hr) as [r ->].
  exists (rest +:+ r). by rewrite append_assoc.
Qed.

Lemma clean_with_temp created {A} error (body : string -> IO anyhow A) :
  (forall temp, may_change nowhere t0 temp -> private_path temp = true ->
     (exists rest, temp = dir +:+ rest) -> keeps (inv created) (body temp)) ->
  keeps (inv created) (with_temp error dir body).
Proof.
  intros Hbody. unfold with_temp. apply keeps_bind_now. intros w w' r Hw. cbv zeta.
  pose proof (private_temp dir (w_tree w)) as Hpriv.
  set (temp := fresh_path _ (w_tree w)) in *.
  assert (may_change nowhere t0 temp) as Htemp.
  { intros Ha. eapply unchanged_absent; [apply Hw| |done].
    rewrite <-(append_nil_r temp). apply fresh_path_new. }
  assert (exists rest, temp = dir +:+ rest) as Hbelow.
  { destruct (fresh_path_prefix (path_join dir TEMP_PREFIX) (w_tree w)) as [suffix Hs].
    destruct (path_join_below dir TEMP_PREFIX eq_refl) as [rest Hr].
    exists (rest +:+ suffix). unfold temp. by rewrite Hs, Hr, append_assoc. }
  clearbody temp. revert w w' r Hw. change (keeps (inv created) (
    _ ← ctx error (create_new 384 temp);
    r ← try_io (body temp);
    t ← tree;
    _ ← match t !! temp with Some _ => try_io (remove_file temp) | None => mret (Ok tt) end;
    lift r)).
  assert (keeps (inv created) (create_new 384 temp)) as H1.
  { apply keeps_clean; [done|]. intros t Hc. destruct (t !! temp) eqn:Hn; simpl; [done|].
    apply clean_insert; auto. }
  pose proof (clean_remove_file created temp Htemp) as H2.
  pose proof (Hbody temp Htemp Hpriv Hbelow) as H3. io_keeps.
Qed.

Lemma clean_install created path contents :
  path_parent path = Some dir -> path ∈ created ->
  keeps (inv created) (install_file path contents false).
Proof.
  intros Hparent Hin. unfold install_file. rewrite Hparent.
  apply hoare_lift; [|by intros]. intros parent [= <-].
  apply keeps_bind; [apply keeps_ctx, clean_create_dir_all|intros _].
  apply keeps_bind; [apply keeps_tree|intros t].
  destruct (_ && _); [apply keeps_ret|]. apply clean_with_temp.
  intros temp. intros. by apply clean_install_body.
Qed.

(** ** The journal *)

Definition journaled (created : list string) (w : World) : Prop :=
  inv created w /\ Forall (may_change nowhere t0) created.

Lemma clean_mono created created' t :
  (forall p, p ∈ created -> p ∈ created') -> tidy created t -> tidy created' t.
Proof.
  intros Hsub (Hu & Hl & Ha). split; [done|]. split; [done|]. intros p n Hp H0.
  destruct (Ha p n Hp H0) as [?|[?|[?|?]]]; auto.
Qed.

Lemma copy_missing created source rest :
  may_change nowhere t0 (dir +:+ rest) -> dir +:+ rest ∈ created ->
  keeps (inv created) (copy_file source (dir +:+ rest)).
Proof.
  intros Hp Hin.
  assert (forall data mode t, tidy created t -> tidy created (put_file (dir +:+ rest) data mode t))
    as Hput.
  { intros data mode t Hc. rewrite put_file_private by apply Hc.
    destruct (t !! (dir +:+ rest)) as [[]|]; try done; (apply clean_insert; [by left|done|auto|done]). }
  apply keeps_clean; [auto|]. intros t Hc.
  destruct (read_node source t) as [[data mode]|e]; [|done].
  destruct (_ ≫= _) as [[]|]; simpl; auto.
Qed.

Definition jclean {A} (m : Journal A) : Prop :=
  forall created w w' created' r,
    journaled created w -> m created w = (w', (created', r)) -> journaled created' w'.

Lemma jclean_plain {A} (m : IO anyhow A) : (forall created, keeps (inv created) m) -> jclean (plain m).
Proof.
  intros Hm created w w' created' r [Hw Hc]. unfold plain. destruct (m w) as [w1 r1] eqn:H1.
  intros [= <- <- <-]. split; [by eapply Hm|done].
Qed.
Lemma jclean_ret {A} (a : A) : jclean (mret a).
Proof. intros created w w' created' r Hw [= <- <- <-]. done. Qed.
Lemma jclean_bind {A B} (m : Journal A) (f : A -> Journal B) :
  jclean m -> (forall a, jclean (f a)) -> jclean (m ≫= f).
Proof.
  intros Hm Hf created w w' created' r Hw. unfold mbind, journal_bind.
  destruct (m created w) as [w1 [c1 [a|e]]] eqn:H1; intros Hr.
  - eapply Hf; [|exact Hr]. by eapply Hm.
  - injection Hr as <- <- <-. by eapply Hm.
Qed.

Lemma jclean_copy_file source rest :
  jclean (t ← plain tree;
          if path_exists t (dir +:+ rest) then mret tt
          else
            _ ← record (dir +:+ rest);
            plain (ctx ("copy Salmon Watch file " +:+ source +:+ " to " +:+ (dir +:+ rest))
                     (copy_file source (dir +:+ rest)))).
Proof.
  intros created w w' created' r [Hw Hc]. unfold plain, tree, record, mbind, journal_bind.
  destruct (path_exists (w_tree w) (dir +:+ rest)) eqn:He; [by intros [= <- <- <-]|].
  destruct Hw as ((Hu & Hl & Ha) & Hw).
  assert (may_change nowhere t0 (dir +:+ rest)) as Hp.
  { intros Hn. eapply unchanged_absent; [exact Hu| |done]. unfold path_exists in He.
    rewrite resolve_not_link in He by apply Hl. apply bool_decide_eq_false in He.
    by apply eq_None_not_Some. }
  unfold ctx. destruct (copy_file source (dir +:+ rest) w) as [w1 r1] eqn:H1. intros [= <- <- <-].
  split; [|by apply list.Forall_app; split; [|constructor]].
  eapply copy_missing; [exact Hp|by apply elem_of_app; right; left| |exact H1].
  eapply moments_mono; [|done|exact (conj (conj Hu (conj Hl Ha)) Hw)].
  intros t. apply clean_mono. intros p Hin. apply elem_of_app. by left.
Qed.

Lemma jclean_copy_directory fuel source rest skipped :
  jclean (copy_directory_contents_noclobber fuel source (dir +:+ rest) skipped).
Proof.
  revert source rest. induction fuel as [|fuel IH]; intros source rest; simpl.
  { apply jclean_plain. intros. apply keeps_throw. }
  apply jclean_bind; [apply jclean_plain; intros; apply keeps_ctx, clean_create_dir_all|intros _].
  apply jclean_bind; [apply jclean_plain; intros; apply keeps_ctx, clean_read_dir|intros entries].
  induction entries as [|[source_path node] entries IHe]; simpl; [apply jclean_ret|].
  apply jclean_bind; [|done].
  apply jclean_bind; [apply jclean_plain; intros; apply keeps_ctx; by apply keeps_clean|intros _].
  destruct (path_eq source_path skipped); [apply jclean_ret|].
  destruct (below_join rest _ (file_name_relative source_path)) as [rest' ->]. destruct node.
  - apply jclean_copy_file.
  - apply IH.
  - apply jclean_plain. intros. apply keeps_throw.
Qed.

(** ** The rollback *)

(** The state now. *)
Definition settled (created : list string) (w : World) : Prop :=
  tidy created (w_tree w) /\ Forall (outcome_ok (races_in script)) (w_script w).

Lemma clean_gone created p t : tidy (p :: created) t -> t !! p = None -> tidy created t.
Proof.
  intros (Hu & Hl & Ha) Hp. split; [done|]. split; [done|]. intros q n Hq H0.
  destruct (Ha q n Hq H0) as [?|[?|[[->|?]%elem_of_cons|?]]]; auto. congruence.
Qed.

Lemma clean_removed created p t :
  may_change nowhere t0 p -> tidy (p :: created) t -> tidy created (delete p t).
Proof.
  intros Hp Hc. apply (clean_gone _ p); [by apply clean_delete|apply lookup_delete_eq].
Qed.

(** A file that was removed, or was not there, is gone unless another process
    creates it. *)
Lemma remove_file_gone created p w w' r :
  may_change nowhere t0 p -> settled (p :: created) w -> remove_file p w = (w', r) ->
  match r with
  | Ok _ => settled created w'
  | Err e => io_kind e = NotFound -> settled created w'
  end.
Proof.
  intros Hp [Hc Hs]. unfold remove_file.
  match goal with |- sys _ ?f _ = _ -> _ => set (op := f) end.
  assert (forall w2 t rest t' r', tidy (p :: created) t -> Forall (outcome_ok (races_in script)) rest ->
    op t = (t', r') ->
    match r' with
    | Ok _ => settled created (pass w2 t' rest)
    | Err e => io_kind e = NotFound -> settled created (pass w2 t' rest)
    end) as Hop.
  { intros w2 t rest t' r' Ht Hrest. unfold op, refuse.
    destruct (t !! p) as [[]|] eqn:Hn; intros [= <- <-]; try done;
      try (split; [by apply clean_removed|done]).
    intros _. split; [by eapply clean_gone|done]. }
  unfold sys.
  destruct (w_script w) as [|[|denied text written|q d m] rest];
    try apply list.Forall_cons in Hs as [Hr Hs].
  - destruct (op (w_tree w)) as [t' r'] eqn:Ho. intros [= <- <-]. by eapply Hop.
  - destruct (op (w_tree w)) as [t' r'] eqn:Ho. intros [= <- <-]. by eapply Hop.
  - intros [= <- <-]. by destruct denied.
  - cbn [w_tree pass]. destruct (op (race q d m (w_tree w))) as [t' r'] eqn:Ho.
    intros [= <- <-]. eapply Hop; [|done|exact Ho]. by apply clean_race.
Qed.

Lemma remove_created_error paths e w : exists w', remove_created paths (Some e) w = (w', Ok (Some e)).
Proof.
  revert w. induction paths as [|p paths IH]; intros w; [by exists w|]. simpl.
  unfold mbind, io_bind, try_io. destruct (remove_file p w) as [w1 [[]|e1]]; [apply IH|].
  rewrite andb_false_r. apply IH.
Qed.

Lemma remove_created_ok paths error w :
  exists w' o, remove_created paths error w = (w', Ok o).
Proof.
  revert error w. induction paths as [|p paths IH]; intros error w; [by eexists _, _|]. simpl.
  unfold mbind, io_bind, try_io. destruct (remove_file p w) as [w1 r1]. apply IH.
Qed.

Lemma remove_created_spec paths w w' r :
  Forall (may_change nowhere t0) paths -> settled paths w ->
  remove_created paths None w = (w', r) -> r = Ok None -> settled [] w'.
Proof.
  intros Hall. revert w. induction Hall as [|p paths Hp _ IH]; intros w Hw; simpl.
  { by intros [= <- <-]. }
  unfold mbind, io_bind, try_io. destruct (remove_file p w) as [w1 [[]|e]] eqn:H1;
    pose proof (remove_file_gone paths p w w1 _ Hp Hw H1) as Hg; simpl in Hg; [by apply IH|].
  destruct (bool_decide (io_kind e = NotFound)) eqn:Hk; simpl.
  - apply IH, Hg. by apply bool_decide_eq_true in Hk.
  - match goal with |- remove_created _ (Some ?text) _ = _ -> _ =>
      destruct (remove_created_error paths text w1) as [w2 ->] end.
    intros [= <- <-] [=].
Qed.

Lemma rollback_spec created error w w' r :
  Forall (may_change nowhere t0) created -> settled created w ->
  (error ← rollback_created_files created error; throw (A := unit) error) w = (w', r) ->
  exists e, r = Err e /\
    ((exists cause, head e = Some ("migration rollback was incomplete: " +:+ cause)) \/ settled [] w').
Proof.
  intros Hall Hw. unfold rollback_created_files, mbind, io_bind.
  destruct (remove_created_ok (rev created) None w) as (w1 & o & Hr). rewrite Hr.
  intros [= <- <-]. eexists. split; [done|]. destruct o as [cause|]; [left; by eexists|right].
  eapply remove_created_spec; [| |exact Hr|done].
  - by apply List.Forall_rev.
  - split; [|apply Hw]. eapply clean_mono; [|apply Hw]. intros p.
    by rewrite !list_elem_of_In, <-in_rev.
Qed.
End Account.

Section Migrate.
Context `{TempNames} (base : list Tree) (script : list Outcome) (t0 : Tree)
  (destination dir : string).
Hypothesis (Hparent : path_parent destination = Some dir)
  (Hpublic : private_path destination = false) (Hnew : t0 !! destination = None).
Abbreviation inv created := (moments base (races_in script) (tidy script t0 dir created) whatever).
Abbreviation waiting :=
  (moments base (races_in script) (pending destination script t0) whatever).

(** How a failed migration ends. *)
Definition rolled_back (r : Result unit) (w : World) : Prop :=
  forall e, r = Err e -> unchanged nowhere t0 (w_tree w) /\
    ((exists cause, head e = Some ("migration rollback was incomplete: " +:+ cause)) \/
     accounted script t0 [] (w_tree w)).

Lemma inv_rolled_back r w : inv [] w -> rolled_back r w.
Proof. intros ((Hu & _ & Ha) & _) e _. auto. Qed.

Lemma siblings_rolled_back source_directory source :
  hoare (inv [destination]) (migrate_siblings source_directory dir source destination) rolled_back.
Proof.
  intros w w' r Hw. unfold migrate_siblings.
  destruct (copy_directory_contents_noclobber PATH_MAX source_directory dir source [destination] w)
    as [w1 [created r1]] eqn:Hc.
  assert (journaled base script t0 dir created w1) as [Hw1 Hall].
  { rewrite <-(append_nil_r dir) in Hc. eapply jclean_copy_directory; [|exact Hc].
    split; [done|]. apply list.Forall_singleton. intros _. exact Hnew. }
  destruct r1 as [[]|error]; intros Hr; [by injection Hr as <- <-; intros e [=]|].
  pose proof (rollback_spec script t0 dir created error w1 w' r Hall) as Hspec.
  destruct Hspec as (e & -> & Hend); [split; apply Hw1|exact Hr|]. intros e' [= <-]. split.
  - assert (keeps (inv created)
      (error ← rollback_created_files created error; throw (A := unit) error)) as Hk.
    { unfold rollback_created_files. apply keeps_bind; [|intros; apply keeps_throw].
      apply keeps_bind; [|intros; apply keeps_ret]. apply List.Forall_rev in Hall.
      generalize (None : option string). induction Hall as [|p ps Hp _ IH]; intros o; simpl.
      - apply keeps_ret.
      - apply keeps_bind; [by apply keeps_try, clean_remove_file|intros; apply IH]. }
    destruct (Hk _ _ _ Hw1 Hr) as ((Hu & _) & _). done.
  - destruct Hend as [?|[(_ & _ & Ha) _]]; auto.
Qed.

Lemma missing_rolled_back source :
  hoare (fun w => inv [] w /\ waiting w) (migrate_missing_config source destination) rolled_back.
Proof.
  assert (forall {A} (r : Result A) (f : A -> IO anyhow unit),
    (forall a, r = Ok a -> hoare (fun w => inv [] w /\ waiting w) (f a) rolled_back) ->
    hoare (fun w => inv [] w /\ waiting w) (lift r ≫= f) rolled_back) as Hlift.
  { intros A r f Hf. apply hoare_lift; [done|]. intros e w _ [Hw _]. by apply inv_rolled_back. }
  unfold migrate_missing_config.
  eapply (hoare_bind _ _ _ (fun _ w => inv [] w /\ waiting w)).
  { apply hoare_and; [apply (keeps_ctx (inv [])), clean_read_bytes|].
    apply (keeps_ctx waiting), keeps_sys; [by apply stable_pending|done|done]. }
  2: { intros e w [Hw _]. by apply inv_rolled_back. }
  intros data. apply Hlift. intros text _. apply Hlift. intros source_directory _.
  apply Hlift. intros destination_directory. rewrite Hparent. intros [= <-]. cbv zeta.
  intros w w' r [Hw Hp]. unfold mbind, io_bind.
  destruct (install_file destination _ false w) as [w1 r1] eqn:Hi.
  assert (inv [destination] w1) as Hw1.
  { eapply clean_install; [exact Hparent|by left| |exact Hi].
    eapply moments_mono; [|done|exact Hw]. intros t. by apply clean_mono, list_subseteq_nil. }
  pose proof (install_file_installed _ _ _ _ _ Hpublic _ _ _ _ Hp Hi) as Hins.
  assert (r1 <> Ok Reinstalled) as Hold.
  { apply (f_equal snd) in Hi. simpl in Hi. rewrite <-Hi. apply install_keeps_old. }
  destruct r1 as [[| |]|e]; simpl in Hins, Hold; [by eapply siblings_rolled_back| |done|].
  { intros [= <- <-]. by intros e [=]. }
  intros [= <- <-] e' _. destruct Hw1 as ((Hu & _ & Ha) & _). split; [done|]. right.
  intros p n Hn H0. destruct (Ha p n Hn H0) as [?|[?|[->%list_elem_of_singleton|?]]]; auto.
  destruct Hins as [[Hs|(d & m & Hr & _)] _]; [congruence|].
  right; right; right. by exists d, m.
Qed.
End Migrate.

(** C15: A configuration migration that fails leaves no new file behind. Whatever calls
    fail, if there is no symbolic link in the destination directory, then after an error
    of [migrate_salmon_config] either the error says that the rollback was incomplete, or
    everything that was not there before is a directory, a temporary file, or a file of
    another process; and everything that was there is unchanged in any case. *)
Theorem migration_rolled_back `{TempNames} (source destination dir : string) (w w' : World)
    (e : anyhow) :
  path_parent destination = Some dir -> private_path destination = false ->
  no_links_below dir (w_tree w) ->
  migrate_salmon_config source destination w = (w', Err e) ->
  (forall p n, w_tree w !! p = Some n -> w_tree w' !! p = Some n) /\
  ((exists cause, head e = Some ("migration rollback was incomplete: " +:+ cause)) \/
   forall p n, w_tree w' !! p = Some n -> w_tree w !! p = None ->
     private_path p = true \/ (exists mode, n = NDir mode) \/
     exists data mode, Races p data mode ∈ w_script w).
Proof.
  intros Hparent Hpriv Hl. unfold migrate_salmon_config, mbind, io_bind, tree.
  destruct (path_exists (w_tree w) destination) eqn:He; [done|]. intros Hrun.
  assert (w_tree w !! destination = None) as Hnone.
  { destruct (path_parent_prefix _ _ Hparent) as [rest Hrest]. unfold path_exists in He.
    rewrite resolve_not_link in He by (intros target; rewrite Hrest; apply Hl).
    apply bool_decide_eq_false in He. by apply eq_None_not_Some. }
  assert (rolled_back (w_script w) (w_tree w) (Err e) w') as Hr.
  { eapply (missing_rolled_back (w_past w) (w_script w) (w_tree w) destination dir);
      [done..| |exact Hrun].
    split; (apply moments_begin; [|apply script_races]); [|by left].
    split; [apply unchanged_start|]. split; [done|]. intros p n Hp H0. congruence. }
  destruct (Hr e eq_refl) as [Hu Hend]. split.
  - intros p n Hp. apply Hu; [done|]. by intros [].
  - destruct Hend as [?|Ha]; [by left|right]. intros p n Hp H0.
    destruct (Ha p n Hp H0) as [?|[?|[?%not_elem_of_nil|?]]]; auto.
Qed.

(** A symbolic link among the former files stops the migration; the configuration and
    the token that were already copied are removed. *)
Definition former_world : World :=
  world_of [("/c", NDir 493); ("/c/salmon-watch", NDir 493);
         ("/c/salmon-watch/salmon-watch.yml", NFile "token: /c/salmon-watch/a" 420);
         ("/c/salmon-watch/a", NFile "secret" 384);
         ("/c/salmon-watch/b", NLink "/etc")] [].

Lemma migration_rolled_back_witness :
  let '(w', r) :=
    migrate_salmon_config "/c/salmon-watch/salmon-watch.yml" "/c/montray/m.yml" former_world in
  r = Err ["refusing to migrate symbolic link in Salmon Watch configuration: /c/salmon-watch/b"] /\
  w_tree w' !! "/c/salmon-watch/a" = Some (NFile "secret" 384) /\
  forall data mode, w_tree w' !! "/c/montray/m.yml" <> Some (NFile data mode).
Proof.
  destruct (migrate_salmon_config _ _ _) as [w' r] eqn:Hrun.
  assert (r = Err ["refusing to migrate symbolic link in Salmon Watch configuration: /c/salmon-watch/b"])
    as -> by (apply (f_equal snd) in Hrun; vm_compute in Hrun; by symmetry).
  split; [done|].
  apply (migration_rolled_back _ _ "/c/montray") in Hrun as [Hu [[cause Hc]|Hend]];
    [..|by vm_compute in Hc| |reflexivity|reflexivity|].
  - split; [by apply Hu|]. intros data mode Hn.
    destruct (Hend _ _ Hn) as [Hp|[[m Hm]|(d & m & Hin)]]; [reflexivity|..]; try done.
    by apply not_elem_of_nil in Hin.
  - intros rest target Hn%elem_of_list_to_map_2. rewrite !elem_of_cons in Hn.
    destruct Hn as [Hn|[Hn|[Hn|[Hn|[Hn|Hn%not_elem_of_nil]]]]]; [discriminate Hn..|done].
Defined.
