(* ===== verification/MigrationOrder.v ===== *)
(** * The order of a migration

    [migrate_from_salmon] (src/cmd/montray-ui/src/setup.rs) removes the former desktop
    integration only when the new one is in place. *)

From Stdlib Require Import ZArith Lia Ascii.
From stdpp Require Import base gmap strings list option.
From S2P Require Import Prelude RustStr Output RustPath Config Desktop Io Atomic Cli Setup Reinstall Migration.

(** ** Files in place *)

Definition placed (files : list (string * string)) (t : Tree) : Prop :=
  forall p contents, (p, contents) ∈ files -> t !! p = Some (NFile contents public_mode).

(** A run that leaves other files alone keeps them in place. *)
Lemma placed_kept allowed files t t' :
  (forall p, p ∈ files.*1 -> ~ allowed p) -> unchanged allowed t t' -> placed files t ->
  placed files t'.
Proof.
  intros Ha Hu Hp p contents Hin. apply Hu; [by apply Hp|]. apply Ha, list_elem_of_fmap.
  by exists (p, contents).
Qed.

Lemma run_unchanged {E A} (m : IO E A) allowed w w' r :
  (forall base t0, keeps (moments base anything (unchanged allowed t0) whatever) m) ->
  m w = (w', r) -> unchanged allowed (w_tree w) (w_tree w').
Proof.
  intros Hm Hr. eapply (Hm (w_past w) (w_tree w)); [|exact Hr].
  apply moments_begin; [apply unchanged_start|apply script_anything].
Qed.

Lemma placed_run {E A} (m : IO E A) files w w' r :
  (forall base t0, keeps (moments base anything (unchanged nowhere t0) whatever) m) ->
  m w = (w', r) -> placed files (w_tree w) -> placed files (w_tree w').
Proof.
  intros Hm Hr. apply (placed_kept nowhere); [by intros p _ []|]. by eapply run_unchanged.
Qed.

Section Place.
Context `{TempNames}.

(** A replacement is never reported as preserved. *)
Lemma replace_body path contents temp w :
  (install_body path contents true temp w).2 <> Ok Preserved.
Proof.
  unfold install_body, mbind, io_bind.
  destruct (ctx _ (set_permissions _ _) w) as [w1 [[]|e]]; [|done].
  destruct (ctx _ (write_all _ _) w1) as [w2 [[]|e]]; [|done].
  destruct (ctx _ flush_file w2) as [w3 [[]|e]]; [|done]. unfold tree.
  destruct (ctx _ (persist_temp _ _) w3) as [w4 [[]|e]]; [|done]. by destruct (path_exists _ _).
Qed.

Lemma replace_file path contents w :
  (install_file path contents true w).2 <> Ok Preserved.
Proof.
  unfold install_file, mbind, io_bind, lift. destruct (opt_context _ _) as [parent|e]; [|done].
  destruct (ctx _ _ w) as [w1 [[]|e]]; [|done]. unfold tree. cbn [negb andb].
  unfold with_temp, mbind, io_bind, tree, try_io, lift.
  destruct (ctx _ _ w1) as [w2 [[]|e]]; [|done].
  match goal with |- context [install_body path contents true ?temp w2] =>
    pose proof (replace_body path contents temp w2) as Hb;
    destruct (install_body path contents true temp w2) as [w3 r3] end.
  destruct (w_tree w3 !! _); [|done]. by destruct (remove_file _ w3) as [w4 r4].
Qed.

Lemma install_placed files path contents w w' r :
  private_path path = false -> path ∉ files.*1 -> placed files (w_tree w) ->
  install_file path contents true w = (w', Ok r) ->
  placed ((path, contents) :: files) (w_tree w').
Proof.
  intros Hpriv Hnew Hp Hrun p c [[= -> ->]|Hin]%elem_of_cons.
  - pose proof (replace_file path contents w) as Hr. rewrite Hrun in Hr.
    assert (installed path contents (w_script w) (w_tree w) (w_past w) (Ok r) w') as Hi.
    { eapply install_file_installed; [done| |exact Hrun].
      apply moments_begin; [by left|apply script_races]. }
    destruct r; [apply Hi|done|apply Hi].
  - eapply (placed_kept (fun q => q = path) files); [|eapply run_unchanged; [|exact Hrun]|done|done].
    + by intros q Hq ->.
    + intros base t0. apply keeps_install_file. intros _ Ha. by destruct Ha.
Qed.

(** An installation followed by its report. *)
Lemma install_report_placed files path contents description w w' r :
  private_path path = false -> path ∉ files.*1 -> placed files (w_tree w) ->
  (i ← install_file path contents true; report description path i) w = (w', Ok r) ->
  placed ((path, contents) :: files) (w_tree w').
Proof.
  intros Hpriv Hnew Hp. unfold mbind, io_bind.
  destruct (install_file path contents true w) as [w1 [i|e]] eqn:Hi; [|done]. intros Hr.
  eapply placed_run; [|exact Hr|by eapply install_placed]. intros. apply keeps_report.
Qed.
End Place.

Lemma io_bind_ok {E A B} (m : IO E A) (f : A -> IO E B) w w' b :
  (m ≫= f) w = (w', Ok b) -> exists w1 a, m w = (w1, Ok a) /\ f a w1 = (w', Ok b).
Proof. unfold mbind, io_bind. destruct (m w) as [w1 [a|e]]; [eauto|done]. Qed.

Section Execute.
Context `{TempNames} (env : SetupEnv) (paths : InstallPaths).
Hypothesis (Hpublic : Forall (fun p => private_path p = false)
    [path_autostart paths; path_icon paths; path_launcher paths])
  (Hdistinct : NoDup [path_launcher paths; path_icon paths; path_autostart paths]).

Definition integration (autostart_entry launcher_entry : string) : list (string * string) :=
  [(path_launcher paths, launcher_entry); (path_icon paths, APPLICATION_ICON env);
   (path_autostart paths, autostart_entry)].

Lemma install_desktop_placed autostart_entry launcher_entry w w' :
  install_desktop env Complete true paths autostart_entry launcher_entry w = (w', Ok tt) ->
  placed (integration autostart_entry launcher_entry) (w_tree w').
Proof.
  rewrite !list.Forall_cons in Hpublic. destruct Hpublic as (H1 & H2 & H3 & _).
  rewrite !list.NoDup_cons in Hdistinct. destruct Hdistinct as (D1 & D2 & _).
  unfold install_desktop. cbn [when_ autostart_part launcher_part].
  intros (w1 & [] & Ha & Hr)%io_bind_ok. simpl in Ha, Hr.
  eapply (install_report_placed [] _ _ _ _ _ _ H1) in Ha; [|by apply not_elem_of_nil|
    by intros p c ?%not_elem_of_nil].
  apply io_bind_ok in Hr as (w2 & i & Hi & (w3 & [] & Hrep & Hl)%io_bind_ok).
  apply (install_placed [(path_autostart paths, autostart_entry)]) in Hi; [|done..].
  eapply placed_run in Hi; [|intros; apply keeps_report|exact Hrep].
  by apply (install_report_placed [(path_icon paths, APPLICATION_ICON env);
    (path_autostart paths, autostart_entry)]) in Hl.
Qed.

(** What a successful setup leaves, with a configuration that loads. *)
Lemma execute_with_placed config_filename executable backup_parent w w' d :
  execute_with env config_filename Complete true paths executable backup_parent w = (w', Ok d) ->
  exists config exe autostart_entry launcher_entry,
    absolute (env_current_dir env) config_filename = Ok config /\
    validate_executable_path env executable (env_temp_dir env) = Ok exe /\
    desktop_entry exe config true = Ok autostart_entry /\
    desktop_entry exe config false = Ok launcher_entry /\
    placed (integration autostart_entry launcher_entry) (w_tree w').
Proof.
  intros (w1 & [] & _ & Hr)%io_bind_ok. simpl in Hr. unfold execute_desktop in Hr.
  apply io_bind_ok in Hr as (w2 & config & Hc & Hr).
  apply io_bind_ok in Hr as (w3 & cfg & _ & Hr).
  apply io_bind_ok in Hr as (w4 & exe & He & Hr).
  apply io_bind_ok in Hr as (w5 & autostart_entry & Ha & Hr).
  apply io_bind_ok in Hr as (w6 & launcher_entry & Hl & Hr).
  apply io_bind_ok in Hr as (w7 & legacy & _ & Hr).
  apply io_bind_ok in Hr as (w8 & backup & _ & Hr).
  apply io_bind_ok in Hr as (w9 & [] & _ & Hr).
  apply io_bind_ok in Hr as (w10 & [] & Hi & Hr).
  apply install_desktop_placed in Hi.
  exists config, exe, autostart_entry, launcher_entry. unfold lift in Hc, He, Ha, Hl. simplify_eq.
  split; [by destruct (absolute _ _); simplify_eq/=|]. repeat (split; [done|]).
  eapply placed_run; [|exact Hr|exact Hi]. intros. unfold when_. io_keeps.
Qed.
End Execute.

(** ** The paths of the two programs *)

Lemma integration_paths env paths a b :
  (integration env paths a b).*1 = [path_launcher paths; path_icon paths; path_autostart paths].
Proof. reflexivity. Qed.

Ltac paths_differ :=
  let differ n := apply (path_join_ne n); [reflexivity..|discriminate] in
  first [differ 4 | differ 5 | differ 9 | differ 20].

Lemma montray_distinct config_home data_home :
  let paths := install_paths config_home data_home in
  NoDup [path_launcher paths; path_icon paths; path_autostart paths].
Proof.
  cbv zeta. cbn [path_launcher path_icon path_autostart install_paths].
  rewrite !list.NoDup_cons, !not_elem_of_cons. repeat split; try apply not_elem_of_nil;
    try apply base.NoDup_nil_2; paths_differ.
Qed.

Lemma montray_not_salmon config_home data_home p :
  let paths := install_paths config_home data_home in
  p ∈ [path_launcher paths; path_icon paths; path_autostart paths] ->
  p ∉ salmon_desktop (salmon_watch_paths config_home data_home).
Proof.
  cbv zeta. unfold salmon_desktop, salmon_watch_paths, install_paths. simpl.
  rewrite !elem_of_cons.
  intros [->|[->|[->|?%not_elem_of_nil]]]; [..|done];
    intros [Hs|[Hs|[Hs|[Hs|[Hs|[Hs|Hs%not_elem_of_nil]]]]]]; try done; revert Hs; paths_differ.
Qed.

Lemma montray_file_name config_home data_home p :
  let paths := install_paths config_home data_home in
  p ∈ [path_launcher paths; path_icon paths; path_autostart paths] ->
  file_name p = Some "montray-ui.desktop" \/ file_name p = Some "montray-ui.svg".
Proof.
  cbv zeta. rewrite !elem_of_cons. cbn [path_launcher path_icon path_autostart install_paths].
  intros [->|[->|[->|?%not_elem_of_nil]]]; [..|done].
  - destruct (path_join_ends data_home "applications/montray-ui.desktop" eq_refl) as [b ->]. left.
    change "applications/montray-ui.desktop" with ("applications" +:+ String "/" "montray-ui.desktop").
    rewrite <-append_assoc. by apply file_name_append.
  - destruct (path_join_ends data_home "icons/hicolor/scalable/apps/montray-ui.svg" eq_refl)
      as [b ->]. right.
    change "icons/hicolor/scalable/apps/montray-ui.svg"
      with ("icons/hicolor/scalable/apps" +:+ String "/" "montray-ui.svg").
    rewrite <-append_assoc. by apply file_name_append.
  - destruct (path_join_ends config_home "autostart/montray-ui.desktop" eq_refl) as [b ->]. left.
    change "autostart/montray-ui.desktop" with ("autostart" +:+ String "/" "montray-ui.desktop").
    rewrite <-append_assoc. by apply file_name_append.
Qed.

(** ** The configuration *)

Lemma io_context_ok {A} c (m : IO anyhow A) w w' a :
  Io.context c m w = (w', Ok a) -> m w = (w', Ok a).
Proof. unfold Io.context. destruct (m w) as [w1 [a1|e]]; by intros [= <- <-]. Qed.

Lemma io_ctx_ok {A} c (m : IO IoError A) w w' a : ctx c m w = (w', Ok a) -> m w = (w', Ok a).
Proof. unfold ctx. destruct (m w) as [w1 [a1|e]]; by intros [= <- <-]. Qed.

(** What a successful read saw is still there. *)
Lemma read_bytes_saw base allowed t0 path w w' text :
  moments base anything (unchanged allowed t0) whatever w ->
  read_bytes path w = (w', Ok text) ->
  moments base anything (unchanged allowed t0) whatever w' /\
  exists mode, read_node path (w_tree w') = Ok (text, mode).
Proof.
  intros Hw Hr.
  assert (moments base anything (unchanged allowed t0)
    (fun t => exists mode, read_node path t = Ok (text, mode)) w') as Hs.
  { refine (hoare_sys base anything (unchanged allowed t0) nothing_left _ whatever
      (fun text t => exists mode, read_node path t = Ok (text, mode)) _ _ _ w w' (Ok text) Hw Hr);
      [apply stable_unchanged|done|].
    intros t Hu _. simpl. split; [done|].
    destruct (read_node path t) as [[data mode]|e] eqn:Hn; simpl; [by exists mode|done]. }
  split; [by eapply moments_whatever|apply Hs].
Qed.

Lemma read_plain (t : Tree) path n data mode :
  t !! path = Some n -> (forall target, n <> NLink target) ->
  read_node path t = Ok (data, mode) -> n = NFile data mode.
Proof.
  intros Hn Hl. unfold read_node. rewrite resolve_not_link, Hn.
  - destruct n; by intros [= <- <-].
  - intros target Ht. rewrite Hn in Ht. injection Ht as ->. by destruct (Hl target).
Qed.

Section Configuration.
Context `{TempNames} (env : SetupEnv) (config_filename former : string)
  (script : list Outcome) (allowed : string -> Prop) (t0 : Tree).
Hypothesis (Hlinks : forall p target,
    copied_to config_filename p = true -> t0 !! p = Some (NLink target) -> allowed p)
  (Hnolink : forall target, t0 !! config_filename <> Some (NLink target))
  (Hpublic : private_path config_filename = false)
  (Hformer : forall data mode, t0 !! former = Some (NFile data mode) -> ~ allowed former).
Abbreviation calm base := (moments base anything (unchanged allowed t0) whatever).
Abbreviation waiting base :=
  (moments base (races_in script) (pending config_filename script t0) whatever).

(** The configuration is the one that was there, or one that another process created, or
    the former one with its directory replaced. *)
Definition provenance (n : Node) : Prop :=
  t0 !! config_filename = Some n \/
  (exists data mode, n = NFile data mode /\ Races config_filename data mode ∈ script) \/
  (t0 !! config_filename = None /\
   exists source from to, path_parent former = Some from /\ path_parent config_filename = Some to /\
     n = NFile (replace (to_string_lossy from) (to_string_lossy to) source) 420 /\
     forall data mode, t0 !! former = Some (NFile data mode) -> source = data).

Lemma provenance_not_link n target : provenance n -> n <> NLink target.
Proof.
  intros [Hn|[(d & m & -> & _)|(_ & s & f & d & _ & _ & -> & _)]]; try done.
  intros ->. by apply (Hnolink target).
Qed.

Definition sourced (t : Tree) : Prop :=
  exists n, t !! config_filename = Some n /\ provenance n.

Lemma sourced_kept allowed' t t' :
  ~ allowed' config_filename -> unchanged allowed' t t' -> sourced t -> sourced t'.
Proof. intros Ha Hu (n & Hn & Hp). exists n. split; [by apply Hu|done]. Qed.

Lemma pending_provenance t n :
  pending config_filename script t0 t -> t !! config_filename = Some n -> provenance n.
Proof.
  intros [He|(d & m & Hr & He)] Hn; rewrite He in Hn; [by left|].
  injection Hn as <-. right; left. by exists d, m.
Qed.

Lemma pending_missing t :
  pending config_filename script t0 t -> path_exists t config_filename = false ->
  t0 !! config_filename = None.
Proof.
  intros Hp. unfold path_exists. rewrite resolve_not_link.
  - intros He%bool_decide_eq_false%eq_None_not_Some.
    destruct Hp as [Hp|(d & m & _ & Hp)]; congruence.
  - intros target Ht. destruct Hp as [Hp|(d & m & _ & Hp)]; rewrite Hp in Ht; [|done].
    by apply (Hnolink target).
Qed.

Lemma pending_present t :
  pending config_filename script t0 t -> path_exists t config_filename = true -> sourced t.
Proof.
  intros Hp He%path_exists_present. destruct (t !! config_filename) as [n|] eqn:Hn; [|done].
  exists n. split; [done|]. by eapply pending_provenance.
Qed.

Lemma former_text w w1 data :
  calm (w_past w) w -> read_bytes former w = (w1, Ok data) ->
  forall d m, t0 !! former = Some (NFile d m) -> data = d.
Proof.
  intros Hw Hr d m Hd. destruct (read_bytes_saw _ _ _ _ _ _ _ Hw Hr) as ((Hu & _) & mode & Hs).
  assert (NFile d m = NFile data mode) as [= -> _]; [|done].
  eapply read_plain; [|by intros|exact Hs]. apply Hu; [done|]. by eapply Hformer.
Qed.

Lemma created_provenance source from to contents data w w1 w2 :
  t0 !! config_filename = None -> path_parent former = Some from ->
  path_parent config_filename = Some to ->
  (forall d m, t0 !! former = Some (NFile d m) -> data = d) ->
  contents = replace (to_string_lossy from) (to_string_lossy to) data ->
  waiting (w_past w) w -> install_file config_filename contents false w = (w1, Ok Created) ->
  migrate_siblings from to source config_filename w1 = (w2, Ok tt) -> sourced (w_tree w2).
Proof.
  intros H0 Hf Ht Hd -> Hw Hi Hs.
  pose proof (install_file_installed config_filename _ script t0 (w_past w) Hpublic _ _ _ _ Hw Hi)
    as (_ & Hplaced & _). simpl in Hplaced.
  exists (NFile (replace (to_string_lossy from) (to_string_lossy to) data) 420). split.
  - pose proof (siblings_copied (w_past w1)
      (fun p => exists target, w_tree w1 !! p = Some (NLink target)) (w_tree w1) config_filename
      (fun p target _ Hp => ex_intro _ target Hp) from to source w1 w2 Ht) as Hk.
    destruct Hk as (Hu & _); [|done|].
    { apply moments_begin; [apply unchanged_start|apply script_anything]. }
    apply Hu; [done|]. intros [target Hl]. congruence.
  - right; right. split; [done|]. by exists data, from, to.
Qed.
Lemma waiting_read base path : keeps (waiting base) (read_bytes path).
Proof. apply keeps_sys; [by apply stable_pending|done|done]. Qed.

(** After a successful migration of the configuration there is one. *)
Lemma migrate_config_sourced w w' :
  calm (w_past w) w -> waiting (w_past w) w ->
  migrate_salmon_config former config_filename w = (w', Ok tt) -> sourced (w_tree w').
Proof.
  intros Hc Hw. unfold migrate_salmon_config, mbind, io_bind, tree.
  destruct (path_exists (w_tree w) config_filename) eqn:He.
  { intros [= <-]. apply pending_present; [apply Hw|done]. }
  assert (t0 !! config_filename = None) as H0 by (eapply pending_missing; [apply Hw|done]).
  intros (w1 & data & Hr%io_ctx_ok & Hrun)%io_bind_ok.
  assert (waiting (w_past w) w1) as Hw1 by (eapply waiting_read; [exact Hw|exact Hr]).
  apply io_bind_ok in Hrun as (w2 & text & Htext & Hrun).
  apply io_bind_ok in Hrun as (w3 & from & Hfrom & Hrun).
  apply io_bind_ok in Hrun as (w4 & to & Hto & Hrun). unfold lift in Htext, Hfrom, Hto.
  injection Htext as <- Htext. injection Hfrom as <- Hfrom. injection Hto as <- Hto.
  assert (text = data) as -> by (unfold to_str in Htext; case_bool_decide; by simplify_eq/=).
  destruct (path_parent former) as [?|] eqn:Hfp; [injection Hfrom as ->|done].
  destruct (path_parent config_filename) as [?|] eqn:Hcp; [injection Hto as ->|done].
  cbv zeta in Hrun. apply io_bind_ok in Hrun as (w5 & i & Hi & Hrun).
  pose proof (former_text _ _ _ Hc Hr) as Hd.
  assert (waiting (w_past w1) w1) as Hw1'
    by (apply moments_begin; [apply Hw1|apply Hw1]).
  destruct i; [by eapply created_provenance| |done]. injection Hrun as <-.
  pose proof (install_file_installed config_filename _ script t0 (w_past w1) Hpublic _ _ _ _ Hw1' Hi)
    as (Hp & Hsome & _). simpl in Hsome.
  destruct (w_tree w5 !! config_filename) as [n|] eqn:Hn; [|done].
  exists n. split; [done|]. by eapply pending_provenance.
Qed.

(** A valid configuration at the path. *)
Definition configured (t : Tree) : Prop :=
  exists text mode cfg, t !! config_filename = Some (NFile text mode) /\
    env_from_slice env text = Ok cfg /\ validate (env_debug_str env) cfg = Ok tt /\
    provenance (NFile text mode).

Lemma configured_kept allowed' t t' :
  ~ allowed' config_filename -> unchanged allowed' t t' -> configured t -> configured t'.
Proof.
  intros Ha Hu (text & mode & cfg & Hn & Hc). exists text, mode, cfg. split; [by apply Hu|done].
Qed.

Lemma load_config_configured w w' cfg :
  sourced (w_tree w) -> load_config env config_filename w = (w', Ok cfg) -> configured (w_tree w').
Proof.
  intros Hs (w1 & data & Hr%io_ctx_ok & Hl)%io_bind_ok. unfold lift in Hl. injection Hl as <- Hl.
  assert (moments (w_past w) anything (unchanged nowhere (w_tree w)) whatever w) as Hw
    by (apply moments_begin; [apply unchanged_start|apply script_anything]).
  destruct (read_bytes_saw _ _ _ _ _ _ _ Hw Hr) as ((Hu & _) & mode & Hn).
  destruct (sourced_kept nowhere (w_tree w) (w_tree w1)) as (n & Hcfg & Hp); [by intros []|done..|].
  assert (n = NFile data mode) as ->.
  { eapply read_plain; [done| |done]. intros target. by apply provenance_not_link. }
  exists data, mode, cfg. split; [done|]. unfold Config.load, with_context in Hl. simpl in Hl.
  destruct (env_from_slice env data) as [c|e] eqn:Hparse; simpl in Hl; [|done].
  destruct (validate (env_debug_str env) c) as [[]|e] eqn:Hv; simpl in Hl; [|done].
  injection Hl as ->. done.
Qed.
End Configuration.

(** ** The two phases *)

Section Phases.
Context `{TempNames} `{StateImport} (env : SetupEnv) (config_filename : string)
  (context : MigrationContext) (script : list Outcome) (t0 : Tree).
Abbreviation salmon := (ctx_salmon context).
Abbreviation montray := (ctx_montray context).
Abbreviation montray_files := [path_launcher montray; path_icon montray; path_autostart montray].
Hypothesis (Hpublic : Forall (fun p => private_path p = false)
    [path_autostart montray; path_icon montray; path_launcher montray])
  (Hdistinct : NoDup montray_files)
  (Hnolink : forall target, t0 !! config_filename <> Some (NLink target))
  (Hconfig : private_path config_filename = false)
  (Hother : config_filename ∉ montray_files)
  (Hformer : salmon_config salmon ∉ montray_files).

(** Before the removal only the new files, and links where the copies go, change. *)
Definition installing (p : string) : Prop :=
  (copied_to config_filename p = true /\ exists target, t0 !! p = Some (NLink target)) \/
  p ∈ montray_files.
Abbreviation first := (moments [] anything (unchanged installing t0) whatever).
Abbreviation waiting := (moments [] (races_in script) (pending config_filename script t0) whatever).
Abbreviation ready := (configured env config_filename (salmon_config salmon) script t0).

Definition in_place (t : Tree) : Prop :=
  exists config exe autostart_entry launcher_entry,
    absolute (env_current_dir env) config_filename = Ok config /\
    validate_executable_path env (ctx_executable context) (env_temp_dir env) = Ok exe /\
    desktop_entry exe config true = Ok autostart_entry /\
    desktop_entry exe config false = Ok launcher_entry /\
    placed (integration env montray autostart_entry launcher_entry) t.

(** The removal starts with the new files and the configuration in place, and leaves
    them alone. *)
Definition removal (w : World) : Prop :=
  exists w1 former, first w1 /\ in_place (w_tree w1) /\ ready (w_tree w1) /\
    Forall (fun p => exists contents, salmon_executable contents = Some p) former /\
    moments (w_past w1) anything
      (unchanged (removes (fun p => p ∈ salmon_desktop salmon) context former) (w_tree w1))
      whatever w.
Definition ended (w : World) : Prop := first w \/ removal w.

(** A step of the first phase, with what its success adds. *)
Lemma first_step {A} (m : IO anyhow A) (f : A -> IO anyhow unit) (C D : World -> Prop) :
  keeps first m -> (forall w w' a, first w -> C w -> m w = (w', Ok a) -> D w') ->
  (forall a, hoare (fun w => first w /\ D w) (f a) (fun _ => ended)) ->
  hoare (fun w => first w /\ C w) (m ≫= f) (fun _ => ended).
Proof.
  intros Hm Hd Hf w w' r [Hw Hc]. unfold mbind, io_bind.
  destruct (m w) as [w1 [a|e]] eqn:H1; intros Hr.
  - eapply (Hf a); [|exact Hr]. split; [by eapply Hm|by eapply Hd].
  - injection Hr as <- <-. left. by eapply Hm.
Qed.

Lemma first_only {A} (m : IO anyhow A) (C : World -> Prop) :
  keeps first m -> hoare (fun w => first w /\ C w) m (fun _ => ended).
Proof. intros Hm w w' r [Hw _] Hr. left. by eapply Hm. Qed.

(** The migration of the configuration, up to its validation. *)
Lemma sourced_step w w' :
  first w -> waiting w ->
  migrate_salmon_config (salmon_config salmon) config_filename w = (w', Ok tt) ->
  sourced config_filename (salmon_config salmon) script t0 (w_tree w').
Proof.
  intros (Hu & _) (Hp & _ & _ & Hs). apply (migrate_config_sourced _ _ _ installing); try done.
  - intros data mode Hf [[_ [target Hl]]|Hin]; [congruence|done].
  - apply moments_begin; [done|apply script_anything].
  - by apply moments_begin.
Qed.

Lemma ready_run {A} (m : IO anyhow A) allowed w w' r :
  (forall base t0, keeps (moments base anything (unchanged allowed t0) whatever) m) ->
  ~ allowed config_filename -> ready (w_tree w) -> m w = (w', r) -> ready (w_tree w').
Proof.
  intros Hm Ha Hr Hrun. eapply configured_kept; [exact Ha| |exact Hr]. by eapply run_unchanged.
Qed.

(** What is left once the configuration is valid. *)
Lemma install_then_remove :
  hoare (fun w => first w /\ ready (w_tree w))
    (_ ← execute_with env config_filename Complete true montray (ctx_executable context)
           (ctx_backup_parent context);
     remove_former context) (fun _ => ended).
Proof.
  assert (forall base t, keeps (moments base anything (unchanged (fun p => p ∈ montray_files) t)
    whatever) (execute_with env config_filename Complete true montray (ctx_executable context)
      (ctx_backup_parent context))) as Hexec.
  { intros base t. apply keeps_execute_with. intros p (_ & [[_ ->]|[_ [->| ->]]]); set_solver. }
  apply (first_step _ _ _ (fun w => in_place (w_tree w) /\ ready (w_tree w))).
  - apply keeps_execute_with. intros p (_ & [[_ ->]|[_ [->| ->]]]); right; set_solver.
  - intros w w1 d _ Hr He. split; [by eapply execute_with_placed|].
    exact (ready_run _ _ _ _ _ Hexec Hother Hr He).
  - intros _ w1 w' r (Hw1 & Hplace & Hr) Hrun. right.
    destruct (remove_former_spec (w_past w1) (fun p => p ∈ salmon_desktop salmon) (w_tree w1)
      context (fun p Hp => Hp) w1 w' r) as (former & Hf & Hm); [|exact Hrun|].
    { apply moments_begin; [apply unchanged_start|apply script_anything]. }
    exists w1, former. split; [done|]. split; [done|]. split; [done|]. split; [|done].
    eapply list.Forall_impl; [exact Hf|]. intros p (entry & t1 & data & mode & _ & _ & _ & Hs). eauto.
Qed.

Lemma waiting_existing paths : keeps waiting (existing_paths paths).
Proof.
  assert (forall path, keeps waiting (symlink_metadata path)) as Hm.
  { intros path. apply keeps_sys; [by apply stable_pending|done|].
    intros t Hp _. by destruct (t !! path). }
  induction paths as [|path paths IH]; simpl; [apply keeps_ret|]. unfold lexists. io_keeps.
Qed.

Lemma two_phases dry_run :
  hoare (fun w => first w /\ waiting w)
    (migrate_from_salmon_with env config_filename dry_run context) (fun _ => ended).
Proof.
  unfold migrate_from_salmon_with. cbv zeta.
  apply (first_step _ _ _ waiting); [apply keeps_existing_paths| |intros existing].
  { intros w w' a _ Hw Hr. by eapply waiting_existing. }
  apply hoare_tree_bind. intros t.
  eapply (hoare_weaken (fun w => first w /\ waiting w)); [|by intros w [Hw _]|exact (fun r w Hw => Hw)].
  destruct (bool_decide (existing = [])).
  { apply first_only. destruct (path_exists t config_filename);
      [apply keeps_println_unchanged|apply keeps_throw]. }
  destruct (_ && _); [apply first_only, keeps_println_unchanged|].
  destruct dry_run; [apply first_only; unfold dry_run_report; io_keeps|].
  apply (first_step _ _ _ (fun w => sourced config_filename (salmon_config salmon) script t0
    (w_tree w))); [| |intros []].
  { apply keeps_migrate_config. intros p target Hc Hp. left. by eauto. }
  { intros w w' []. apply sourced_step. }
  apply (first_step _ _ _ (fun w => ready (w_tree w))); [| |intros _].
  { apply (keeps_context first), keeps_load_config. }
  { intros w w' cfg _ Hs Hl%io_context_ok. by eapply load_config_configured. }
  apply (first_step _ _ _ (fun w => ready (w_tree w))); [apply migrate_state_keeps| |intros _].
  { intros w w' d _ Hr Hm. refine (ready_run _ nowhere _ _ _ _ _ Hr Hm); [|by intros []].
    intros base t1. apply migrate_state_keeps. }
  apply install_then_remove.
Qed.
End Phases.

(** A moment of the whole run belongs to one of its two parts. *)
Lemma removal_moment (P1 P2 : Tree -> Prop) ok w1 w' t :
  moments [] ok P1 whatever w1 -> moments (w_past w1) ok P2 whatever w' -> moment w' t ->
  P1 t \/ P2 t.
Proof.
  intros (_ & _ & (l1 & Hl1 & Ha1) & _) (Hn & _ & (l2 & Hl2 & Ha2) & _) [->|Ht]; [by right|].
  rewrite list.Forall_forall in Ha1, Ha2.
  rewrite Hl2, Hl1, app_nil_r in Ht. apply elem_of_app in Ht as [Ht|Ht]; auto.
Qed.

(** The removal is not about the new files. *)
Lemma not_removed config_home data_home context former p :
  let paths := install_paths config_home data_home in
  ctx_salmon context = salmon_watch_paths config_home data_home ->
  Forall (fun q => exists contents, salmon_executable contents = Some q) former ->
  p ∈ [path_launcher paths; path_icon paths; path_autostart paths] ->
  ~ removes (fun q => q ∈ salmon_desktop (ctx_salmon context)) context former p.
Proof.
  intros paths Hs Hf Hp [Hd|[Hin _]].
  - rewrite Hs in Hd. by apply (montray_not_salmon config_home data_home p Hp).
  - rewrite list.Forall_forall in Hf. destruct (Hf p Hin) as [contents He].
    apply salmon_executable_name in He. apply montray_file_name in Hp. naive_solver.
Qed.

Lemma salmon_config_not_new config_home data_home :
  let paths := install_paths config_home data_home in
  salmon_config (salmon_watch_paths config_home data_home) ∉
    [path_launcher paths; path_icon paths; path_autostart paths].
Proof.
  cbv zeta. intros Hin%montray_file_name. revert Hin. cbn [salmon_config salmon_watch_paths].
  destruct (path_join_ends config_home "salmon-watch/salmon-watch.yml" eq_refl) as [b ->].
  change "salmon-watch/salmon-watch.yml" with ("salmon-watch" +:+ String "/" "salmon-watch.yml").
  rewrite <-append_assoc, file_name_append by done. naive_solver.
Qed.

(** The configuration is not removed either. *)
Lemma config_not_removed config_home data_home context former p :
  ctx_salmon context = salmon_watch_paths config_home data_home ->
  Forall (fun q => exists contents, salmon_executable contents = Some q) former ->
  p ∉ salmon_desktop (salmon_watch_paths config_home data_home) ->
  file_name p ∉ [Some "salmon-watch"; Some "salmon-watch-legacy"] ->
  ~ removes (fun q => q ∈ salmon_desktop (ctx_salmon context)) context former p.
Proof.
  intros Hs Hf Hd Hn [Hin|[Hin _]]; [by rewrite Hs in Hin|].
  rewrite list.Forall_forall in Hf. destruct (Hf p Hin) as [contents He].
  apply salmon_executable_name in He. apply Hn. rewrite !elem_of_cons. naive_solver.
Qed.

(** C32: Nothing of the former installation goes before the new one is complete. Assume
    that the new configuration is named neither like a temporary file nor like a desktop
    file of the two programs nor like an executable of the former one, and is not a
    symbolic link. At every moment of the migration, whatever calls fail and whatever
    other processes create: if anything that was there at the start is missing or changed
    (a former desktop file, a former executable, or any other file or directory), other
    than the three new desktop files themselves and symbolic links where copies go, then
    the new autostart entry, launcher and icon are all in place, complete, for the running
    executable and the new configuration; and the new configuration is there, it parses
    and it is valid: it is the file that was there, or one that another process created,
    or the former configuration with its directory replaced by the new one. *)
Theorem migration_order `{TempNames} `{StateImport} (env : SetupEnv) (config_filename : string)
    (dry_run : bool) (config_home data_home : string) (w w' : World) (r : Result unit) (t : Tree)
    (p : string) (n : Node) :
  w_past w = [] -> env_config_dir env = Some config_home -> env_data_dir env = Some data_home ->
  let montray := install_paths config_home data_home in
  let salmon := salmon_watch_paths config_home data_home in
  let new := [path_launcher montray; path_icon montray; path_autostart montray] in
  Forall (fun q => private_path q = false) (config_filename :: new) ->
  config_filename ∉ new ++ salmon_desktop salmon ->
  file_name config_filename ∉ [Some "salmon-watch"; Some "salmon-watch-legacy"] ->
  (forall target, w_tree w !! config_filename <> Some (NLink target)) ->
  migrate_from_salmon env config_filename dry_run w = (w', r) -> moment w' t ->
  w_tree w !! p = Some n -> p ∉ new ->
  (forall target, copied_to config_filename p = true -> n <> NLink target) ->
  t !! p <> Some n ->
  exists executable config exe autostart_entry launcher_entry text mode cfg,
    executable_path env = Ok executable /\
    absolute (env_current_dir env) config_filename = Ok config /\
    validate_executable_path env executable (env_temp_dir env) = Ok exe /\
    desktop_entry exe config true = Ok autostart_entry /\
    desktop_entry exe config false = Ok launcher_entry /\
    t !! path_autostart montray = Some (NFile autostart_entry 420) /\
    t !! path_launcher montray = Some (NFile launcher_entry 420) /\
    t !! path_icon montray = Some (NFile (APPLICATION_ICON env) 420) /\
    t !! config_filename = Some (NFile text mode) /\
    env_from_slice env text = Ok cfg /\ validate (env_debug_str env) cfg = Ok tt /\
    provenance config_filename (salmon_config salmon) (w_script w) (w_tree w) (NFile text mode).
Proof.
  intros Hpast Hc Hd montray salmon new Hpublic Hother Hname Hnolink Hrun Ht Hfile Hnew Hlink Hchanged.
  apply not_elem_of_app in Hother as [Hother Hdesk].
  apply list.Forall_cons in Hpublic as [Hcpub Hpublic].
  assert (Forall (fun q => private_path q = false)
    [path_autostart montray; path_icon montray; path_launcher montray]) as Hpublic'
    by (unfold new in Hpublic; rewrite !list.Forall_cons in Hpublic |- *; naive_solver).
  assert (forall executable t1, unchanged (installing config_filename
    {| ctx_salmon := salmon; ctx_montray := montray; ctx_executable := executable;
       ctx_backup_parent := env_temp_dir env |} (w_tree w)) (w_tree w) t1 -> t1 !! p = Some n) as Hkeep.
  { intros executable t1 Hu. apply Hu; [done|]. intros [[Hto [target Hl]]|Hm]; [|done].
    apply (Hlink target Hto). congruence. }
  assert (forall executable, moments [] anything (unchanged (installing config_filename
    {| ctx_salmon := salmon; ctx_montray := montray; ctx_executable := executable;
       ctx_backup_parent := env_temp_dir env |} (w_tree w)) (w_tree w)) whatever w) as Hw
    by (intros; rewrite <-Hpast; apply moments_begin; [apply unchanged_start|apply script_anything]).
  assert (w' = w -> False) as Hsame
    by (intros ->; apply Hchanged, (Hkeep ""), (moments_at _ _ _ _ _ (Hw "") Ht)).
  revert Hrun. unfold migrate_from_salmon, mbind, io_bind, lift. rewrite Hc, Hd. cbn [opt_context].
  destruct (validate_platform env) as [[]|e]; [|intros [= <- _]; by destruct Hsame].
  destruct (executable_path env) as [executable|e]; [|intros [= <- _]; by destruct Hsame].
  intros Hrun. apply (two_phases env config_filename _ (w_script w) (w_tree w)) in Hrun; try done;
    [|apply montray_distinct|apply salmon_config_not_new
     |split; [apply Hw|rewrite <-Hpast; apply moments_begin; [by left|apply script_races]]].
  destruct Hrun as [Hk|(w1 & former & Hw1 & Hplace & Hready & Hnames & Hm)].
  { destruct Hchanged. eapply Hkeep, (moments_at _ _ _ _ _ Hk Ht). }
  destruct (removal_moment _ _ _ _ _ _ Hw1 Hm Ht) as [Hu|Hu]; [by destruct Hchanged; eapply Hkeep|].
  destruct Hplace as (config & exe & autostart_entry & launcher_entry & H1 & H2 & H3 & H4 & H5).
  assert (placed (integration env montray autostart_entry launcher_entry) t) as Hplaced.
  { eapply placed_kept; [|exact Hu|exact H5]. intros q Hq. by eapply not_removed. }
  assert (configured env config_filename (salmon_config salmon) (w_script w) (w_tree w) t)
    as (text & mode & cfg & Hcfg).
  { eapply configured_kept; [|exact Hu|exact Hready]. by eapply config_not_removed. }
  exists executable, config, exe, autostart_entry, launcher_entry, text, mode, cfg.
  repeat (split; [done|]).
  split; [|split; [|split; [|exact Hcfg]]]; apply Hplaced; set_solver.
Qed.

Lemma migration_order_witness :
  let '(w', r) := @migrate_from_salmon long_names demo_import demo_env "/c/montray/m.yml" false
                    former_installation in
  w_tree w' !! "/b/salmon-watch" = None /\
  (exists entry, desktop_entry "/b/montray-ui" "/c/montray/m.yml" false = Ok entry /\
    w_tree w' !! "/d/applications/montray-ui.desktop" = Some (NFile entry 420)) /\
  w_tree w' !! "/c/montray/m.yml" = Some (NFile "token: /c/montray/a" 420).
Proof.
  destruct (migrate_from_salmon _ _ _ _) as [w' r] eqn:Hrun.
  assert (w_tree w' !! "/b/salmon-watch" = None) as Hgone.
  { apply (f_equal (fun x => w_tree x.1 !! "/b/salmon-watch")) in Hrun.
    vm_compute in Hrun. by symmetry. }
  split; [exact Hgone|].
  destruct (@migration_order long_names demo_import demo_env "/c/montray/m.yml" false "/c" "/d"
    former_installation w' r (w_tree w') "/b/salmon-watch" (NFile "elf" 493))
    as (executable & config & exe & a & l & text & mode & cfg & H1 & H2 & H3 & _ & H5 & _ & H7 & _
        & Hc & _ & _ & Hp);
    [reflexivity|reflexivity|reflexivity|by repeat constructor
    |apply (bool_decide_unpack (_ ∉ _)); by vm_compute
    |apply (bool_decide_unpack (_ ∉ _)); by vm_compute|by intros|exact Hrun|by left|reflexivity
    |apply (bool_decide_unpack (_ ∉ _)); by vm_compute|by intros|by rewrite Hgone|].
  vm_compute in H1. injection H1 as <-. vm_compute in H2. injection H2 as <-.
  vm_compute in H3. injection H3 as <-. split; [exists l; split; [exact H5|exact H7]|].
  unfold provenance in Hp. change (w_script former_installation) with (@nil Outcome) in Hp.
  destruct Hp as [Hp|[(d & m & _ & Hp)|(_ & source & from & to & Hf & Ht & Hn & Hs)]].
  - vm_compute in Hp. discriminate Hp.
  - destruct (not_elem_of_nil _ Hp).
  - rewrite Hc, Hn. rewrite (Hs "token: /c/salmon-watch/a" 420%N) by (vm_compute; reflexivity).
    vm_compute in Hf, Ht. injection Hf as <-. injection Ht as <-. vm_compute. reflexivity.
Defined.
