(* ===== verification/BearerToken.v ===== *)
(** * Bearer token files

    [src/cmd/montray-ui/src/bearer_token.rs]: the generation of a credential, and its
    return through [load_bearer_token] of the network client. Randomness, base64, the
    digest and JSON quoting are libraries. *)

From Stdlib Require Import ZArith Lia Ascii.
From stdpp Require Import base gmap strings list option.
From S2P Require Import Prelude RustStr Output RustPath Config Client Io Atomic Setup Reinstall.

Record TokenEnv := {
  tok_current_dir : Result string;
  tok_debug_str : string -> string;      (* {:?} of a string *)
  tok_random : option string;            (* the bytes of SystemRandom::fill *)
  tok_encode : string -> string;         (* URL_SAFE_NO_PAD.encode *)
  tok_sha256 : string -> string;         (* the bytes of the digest *)
  tok_json : string -> Result string;    (* serde_json::to_string *)
}.

Definition hex_digit (n : N) : ascii := ascii_of_N (if n <? 10 then 48 + n else 87 + n)%N.
(** [{byte:02x}] *)
Definition hex_byte (c : ascii) : string :=
  String (hex_digit (N_of_ascii c / 16)) (String (hex_digit (N_of_ascii c mod 16)) "").
Definition hex (s : string) : string := concat_chars (hex_byte <$> as_bytes s).

Definition token_dir_mode : N := 448.  (* 0o700 *)
Definition token_mode : N := 384.      (* 0o600 *)

(** A failed write or flush: the file is closed and removed. *)
Definition discard (filename : string) (r : result IoError unit) : IO anyhow unit :=
  match r with
  | Ok _ => mret tt
  | Err e =>
      _ ← try_io (remove_file filename);
      throw ["write bearer token file"; io_text e]
  end.

Definition write_new_token_file (filename token : string) : IO anyhow unit :=
  parent ← lift (opt_context "bearer token filename has no parent directory"
                   (path_parent filename));
  _ ← ctx "create bearer token directory" (create_dir_all token_dir_mode parent);
  file ← try_io (create_new token_mode filename);
  match file with
  | Err e =>
      if bool_decide (io_kind e = AlreadyExists)
      then throw ["bearer token file already exists at " +:+ to_string_lossy filename +:+
                  "; refusing to overwrite it"]
      else throw ["create bearer token file"; io_text e]
  | Ok _ =>
      r ← try_io (write_all filename token);
      _ ← discard filename r;
      r ← try_io flush_file;
      discard filename r
  end.

Definition instructions (output_filename config_filename server_id quoted_token_filename hash_hex
    : string) : string :=
  join newline
    ["Created bearer token file:"; ""; "    " +:+ output_filename; "";
     "In " +:+ config_filename +:+ ", find:"; "";
     "wsClient:"; "  servers:"; "    - id: " +:+ server_id; "";
     "And add this block inside that server entry, alongside id and addr:"; "";
     "      auth:"; "        bearerTokenFile: " +:+ quoted_token_filename; "";
     "In the corresponding Montray Server configuration, find:"; "";
     "core:"; "  messengers:"; "    - webserver:"; "";
     "And add this block inside the webserver messenger, alongside listenAddress:"; "";
     "        auth:";
     "          - id: my-laptop # Identifies this credential; adjust as needed.";
     "            bearerTokenHash: " +:+ of_byte 34 +:+ "sha256:" +:+ hash_hex +:+ of_byte 34; "";
     "If auth already exists in the webserver messenger, add only the new list entry to it."].

Section Generate.
Context (env : TokenEnv).

(** Where the token goes. *)
Definition token_filename (config_filename server_id : string) (output_filename : option string)
    : Result string :=
  output_filename ←
    (match output_filename with
     | Some path => Ok path
     | None =>
         parent ← opt_context "Montray UI config filename has no parent directory"
                    (path_parent config_filename);
         Ok (path_join (path_join parent "tokens") (server_id +:+ ".token"))
     end);
  with_context "resolve bearer token path" (absolute (tok_current_dir env) output_filename).

Definition generate (config_filename server_id : string) (output_filename : option string)
    : IO anyhow string :=
  _ ← lift (with_context "invalid server ID" (validate_server_id (tok_debug_str env) server_id));
  config_filename ← lift (with_context "resolve Montray UI config path"
                            (absolute (tok_current_dir env) config_filename));
  output_filename ← lift (token_filename config_filename server_id output_filename);
  token_bytes ← lift (opt_context "generate bearer token: operating system randomness failed"
                        (tok_random env));
  let token := tok_encode env token_bytes in
  _ ← write_new_token_file output_filename token;
  let hash_hex := hex (tok_sha256 env token) in
  quoted_token_filename ← lift (tok_json env (to_string_lossy output_filename));
  _ ← println (instructions (to_string_lossy output_filename) (to_string_lossy config_filename)
                 server_id quoted_token_filename hash_hex);
  mret output_filename.
End Generate.

(** ** The file *)

Section Token.
Context (filename token : string) (script : list Outcome) (t0 : Tree) (base : list Tree) (k : nat).

Abbreviation pending := (pending filename script t0).
(** Or it is the new file, perhaps a partial one, which only the owner may read. *)
Definition guarded (t : Tree) : Prop :=
  pending t \/ (t0 !! filename = None /\ exists data, t !! filename = Some (NFile data token_mode)).

Abbreviation before Q := (moments base (races_in script) pending Q).
Abbreviation later Q := (moments base (races_in script) guarded Q).
Abbreviation holds data :=
  (fun t => t0 !! filename = None /\ t !! filename = Some (NFile data token_mode)).

Lemma guarded_race p d m t : races_in script p d m -> guarded t -> guarded (race p d m t).
Proof.
  intros Hr [Hp|(H0 & data & Ht)]; [left; by apply pending_race|].
  right. split; [done|]. exists data. rewrite race_present; [done|]. by rewrite Ht.
Qed.

Lemma stable_holds data : stable (races_in script) guarded (holds data).
Proof.
  intros p d m t Hr Hg [H0 Ht]. split; [by apply guarded_race|]. split; [done|].
  rewrite race_present; [done|]. by rewrite Ht.
Qed.

Lemma create_spec :
  hoare (before whatever) (create_new token_mode filename)
    (fun r => if is_ok r then later (holds "") else before whatever).
Proof.
  eapply hoare_weaken; [apply (hoare_sys_turn base (races_in script) pending _ _ whatever guarded
    (fun r => if is_ok r then holds "" else whatever))|done|].
  - by apply stable_pending.
  - by left.
  - done.
  - done.
  - intros t Hp _. destruct (t !! filename) eqn:Ht; simpl; [done|].
    assert (t0 !! filename = None).
    { destruct Hp as [Hp|(d & m & _ & Hp)]; congruence. }
    rewrite lookup_insert_eq. split; [|done]. right. split; [done|].
    exists "". by rewrite lookup_insert_eq.
  - by intros [[]|e] w Hw.
Qed.

Lemma append_guarded data more t :
  holds data t -> guarded (append_data filename more t) /\
    holds (data +:+ more) (append_data filename more t).
Proof.
  intros [H0 Ht]. unfold append_data. rewrite lookup_alter_eq, Ht. simpl.
  split; [|done]. right. split; [done|]. exists (data +:+ more). by rewrite lookup_alter_eq, Ht.
Qed.

Lemma write_spec data :
  hoare (later (holds data)) (write_all filename token)
    (fun r => later (if is_ok r then holds (data +:+ token) else whatever)).
Proof.
  eapply hoare_weaken; [apply (hoare_sys base (races_in script) guarded _ _ (holds data)
    (fun _ => holds (data +:+ token)))|done|by intros [[]|e] w Hw].
  - apply stable_holds.
  - intros more t _ Hh. by apply (append_guarded data).
  - intros t _ Hh. by apply append_guarded.
Qed.

Lemma flush_spec data :
  hoare (later (holds data)) flush_file
    (fun r => later (if is_ok r then holds data else whatever)).
Proof.
  eapply hoare_weaken; [apply (hoare_sys base (races_in script) guarded _ _ (holds data)
    (fun _ => holds data))|done|by intros [[]|e] w Hw].
  - apply stable_holds.
  - done.
  - done.
Qed.

(** What is left after an attempt to remove the file. *)
Lemma remove_spec w w' r :
  t0 !! filename = None -> later whatever w -> remove_file filename w = (w', r) ->
  later whatever w' /\ (pending (w_tree w') \/ failures w' < failures w).
Proof.
  intros H0 Hw Hr. assert (forall t, t !! filename = None -> pending t) as Hnone
    by (intros t Ht; left; congruence). split.
  - refine (keeps_sys base (races_in script) guarded whatever _ _ _ _ _ _ _ _ Hw Hr); [|done|].
    + intros p d m t Hp Hg _. split; [by apply guarded_race|done].
    + intros t Hg _. destruct (t !! filename) as [[]|] eqn:Ht; simpl; try done;
        (split; [left; apply Hnone, lookup_delete_eq|done]).
  - revert Hr. unfold remove_file. match goal with |- sys _ ?f _ = _ -> _ => set (op := f) end.
    assert (forall t, guarded t -> pending (op t).1) as Hop.
    { intros t Hg. unfold op. destruct (t !! filename) as [[]|] eqn:Ht; simpl; auto;
        try (apply Hnone, lookup_delete_eq).
      destruct Hg as [[Hg|(d & m & _ & Hg)]|(_ & data & Hg)]; congruence. }
    destruct Hw as (Hg & _ & _ & Hok). unfold sys, failures.
    destruct (w_script w) as [|[| |p d m] rest]; try apply list.Forall_cons in Hok as [Hr _].
    + specialize (Hop _ Hg). destruct (op _) as [t' r']; intros [= <- _]. by left.
    + specialize (Hop _ Hg). destruct (op _) as [t' r']; intros [= <- _]. by left.
    + intros [= <- _]. right. simpl. lia.
    + specialize (Hop _ (guarded_race _ _ _ _ Hr Hg)). cbn [pass w_tree].
      destruct (op _) as [t' r']; intros [= <- _]. by left.
Qed.

(** How the generation of the file ends. *)
Definition token_written (k : nat) (r : Result unit) (w : World) : Prop :=
  match r with
  | Ok _ => later (holds token) w
  | Err _ => later whatever w /\ (pending (w_tree w) \/ failures w + 2 <= k)
  end.

Lemma before_written e w : before whatever w -> token_written k (Err e) w.
Proof.
  intros Hw. split; [|left; apply Hw]. eapply moments_mono; [|done|exact Hw]. by left.
Qed.

Lemma discard_spec e w w' r :
  t0 !! filename = None -> later whatever w -> failures w + 1 <= k ->
  discard filename (Err e) w = (w', r) -> exists e', r = Err e' /\ token_written k r w'.
Proof.
  intros H0 Hw Hk. unfold discard, mbind, io_bind, try_io, throw.
  destruct (remove_file filename w) as [w1 r1] eqn:Hr. intros [= <- <-].
  destruct (remove_spec w w1 r1 H0 Hw Hr) as [Hw1 Hp]. eexists. split; [done|].
  split; [done|]. destruct Hp; [by left|right; lia].
Qed.

Lemma write_new_spec :
  hoare (fun w => before whatever w /\ failures w <= k) (write_new_token_file filename token)
    (token_written k).
Proof.
  unfold write_new_token_file.
  apply hoare_lift; [|intros e w _ [Hw _]; by apply before_written].
  intros parent Hparent. unfold opt_context in Hparent.
  destruct (path_parent filename) as [dir|] eqn:Hdir; simplify_eq/=.
  apply path_parent_shorter in Hdir.
  eapply (hoare_bind _ _ _ (fun _ w => before whatever w /\ failures w <= k)).
  { apply hoare_and.
    - by apply (keeps_ctx (before whatever)), before_create_dir_all.
    - apply (keeps_ctx (fun w => failures w <= k)). unfold create_dir_all.
      pose proof (fun d => keeps_failures_sys nothing_left _ k : keeps _ (mkdir token_dir_mode d)).
      io_keeps. }
  2: { intros e w [Hw _]. by apply before_written. }
  intros [] w w' r [Hw Hk]. unfold mbind, io_bind, try_io.
  destruct (create_new token_mode filename w) as [w1 r1] eqn:H1.
  pose proof (create_spec _ _ _ Hw H1) as Hw1. apply sys_failures in H1.
  destruct r1 as [[]|e]; simpl in Hw1;
    [|destruct (bool_decide _); intros [= <- <-]; by apply before_written].
  assert (t0 !! filename = None) as H0 by apply Hw1.
  destruct (write_all filename token w1) as [w2 r2] eqn:H2.
  pose proof (write_spec "" _ _ _ Hw1 H2) as Hw2. destruct r2 as [[]|e]; simpl in Hw2.
  - apply sys_failures in H2. cbn [discard]. unfold mret, io_ret.
    destruct (flush_file w2) as [w3 r3] eqn:H3. pose proof (flush_spec _ _ _ _ Hw2 H3) as Hw3.
    destruct r3 as [[]|e]; simpl in Hw3; [by intros [= <- <-]|].
    apply sys_error in H3 as [H3|[H3|(p & d & m & H3)]]; [|done..].
    intros Hr. apply discard_spec in Hr as (e' & -> & Hr); [done|done|done|lia].
  - apply sys_error in H2 as [H2|[H2|(p & d & m & H2)]]; [|done..].
    destruct (discard filename (Err e) w2) as [w3 r3] eqn:H3.
    apply discard_spec in H3 as (e' & -> & H3); [|done|done|lia]. by intros [= <- <-].
Qed.
End Token.

(** Nothing that was there changes: the file is written only if it was created. *)
Section Unharmed.
Context (base : list Tree) (t0 : Tree) (filename token : string).
Abbreviation inv := (moments base anything (unchanged nowhere t0) whatever).

Lemma created_new :
  hoare inv (create_new token_mode filename)
    (fun r w => inv w /\ (r = Ok tt -> t0 !! filename = None)).
Proof.
  eapply hoare_weaken; [apply (hoare_sys base anything (unchanged nowhere t0) _ _ whatever
    (fun _ _ => t0 !! filename = None))|done|].
  - apply stable_unchanged.
  - done.
  - intros t Hu _. destruct (t !! filename) eqn:Ht; simpl; [done|].
    split; [by apply unchanged_insert; auto|]. eapply unchanged_absent; [exact Hu|done|by intros []].
  - intros r w Hw. split; [exact (moments_whatever _ _ _ _ _ Hw)|]. intros ->. apply Hw.
Qed.

Lemma keeps_write_token : keeps inv (write_new_token_file filename token).
Proof.
  unfold write_new_token_file.
  apply keeps_bind; [apply keeps_lift|intros parent].
  apply keeps_bind; [apply keeps_ctx, keeps_create_dir_all|intros _].
  eapply hoare_try; [apply created_new|]. intros [[]|e].
  - apply hoare_pure. intros H0. assert (may_change nowhere t0 filename) as Hm by (intros _; auto).
    pose proof (keeps_remove_file base nowhere t0 filename Hm).
    pose proof (keeps_write_all base nowhere t0 filename token Hm).
    change (keeps inv (r ← try_io (write_all filename token);
      _ ← discard filename r; r ← try_io flush_file; discard filename r)).
    unfold discard. io_keeps.
  - intros w w' r [Hw _]. by destruct (bool_decide _); intros [= <- <-].
Qed.
End Unharmed.

(** C16: A token file is created once, complete and private. Whatever calls fail, in the
    middle of the write too, and whatever files other processes create: nothing that was
    there ever changes; at every moment the path holds what it held, a file of another
    process, or a file whose mode has no bit for the group or for others; success means
    that nothing was there and that the file holds exactly the token, with mode 0600; and
    after an error the path holds what it held or a file of another process, with one
    exception: two calls failed. The removal of a partial file is not retried and its
    failure is ignored, so a part of the token can then stay, still with no bit for the
    group or for others. *)
Theorem token_file_safe (filename token : string) (w w' : World) (r : Result unit) :
  w_past w = [] ->
  write_new_token_file filename token w = (w', r) ->
  let old t := t !! filename = w_tree w !! filename \/
    exists data mode, Races filename data mode ∈ w_script w /\
      t !! filename = Some (NFile data mode) in
  (forall t, moment w' t ->
     old t \/ exists data mode, t !! filename = Some (NFile data mode) /\ N.land mode 63 = 0%N) /\
  (forall t p n, moment w' t -> w_tree w !! p = Some n -> t !! p = Some n) /\
  match r with
  | Ok _ => w_tree w !! filename = None /\
            w_tree w' !! filename = Some (NFile token 384)
  | Err _ => old (w_tree w') \/ failures w' + 2 <= failures w
  end.
Proof.
  intros Hpast Hrun old.
  assert (moments [] (races_in (w_script w)) (pending filename (w_script w) (w_tree w)) whatever w)
    as Hw by (rewrite <-Hpast; apply moments_begin; [by left|apply script_races]).
  pose proof (write_new_spec filename token (w_script w) (w_tree w) [] (failures w)
    w w' r (conj Hw (le_n _)) Hrun) as Hs.
  assert (moments [] (races_in (w_script w)) (guarded filename (w_script w) (w_tree w)) whatever w')
    as Hg by (destruct r; [exact (moments_whatever _ _ _ _ _ Hs)|apply Hs]).
  split; [|split].
  - intros t Ht. destruct (moments_at _ _ _ _ _ Hg Ht) as [?|(_ & data & Hd)]; [by left|].
    right. by exists data, token_mode.
  - intros t p n Ht Hp. eapply (unchanged_moments _ nowhere); try done; [|by intros []].
    apply keeps_write_token.
  - destruct r as [[]|e]; [apply Hs|apply Hs].
Qed.

Lemma token_file_safe_witness :
  let w := world_of [] [Fine; Fine; Fine; Fails false "No space left on device" (Some "sec")] in
  let '(w', r) := write_new_token_file "/t/a.token" "secret" w in
  r = Err ["write bearer token file"; "No space left on device"] /\
  w_tree w' !! "/t/a.token" = None.
Proof.
  cbv zeta. destruct (write_new_token_file "/t/a.token" "secret" _) as [w' r] eqn:Hrun.
  assert (r = Err ["write bearer token file"; "No space left on device"] /\ failures w' = 0)
    as [-> Hf].
  { vm_compute in Hrun. injection Hrun as <- <-. split; reflexivity. }
  split; [done|]. apply token_file_safe in Hrun as (_ & _ & [[Ht|(d & m & Hin & _)]|Hk]);
    [exact Ht|..|reflexivity].
  - simpl in Hin. rewrite !elem_of_cons in Hin.
    destruct Hin as [?|[?|[?|[?|?%not_elem_of_nil]]]]; done.
  - rewrite Hf in Hk. vm_compute in Hk. lia.
Defined.

(** The exception: the write and the removal both fail. *)
Example partial_token_left :
  let w := world_of [] [Fine; Fine; Fine; Fails false "No space left on device" (Some "sec");
                        Fails false "Input/output error" None] in
  let '(w', r) := write_new_token_file "/t/a.token" "secret" w in
  is_ok r = false /\ w_tree w' !! "/t/a.token" = Some (NFile "sec" 384).
Proof. vm_compute. by split. Qed.

(** ** What is printed *)

(** Worlds that differ in the contents of files only. *)
Definition kind_of (n : Node) : N := match n with NFile _ _ => 0 | NDir _ => 1 | NLink _ => 2 end.
Definition alike (w1 w2 : World) : Prop :=
  w_script w1 = w_script w2 /\ w_out w1 = w_out w2 /\
  forall p, kind_of <$> w_tree w1 !! p = kind_of <$> w_tree w2 !! p.

(** Runs that end alike with the same result. *)
Definition runs_alike {E A} (m1 m2 : IO E A) : Prop :=
  forall w1 w2, alike w1 w2 -> alike (m1 w1).1 (m2 w2).1 /\ (m1 w1).2 = (m2 w2).2.

Lemma alike_refl w : alike w w.
Proof. by split. Qed.

Lemma runs_alike_ret {E A} (a : A) : runs_alike (E := E) (mret a) (mret a).
Proof. intros w1 w2 Hw. done. Qed.
Lemma runs_alike_throw {E A} (e : E) : runs_alike (A := A) (throw e) (throw e).
Proof. intros w1 w2 Hw. done. Qed.
Lemma runs_alike_bind {E A B} (m1 m2 : IO E A) (f1 f2 : A -> IO E B) :
  runs_alike m1 m2 -> (forall a, runs_alike (f1 a) (f2 a)) -> runs_alike (m1 ≫= f1) (m2 ≫= f2).
Proof.
  intros Hm Hf w1 w2 Hw. destruct (Hm w1 w2 Hw) as [Ha Hr]. unfold mbind, io_bind.
  destruct (m1 w1) as [w1' [a|e]], (m2 w2) as [w2' r2]; simpl in Ha, Hr; subst r2; [|done].
  by apply Hf.
Qed.
Lemma runs_alike_try {E F A} (m1 m2 : IO E A) :
  runs_alike m1 m2 -> runs_alike (try_io (F := F) m1) (try_io m2).
Proof.
  intros Hm w1 w2 Hw. destruct (Hm w1 w2 Hw) as [Ha Hr]. unfold try_io.
  destruct (m1 w1), (m2 w2). simpl in *. by subst.
Qed.

Definition trees_alike (t1 t2 : Tree) : Prop :=
  forall p, kind_of <$> t1 !! p = kind_of <$> t2 !! p.

Lemma kind_None t1 t2 p : trees_alike t1 t2 -> t1 !! p = None <-> t2 !! p = None.
Proof. intros Ht. specialize (Ht p). destruct (t1 !! p), (t2 !! p); naive_solver. Qed.

Lemma race_alike p d m t1 t2 : trees_alike t1 t2 -> trees_alike (race p d m t1) (race p d m t2).
Proof.
  intros Ht q. pose proof (kind_None t1 t2 p Ht) as Hn. unfold race.
  destruct (private_path p); [done|].
  destruct (t1 !! p), (t2 !! p); try done; try naive_solver.
  destruct (decide (p = q)) as [->|Hne]; [by rewrite !lookup_insert_eq|].
  by rewrite !lookup_insert_ne.
Qed.

(** A call whose effect and result depend on the kinds of files only. *)
Lemma sys_alike {A} partial1 partial2 (op1 op2 : Tree -> Tree * result IoError A) :
  (forall d t1 t2, trees_alike t1 t2 -> trees_alike (partial1 d t1) (partial2 d t2)) ->
  (forall t1 t2, trees_alike t1 t2 ->
     trees_alike (op1 t1).1 (op2 t2).1 /\ (op1 t1).2 = (op2 t2).2) ->
  runs_alike (sys partial1 op1) (sys partial2 op2).
Proof.
  intros Hp Ho w1 w2 (Hs & Hout & Ht). unfold sys. rewrite <-Hs.
  assert (forall t1 t2 rest v1 v2, trees_alike t1 t2 -> w_out v1 = w_out v2 ->
    alike (let '(t, r) := op1 t1 in (pass v1 t rest, r)).1
          (let '(t, r) := op2 t2 in (pass v2 t rest, r)).1 /\
    (let '(t, r) := op1 t1 in (pass v1 t rest, r)).2 =
    (let '(t, r) := op2 t2 in (pass v2 t rest, r)).2) as Hop.
  { intros t1 t2 rest v1 v2 H12 Hv. destruct (Ho t1 t2 H12) as [H1 H2].
    destruct (op1 t1) as [t1' r1], (op2 t2) as [t2' r2]. simpl in *. by subst. }
  destruct (w_script w1) as [|[|denied text [written|]|p d m] rest].
  - by apply Hop.
  - by apply Hop.
  - simpl. split; [|done]. split; [done|]. split; [done|]. by apply Hp.
  - by split.
  - apply Hop; [by apply race_alike|done].
Qed.

Lemma println_alike line : runs_alike (println line) (println line).
Proof.
  intros w1 w2 (Hs & Hout & Ht). unfold println, print. rewrite <-Hs, <-Hout.
  destruct (w_script w1) as [|[|denied text written|p d m] rest]; simpl; split; try done;
    (split; [done|]); (split; [done|]); try done. by apply race_alike.
Qed.

Lemma alter_alike f1 f2 path t1 t2 :
  (forall n, kind_of (f1 n) = kind_of n) -> (forall n, kind_of (f2 n) = kind_of n) ->
  trees_alike t1 t2 -> trees_alike (alter f1 path t1) (alter f2 path t2).
Proof.
  intros H1 H2 Ht p. destruct (decide (path = p)) as [->|Hne].
  - rewrite !lookup_alter_eq, <-!option_fmap_compose. specialize (Ht p).
    destruct (t1 !! p), (t2 !! p); simpl in *; rewrite ?H1, ?H2; done.
  - rewrite !lookup_alter_ne by done. apply Ht.
Qed.

Lemma write_alike path data1 data2 : runs_alike (write_all path data1) (write_all path data2).
Proof.
  assert (forall d1 d2 t1 t2, trees_alike t1 t2 ->
    trees_alike (append_data path d1 t1) (append_data path d2 t2)) as Ha.
  { intros d1 d2 t1 t2. apply alter_alike; by intros []. }
  apply sys_alike; [auto|]. intros t1 t2 Ht. split; [by apply Ha|done].
Qed.
Lemma flush_alike : runs_alike flush_file flush_file.
Proof. by apply sys_alike. Qed.
Lemma remove_alike path : runs_alike (remove_file path) (remove_file path).
Proof.
  apply sys_alike; [done|]. intros t1 t2 Ht. pose proof (Ht path) as Hp.
  assert (trees_alike (delete path t1) (delete path t2)) as Hd.
  { intros q. destruct (decide (path = q)) as [->|Hne]; [by rewrite !lookup_delete_eq|].
    rewrite !lookup_delete_ne by done. apply Ht. }
  destruct (t1 !! path) as [[]|], (t2 !! path) as [[]|]; done.
Qed.
Lemma discard_alike path r : runs_alike (discard path r) (discard path r).
Proof.
  destruct r; simpl; [apply runs_alike_ret|].
  apply runs_alike_bind; [apply runs_alike_try, remove_alike|intros; apply runs_alike_throw].
Qed.

(** Two programs that begin in the same way. *)
Lemma same_prefix {E A B} (m : IO E A) (f1 f2 : A -> IO E B) w :
  (forall a w, alike (f1 a w).1 (f2 a w).1 /\ (f1 a w).2 = (f2 a w).2) ->
  alike ((m ≫= f1) w).1 ((m ≫= f2) w).1 /\ ((m ≫= f1) w).2 = ((m ≫= f2) w).2.
Proof. intros Hf. unfold mbind, io_bind. destruct (m w) as [w1 [a|e]]; [apply Hf|done]. Qed.

Lemma write_new_alike filename token1 token2 w :
  let m1 := write_new_token_file filename token1 w in
  let m2 := write_new_token_file filename token2 w in
  alike m1.1 m2.1 /\ m1.2 = m2.2.
Proof.
  cbv zeta. unfold write_new_token_file.
  apply same_prefix. intros parent w0. apply same_prefix. intros [] w1.
  apply same_prefix. intros [[]|e] w2; [|by destruct (bool_decide _)].
  apply (runs_alike_bind (try_io (write_all filename token1)) (try_io (write_all filename token2)));
    [apply runs_alike_try, write_alike| |apply alike_refl].
  intros r. apply runs_alike_bind; [apply discard_alike|intros _].
  apply runs_alike_bind; [apply runs_alike_try, flush_alike|intros r'; apply discard_alike].
Qed.

Definition with_random (env : TokenEnv) (bytes : string) : TokenEnv :=
  {| tok_current_dir := tok_current_dir env; tok_debug_str := tok_debug_str env;
     tok_random := Some bytes; tok_encode := tok_encode env; tok_sha256 := tok_sha256 env;
     tok_json := tok_json env |}.

(** C34: The token is not shown. Everything that [generate] prints and returns, errors
    included, depends on the random bytes only through the hash of the token: two runs
    from one state whose tokens have the same SHA-256 digest print the same text and
    return the same result. *)
Theorem token_not_shown (env : TokenEnv) (config_filename server_id : string)
    (output_filename : option string) (bytes1 bytes2 : string) (w : World) :
  tok_sha256 env (tok_encode env bytes1) = tok_sha256 env (tok_encode env bytes2) ->
  let run bytes := generate (with_random env bytes) config_filename server_id output_filename w in
  w_out (run bytes1).1 = w_out (run bytes2).1 /\ (run bytes1).2 = (run bytes2).2.
Proof.
  intros Hhash. cbv zeta. unfold generate, mbind, io_bind, lift.
  cbn [with_random tok_debug_str tok_current_dir tok_random tok_encode tok_sha256 tok_json].
  destruct (with_context _ (validate_server_id _ _)) as [[]|e]; [|done].
  destruct (with_context _ (absolute _ config_filename)) as [config|e]; [|done].
  change (token_filename (with_random env bytes1)) with (token_filename env).
  change (token_filename (with_random env bytes2)) with (token_filename env).
  destruct (token_filename env config server_id output_filename) as [path|e]; [|done].
  cbn [opt_context]. rewrite <-Hhash.
  destruct (write_new_alike path (tok_encode env bytes1) (tok_encode env bytes2) w) as [Ha Hr].
  destruct (write_new_token_file path (tok_encode env bytes1) w) as [w1 r1],
    (write_new_token_file path (tok_encode env bytes2) w) as [w2 r2]. simpl in Ha, Hr. subst r2.
  destruct r1 as [[]|e]; [|by split; [apply Ha|]].
  destruct (tok_json env (to_string_lossy path)) as [quoted|e]; [|by split; [apply Ha|]].
  match goal with |- context [println ?line] => destruct (println_alike line w1 w2 Ha) as [Hp Hq] end.
  destruct (println _ w1) as [w1' r1'], (println _ w2) as [w2' r2']. simpl in Hp, Hq. subst r2'.
  destruct r1' as [[]|e]; split; (apply Hp || done).
Qed.

Definition demo_token_env : TokenEnv :=
  {| tok_current_dir := Ok "/"; tok_debug_str := fun s => s; tok_random := Some "abc";
     tok_encode := fun s => s; tok_sha256 := fun _ => "0"; tok_json := fun s => Ok s |}.

Lemma token_not_shown_witness :
  let run bytes := generate (with_random demo_token_env bytes) "/c/m.yml" "s" None (world_of [] []) in
  is_ok (run "abc").2 = true /\ w_out (run "abc").1 = w_out (run "xyz").1.
Proof.
  cbv zeta. split; [vm_compute; reflexivity|].
  exact (proj1 (token_not_shown demo_token_env "/c/m.yml" "s" None "abc" "xyz" (world_of [] []) eq_refl)).
Defined.

(** ** The token comes back *)

Definition url_safe (c : ascii) : bool := is_ascii_alphanumeric c || Ascii.eqb c "-" || Ascii.eqb c "_".
Definition visible (c : ascii) : bool := in_range 33 126 c.

Lemma visible_chars (s : string) :
  all_bytes visible s = true ->
  Forall (fun ch => exists c, ch = String c "" /\ visible c = true) (chars s).
Proof.
  induction s as [|c s IH]; [constructor|]. simpl. intros [Hc Hs]%andb_true_iff.
  specialize (IH Hs). destruct s as [|d s]; [by repeat econstructor|].
  simpl in Hs. apply andb_true_iff in Hs as [Hd _].
  assert (is_continuation d = false) as ->.
  { revert Hd. unfold visible, is_continuation, in_range. intros [_ H]%andb_true_iff.
    apply andb_false_iff. left. apply N.leb_le in H. apply N.leb_gt. lia. }
  constructor; [by exists c|done].
Qed.

Lemma visible_not_space c : visible c = true -> is_whitespace (String c "") = false.
Proof. destruct c as [[] [] [] [] [] [] [] []]; intros [=]; reflexivity. Qed.

Lemma drop_while_none {A} (f : A -> bool) l : Forall (fun x => f x = false) l -> drop_while f l = l.
Proof. destruct 1 as [|x l Hx _]; simpl; [done|]. by rewrite Hx. Qed.

Lemma trim_visible (s : string) : all_bytes visible s = true -> trim s = s.
Proof.
  intros Hs%visible_chars. unfold trim, trim_chars.
  assert (Forall (fun ch => is_whitespace ch = false) (chars s)) as Hn.
  { eapply list.Forall_impl; [exact Hs|]. intros ch (c & -> & Hc). by apply visible_not_space. }
  rewrite (drop_while_none _ (chars s)) by done.
  rewrite drop_while_none by (by apply list.Forall_reverse).
  rewrite reverse_involutive. apply concat_chars_chars.
Qed.

Lemma url_safe_visible c : url_safe c = true -> visible c = true.
Proof. destruct c as [[] [] [] [] [] [] [] []]; intros [=]; reflexivity. Qed.

Lemma visible_no_space (s : string) : all_bytes visible s = true -> any_byte is_ascii_whitespace s = false.
Proof.
  induction s as [|c s IH]; simpl; [done|]. intros [Hc Hs]%andb_true_iff.
  apply orb_false_iff. split; [|auto]. clear -Hc.
  destruct c as [[] [] [] [] [] [] [] []]; try reflexivity; discriminate Hc.
Qed.

Lemma generate_file (env : TokenEnv) config_filename server_id output_filename w w' path :
  generate env config_filename server_id output_filename w = (w', Ok path) ->
  exists bytes, tok_random env = Some bytes /\
    w_tree w' !! path = Some (NFile (tok_encode env bytes) token_mode).
Proof.
  unfold generate, mbind, io_bind, lift.
  destruct (with_context _ (validate_server_id _ _)) as [[]|e]; [|done].
  destruct (with_context _ (absolute _ config_filename)) as [config|e]; [|done].
  destruct (token_filename env config server_id output_filename) as [out|e]; [|done].
  destruct (tok_random env) as [bytes|]; cbn [opt_context]; [|done].
  destruct (write_new_token_file out (tok_encode env bytes) w) as [w1 [[]|e]] eqn:Hw; [|done].
  destruct (tok_json env _) as [quoted|e]; [|done].
  destruct (println _ w1) as [w2 [[]|e]] eqn:Hp; [|done]. intros [= <- <-].
  exists bytes. split; [done|].
  assert (w_tree w1 !! out = Some (NFile (tok_encode env bytes) token_mode)) as H1.
  { pose proof (write_new_spec out (tok_encode env bytes) (w_script w) (w_tree w) (w_past w)
      (failures w) w w1 (Ok tt)) as Hs. apply Hs; [|done].
    split; [|done]. apply moments_begin; [by left|apply script_races]. }
  assert (moments (w_past w1) anything (unchanged nowhere (w_tree w1)) whatever w2) as [Hu _].
  { eapply keeps_println_unchanged; [|exact Hp].
    apply moments_begin; [apply unchanged_start|apply script_anything]. }
  apply Hu; [done|by intros []].
Qed.

(** What [generate] writes, the client sends. For the base64 alphabet of the token
    and a header that accepts visible text, the network client that reads the file back
    sends exactly the token, as a bearer credential. *)
Theorem token_roundtrip (env : TokenEnv) (client : ClientEnv) (config_filename server_id : string)
    (output_filename : option string) (w w' : World) (path : string) :
  (forall bytes, all_bytes url_safe (tok_encode env bytes) = true /\ tok_encode env bytes <> "") ->
  (forall s, all_bytes visible s = true -> header_value client ("Bearer " +:+ s) = true) ->
  (forall data mode, w_tree w' !! path = Some (NFile data mode) -> read_to_string client path = Ok data) ->
  generate env config_filename server_id output_filename w = (w', Ok path) ->
  exists bytes, tok_random env = Some bytes /\
    load_bearer_token client {| bearer_token_file := path |} =
      Ok ("Bearer " +:+ tok_encode env bytes).
Proof.
  intros Hencode Hheader Hread Hrun. apply generate_file in Hrun as (bytes & Hb & Hfile).
  exists bytes. split; [done|]. unfold load_bearer_token. cbn [bearer_token_file].
  rewrite (Hread _ _ Hfile). cbn [with_context mbind result_bind].
  destruct (Hencode bytes) as [Hsafe Hne].
  assert (all_bytes visible (tok_encode env bytes) = true) as Hv
    by (eapply all_bytes_impl; [apply url_safe_visible|done]).
  rewrite trim_visible, visible_no_space, Hheader by done.
  destruct (is_empty (tok_encode env bytes)) eqn:He; [|done].
  by apply is_empty_true in He.
Qed.

Lemma token_roundtrip_witness :
  let run := generate demo_token_env "/c/m.yml" "s" None (world_of [] []) in
  let client := {| read_to_string := fun _ => Ok "abc"; header_value := fun _ => true;
    header_error := ""; native_certs := []; open_ca := fun _ => Err []; parsable := fun _ => false;
    protocol_versions := Ok tt; client_request := fun _ => Ok tt; port_error := fun s => s;
    debug_path := fun s => s |} in
  run.2 = Ok "/c/tokens/s.token" /\
  load_bearer_token client {| bearer_token_file := "/c/tokens/s.token" |} = Ok "Bearer abc".
Proof.
  cbv zeta. set (run := generate _ _ _ _ _). set (client := {| read_to_string := _ |}).
  assert (run.2 = Ok "/c/tokens/s.token") as Hr by (vm_compute; reflexivity).
  split; [exact Hr|].
  set (env := {| tok_current_dir := Ok "/"; tok_debug_str := fun s => s; tok_random := Some "abc";
     tok_encode := fun _ => "abc"; tok_sha256 := fun _ => "0"; tok_json := fun s => Ok s |}).
  destruct (token_roundtrip env client "/c/m.yml" "s" None (world_of [] []) run.1 "/c/tokens/s.token")
    as (bytes & Hb & Hl).
  - intros bytes. split; [reflexivity|discriminate].
  - reflexivity.
  - intros data mode Hd. vm_compute in Hd. by injection Hd as <- _.
  - vm_compute. reflexivity.
  - injection Hb as <-. exact Hl.
Defined.
