(* ===== verification/Flash.v ===== *)
(** * The flashing of the tray icon

    [schedule_flash_tick] and the publication of snapshots in
    [src/cmd/montray-ui/src/app.rs], around the controller of [Tray]: single-shot timers
    that schedule their successors, any number of which may be pending. The event loop
    runs while the window exists, so a timer finds it. *)

From Stdlib Require Import ZArith Lia.
From stdpp Require Import base list option.
From S2P Require Import Prelude Tray.

(** What the tray shows; an icon is what its pixels depend on. *)
Inductive Shown :=
| NoIcon
| Icon (icon : TrayIconIdentity)
| Transparent.
#[global] Instance Shown_eq_dec : EqDecision Shown.
Proof. solve_decision. Defined.

Record Blinker := {
  bl_flash : FlashState;
  bl_current : Shown;            (* the window's current tray icon *)
  bl_tray : Shown;
  bl_timers : list FlashCycle;   (* pending, oldest first *)
}.
Definition blinker_new : Blinker :=
  {| bl_flash := FlashState_default; bl_current := NoIcon; bl_tray := NoIcon; bl_timers := [] |}.

(** The icon part of [apply_snapshot], and the timer its caller schedules. *)
Definition publish (icon_ok : bool) (state : TrayState) (b : Blinker) : Blinker :=
  if icon_ok then
    let icon := Icon (icon_identity state) in
    match flash_apply (bl_flash b) state with
    | (flash, None) =>
        {| bl_flash := flash; bl_current := icon; bl_tray := bl_tray b; bl_timers := bl_timers b |}
    | (flash, Some cycle) =>
        {| bl_flash := flash; bl_current := icon; bl_tray := icon;
           bl_timers := if is_flashing flash cycle then bl_timers b ++ [cycle] else bl_timers b |}
    end
  else b.

(** The callback of [schedule_flash_tick]. *)
Definition expire (cycle : FlashCycle) (b : Blinker) : Blinker :=
  match flash_tick (bl_flash b) cycle with
  | (_, None) => b
  | (flash, Some showing_solid) =>
      {| bl_flash := flash; bl_current := bl_current b;
         bl_tray := if showing_solid then bl_current b else Transparent;
         bl_timers := bl_timers b ++ [cycle] |}
  end.

Definition set_timers (timers : list FlashCycle) (b : Blinker) : Blinker :=
  {| bl_flash := bl_flash b; bl_current := bl_current b; bl_tray := bl_tray b;
     bl_timers := timers |}.

(** All timers have the same delay: the oldest is the first. *)
Definition fire (b : Blinker) : Blinker :=
  match bl_timers b with
  | [] => b
  | cycle :: rest => expire cycle (set_timers rest b)
  end.

(** Every timer that is pending now, once. *)
Definition round (b : Blinker) : Blinker := Nat.iter (length (bl_timers b)) fire b.

(** The event loop; [n] counts the cycles that were started. *)
Inductive reachable : nat -> Blinker -> Prop :=
| reach_new : reachable 0 blinker_new
| reach_same n b icon_ok state :
    reachable n b -> icon_ok = false \/ (flash_apply (bl_flash b) state).2 = None ->
    reachable n (publish icon_ok state b)
| reach_cycle n b state cycle :
    reachable n b -> (flash_apply (bl_flash b) state).2 = Some cycle ->
    reachable (S n) (publish true state b)
| reach_fire n b : reachable n b -> reachable n (fire b).

(** ** Invariant *)

(** The icon that goes with the phase. *)
Definition phase_icon (flash : FlashState) : Shown :=
  match fl_icon flash with
  | None => NoIcon
  | Some icon => if fl_showing_solid flash then Icon icon else Transparent
  end.

Record blinker_ok (n : nat) (b : Blinker) : Prop := {
  ok_generation : fl_generation (bl_flash b) = Z.of_nat n;
  ok_timers : Forall (fun cycle => (0 <= cycle <= Z.of_nat n)%Z) (bl_timers b);
  ok_own : List.count_occ Z.eq_dec (bl_timers b) (Z.of_nat n) =
           if fl_flashing (bl_flash b) then 1 else 0;
  ok_icon : fl_flashing (bl_flash b) = true -> fl_icon (bl_flash b) <> None;
  ok_calm : fl_flashing (bl_flash b) = false -> fl_icon (bl_flash b) <> None ->
            fl_showing_solid (bl_flash b) = true;
  ok_current : bl_current b = match fl_icon (bl_flash b) with None => NoIcon | Some i => Icon i end;
  ok_tray : bl_tray b = phase_icon (bl_flash b);
}.

Lemma flash_tick_cases flash cycle :
  flash_tick flash cycle =
  if Z.eqb (fl_generation flash) cycle && fl_flashing flash
  then ({| fl_icon := fl_icon flash; fl_flashing := fl_flashing flash;
           fl_showing_solid := negb (fl_showing_solid flash);
           fl_generation := fl_generation flash |}, Some (negb (fl_showing_solid flash)))
  else (flash, None).
Proof. unfold flash_tick. by destruct (Z.eqb _ _), (fl_flashing flash). Qed.

Lemma count_snoc (l : list Z) (x y : Z) :
  List.count_occ Z.eq_dec (l ++ [x]) y = List.count_occ Z.eq_dec l y + if Z.eq_dec x y then 1 else 0.
Proof. rewrite List.count_occ_app. simpl. by destruct (Z.eq_dec x y). Qed.

Lemma expire_ok n cycle rest b :
  blinker_ok n b -> bl_timers b = cycle :: rest -> blinker_ok n (expire cycle (set_timers rest b)).
Proof.
  intros [Hg Ht Ho Hic Hc Hcur Htr] Hl. rewrite Hl in Ht, Ho. apply list.Forall_cons in Ht as [Hcy Ht].
  unfold expire. cbn [set_timers bl_flash bl_current bl_tray bl_timers].
  rewrite flash_tick_cases, Hg. simpl in Ho.
  destruct (Z.eqb_spec (Z.of_nat n) cycle) as [<-|Hne], (fl_flashing (bl_flash b)) eqn:Hf; simpl.
  - destruct (Z.eq_dec _ _); [|done]. split; simpl; try done.
    + apply list.Forall_app. split; [done|]. by constructor.
    + rewrite count_snoc. destruct (Z.eq_dec _ _); [lia|done].
    + rewrite Hcur. unfold phase_icon. simpl. specialize (Hic eq_refl).
      by destruct (fl_icon (bl_flash b)), (fl_showing_solid (bl_flash b)).
  - destruct (Z.eq_dec _ _); [|done]. lia.
  - destruct (Z.eq_dec cycle (Z.of_nat n)); [congruence|].
    split; simpl; rewrite ?Hf; done.
  - destruct (Z.eq_dec cycle (Z.of_nat n)); [congruence|].
    split; simpl; rewrite ?Hf; done.
Qed.

Lemma fire_ok n b : blinker_ok n b -> blinker_ok n (fire b).
Proof.
  intros Hb. unfold fire. destruct (bl_timers b) as [|cycle rest] eqn:Ht; [done|].
  by apply expire_ok.
Qed.

Lemma publish_same_ok n b icon_ok state :
  blinker_ok n b -> icon_ok = false \/ (flash_apply (bl_flash b) state).2 = None ->
  blinker_ok n (publish icon_ok state b).
Proof.
  intros Hb Hs. unfold publish. destruct icon_ok; [|done]. destruct Hs as [?|Hs]; [done|].
  revert Hs. unfold flash_apply. case_bool_decide as Hi; [|done]. intros _.
  destruct Hb as [Hg Ht Ho Hic Hc Hcur Htr]. split; simpl; try done. by rewrite Hi.
Qed.

Lemma stale_count (l : list Z) (n : nat) :
  Forall (fun cycle => (0 <= cycle <= Z.of_nat n)%Z) l ->
  List.count_occ Z.eq_dec l (Z.of_nat (S n)) = 0.
Proof.
  intros Hl. apply List.count_occ_not_In. rewrite <-list_elem_of_In. intros Hin.
  rewrite list.Forall_forall in Hl. specialize (Hl _ Hin). lia.
Qed.

Lemma publish_cycle_ok n b state cycle :
  (Z.of_nat (S n) < u64_modulus)%Z ->
  blinker_ok n b -> (flash_apply (bl_flash b) state).2 = Some cycle ->
  blinker_ok (S n) (publish true state b).
Proof.
  intros Hn [Hg Ht Ho Hic Hc Hcur Htr] Hs. unfold publish. revert Hs.
  unfold flash_apply. case_bool_decide as Hi; [done|]. simpl. intros _.
  assert (wrapping_add_u64 (fl_generation (bl_flash b)) 1 = Z.of_nat (S n)) as Hgen.
  { unfold wrapping_add_u64. rewrite Hg, Z.mod_small; lia. }
  unfold is_flashing. cbn [fl_generation fl_flashing]. rewrite Hgen, Z.eqb_refl.
  assert (Forall (fun c => (0 <= c <= Z.of_nat (S n))%Z) (bl_timers b)) as Ht'.
  { eapply list.Forall_impl; [exact Ht|]. simpl. lia. }
  pose proof (stale_count _ _ Ht) as Hstale.
  split; cbn [bl_flash bl_timers bl_current bl_tray fl_generation fl_flashing fl_icon
    fl_showing_solid andb]; try done.
  - destruct (is_flashing_state state); [|done]. apply list.Forall_app. split; [done|].
    constructor; [lia|constructor].
  - destruct (is_flashing_state state); [|done]. rewrite count_snoc, Hstale.
    by destruct (Z.eq_dec _ _).
Qed.

Lemma reachable_ok n b :
  (Z.of_nat n < u64_modulus)%Z -> reachable n b -> blinker_ok n b.
Proof.
  intros Hn Hr. induction Hr as [|n b icon_ok state _ IH Hs|n b state cycle _ IH Hs|n b _ IH].
  - by split.
  - apply publish_same_ok; auto.
  - eapply publish_cycle_ok; [done| |exact Hs]. apply IH. lia.
  - apply fire_ok; auto.
Qed.

(** ** A round of timers *)

(** A timer of the current, flashing cycle turns the phase; others do nothing. *)
Definition flip (flash : FlashState) : FlashState :=
  {| fl_icon := fl_icon flash; fl_flashing := fl_flashing flash;
     fl_showing_solid := negb (fl_showing_solid flash); fl_generation := fl_generation flash |}.

(** The oldest timers fire first; those that are scheduled meanwhile come after. *)
Lemma iter_fire todo b extra :
  bl_timers b = todo ++ extra ->
  Nat.iter (length todo) fire b = foldl (fun b cycle => expire cycle b) (set_timers extra b) todo.
Proof.
  revert b extra. induction todo as [|cycle todo IH]; intros b extra Hb.
  { simpl. destruct b. simpl in *. by subst. }
  cbn [length foldl]. rewrite Nat.iter_succ_r. unfold fire at 2. rewrite Hb. cbn [app].
  unfold expire at 1 3. cbn [set_timers bl_flash bl_current bl_tray bl_timers].
  rewrite flash_tick_cases. destruct (_ && _).
  - rewrite (IH _ (extra ++ [cycle])); [done|]. simpl. by rewrite app_assoc.
  - by rewrite (IH _ extra).
Qed.

Lemma expire_stale cycle b :
  cycle <> fl_generation (bl_flash b) \/ fl_flashing (bl_flash b) = false -> expire cycle b = b.
Proof.
  intros Hs. unfold expire. rewrite flash_tick_cases.
  destruct (Z.eqb_spec (fl_generation (bl_flash b)) cycle), (fl_flashing (bl_flash b)); simpl; try done.
  by destruct Hs.
Qed.

Lemma foldl_stale todo b :
  List.count_occ Z.eq_dec todo (fl_generation (bl_flash b)) = 0 \/ fl_flashing (bl_flash b) = false ->
  foldl (fun b cycle => expire cycle b) b todo = b.
Proof.
  intros Hs. induction todo as [|cycle todo IH]; [done|]. cbn [foldl].
  rewrite expire_stale; [apply IH|].
  - destruct Hs as [Hs|Hs]; [left|by right]. simpl in Hs. by destruct (Z.eq_dec _ _).
  - destruct Hs as [Hs|Hs]; [left|by right]. simpl in Hs. by destruct (Z.eq_dec _ _).
Qed.

Lemma foldl_own todo b :
  fl_flashing (bl_flash b) = true ->
  List.count_occ Z.eq_dec todo (fl_generation (bl_flash b)) = 1 ->
  foldl (fun b cycle => expire cycle b) b todo = expire (fl_generation (bl_flash b)) b.
Proof.
  intros Hf. induction todo as [|cycle todo IH]; [done|]. cbn [foldl List.count_occ].
  destruct (Z.eq_dec cycle (fl_generation (bl_flash b))) as [->|Hne]; intros Hc.
  - rewrite foldl_stale; [done|]. left. unfold expire. rewrite flash_tick_cases, Hf, Z.eqb_refl.
    simpl. lia.
  - rewrite expire_stale by (by left). by apply IH.
Qed.

(** ** Properties *)

(** The tray shows the phase, with one timer. However snapshots and timers
    interleave, with any number of superseded timers still pending, the tray shows the
    icon of the last published state in its solid phase and nothing in the other, the
    window's icon is that of the last state, and exactly one pending timer belongs to the
    current cycle when it flashes, none otherwise (fewer than 2^64 cycles). *)
Theorem flash_one_timer (n : nat) (b : Blinker) :
  reachable n b -> (Z.of_nat n < u64_modulus)%Z ->
  bl_tray b = phase_icon (bl_flash b) /\
  bl_current b = match fl_icon (bl_flash b) with None => NoIcon | Some icon => Icon icon end /\
  List.count_occ Z.eq_dec (bl_timers b) (fl_generation (bl_flash b)) =
    (if fl_flashing (bl_flash b) then 1 else 0).
Proof.
  intros Hr Hn. destruct (reachable_ok n b Hn Hr) as [Hg _ Ho _ _ Hcur Htr]. by rewrite Hg.
Qed.

(** C37: Flashing goes on, and stale timers die out. From every reachable state, once the
    timers that are pending have fired, that is within one period: if the current state
    flashes, the tray has changed between the icon and nothing, and exactly one timer is
    pending for the next change; if it does not, the tray is unchanged and no timer is
    left. *)
Theorem flash_round (n : nat) (b : Blinker) :
  reachable n b -> (Z.of_nat n < u64_modulus)%Z ->
  if fl_flashing (bl_flash b) then
    bl_timers (round b) = [fl_generation (bl_flash b)] /\ bl_flash (round b) = flip (bl_flash b) /\
    bl_tray (round b) = phase_icon (flip (bl_flash b)) /\ bl_tray (round b) <> bl_tray b
  else bl_timers (round b) = [] /\ bl_flash (round b) = bl_flash b /\ bl_tray (round b) = bl_tray b.
Proof.
  intros Hr Hn. destruct (reachable_ok n b Hn Hr) as [Hg _ Ho Hic _ Hcur Htr].
  unfold round. rewrite (iter_fire _ b []) by (by rewrite app_nil_r). rewrite <-Hg in Ho.
  destruct (fl_flashing (bl_flash b)) eqn:Hf.
  - rewrite foldl_own by done. unfold expire. cbn [set_timers bl_flash].
    rewrite flash_tick_cases, Z.eqb_refl, Hf. simpl. unfold flip. rewrite Hf.
    assert ((if negb (fl_showing_solid (bl_flash b)) then bl_current b else Transparent) =
      phase_icon (flip (bl_flash b))) as Hp.
    { rewrite Hcur. unfold phase_icon, flip. simpl. specialize (Hic eq_refl).
      by destruct (fl_icon (bl_flash b)), (fl_showing_solid (bl_flash b)). }
    split; [done|]. split; [done|]. rewrite Hp. unfold flip. rewrite Hf. split; [done|].
    rewrite Htr. unfold phase_icon. simpl. specialize (Hic eq_refl).
    by destruct (fl_icon (bl_flash b)), (fl_showing_solid (bl_flash b)).
  - by rewrite foldl_stale by (by right).
Qed.

(** An alert, another one before the first timer fired, and then calm. *)
Definition demo_warning : TrayState :=
  {| ts_alerting := TrayWarning; ts_unknown_server_count := 0; ts_server_count := 1;
     ts_alerting_count := 1; ts_snoozed := None; ts_snoozed_count := 0 |}.
Definition two_alerts : Blinker := publish true demo_alert (publish true demo_warning blinker_new).

Lemma two_alerts_reachable : reachable 2 two_alerts.
Proof.
  apply (reach_cycle 1 _ _ 2%Z); [|reflexivity]. apply (reach_cycle 0 _ _ 1%Z); [|reflexivity].
  apply reach_new.
Qed.

Lemma flash_one_timer_witness :
  bl_timers two_alerts = [1; 2]%Z /\ bl_tray two_alerts = phase_icon (bl_flash two_alerts).
Proof.
  split; [reflexivity|]. exact (proj1 (flash_one_timer 2 two_alerts two_alerts_reachable eq_refl)).
Defined.

Lemma flash_round_witness :
  bl_timers two_alerts = [1; 2]%Z /\ bl_timers (round two_alerts) = [2]%Z /\
  bl_tray (round two_alerts) = Transparent.
Proof.
  split; [reflexivity|].
  destruct (flash_round 2 two_alerts two_alerts_reachable eq_refl) as (H1 & _ & H2 & _).
  split; [exact H1|exact H2].
Defined.
