(* ===== verification/App.v ===== *)
(** * The application shell

    [src/cmd/montray-ui/src/app.rs] and [main.rs]: the modes of the process, the startup
    configuration, the callbacks of the window and the tray as one event handler, the
    termination signal, and the teardown. What the native toolkit and the desktop answer
    to a call is part of the event. *)

From Stdlib Require Import ZArith Lia.
From stdpp Require Import base gmap strings list option pretty.
From S2P Require Import Prelude RustStr Output RustPath Config StateFile Geometry Persistence Runtime Io Atomic Cli Desktop Setup Reinstall Migration BearerToken.

Inductive RunOutcome := ExitOutcome | RestartOutcome.

(** ** Startup configuration *)

Section Startup.
Context `{TempNames} (env : SetupEnv).

(** [fs::metadata] follows links; only absence counts. *)
Definition config_is_missing (path : string) : IO anyhow bool :=
  r ← try_io (sys nothing_left (fun t =>
        (t, match read_node path t with
            | Err e => if bool_decide (io_kind e = NotFound) then Err e
                       else if is_dir t path then Ok tt else Err e
            | Ok _ => Ok tt
            end)));
  mret (match r with Err e => bool_decide (io_kind e = NotFound) | Ok _ => false end).

(** Whether the default was created. *)
Definition ensure_config (path : string) : IO anyhow bool :=
  missing ← config_is_missing path;
  if missing : bool
  then Io.context ("create default configuration at " +:+ path) (create_default_config env path)
  else mret false.

Definition load_startup_config (path : string) : IO anyhow Config :=
  _ ← ensure_config path;
  load_config env path.
End Startup.

(** ** Preferences *)

(** The window's properties. *)
Record Toggles := {
  dark_theme : bool;
  ui_servers_expanded : bool;
  ui_active_expanded : bool;
  ui_snoozed_expanded : bool;
}.

Definition apply_preferences (state : StateFile) : Toggles :=
  let sections := pref_sections (sf_preferences state) in
  {| dark_theme := match pref_theme (sf_preferences state) with Dark => true | Light => false end;
     ui_servers_expanded := servers_expanded sections;
     ui_active_expanded := active_incidents_expanded sections;
     ui_snoozed_expanded := snoozed_incidents_expanded sections |}.

(** The change that [on_preferences_changed] makes in the state file. *)
Definition preferences_changed (window : Toggles) (state : StateFile) : Result StateFile :=
  let p := sf_preferences state in
  Ok (set_sf_preferences
    {| pref_theme := if dark_theme window then Dark else Light;
       pref_sections :=
         {| servers_expanded := ui_servers_expanded window;
            active_incidents_expanded := ui_active_expanded window;
            snoozed_incidents_expanded := ui_snoozed_expanded window;
            sections_extra := sections_extra (pref_sections p) |};
       pref_window_geometry := pref_window_geometry p;
       pref_extra := pref_extra p |} state).

(** ** Incident actions *)

Definition minutes (n : Z) : Z := n * 60000000000.
Definition hours (n : Z) : Z := n * 3600000000000.
Definition days (n : Z) : Z := n * 86400000000000.

Definition parse_snooze_duration (value : string) : option Z :=
  if bool_decide (value = "15m") then Some (minutes 15)
  else if bool_decide (value = "30m") then Some (minutes 30)
  else if bool_decide (value = "1h") then Some (hours 1)
  else if bool_decide (value = "4h") then Some (hours 4)
  else if bool_decide (value = "6h") then Some (hours 6)
  else if bool_decide (value = "12h") then Some (hours 12)
  else if bool_decide (value = "1d") then Some (days 1)
  else if bool_decide (value = "2d") then Some (days 2)
  else if bool_decide (value = "7d") then Some (days 7)
  else None.

Definition incident_command (key action argument : string) : option Command :=
  if bool_decide (action = "snooze")
  then CommandSnooze key <$> parse_snooze_duration argument
  else if bool_decide (action = "unsnooze") then Some (CommandUnsnooze key)
  else if bool_decide (action = "forget") then Some (CommandForgetStale key)
  else None.

(** The capacity of the channel that [RuntimeHandle::start] makes. *)
Definition COMMAND_CAPACITY : nat := 32.

(** ** Tray *)

(** What is asked of the native window, if there is one. *)
Inductive NativeCall := SetMinimized (minimized : bool) | FocusWindow.
Definition activate_window (native : bool) : list NativeCall :=
  if native then [SetMinimized false; FocusWindow] else [].
Definition window_has_focus (focus : option bool) : bool := default false focus.

Inductive TrayToggleAction := ToggleShow | ToggleActivate | ToggleHide.

Definition tray_toggle_action (visible focused : bool) : TrayToggleAction :=
  match visible, focused with
  | false, _ => ToggleShow
  | true, false => ToggleActivate
  | true, true => ToggleHide
  end.

(** ** The scale of the user interface

    The scale is logged once the native window is on a monitor: every way through
    [install_scale_logging] writes one record. Scale factors are given as their text. *)

Record Monitor := {
  mon_scale : string;
  mon_name : option string;
  mon_width : N;
  mon_height : N;
}.
Record ScaleAnswers := {
  sc_scheduled : result string unit;  (* spawn_local *)
  sc_window : bool;                   (* the window is there when the task runs *)
  sc_native : result string unit;     (* winit_window().await *)
  sc_later : bool;                    (* and a tenth of a second later *)
  sc_slint : string;
  sc_winit : string;
  sc_monitor : option Monitor;
}.

Section Scale.
(** The [{:?}] form of a name. *)
Context (debug_str : string -> string).

Definition debug_name (name : option string) : string :=
  match name with Some name => "Some(" +:+ debug_str name +:+ ")" | None => "None" end.

Definition on_monitor (a : ScaleAnswers) (m : Monitor) : string :=
  "winit window=" +:+ sc_winit a +:+ ", monitor=" +:+ mon_scale m +:+ " (" +:+
  debug_name (mon_name m) +:+ ", " +:+ pretty (mon_width m) +:+ "x" +:+
  pretty (mon_height m) +:+ ")".

Definition install_scale_logging (automatic : bool) (a : ScaleAnswers) : LogLevel * string :=
  match sc_scheduled a with
  | Err e => (LError, "could not schedule UI scale detection: " +:+ e)
  | Ok _ =>
      if negb (sc_window a) then (LError, "could not detect UI scale: Slint window was destroyed")
      else
        match sc_native a with
        | Err e => (LError, "could not detect UI scale: " +:+ e)
        | Ok _ =>
            if negb (sc_later a) then
              (LError, "could not detect UI scale: Slint window was destroyed")
            else
              match sc_monitor a with
              | None =>
                  (LError, "could not detect monitor scale; Slint scale=" +:+ sc_slint a +:+
                           ", winit window scale=" +:+ sc_winit a)
              | Some m =>
                  if (mon_width m <=? 1)%N || (mon_height m <=? 1)%N then
                    (LError, "could not detect monitor scale: winit returned its dummy " +:+
                       "monitor; Slint and winit are using fallback scale " +:+ sc_slint a)
                  else if automatic then
                    (LDebug, "auto-detected UI scale: Slint=" +:+ sc_slint a +:+ ", " +:+
                             on_monitor a m)
                  else
                    (LDebug, "configured UI scale: Slint=" +:+ sc_slint a +:+ "; native " +:+
                             on_monitor a m)
              end
        end
  end.
End Scale.

(** ** Effects and answers *)

Inductive UiEffect :=
| Native (r : Geometry.Request)
| Activate                        (* activate_window *)
| Push (title body : string)      (* a desktop notification *)
| OpenFile (path : string)
| SavePreferences (window : Toggles)
| Log (level : LogLevel) (text : string)
| ForcedExit (code : Z)
| RuntimeShutdown.

(** The answers of the toolkit and the desktop to the calls of one event. *)
Record Ambient := {
  amb_view : View;
  amb_focus : option bool;            (* of the native window, if there is one *)
  amb_show : Result unit;
  amb_hide : Result unit;
  amb_store : WindowGeometry -> Result unit;
  amb_push : Result unit;
  amb_open : option string;           (* why the file could not be opened *)
  amb_save : Result unit;             (* of the preferences *)
  amb_post : option string;           (* why the event loop takes no more calls *)
  amb_runtime : bool;                 (* the runtime still receives *)
}.

Record App := {
  app_world : World;
  app_geometry : Manager;
  app_autostart : bool;               (* the tray's check mark *)
  app_restart : bool;                 (* restart_requested *)
  app_quit : bool;                    (* the event loop was told to end *)
  app_signalled : bool;               (* shutdown_requested *)
  app_posted : nat;                   (* calls of the signal handler, not run yet *)
  app_commands : list Command;
}.

Definition set_world (w : World) (a : App) : App :=
  {| app_world := w; app_geometry := app_geometry a; app_autostart := app_autostart a;
     app_restart := app_restart a; app_quit := app_quit a; app_signalled := app_signalled a;
     app_posted := app_posted a; app_commands := app_commands a |}.
Definition set_geometry (m : Manager) (a : App) : App :=
  {| app_world := app_world a; app_geometry := m; app_autostart := app_autostart a;
     app_restart := app_restart a; app_quit := app_quit a; app_signalled := app_signalled a;
     app_posted := app_posted a; app_commands := app_commands a |}.
Definition set_autostart_mark (b : bool) (a : App) : App :=
  {| app_world := app_world a; app_geometry := app_geometry a; app_autostart := b;
     app_restart := app_restart a; app_quit := app_quit a; app_signalled := app_signalled a;
     app_posted := app_posted a; app_commands := app_commands a |}.
Definition set_restart (a : App) : App :=
  {| app_world := app_world a; app_geometry := app_geometry a; app_autostart := app_autostart a;
     app_restart := true; app_quit := app_quit a; app_signalled := app_signalled a;
     app_posted := app_posted a; app_commands := app_commands a |}.
Definition set_quit (a : App) : App :=
  {| app_world := app_world a; app_geometry := app_geometry a; app_autostart := app_autostart a;
     app_restart := app_restart a; app_quit := true; app_signalled := app_signalled a;
     app_posted := app_posted a; app_commands := app_commands a |}.
Definition set_signal (posted : nat) (a : App) : App :=
  {| app_world := app_world a; app_geometry := app_geometry a; app_autostart := app_autostart a;
     app_restart := app_restart a; app_quit := app_quit a; app_signalled := true;
     app_posted := posted; app_commands := app_commands a |}.
Definition set_posted (posted : nat) (a : App) : App :=
  {| app_world := app_world a; app_geometry := app_geometry a; app_autostart := app_autostart a;
     app_restart := app_restart a; app_quit := app_quit a; app_signalled := app_signalled a;
     app_posted := posted; app_commands := app_commands a |}.
Definition set_commands (l : list Command) (a : App) : App :=
  {| app_world := app_world a; app_geometry := app_geometry a; app_autostart := app_autostart a;
     app_restart := app_restart a; app_quit := app_quit a; app_signalled := app_signalled a;
     app_posted := app_posted a; app_commands := l |}.

Inductive UiEvent :=
| CloseRequested
| PreferencesChanged (window : Toggles)
| ToggleWindow
| OpenWindow
| ExampleNotification
| ToggleAutostart
| EditConfiguration
| RestartClicked
| ExitClicked
| IncidentAction (key action argument : string)
| Signal                              (* on the thread of the signal handler *)
| Posted                              (* the event loop runs a posted call *)
| CommandTaken                        (* the runtime takes a command *)
| WindowEventSeen (event : WindowEvent).

Definition log_error (r : Result unit) (text : string) : list UiEffect :=
  match r with Ok _ => [] | Err e => [Log LError (text +:+ alternate e)] end.

Section Handlers.
Context `{TempNames} (env : SetupEnv) (config_path : string).

Definition hide_window (amb : Ambient) (a : App) : App * list UiEffect :=
  let '(m, requests, r) := hide (amb_store amb) (amb_hide amb) (app_geometry a) (amb_view amb) in
  (set_geometry m a, (Native <$> requests) ++ log_error r "failed to hide window: ").

Definition open_window (amb : Ambient) (a : App) : App * list UiEffect :=
  let '(m, requests, r) := show (amb_show amb) (app_geometry a) in
  (set_geometry m a, (Native <$> requests) ++
     match r with Ok _ => [Activate] | Err _ => log_error r "failed to show window: " end).

(** Saving the placement of a visible window. *)
Definition save_visible (amb : Ambient) (a : App) : App * Result unit :=
  if view_visible (amb_view amb) then
    let '(m, r) := save_geometry (amb_store amb) (app_geometry a) (amb_view amb) in
    (set_geometry m a, r)
  else (a, Ok tt).

Definition quit_app (amb : Ambient) (a : App) : App * list UiEffect :=
  let '(a, r) := save_visible amb a in
  (set_quit a, log_error r "failed to save window geometry: ").

(** A notification about a failure, and a log line if it fails as well. *)
Definition notify_failure (amb : Ambient) (title body what : string) : list UiEffect :=
  Push title body :: log_error (amb_push amb) what.

Definition restart_config_is_valid (amb : Ambient) (w : World) : World * bool * list UiEffect :=
  let '(w, r) := load_config env config_path w in
  match r with
  | Ok _ => (w, true, [])
  | Err error =>
      (w, false, Log LError ("configuration reload failed: " +:+ alternate error) ::
         notify_failure amb "Configuration reload failed" (alternate error)
           "failed to show configuration reload error notification: ")
  end.

Definition toggle_autostart (amb : Ambient) (a : App) : App * list UiEffect :=
  let enable := negb (app_autostart a) in
  let '(w, r) := set_autostart env config_path enable (app_world a) in
  let a := set_world w a in
  match r with
  | Ok enabled =>
      (set_autostart_mark enabled a,
       [Log LInfo ("autostart " +:+ if enabled then "enabled" else "disabled")])
  | Err error =>
      (a, Log LError ("failed to change autostart: " +:+ alternate error) ::
          notify_failure amb "Autostart change failed" (alternate error)
            "failed to show autostart error notification: ")
  end.

(** [try_send]: neither a full nor a closed channel blocks. *)
Definition incident_action (amb : Ambient) (key action argument : string) (a : App)
    : App * list UiEffect :=
  match incident_command key action argument with
  | None => (a, [])
  | Some command =>
      if negb (amb_runtime amb)
      then (a, [Log LError "failed to queue incident action: channel closed"])
      else if Nat.ltb (length (app_commands a)) COMMAND_CAPACITY
      then (set_commands (app_commands a ++ [command]) a, [])
      else (a, [Log LError "failed to queue incident action: no available capacity"])
  end.

Definition handle_signal (amb : Ambient) (a : App) : App * list UiEffect :=
  if app_signalled a
  then (a, [Log LWarn "received another termination signal; forcing exit"; ForcedExit 1])
  else
    (set_signal (match amb_post amb with None => S (app_posted a) | Some _ => app_posted a end) a,
     Log LInfo "received termination signal; shutting down" ::
     match amb_post amb with
     | None => []
     | Some error =>
         [Log LError ("failed to request shutdown after termination signal: " +:+ error)]
     end).

Definition handle (amb : Ambient) (event : UiEvent) (a : App) : App * list UiEffect :=
  match event with
  | CloseRequested => hide_window amb a
  | PreferencesChanged window =>
      (a, SavePreferences window :: log_error (amb_save amb) "failed to save preferences: ")
  | ToggleWindow =>
      match tray_toggle_action (view_visible (amb_view amb)) (window_has_focus (amb_focus amb)) with
      | ToggleHide => hide_window amb a
      | ToggleShow => open_window amb a
      | ToggleActivate => (a, [Activate])
      end
  | OpenWindow => open_window amb a
  | ExampleNotification =>
      (a, notify_failure amb "Example notification" "Montray UI desktop notifications are working."
            "failed to show example notification: ")
  | ToggleAutostart => toggle_autostart amb a
  | EditConfiguration =>
      (a, OpenFile config_path ::
          match amb_open amb with
          | None => []
          | Some error =>
              Log LError ("failed to open configuration: " +:+ error) ::
              notify_failure amb "Could not open configuration" (config_path +:+ ": " +:+ error)
                "failed to show configuration open error notification: "
          end)
  | RestartClicked =>
      let '(w, valid, effects) := restart_config_is_valid amb (app_world a) in
      let a := set_world w a in
      if negb valid then (a, effects)
      else let '(a, effects') := quit_app amb (set_restart a) in (a, effects ++ effects')
  | ExitClicked => quit_app amb a
  | IncidentAction key action argument => incident_action amb key action argument a
  | Signal => handle_signal amb a
  | Posted =>
      match app_posted a with
      | O => (a, [])
      | S n => quit_app amb (set_posted n a)
      end
  | CommandTaken => (set_commands (drop 1 (app_commands a)) a, [])
  | WindowEventSeen event =>
      let '(m, requests) := handle_winit_event (app_geometry a) (amb_view amb) event in
      (set_geometry m a, Native <$> requests)
  end.

Definition forced (effects : list UiEffect) : bool :=
  existsb (fun e => match e with ForcedExit _ => true | _ => false end) effects.

(** The event loop, until it was told to end or the process exits at once. *)
Fixpoint event_loop (events : list (Ambient * UiEvent)) (a : App)
    : App * list UiEffect * bool :=
  match events with
  | [] => (a, [], false)
  | (amb, event) :: events =>
      if app_quit a then (a, [], false)
      else
        let '(a, effects) := handle amb event a in
        if forced effects then (a, effects, true)
        else let '(a, effects', exited) := event_loop events a in (a, effects ++ effects', exited)
  end.

(** What [run] does after the event loop. *)
Definition teardown (amb : Ambient) (event_loop_result : Result unit) (a : App)
    : list UiEffect * Result RunOutcome :=
  let '(_, geometry_result) := save_visible amb a in
  ([Log LInfo "shutting down"] ++
   log_error geometry_result "failed to save window geometry during shutdown: " ++
   [RuntimeShutdown; Log LInfo "shutdown complete"],
   _ ← event_loop_result;
   _ ← geometry_result;
   Ok (if app_restart a then RestartOutcome else ExitOutcome)).

(** Signals that come when the loop has ended, on the thread of the handler: each after a
    number of further acts. [perform] turns an effect into acts. *)
Fixpoint with_signals {A} (perform : UiEffect -> list A) (late : list (nat * Ambient)) (a : App)
    (acts : list A) : list A * bool :=
  match late with
  | [] => (acts, false)
  | (k, amb) :: late =>
      let '(a, effects) := handle_signal amb a in
      let seen := take k acts ++ (effects ≫= perform) in
      if forced effects then (seen, true)
      else let '(rest, exited) := with_signals perform late a (drop k acts) in (seen ++ rest, exited)
  end.

(** [run] from the event loop on; nothing is returned if the process exited at once. *)
Definition run_loop {A} (perform : UiEffect -> list A) (events : list (Ambient * UiEvent))
    (amb : Ambient) (event_loop_result : Result unit) (late : list (nat * Ambient)) (a : App)
    : list A * option (Result RunOutcome) :=
  let '(a, effects, exited) := event_loop events a in
  if exited : bool then (effects ≫= perform, None)
  else
    let '(effects', r) := teardown amb event_loop_result a in
    let '(acts, exited) := with_signals perform late a (effects' ≫= perform) in
    ((effects ≫= perform) ++ acts, if exited : bool then None else Some r).
End Handlers.

(** ** The process *)

Section Process.
Context `{TempNames} `{StateImport} (env : SetupEnv) (token : TokenEnv).
(** The build feature [packaged], the text of [--version], the environment variables that
    fix the scale, the graphical part, and the replacement of the process. *)
Context (packaged : bool) (full_description : string) (scale_fixed : bool).
Context (run_gui : bool -> string -> bool -> option string -> IO anyhow RunOutcome)
  (restart_current_process : IO anyhow unit).

(** [options.config.unwrap_or(default()?)]: the default is computed in any case. *)
Definition config_or (config : option string) (default_path : Result string) : Result string :=
  path ← default_path; Ok (default path config).

Definition is_setup (mode : CliMode) : bool :=
  match mode with Cli.Setup _ _ _ | MigrateFromSalmon _ => true | _ => false end.

(** The modes without a window. *)
Definition command_line (options : Options) : option (IO anyhow unit) :=
  if opt_version options then Some (print full_description)
  else if packaged && is_setup (opt_command options)
  then Some (throw ["montray-ui was installed via a package manager; in-app setup is disabled"])
  else
    match opt_command options with
    | GenerateBearerToken server_id output =>
        Some (t ← tree;
              config_path ← lift (config_or (opt_config options)
                (runtime_default_path (env_config_dir env) (path_exists t)));
              _ ← generate token config_path server_id output;
              mret tt)
    | Cli.Setup operation reinstall ignore_salmon =>
        Some (config_path ← lift (config_or (opt_config options) (default_path (env_config_dir env)));
              Setup.execute env config_path operation reinstall ignore_salmon)
    | MigrateFromSalmon dry_run =>
        Some (config_path ← lift (config_or (opt_config options) (default_path (env_config_dir env)));
              migrate_from_salmon env config_path dry_run)
    | Run => None
    end.

Definition gui (options : Options) : IO anyhow unit :=
  let automatic_scale := bool_decide (opt_scale options = None) && negb scale_fixed in
  t ← tree;
  config_path ← lift (config_or (opt_config options)
    (runtime_default_path (env_config_dir env) (path_exists t)));
  outcome ← run_gui (opt_start_hidden options) config_path automatic_scale (opt_scale options);
  match outcome with
  | RestartOutcome => restart_current_process
  | ExitOutcome => mret tt
  end.

Definition execute (options : Options) (logger : Logger) (w : World)
    : World * (Logger * Result unit) :=
  match command_line options with
  | Some m => let '(w, r) := m w in (w, (logger, r))
  | None =>
      let '(logger, r) := log_init (opt_log_level options) logger in
      match r with
      | Err e => (w, (logger, Err e))
      | Ok _ => let '(w, r) := gui options w in (w, (logger, r))
      end
  end.

(** [main]: how the process reports an error, and its exit code. *)
Inductive Report := LoggedError (text : string) | PrintedError (text : string).
Definition main_report (logger : Logger) (r : Result unit) : option Report * Z :=
  match r with
  | Ok _ => (None, 0%Z)
  | Err e => (Some (if is_initialized logger then LoggedError (alternate e)
                    else PrintedError ("montray-ui: " +:+ alternate e)), 1%Z)
  end.
End Process.

(** An explicit configuration path does not help when there is no home: the default path
    is computed first and its error returned. *)
Example explicit_config_needs_home :
  config_or (Some "/etc/montray.yml") (default_path None) =
  Err ["could not determine the user configuration directory"].
Proof. reflexivity. Qed.

(** ** Properties of the handlers *)

Section HandlerLemmas.
Context `{TempNames} (env : SetupEnv) (config_path : string).

(** The events that end the loop, in a state. *)
Definition ends_loop (amb : Ambient) (event : UiEvent) (a : App) : bool :=
  match event with
  | ExitClicked => true
  | Posted => Nat.ltb 0 (app_posted a)
  | RestartClicked => is_ok (load_config env config_path (app_world a)).2
  | _ => false
  end.

Lemma hide_window_rest amb a : exists m effects, hide_window amb a = (set_geometry m a, effects).
Proof. unfold hide_window. destruct (hide _ _ _ _) as [[m requests] r]. eauto. Qed.
Lemma open_window_rest amb a : exists m effects, open_window amb a = (set_geometry m a, effects).
Proof. unfold open_window. destruct (show _ _) as [[m requests] r]. eauto. Qed.
Lemma quit_app_rest amb a :
  exists m effects, quit_app amb a = (set_quit (set_geometry m a), effects).
Proof.
  unfold quit_app, save_visible. destruct (view_visible _).
  - destruct (save_geometry _ _ _) as [m r]. eauto.
  - exists (app_geometry a). destruct a. eauto.
Qed.

(** What one event does to the flags. *)
Record flags (amb : Ambient) (event : UiEvent) (a a' : App) : Prop := {
  flag_quit : app_quit a' = app_quit a || ends_loop amb event a;
  flag_restart : app_restart a' =
    (app_restart a || match event with RestartClicked => ends_loop amb event a | _ => false end);
  flag_signalled : app_signalled a' = app_signalled a || match event with Signal => true | _ => false end;
  flag_posted : app_posted a' =
    match event with
    | Signal => if app_signalled a then app_posted a
                else match amb_post amb with None => S (app_posted a) | Some _ => app_posted a end
    | Posted => pred (app_posted a)
    | _ => app_posted a
    end;
}.

Lemma handle_flags amb event a : flags amb event a (handle env config_path amb event a).1.
Proof.
  destruct event; cbn [handle];
    try (split; cbn; by rewrite ?orb_false_r).
  - destruct (hide_window_rest amb a) as (m & e & ->). split; cbn; by rewrite ?orb_false_r.
  - destruct (tray_toggle_action _ _).
    + destruct (open_window_rest amb a) as (m & e & ->). split; cbn; by rewrite ?orb_false_r.
    + split; cbn; by rewrite ?orb_false_r.
    + destruct (hide_window_rest amb a) as (m & e & ->). split; cbn; by rewrite ?orb_false_r.
  - destruct (open_window_rest amb a) as (m & e & ->). split; cbn; by rewrite ?orb_false_r.
  - unfold toggle_autostart. destruct (set_autostart _ _ _ _) as [w [b|e]];
      split; cbn; by rewrite ?orb_false_r.
  - unfold restart_config_is_valid.
    destruct (load_config env config_path (app_world a)) as [w [c|e]] eqn:Hl; cbn [negb].
    + destruct (quit_app_rest amb (set_restart (set_world w a))) as (m & effects & ->).
      split; cbn; rewrite ?Hl, ?orb_false_r, ?orb_true_r; done.
    + split; cbn; rewrite ?Hl; cbn; by rewrite ?orb_false_r.
  - destruct (quit_app_rest amb a) as (m & e & ->). split; cbn; by rewrite ?orb_false_r, ?orb_true_r.
  - unfold incident_action. destruct (incident_command _ _ _); [|split; cbn; by rewrite ?orb_false_r].
    destruct (negb _); [split; cbn; by rewrite ?orb_false_r|].
    destruct (Nat.ltb _ _); split; cbn; by rewrite ?orb_false_r.
  - unfold handle_signal. destruct (app_signalled a) eqn:Hs;
      split; cbn; rewrite ?Hs, ?orb_false_r; done.
  - destruct (app_posted a) as [|n] eqn:Hn.
    + split; cbn; rewrite ?Hn; cbn; by rewrite ?orb_false_r.
    + destruct (quit_app_rest amb (set_posted n a)) as (m & e & ->).
      split; cbn; rewrite ?Hn; cbn; by rewrite ?orb_false_r, ?orb_true_r.
  - destruct (handle_winit_event _ _ _) as [m requests]. split; cbn; by rewrite ?orb_false_r.
Qed.
End HandlerLemmas.

(** ** The event loop *)

Section LoopLemmas.
Context `{TempNames} (env : SetupEnv) (config_path : string).
Abbreviation loop := (event_loop env config_path).
Abbreviation step := (handle env config_path).

(** The state in which an event is handled, if it is. *)
Inductive handled : App -> list (Ambient * UiEvent) -> App -> Ambient -> UiEvent -> Prop :=
| handled_now a amb event events : app_quit a = false -> handled a ((amb, event) :: events) a amb event
| handled_later a amb event events a' amb' event' :
    app_quit a = false -> forced (step amb event a).2 = false ->
    handled (step amb event a).1 events a' amb' event' ->
    handled a ((amb, event) :: events) a' amb' event'.

Lemma loop_cons amb event events a :
  app_quit a = false ->
  loop ((amb, event) :: events) a =
  if forced (step amb event a).2 then (step amb event a, true)
  else let '(a', effects, exited) := loop events (step amb event a).1 in
       (a', (step amb event a).2 ++ effects, exited).
Proof. intros Hq. cbn [event_loop]. rewrite Hq. by destruct (step amb event a). Qed.

Lemma loop_quit events a : app_quit a = true -> loop events a = (a, [], false).
Proof. intros Hq. destruct events as [|[amb event] events]; cbn [event_loop]; by rewrite ?Hq. Qed.

(** What the loop set, an event set. *)
Lemma loop_restart events a :
  app_restart a = false -> app_restart (loop events a).1.1 = true ->
  exists a' amb, handled a events a' amb RestartClicked /\
    is_ok (load_config env config_path (app_world a')).2 = true.
Proof.
  revert a. induction events as [|[amb event] events IH]; intros a Hr; [simpl; congruence|].
  destruct (app_quit a) eqn:Hq; [rewrite loop_quit by done; simpl; congruence|].
  rewrite loop_cons by done. destruct (handle_flags env config_path amb event a) as [_ H2 _ _].
  rewrite Hr in H2. cbn [orb] in H2.
  assert (app_restart (step amb event a).1 = true -> event = RestartClicked /\
    is_ok (load_config env config_path (app_world a)).2 = true) as Hnow.
  { intros Ht. rewrite H2 in Ht. destruct event; done. }
  destruct (app_restart (step amb event a).1) eqn:Hs.
  - intros _. destruct (Hnow eq_refl) as [-> Hv]. exists a, amb. split; [by constructor|done].
  - destruct (forced (step amb event a).2) eqn:Hf; [simpl; congruence|].
    destruct (loop events (step amb event a).1) as [[a' effects] exited] eqn:Hl. simpl.
    intros Ha. destruct (IH _ Hs) as (a1 & amb1 & Hh & Hv); [by rewrite Hl|].
    exists a1, amb1. split; [by eapply handled_later|done].
Qed.

(** No handler stops the runtime. *)
Lemma no_shutdown_log r text : RuntimeShutdown ∉ log_error r text.
Proof. destruct r; simpl; set_solver. Qed.
Lemma no_shutdown_native (l : list Geometry.Request) : RuntimeShutdown ∉ (Native <$> l).
Proof. intros (r & ? & _)%list_elem_of_fmap. done. Qed.
#[local] Hint Resolve no_shutdown_log no_shutdown_native : core.

Lemma no_shutdown_quit amb a : RuntimeShutdown ∉ (quit_app amb a).2.
Proof. unfold quit_app. destruct (save_visible amb a) as [a' r]. simpl. auto. Qed.
Lemma no_shutdown_hide amb a : RuntimeShutdown ∉ (hide_window amb a).2.
Proof.
  unfold hide_window. destruct (hide _ _ _ _) as [[m requests] r]. simpl.
  apply not_elem_of_app. auto.
Qed.
Lemma no_shutdown_open amb a : RuntimeShutdown ∉ (open_window amb a).2.
Proof.
  unfold open_window. destruct (show _ _) as [[m requests] r]. simpl.
  apply not_elem_of_app. split; [auto|]. destruct r; [set_solver|auto].
Qed.

Lemma no_shutdown_notify amb title body what : RuntimeShutdown ∉ notify_failure amb title body what.
Proof. unfold notify_failure. rewrite not_elem_of_cons. auto. Qed.

Lemma no_shutdown_handle amb event a : RuntimeShutdown ∉ (step amb event a).2.
Proof.
  destruct event; cbn [handle snd notify_failure]; try (rewrite not_elem_of_cons; split; [done|]);
    auto using no_shutdown_hide, no_shutdown_open, no_shutdown_quit, not_elem_of_nil.
  - destruct (tray_toggle_action _ _);
      auto using no_shutdown_hide, no_shutdown_open. simpl. set_solver.
  - apply no_shutdown_notify.
  - unfold toggle_autostart. destruct (set_autostart _ _ _ _) as [w [b|e]]; simpl; [set_solver|].
    rewrite not_elem_of_cons. auto using no_shutdown_notify.
  - destruct (amb_open amb); [|apply not_elem_of_nil]. rewrite not_elem_of_cons.
    auto using no_shutdown_notify.
  - unfold restart_config_is_valid. destruct (load_config _ _ _) as [w [c|e]]; cbn [negb].
    + pose proof (no_shutdown_quit amb (set_restart (set_world w a))) as Hq.
      destruct (quit_app _ _) as [a' effects]. simpl. done.
    + simpl. rewrite not_elem_of_cons. auto using no_shutdown_notify.
  - unfold incident_action. destruct (incident_command _ _ _); [|apply not_elem_of_nil].
    destruct (negb _); [simpl; set_solver|]. destruct (Nat.ltb _ _); simpl; set_solver.
  - unfold handle_signal. destruct (app_signalled a); simpl; [set_solver|].
    rewrite !not_elem_of_cons. split; [done|]. destruct (amb_post amb); set_solver.
  - destruct (app_posted a); [apply not_elem_of_nil|apply no_shutdown_quit].
  - destruct (handle_winit_event _ _ _) as [m requests]. simpl. auto.
Qed.

Lemma no_shutdown_loop events a : RuntimeShutdown ∉ (loop events a).1.2.
Proof.
  revert a. induction events as [|[amb event] events IH]; intros a; [apply not_elem_of_nil|].
  destruct (app_quit a) eqn:Hq; [rewrite loop_quit by done; apply not_elem_of_nil|].
  rewrite loop_cons by done. destruct (forced _); [apply no_shutdown_handle|].
  specialize (IH (step amb event a).1).
  destruct (loop events (step amb event a).1) as [[a' effects] exited]. simpl in *.
  apply not_elem_of_app. split; [apply no_shutdown_handle|done].
Qed.
End LoopLemmas.

(** ** Signals and commands *)

Section MoreLoop.
Context `{TempNames} (env : SetupEnv) (config_path : string).
Abbreviation loop := (event_loop env config_path).
Abbreviation step := (handle env config_path).

(** Events in sequence. *)
Lemma loop_app before after a :
  loop (before ++ after) a =
  let '(a', effects, exited) := loop before a in
  if exited : bool then (a', effects, true)
  else let '(a'', effects', exited') := loop after a' in (a'', effects ++ effects', exited').
Proof.
  revert a. induction before as [|[amb event] before IH]; intros a; cbn [app].
  { simpl. by destruct (loop after a) as [[a' effects] exited]. }
  destruct (app_quit a) eqn:Hq; [by rewrite !loop_quit by done|].
  rewrite !loop_cons by done. destruct (forced (step amb event a).2);
    [by destruct (step amb event a)|].
  rewrite IH. destruct (loop before (step amb event a).1) as [[a1 e1] [|]]; [done|].
  destruct (loop after a1) as [[a2 e2] x2]. by rewrite app_assoc.
Qed.

(** An exit that was posted waits until it is run. *)
Lemma loop_posted events a :
  0 < app_posted a \/ app_quit a = true ->
  Forall (fun e => e.2 <> Posted) events ->
  let '(a', _, exited) := loop events a in
  exited = true \/ 0 < app_posted a' \/ app_quit a' = true.
Proof.
  intros Ha Hall. revert a Ha. induction Hall as [|[amb event] events Hne _ IH]; intros a Ha.
  { simpl. auto. }
  destruct (app_quit a) eqn:Hq; [rewrite loop_quit by done; auto|].
  rewrite loop_cons by done. destruct (forced _) eqn:Hf; [by destruct (step amb event a); left|].
  destruct (handle_flags env config_path amb event a) as [H1 _ _ H4]. simpl in Hne.
  specialize (IH (step amb event a).1).
  destruct (loop events (step amb event a).1) as [[a' effects] exited]. apply IH.
  destruct Ha as [Ha|Ha]; [left|congruence]. rewrite H4.
  destruct event; try done. destruct (app_signalled a); [done|]. destruct (amb_post amb); lia.
Qed.

Lemma loop_unsignalled events a :
  Forall (fun e => e.2 <> Signal) events -> app_signalled a = false ->
  app_signalled (loop events a).1.1 = false.
Proof.
  intros Hall. revert a. induction Hall as [|[amb event] events Hne _ IH]; intros a Ha; [done|].
  destruct (app_quit a) eqn:Hq; [by rewrite loop_quit|].
  rewrite loop_cons by done. destruct (handle_flags env config_path amb event a) as [_ _ H3 _].
  rewrite Ha in H3. cbn in H3. simpl in Hne.
  assert (app_signalled (step amb event a).1 = false) as Hs by (rewrite H3; by destruct event).
  destruct (forced _); [done|]. specialize (IH _ Hs).
  by destruct (loop events (step amb event a).1) as [[a' effects] exited].
Qed.

(** The queue is bounded and holds what the menu offers. *)
Definition menu_command (c : Command) : Prop :=
  match c with
  | CommandSnooze _ duration => (minutes 15 <= duration <= days 7)%Z
  | _ => True
  end.
Definition queue_ok (a : App) : Prop :=
  length (app_commands a) <= COMMAND_CAPACITY /\ Forall menu_command (app_commands a).

Lemma parse_snooze_menu value duration :
  parse_snooze_duration value = Some duration -> (minutes 15 <= duration <= days 7)%Z.
Proof.
  unfold parse_snooze_duration.
  repeat (case_bool_decide; [intros [= <-]; unfold minutes, hours, days; lia|]). done.
Qed.

Lemma incident_command_menu key action argument c :
  incident_command key action argument = Some c -> menu_command c.
Proof.
  unfold incident_command. repeat case_bool_decide; try (by intros [= <-]).
  destruct (parse_snooze_duration argument) as [duration|] eqn:Hp; [|done]. intros [= <-].
  by eapply parse_snooze_menu.
Qed.

Lemma handle_queue amb event a : queue_ok a -> queue_ok (step amb event a).1.
Proof.
  intros [Hl Hm]. destruct event; cbn [handle]; try done.
  - by destruct (hide_window_rest amb a) as (m & e & ->).
  - destruct (tray_toggle_action _ _); [|done|].
    + by destruct (open_window_rest amb a) as (m & e & ->).
    + by destruct (hide_window_rest amb a) as (m & e & ->).
  - by destruct (open_window_rest amb a) as (m & e & ->).
  - unfold toggle_autostart. by destruct (set_autostart _ _ _ _) as [w [b|e]].
  - unfold restart_config_is_valid. destruct (load_config _ _ _) as [w [c|e]]; [|done]. cbn [negb].
    by destruct (quit_app_rest amb (set_restart (set_world w a))) as (m & effects & ->).
  - by destruct (quit_app_rest amb a) as (m & e & ->).
  - unfold incident_action. destruct (incident_command _ _ _) as [c|] eqn:Hc; [|done].
    destruct (negb _); [done|]. destruct (Nat.ltb_spec (length (app_commands a)) COMMAND_CAPACITY);
      [|done]. split; simpl.
    + rewrite length_app. simpl. lia.
    + apply list.Forall_app. split; [done|]. constructor; [|constructor].
      by eapply incident_command_menu.
  - unfold handle_signal. by destruct (app_signalled a).
  - destruct (app_posted a); [done|].
    by destruct (quit_app_rest amb (set_posted n a)) as (m & e & ->).
  - split; simpl; [rewrite length_drop; lia|by apply list.Forall_drop].
  - by destruct (handle_winit_event _ _ _) as [m requests].
Qed.

Lemma loop_queue events a : queue_ok a -> queue_ok (loop events a).1.1.
Proof.
  revert a. induction events as [|[amb event] events IH]; intros a Ha; [done|].
  destruct (app_quit a) eqn:Hq; [by rewrite loop_quit|].
  rewrite loop_cons by done. pose proof (handle_queue amb event a Ha) as Hs.
  destruct (forced _); [done|]. specialize (IH _ Hs).
  by destruct (loop events (step amb event a).1) as [[a' effects] exited].
Qed.

Lemma loop_exited events a :
  (loop events a).2 = true -> exists code, ForcedExit code ∈ (loop events a).1.2.
Proof.
  revert a. induction events as [|[amb event] events IH]; intros a; [done|].
  destruct (app_quit a) eqn:Hq; [by rewrite loop_quit|]. rewrite loop_cons by done.
  destruct (forced (step amb event a).2) eqn:Hf.
  - intros _. simpl. apply existsb_exists in Hf as (e & Hin%list_elem_of_In & He).
    destruct e; try done. eauto.
  - specialize (IH (step amb event a).1).
    destruct (loop events (step amb event a).1) as [[a' effects] exited]. simpl in *.
    intros (code & Hc)%IH. exists code. apply elem_of_app. by right.
Qed.

Lemma loop_signalled events a : app_signalled a = true -> app_signalled (loop events a).1.1 = true.
Proof.
  revert a. induction events as [|[amb event] events IH]; intros a Ha; [done|].
  destruct (app_quit a) eqn:Hq; [by rewrite loop_quit|].
  rewrite loop_cons by done. destruct (handle_flags env config_path amb event a) as [_ _ H3 _].
  rewrite Ha in H3. destruct (forced _); [done|]. specialize (IH _ H3).
  by destruct (loop events (step amb event a).1) as [[a' effects] exited].
Qed.
End MoreLoop.

(** ** The end of a run *)

(** A list with further elements. *)
Inductive inserted {A} (P : A -> Prop) : list A -> list A -> Prop :=
| inserted_nil : inserted P [] []
| inserted_keep x l l' : inserted P l l' -> inserted P (x :: l) (x :: l')
| inserted_new y l l' : P y -> inserted P l l' -> inserted P l (y :: l').

Section Inserted.
Context {A : Type} (P : A -> Prop).

Lemma inserted_refl l : inserted P l l.
Proof. induction l; by constructor. Qed.
Lemma inserted_more new l l' : Forall P new -> inserted P l l' -> inserted P l (new ++ l').
Proof. induction 1; intros; simpl; [done|]. constructor; auto. Qed.
Lemma inserted_app l1 l1' l2 l2' :
  inserted P l1 l1' -> inserted P l2 l2' -> inserted P (l1 ++ l2) (l1' ++ l2').
Proof. induction 1; intros; simpl; [done|constructor; auto..]. Qed.
Lemma inserted_elem l l' x : inserted P l l' -> x ∈ l -> x ∈ l'.
Proof. induction 1; set_solver. Qed.
Lemma inserted_from l l' x : inserted P l l' -> x ∈ l' -> x ∈ l \/ P x.
Proof. induction 1; rewrite ?elem_of_cons; set_solver. Qed.
Lemma inserted_split l1 x l2 l' :
  inserted P (l1 ++ x :: l2) l' ->
  exists l1' l2', l' = l1' ++ x :: l2' /\ inserted P l1 l1' /\ inserted P l2 l2'.
Proof.
  intros Hi. remember (l1 ++ x :: l2) as l eqn:Hl. revert l1 Hl.
  induction Hi as [|y l l' Hi IH|y l l' Hy Hi IH]; intros l1 Hl.
  - by destruct l1.
  - destruct l1 as [|z l1]; injection Hl as -> ->.
    + exists [], l'. split; [done|]. split; [constructor|done].
    + destruct (IH l1 eq_refl) as (a & b & -> & H1 & H2).
      exists (z :: a), b. split; [done|]. split; [by constructor|done].
  - destruct (IH l1 Hl) as (a & b & -> & H1 & H2).
    exists (y :: a), b. split; [done|]. split; [by constructor|done].
Qed.
End Inserted.

Section Ends.
Context `{TempNames} (env : SetupEnv) (config_path : string) {A : Type} (perform : UiEffect -> list A).

(** An act of a log line. *)
Definition of_log (x : A) : Prop := exists level text, x ∈ perform (Log level text).

Lemma signal_effects amb a :
  (app_signalled a = true /\ (handle_signal amb a).2 =
     [Log LWarn "received another termination signal; forcing exit"; ForcedExit 1]) \/
  (app_signalled a = false /\ forced (handle_signal amb a).2 = false /\
   app_signalled (handle_signal amb a).1 = true /\
   Forall of_log ((handle_signal amb a).2 ≫= perform)).
Proof.
  unfold handle_signal. destruct (app_signalled a); [by left|right]. split; [done|].
  assert (forall level text, Forall of_log (perform (Log level text))) as Hl.
  { intros level text. apply list.Forall_forall. intros x Hx. by exists level, text. }
  destruct (amb_post amb); simpl; (split; [done|]; split; [done|]); rewrite ?app_nil_r;
    repeat (apply list.Forall_app; split); auto.
Qed.

(** A run of the teardown keeps its acts, between log lines of a signal, or the process
    exits in the middle of them. *)
Lemma with_signals_ends late a acts :
  let '(out, exited) := with_signals perform late a acts in
  if exited : bool
  then exists pre rest, acts = pre ++ rest /\ exists out', inserted of_log pre out' /\
    out = out' ++ perform (Log LWarn "received another termination signal; forcing exit") ++
          perform (ForcedExit 1)
  else inserted of_log acts out.
Proof.
  revert a acts. induction late as [|[k amb] late IH]; intros a acts; cbn [with_signals].
  { apply inserted_refl. }
  destruct (signal_effects amb a) as [[_ He]|(_ & Hf & Hs & Hl)];
    destruct (handle_signal amb a) as [a1 effects]; cbn [fst snd] in *.
  - subst effects. simpl. exists (take k acts), (drop k acts). split; [by rewrite take_drop|].
    exists (take k acts). split; [apply inserted_refl|]. by rewrite app_nil_r.
  - rewrite Hf. specialize (IH a1 (drop k acts)).
    destruct (with_signals perform late a1 (drop k acts)) as [rest [|]].
    + destruct IH as (pre & tail & Hd & out' & Hi & ->).
      exists (take k acts ++ pre), tail. split; [by rewrite <-app_assoc, <-Hd, take_drop|].
      exists (take k acts ++ (effects ≫= perform) ++ out').
      split; [by apply inserted_app, inserted_more; [apply inserted_refl|..]|].
      by rewrite <-!app_assoc.
    + rewrite <-(take_drop k acts) at 1. rewrite <-app_assoc.
      by apply inserted_app, inserted_more; [apply inserted_refl|..].
Qed.

(** How [run] ends from the event loop on: the runtime is shut down once, when everything
    before it was performed, or the process exits at once. *)
Lemma run_loop_ends events amb event_loop_result late a :
  let '(acts, r) := run_loop env config_path perform events amb event_loop_result late a in
  match r with
  | Some _ => exists before mid out, (RuntimeShutdown ∉ before) /\ (RuntimeShutdown ∉ mid) /\
      acts = (before ≫= perform) ++ out /\
      inserted of_log ((mid ≫= perform) ++ perform RuntimeShutdown ++
                       perform (Log LInfo "shutdown complete")) out
  | None => exists code, forall x, x ∈ perform (ForcedExit code) -> x ∈ acts
  end /\ forall x, x ∈ acts -> exists e, x ∈ perform e.
Proof.
  unfold run_loop. pose proof (no_shutdown_loop env config_path events a) as Hn.
  pose proof (loop_exited env config_path events a) as Hx.
  assert (forall effects x, x ∈ effects ≫= perform -> exists e, x ∈ perform e) as Hall
    by (intros effects x (e & Hin & _)%list_elem_of_bind; eauto).
  destruct (event_loop env config_path events a) as [[a' e'] [|]].
  { destruct (Hx eq_refl) as [code Hc]. split; [|apply Hall]. exists code. intros x Hin.
    apply list_elem_of_bind. eauto. }
  unfold teardown. destruct (save_visible amb a') as [a'' r].
  set (mid := [Log LInfo "shutting down"] ++
    log_error r "failed to save window geometry during shutdown: ").
  rewrite (app_assoc [Log _ _] (log_error _ _)). fold mid.
  assert (forall acts out, inserted of_log acts out -> (forall x, x ∈ acts -> exists e, x ∈ perform e) ->
    forall x, x ∈ out -> exists e, x ∈ perform e) as Hins.
  { intros acts out Hi Ha x [Hin|(l & t & Hin)]%(inserted_from _ _ _ x Hi); eauto. }
  pose proof (with_signals_ends late a' ((mid ++ [RuntimeShutdown; Log LInfo "shutdown complete"])
    ≫= perform)) as He.
  destruct (with_signals perform late a' _) as [out [|]].
  - destruct He as (pre & rest & Hp & out' & Hi & ->). split.
    + exists 1%Z. intros x Hin. rewrite !elem_of_app. auto.
    + intros x. rewrite !elem_of_app. intros [?|[?|[?|?]]]; eauto.
      eapply Hins; [exact Hi| |done]. intros y Hy. apply (Hall (mid ++ [RuntimeShutdown; Log LInfo "shutdown complete"])).
      rewrite Hp. apply elem_of_app. by left.
  - split.
    + exists e', mid, out. split; [done|]. split; [|split; [done|]].
      * unfold mid. rewrite not_elem_of_app. split; [set_solver|apply no_shutdown_log].
      * rewrite bind_app in He. simpl in He. by rewrite app_nil_r in He.
    + intros x. rewrite elem_of_app. intros [?|?]; eauto.
Qed.
End Ends.

(** ** Properties *)

(** C36: The application replaces itself only with a configuration that works. If the run
    ends with a restart, then a restart was asked for in a state in which the
    configuration file loaded and validated; a restart that is asked for with a broken
    configuration leaves the application running. *)
Theorem restart_config_valid `{TempNames} (env : SetupEnv) (config_path : string)
    (events : list (Ambient * UiEvent)) (amb : Ambient) (event_loop_result : Result unit)
    (late : list (nat * Ambient)) (a : App) (effects : list UiEffect) :
  app_restart a = false ->
  run_loop env config_path (fun e => [e]) events amb event_loop_result late a
    = (effects, Some (Ok RestartOutcome)) ->
  exists a' amb', handled env config_path a events a' amb' RestartClicked /\
    is_ok (load_config env config_path (app_world a')).2 = true.
Proof.
  intros Ha. unfold run_loop.
  pose proof (loop_restart env config_path events a Ha) as Hr.
  destruct (event_loop env config_path events a) as [[a' e'] [|]]; [done|].
  unfold teardown. destruct (save_visible amb a') as [a'' geometry_result].
  destruct (with_signals _ _ _ _) as [acts [|]]; [done|].
  destruct event_loop_result as [[]|e]; simpl; [|done].
  destruct geometry_result as [[]|e]; simpl; [|done].
  destruct (app_restart a') eqn:Hb; [|done]. intros _. by apply Hr.
Qed.

(** A return means that the network is down. Whatever events came, whatever signals
    arrived in the teardown and however the event loop and the saving of the window ended,
    if [run] returns at all, the runtime was stopped exactly once, and after it nothing
    happened but log lines. Otherwise the process was ended. *)
Theorem shutdown_once `{TempNames} (env : SetupEnv) (config_path : string)
    (events : list (Ambient * UiEvent)) (amb : Ambient) (event_loop_result : Result unit)
    (late : list (nat * Ambient)) (a : App) :
  let '(effects, r) :=
    run_loop env config_path (fun e => [e]) events amb event_loop_result late a in
  match r with
  | Some _ => exists before after, effects = before ++ RuntimeShutdown :: after /\
      (RuntimeShutdown ∉ before) /\ forall e, e ∈ after -> exists level text, e = Log level text
  | None => exists code, ForcedExit code ∈ effects
  end.
Proof.
  pose proof (run_loop_ends env config_path (fun e => [e]) events amb event_loop_result late a) as He.
  assert (forall l : list UiEffect, l ≫= (fun e => [e]) = l) as Hid
    by (intros l; induction l; csimpl; congruence).
  assert (forall x, of_log (fun e : UiEffect => [e]) x -> exists level text, x = Log level text) as Hl
    by (intros x (level & text & ->%list_elem_of_singleton); eauto).
  destruct (run_loop _ _ _ events amb event_loop_result late a) as [effects [r|]]; destruct He as [He _].
  - destruct He as (before & mid & out & Hb & Hm & -> & Hi). rewrite !Hid in *. simpl in Hi.
    apply inserted_split in Hi as (o1 & o2 & -> & H1 & H2). exists (before ++ o1), o2.
    split; [by rewrite <-app_assoc|]. split.
    + rewrite not_elem_of_app. split; [done|].
      intros [?|(level & text & [=])%Hl]%(inserted_from _ _ _ _ H1). done.
    + intros e [->%list_elem_of_singleton|?%Hl]%(inserted_from _ _ _ _ H2); eauto.
  - destruct He as [code Hc]. exists code. apply Hc. by left.
Qed.

Section Signals.
Context `{TempNames} (env : SetupEnv) (config_path : string).
Abbreviation loop := (event_loop env config_path).
Abbreviation last_words :=
  [Log LWarn "received another termination signal; forcing exit"; ForcedExit 1].

(** The loop ends with the call of a signal that it accepted. *)
Lemma loop_call before between signal call a :
  Forall (fun e => e.2 <> Signal) before -> app_signalled a = false -> amb_post signal = None ->
  Forall (fun e => e.2 <> Posted) between ->
  let '(a', _, exited) := loop ((before ++ (signal, Signal) :: between) ++ [(call, Posted)]) a in
  app_quit a' = true \/ exited = true.
Proof.
  intros Hb Ha Hp Hm. rewrite <-app_assoc, loop_app.
  pose proof (loop_unsignalled env config_path before a Hb Ha) as Hu.
  destruct (loop before a) as [[a1 e1] [|]]; [by right|].
  destruct (app_quit a1) eqn:Hq; [rewrite loop_quit by done; by left|].
  cbn [app]. rewrite loop_cons by done.
  unfold handle at 1 2 3, handle_signal. simpl in Hu. rewrite Hu, Hp. cbn. rewrite loop_app.
  pose proof (loop_posted env config_path between (set_signal (S (app_posted a1)) a1)
    (or_introl (Nat.lt_0_succ _)) Hm) as Hpost.
  destruct (loop between _) as [[a2 e2] [|]]; [by right|].
  destruct Hpost as [?|Hpost]; [done|].
  destruct (app_quit a2) eqn:Hq2; [rewrite loop_quit by done; by left|].
  rewrite loop_cons by done.
  destruct (handle_flags env config_path call Posted a2) as [H1 _ _ _].
  destruct Hpost as [Hpost|?]; [|done]. apply Nat.ltb_lt in Hpost. cbn [ends_loop] in H1.
  rewrite Hpost, orb_true_r in H1. destruct (forced _);
    [by destruct (handle env config_path call Posted a2); right|]. by left.
Qed.

(** A signal that the loop saw is remembered. *)
Lemma loop_remembers before between signal a :
  app_quit (loop before a).1.1 = false -> (loop (before ++ (signal, Signal) :: between) a).2 = false ->
  app_signalled (loop (before ++ (signal, Signal) :: between) a).1.1 = true.
Proof.
  rewrite loop_app. destruct (loop before a) as [[a1 e1] [|]]; [done|]. cbn [fst snd]. intros Hq.
  rewrite loop_cons by done. cbn [handle].
  pose proof (signal_effects (fun e => [e]) signal a1) as Hs.
  destruct (handle_signal signal a1) as [a2 e2]. cbn [fst snd] in *.
  destruct Hs as [[_ ->]|(_ & Hf & Hs & _)]; [done|]. rewrite Hf.
  apply (loop_signalled env config_path between) in Hs.
  by destruct (loop between a2) as [[a3 e3] x3].
Qed.

Lemma loop_running before rest a :
  (loop (before ++ rest) a).2 = false -> app_quit (loop (before ++ rest) a).1.1 = false ->
  app_quit (loop before a).1.1 = false.
Proof.
  rewrite loop_app. destruct (loop before a) as [[a1 e1] [|]]; [done|]. simpl.
  destruct (app_quit a1) eqn:Hq; [|done]. rewrite loop_quit by done. simpl. congruence.
Qed.
End Signals.

(** C35: A termination signal ends the program, and a second one ends it at once. After a
    signal whose call the event loop accepted, whatever else happens in between, the loop
    has ended once it has run that call, or the process has exited because of another
    signal; what comes later is not handled any more. A signal after another one, while the
    loop still runs, exits the process with code 1 there. So does one during the teardown,
    the shutdown of the runtime included, after however many of its acts: nothing follows
    and [run] does not return. Signals that come only in the teardown do the same from the
    second one on. *)
Theorem signal_ends `{TempNames} (env : SetupEnv) (config_path : string)
    (before between later : list (Ambient * UiEvent)) (signal again call last : Ambient)
    (event_loop_result : Result unit) (k k' : nat) (late : list (nat * Ambient)) (a : App)
    {A : Type} (perform : UiEffect -> list A) :
  Forall (fun e => e.2 <> Signal) before -> app_signalled a = false ->
  let run events := event_loop env config_path events a in
  let first := before ++ (signal, Signal) :: between in
  let exit := [Log LWarn "received another termination signal; forcing exit"; ForcedExit 1] in
  (amb_post signal = None -> Forall (fun e => e.2 <> Posted) between ->
   (app_quit (run (first ++ [(call, Posted)])).1.1 = true \/ (run (first ++ [(call, Posted)])).2 = true) /\
   run ((first ++ [(call, Posted)]) ++ later) = run (first ++ [(call, Posted)])) /\
  ((run first).2 = false -> app_quit (run first).1.1 = false ->
   run (first ++ (again, Signal) :: later) = ((run first).1.1, (run first).1.2 ++ exit, true)) /\
  ((run first).2 = false -> app_quit (run before).1.1 = false ->
   run_loop env config_path perform first last event_loop_result ((k, again) :: late) a =
     (((run first).1.2 ≫= perform) ++
      take k ((teardown last event_loop_result (run first).1.1).1 ≫= perform) ++ (exit ≫= perform),
      None)) /\
  ((run before).2 = false -> exists acts,
   run_loop env config_path perform before last event_loop_result
     ((k, signal) :: (k', again) :: late) a = (acts ++ (exit ≫= perform), None)).
Proof.
  intros Hb Ha. cbv zeta. split_and!.
  - intros Hp Hm. pose proof (loop_call env config_path before between signal call a Hb Ha Hp Hm) as Hend.
    rewrite (loop_app env config_path (_ ++ [(call, Posted)])).
    destruct (event_loop _ _ (_ ++ [(call, Posted)]) a) as [[a' e'] x']. split; [done|].
    destruct x'; [done|]. destruct Hend as [Hq|?]; [|done]. by rewrite loop_quit, app_nil_r.
  - intros Hx Hq. pose proof (loop_running _ _ _ _ _ Hx Hq) as Hq0.
    pose proof (loop_remembers _ _ _ _ _ _ Hq0 Hx) as Hs. rewrite loop_app.
    destruct (event_loop _ _ (before ++ _) a) as [[a' e'] x'].
    cbn [fst snd] in *. subst x'.
    rewrite loop_cons by done. cbn [handle]. unfold handle_signal. by rewrite Hs.
  - intros Hx Hq. pose proof (loop_remembers _ _ _ _ _ _ Hq Hx) as Hs. unfold run_loop.
    destruct (event_loop _ _ (before ++ _) a) as [[a' e'] x']. simpl in Hx, Hs |- *. subst x'.
    destruct (teardown _ _ a') as [effects r]. unfold handle_signal. by rewrite Hs.
  - intros Hx. pose proof (loop_unsignalled env config_path before a Hb Ha) as Hs. unfold run_loop.
    destruct (event_loop _ _ before a) as [[a' e'] x']. simpl in Hx, Hs |- *. subst x'.
    destruct (teardown _ _ a') as [effects r]. cbn [with_signals].
    unfold handle_signal at 1. rewrite Hs. destruct (amb_post signal); simpl;
      eexists; f_equal; by rewrite !app_assoc.
Qed.

(** The command queue is bounded and typed. Whatever the window asks for, in whatever
    interleaving with the runtime, the queue never exceeds its capacity of 32, and every
    snooze in it lasts between 15 minutes and 7 days. *)
Theorem commands_bounded `{TempNames} (env : SetupEnv) (config_path : string)
    (events : list (Ambient * UiEvent)) (a : App) :
  app_commands a = [] ->
  let '(a', _, _) := event_loop env config_path events a in
  length (app_commands a') <= COMMAND_CAPACITY /\ Forall menu_command (app_commands a').
Proof.
  intros Ha. pose proof (loop_queue env config_path events a) as Hq.
  destruct (event_loop env config_path events a) as [[a' effects] exited]. apply Hq.
  split; rewrite Ha; [unfold COMMAND_CAPACITY; simpl; lia|constructor].
Qed.

(** Preferences come back. When the window's change of theme and sections was saved,
    then a later start shows exactly these, and the snoozes, the window placement and all
    fields that this version does not know are as they were. *)
Theorem preferences_persist `{C : JsonCodec} `{!JsonLaws C} (state_error : string)
    (faults : Faults) (temp path : string) (window : Toggles) (fs : FS) (states : list FS)
    (s : StateFile) :
  temp <> path -> Persistence.keeps (preferences_changed window) -> state_ok s ->
  load state_error no_faults path fs = Ok s ->
  update state_error faults temp path (preferences_changed window) fs = (states, Ok tt) ->
  exists s', load state_error no_faults path (final fs states) = Ok s' /\
    apply_preferences s' = window /\ sf_snoozed s' = sf_snoozed s /\ sf_extra s' = sf_extra s /\
    pref_window_geometry (sf_preferences s') = pref_window_geometry (sf_preferences s) /\
    pref_extra (sf_preferences s') = pref_extra (sf_preferences s) /\
    sections_extra (pref_sections (sf_preferences s')) =
      sections_extra (pref_sections (sf_preferences s)).
Proof.
  intros Hne Hk Hok Hl Hu.
  destruct (update_effect state_error faults temp path _ fs states (Ok tt) s Hne Hk Hok Hl Hu)
    as (s' & [= <-] & _ & Hl').
  eexists. split; [exact Hl'|]. split; [|done]. destruct window as [[] ? ? ?]; done.
Qed.

(** ** Startup *)

Lemma read_bytes_present path data mode w w' text :
  w_tree w !! path = Some (NFile data mode) -> read_bytes path w = (w', Ok text) -> text = data.
Proof.
  intros Hp. assert (forall t : Tree, t !! path = Some (NFile data mode) ->
    read_node path t = Ok (data, mode)) as Hr.
  { intros t Ht. unfold read_node. rewrite resolve_not_link by (intros; congruence). by rewrite Ht. }
  unfold read_bytes, sys. destruct (w_script w) as [|[| |p d m] rest]; simpl;
    rewrite ?Hr by (rewrite ?race_present; congruence); intros; by simplify_eq/=.
Qed.

Lemma read_bytes_absent path w w' text :
  w_tree w !! path = None -> (forall data mode, Races path data mode ∉ w_script w) ->
  read_bytes path w <> (w', Ok text).
Proof.
  intros Hp Hraces.
  assert (forall t : Tree, t !! path = None -> is_ok (read_node path t) = false) as Hr.
  { intros t Ht. unfold read_node. rewrite resolve_not_link by (intros; congruence). by rewrite Ht. }
  unfold read_bytes, sys. destruct (w_script w) as [|[| |p d m] rest]; simpl; try done.
  1,2: specialize (Hr _ Hp); by destruct (read_node path (w_tree w)).
  assert (race p d m (w_tree w) !! path = None) as Hn.
  { destruct (race_lookup p d m (w_tree w) path) as [He|(-> & _)]; [congruence|].
    exfalso. apply (Hraces d m). by left. }
  specialize (Hr _ Hn). by destruct (read_node path (race p d m (w_tree w))).
Qed.

Section StartupLemmas.
Context `{TempNames} (env : SetupEnv) (path : string).

Lemma keeps_is_missing base ok P :
  stable ok P whatever -> Io.keeps (moments base ok P whatever) (config_is_missing path).
Proof.
  intros Hs. unfold config_is_missing. apply keeps_bind; [|intros; apply keeps_ret].
  apply keeps_try, keeps_sys; [done|done|]. intros t HP _. simpl. done.
Qed.

Lemma keeps_startup base t0 :
  Io.keeps (moments base anything (unchanged nowhere t0) whatever) (load_startup_config env path).
Proof.
  pose proof (keeps_is_missing base anything (unchanged nowhere t0) (stable_unchanged _ _)).
  assert (Io.keeps (moments base anything (unchanged nowhere t0) whatever)
    (install_file path (DEFAULT_CONFIG env) false)) by (by apply keeps_install_file).
  pose proof (keeps_load_config env base nowhere t0 path).
  unfold load_startup_config, ensure_config, create_default_config. io_keeps.
Qed.

(** The configuration that a text is. *)
Lemma load_config_text w w' c :
  load_config env path w = (w', Ok c) ->
  exists w1 text, read_bytes path w = (w1, Ok text) /\ env_from_slice env text = Ok c /\
    validate (env_debug_str env) c = Ok tt.
Proof.
  unfold load_config, mbind, io_bind, ctx, lift.
  destruct (read_bytes path w) as [w1 [text|e]]; [|done]. intros [= _ Hl]. exists w1, text.
  split; [done|]. revert Hl. unfold Config.load. simpl.
  destruct (env_from_slice env text) as [c'|e]; simpl; [|done].
  destruct (validate _ c') as [[]|e] eqn:Hv; simpl; [|done]. by intros [= <-].
Qed.

(** After the default was created, or could not be. *)
Lemma startup_created w w1 r1 :
  private_path path = false -> w_tree w !! path = None ->
  (forall data mode, Races path data mode ∉ w_script w) ->
  ensure_config env path w = (w1, Ok r1) ->
  (forall data mode, Races path data mode ∉ w_script w1) /\
  (w_tree w1 !! path = None \/ w_tree w1 !! path = Some (NFile (DEFAULT_CONFIG env) public_mode)).
Proof.
  intros Hpriv Hnone Hraces.
  set (script := w_script w) in *. set (t0 := w_tree w) in *.
  assert (forall w2, moments (w_past w) (races_in script) (pending path script t0) whatever w2 ->
    (forall data mode, Races path data mode ∉ w_script w2) /\ w_tree w2 !! path = None) as Hpend.
  { intros w2 (Hp & _ & _ & Hs). rewrite list.Forall_forall in Hs. split.
    - intros data mode Hin%Hs. by apply (Hraces data mode).
    - destruct Hp as [Hp|(d & m & Hr & _)]; [congruence|]. by apply Hraces in Hr. }
  assert (moments (w_past w) (races_in script) (pending path script t0) whatever w) as Hw
    by (apply moments_begin; [by left|apply script_races]).
  unfold ensure_config, mbind, io_bind at 1. destruct (config_is_missing path w) as [w2 [missing|e]] eqn:Hm; [|done].
  assert (moments (w_past w) (races_in script) (pending path script t0) whatever w2) as Hw2.
  { eapply keeps_is_missing; [|exact Hw|exact Hm]. by apply stable_pending. }
  destruct missing; [|intros [= <- <-]; destruct (Hpend _ Hw2); auto].
  unfold Io.context, create_default_config, mbind, io_bind.
  destruct (install_file path (DEFAULT_CONFIG env) false w2) as [w3 [fr|e]] eqn:Hi; [|done].
  simpl. intros [= <- <-].
  pose proof (install_file_installed _ _ _ _ _ Hpriv _ _ _ _ Hw2 Hi) as Hins.
  destruct fr; simpl in Hins.
  - split; [|right; apply Hins]. destruct Hins as (_ & _ & _ & Hs).
    rewrite list.Forall_forall in Hs. intros data mode Hin%Hs. by apply (Hraces data mode).
  - apply moments_whatever, Hpend in Hins as [? ?]. auto.
  - split; [|right; apply Hins]. destruct Hins as (_ & _ & _ & Hs).
    rewrite list.Forall_forall in Hs. intros data mode Hin%Hs. by apply (Hraces data mode).
Qed.
End StartupLemmas.

(** The first start writes a configuration, a later one never does. At every moment of
    loading the startup configuration everything that was there is unchanged, whatever
    calls fail; and if there was no configuration and no other process creates one, then
    a successful start runs with the default configuration and has left it, complete, at
    its path. *)
Theorem startup_config `{TempNames} (env : SetupEnv) (path : string) (w w' : World)
    (r : Result Config) :
  private_path path = false -> w_past w = [] -> load_startup_config env path w = (w', r) ->
  (forall t p n, moment w' t -> w_tree w !! p = Some n -> t !! p = Some n) /\
  (w_tree w !! path = None -> (forall data mode, Races path data mode ∉ w_script w) ->
   forall c, r = Ok c ->
     env_from_slice env (DEFAULT_CONFIG env) = Ok c /\ validate (env_debug_str env) c = Ok tt /\
     w_tree w' !! path = Some (NFile (DEFAULT_CONFIG env) public_mode)).
Proof.
  intros Hpriv Hpast Hrun. split.
  - intros t p n Ht Hp. eapply (unchanged_moments _ nowhere); try done; [|by intros []].
    apply keeps_startup.
  - intros Hnone Hraces c ->.
    assert (exists w1 b, ensure_config env path w = (w1, Ok b) /\
      load_config env path w1 = (w', Ok c)) as (w1 & b & H1 & H2).
    { revert Hrun. unfold load_startup_config, mbind, io_bind.
      destruct (ensure_config env path w) as [w1 [b|e]]; [eauto|done]. }
    destruct (startup_created env path w w1 b Hpriv Hnone Hraces H1) as [Hr1 Hfile].
    destruct (load_config_text env path w1 w' c H2) as (w2 & text & Hread & Hslice & Hvalid).
    destruct Hfile as [Habsent|Hfile]; [by apply (read_bytes_absent path w1 w2 text) in Hread|].
    rewrite <-(read_bytes_present _ _ _ _ _ _ Hfile Hread). repeat (split; [done|]).
    assert (moments (w_past w1) anything (unchanged nowhere (w_tree w1)) whatever w') as [Hu _].
    { eapply keeps_load_config; [|exact H2].
      apply moments_begin; [apply unchanged_start|apply script_anything]. }
    rewrite (read_bytes_present _ _ _ _ _ _ Hfile Hread). apply Hu; [done|by intros []].
Qed.

(** ** Small runs *)

Definition demo_ambient : Ambient :=
  {| amb_view := {| view_native := None; view_maximized := false; view_fullscreen := false;
                    view_visible := true |};
     amb_focus := None; amb_show := Ok tt; amb_hide := Ok tt; amb_store := fun _ => Ok tt;
     amb_push := Ok tt; amb_open := None; amb_save := Ok tt; amb_post := None;
     amb_runtime := true |}.

Definition demo_app : App :=
  {| app_world := world_of [("/c/montray.yml", NFile "ok" 420)] []; app_geometry := manager_new None;
     app_autostart := false; app_restart := false; app_quit := false; app_signalled := false;
     app_posted := 0; app_commands := [] |}.

Lemma restart_config_valid_witness :
  (run_loop demo_env "/c/montray.yml" (fun e => [e]) [(demo_ambient, OpenWindow); (demo_ambient, RestartClicked)]
     demo_ambient (Ok tt) [] demo_app).2 = Some (Ok RestartOutcome) /\
  exists a', is_ok (load_config demo_env "/c/montray.yml" (app_world a')).2 = true.
Proof.
  destruct (run_loop _ _ _ _ _ _ _ _) as [effects r] eqn:Hrun.
  assert (r = Some (Ok RestartOutcome)) as ->.
  { apply (f_equal snd) in Hrun. vm_compute in Hrun. by symmetry. }
  split; [reflexivity|].
  apply restart_config_valid in Hrun as (a' & amb' & _ & Hv); [|reflexivity].
  exists a'. exact Hv.
Defined.

Lemma signal_ends_witness :
  let first := [(demo_ambient, ToggleWindow)] ++ (demo_ambient, Signal) ::
               [(demo_ambient, CloseRequested)] in
  app_quit (event_loop demo_env "/c/montray.yml" (first ++ [(demo_ambient, Posted)]) demo_app).1.1
    = true /\
  (event_loop demo_env "/c/montray.yml" (first ++ [(demo_ambient, Signal)]) demo_app).2 = true /\
  (run_loop demo_env "/c/montray.yml" (fun e => [e]) first demo_ambient (Ok tt)
     [(2, demo_ambient)] demo_app).2 = None.
Proof.
  cbv zeta.
  destruct (signal_ends demo_env "/c/montray.yml" [(demo_ambient, ToggleWindow)]
    [(demo_ambient, CloseRequested)] [] demo_ambient demo_ambient demo_ambient demo_ambient (Ok tt)
    2 0 [] demo_app (fun e => [e])) as (H1 & H2 & H3 & _);
    [by repeat constructor|reflexivity|].
  split; [|split].
  - destruct H1 as [[Hq|Hx] _]; [reflexivity|by repeat constructor|exact Hq|].
    vm_compute in Hx. discriminate Hx.
  - rewrite H2 by (vm_compute; reflexivity). reflexivity.
  - rewrite H3 by (vm_compute; reflexivity). reflexivity.
Defined.

Lemma commands_bounded_witness :
  let events := repeat (demo_ambient, IncidentAction "a.b" "snooze" "15m") 40 in
  length (app_commands (event_loop demo_env "/c/montray.yml" events demo_app).1.1) = 32 /\
  Forall menu_command (app_commands (event_loop demo_env "/c/montray.yml" events demo_app).1.1).
Proof.
  cbv zeta. split; [vm_compute; reflexivity|].
  pose proof (commands_bounded demo_env "/c/montray.yml"
    (repeat (demo_ambient, IncidentAction "a.b" "snooze" "15m") 40) demo_app eq_refl) as Hb.
  destruct (event_loop _ _ _ _) as [[a' effects] exited]. exact (proj2 Hb).
Defined.

Definition demo_toggles : Toggles :=
  {| dark_theme := false; ui_servers_expanded := false; ui_active_expanded := true;
     ui_snoozed_expanded := true |}.

Lemma preferences_changed_keeps window : Persistence.keeps (C := coded) (preferences_changed window).
Proof. intros s s' [H1 H2 H3 H4 H5 H6] [= <-]. split; [|done]. by split. Qed.

Lemma preferences_persist_witness :
  exists states s',
    update (C := coded) "" no_faults "/t" "/state" (preferences_changed demo_toggles) ∅ =
      (states, Ok tt) /\
    load (C := coded) "" no_faults "/state" (final ∅ states) = Ok s' /\
    apply_preferences s' = demo_toggles.
Proof.
  destruct (update (C := coded) "" no_faults "/t" "/state" (preferences_changed demo_toggles) ∅)
    as [states r] eqn:Hu.
  assert (r = Ok tt) as -> by (change r with (states, r).2; rewrite <-Hu; reflexivity).
  destruct (preferences_persist (C := coded) "" no_faults "/t" "/state" demo_toggles ∅ states
    StateFile_default) as (s' & H1 & H2 & _);
    [discriminate|apply preferences_changed_keeps|apply StateFile_default_ok|reflexivity|exact Hu|].
  exists states, s'. split; [reflexivity|]. split; [exact H1|exact H2].
Defined.

Lemma startup_config_witness :
  let '(w', r) := load_startup_config demo_env "/c/montray.yml" (world_of [] []) in
  r = Ok demo_config /\ w_tree w' !! "/c/montray.yml" = Some (NFile "ws_client: {}" public_mode).
Proof.
  destruct (load_startup_config _ _ _) as [w' r] eqn:Hrun.
  assert (r = Ok demo_config) as ->.
  { apply (f_equal snd) in Hrun. vm_compute in Hrun. by symmetry. }
  split; [reflexivity|]. apply startup_config in Hrun as [_ Hnew]; [|reflexivity..].
  refine (proj2 (proj2 (Hnew eq_refl _ demo_config eq_refl))).
  intros data mode Hin. by apply not_elem_of_nil in Hin.
Defined.
