(* ===== verification/Session.v ===== *)
(** * A session on the state file

    Everything that writes the state file while the application runs, together: the
    snooze transactions of the event pump ([runtime.rs], with the closure [persist] of
    [app.rs]), the preferences of the window ([app.rs]) and the placement of the window
    ([window_geometry.rs]), all through [Store::update] ([persistence.rs]). *)

From Stdlib Require Import ZArith Lia.
From stdpp Require Import base gmap strings list option.
From S2P Require Import Prelude RustStr RustPath Domain Reducer ReducerSnooze ReducerNotify Config Protocol StateFile Persistence Runtime Geometry App.

(** ** The writers *)

(** The change that [WindowGeometryManager::persist] makes. *)
Definition geometry_changed (placement : WindowGeometry) (state : StateFile) : Result StateFile :=
  let p := sf_preferences state in
  Ok (set_sf_preferences
    {| pref_theme := pref_theme p; pref_sections := pref_sections p;
       pref_window_geometry := Some placement; pref_extra := pref_extra p |} state).

(** The snooze maps a turn wrote, with how each write was reported. *)
Definition writes (acts : list Act) : list (gmap string OffsetDateTime * WriteOutcome) :=
  omap (fun act => match act with Wrote m _ _ outcome _ => Some (m, outcome) | _ => None end) acts.

(** What the pump sees of a transaction: the worker may also have panicked before the
    rename, which the drop of the temporary file follows as well. *)
Definition reports (outcome : WriteOutcome) (r : Result unit) : bool :=
  match outcome, r with
  | Written, Ok _ | WorkerFailed _, Err _ => true
  | WriteFailed e, Err e' => bool_decide (e = e')
  | _, _ => false
  end.

(** The placement that [hide] or [save] asks the store to write. *)
Definition asks (m : Manager) (v : View) : option WindowGeometry :=
  let '(m, placement) := capture_placement m v in
  placement ≫= fun p => if bool_decide (last_persisted m = Some p) then None else Some p.

Record Session := mkSession {
  ss_fs : FS;
  ss_pump : Pump;
  ss_manager : Manager;
  ss_saved : Toggles;   (* the preferences saved last *)
}.

(** A turn of the runtime, a change of the preferences, or an operation of the geometry
    manager with what the native calls answer. *)
Inductive SessionStep :=
| PumpTurns (t : Turn)
| PreferencesSaved (window : Toggles)
| Placed (op : Op) (native_show native_hide : Result unit).

Section Session.
Context `{C : JsonCodec} `{R : Rfc3339}.
Variable state_error : string.
Variable available : bool.
Variable path : string.

(** The closure [persist] that [run] gives to the runtime. *)
Definition persist_snoozes (faults : Faults) (temp : string) (snoozes : gmap string OffsetDateTime)
    (fs : FS) : list FS * Result unit :=
  update state_error faults temp path (fun s => replace_snoozes s snoozes) fs.

(** One step: the file-system states it goes through, and the session after it. *)
Definition session_step (s : Session) (faults : Faults) (temp : string) (step : SessionStep)
    : option (list FS * Session) :=
  let fs := ss_fs s in
  match step with
  | PumpTurns t =>
      '(p, acts) ← turn available (ss_pump s) t;
      match writes acts with
      | [] => Some ([fs], mkSession fs p (ss_manager s) (ss_saved s))
      | (m, outcome) :: _ =>
          let '(states, r) := persist_snoozes faults temp m fs in
          if reports outcome r
          then Some (states, mkSession (final fs states) p (ss_manager s) (ss_saved s)) else None
      end
  | PreferencesSaved window =>
      let '(states, r) := update state_error faults temp path (preferences_changed window) fs in
      Some (states, mkSession (final fs states) (ss_pump s) (ss_manager s)
                      (match r with Ok _ => window | Err _ => ss_saved s end))
  | Placed op native_show native_hide =>
      let store g := (update state_error faults temp path (geometry_changed g) fs).2 in
      let m := apply_op store native_show native_hide (ss_manager s) op in
      let states :=
        match op with
        | OpHide v | OpSave v =>
            match asks (ss_manager s) v with
            | Some g => (update state_error faults temp path (geometry_changed g) fs).1
            | None => [fs]
            end
        | _ => [fs]
        end in
      Some (states, mkSession (final fs states) (ss_pump s) m (ss_saved s))
  end.
End Session.

(** ** At most one write per turn *)

Definition is_notify (e : Effect) : Prop := match e with Notify _ _ => True | _ => False end.

Section OneWrite.
Context `{R : Rfc3339} (available : bool).

Lemma reduce_notifies (s s' : AppState) (e : Event) (tr : Transition) :
  ~ snooze_event e -> reduce s e = Some (s', tr) -> Forall is_notify (tr_effects tr).
Proof.
  intros He Hr. destruct e as [id ?|id ? ?|id ?|id ? ?|id ?|id ? ?|?|?|?|?|?]; simpl in He, Hr;
    try (by destruct He); try (apply (inj Some) in Hr; revert Hr).
  - unfold connected. case_match; intros [= _ <-]; simpl; [|constructor].
    destruct (_ && _); by repeat constructor.
  - destruct (servers s !! id) as [srv|] eqn:Hs.
    + apply disconnected_handler in Hr as (_ & _ & _ & ->); [|by rewrite Hs].
      destruct (_ && _); by repeat constructor.
    + unfold disconnected in Hr. rewrite Hs in Hr. injection Hr as _ <-. constructor.
  - unfold tunnel_ready. case_match; intros [= _ <-]; simpl; [|constructor].
    destruct (_ && _); by repeat constructor.
  - destruct (servers s !! id) as [srv|] eqn:Hs.
    + apply tunnel_failed_handler in Hr as (_ & _ & _ & _ & ->); [|by rewrite Hs].
      destruct (_ && _); by repeat constructor.
    + unfold tunnel_failed in Hr. rewrite Hs in Hr. injection Hr as _ <-. constructor.
  - unfold heartbeat. case_match; intros [= _ <-]; constructor.
  - destruct (servers s !! id) as [srv|] eqn:Hs.
    + intros Hn. apply notification_handler in Hn as [_ ->]; [|by rewrite Hs].
      apply Forall_app. split; apply Forall_fmap, Forall_forall; by intros.
    + unfold notification. rewrite Hs. intros [= _ <-]. constructor.
  - intros [= _ <-]. constructor.
  - intros [= _ <-]. constructor.
Qed.
Lemma writes_app acts acts' : writes (acts ++ acts') = writes acts ++ writes acts'.
Proof. apply omap_app. Qed.

Lemma quiet_writes acts : Forall quiet acts -> writes acts = [].
Proof. induction 1 as [|act acts Hq _ IH]; [done|]. by destruct act. Qed.

Lemma disk_writes m acts :
  disk m acts = foldl (fun m w => match w.2 with Written => w.1 | _ => m end) m (writes acts).
Proof.
  revert m. induction acts as [|act acts IH]; intros m; [done|].
  destruct act as [| |m' a st o en|]; apply IH.
Qed.

Lemma effect_writes t effect state retry state' retry' changed acts :
  run_effect available t effect state retry = Some (state', retry', changed, acts) ->
  length (writes acts) <= 1 /\ (is_notify effect -> writes acts = []).
Proof.
  destruct effect as [title body|m action]; simpl.
  { intros [= _ _ _ <-]. rewrite quiet_writes by apply quiet_enqueue. simpl. auto with lia. }
  destruct (negb _); [intros [= _ _ _ <-]; split; [simpl; lia|done]|].
  assert (forall o rest, Forall quiet rest ->
    length (writes (Wrote m action (turn_due t) o (turn_failed t) :: rest)) <= 1) as Hone.
  { intros o rest Hq. change (S (length (writes rest)) <= 1). by rewrite quiet_writes. }
  destruct (turn_write t).
  - intros [= _ _ _ <-]. split; [|done]. apply Hone, Forall_app.
    split; [apply quiet_logged|apply quiet_reminders].
  - intros [= _ _ _ <-]. split; [|done]. apply Hone, (quiet_failed available t action retry).
  - intros [= _ _ _ <-]. split; [|done]. apply Hone, (quiet_failed available t action retry).
Qed.

Lemma notify_writes t effects state retry state' retry' changed acts :
  Forall is_notify effects ->
  run_effects available t effects state retry = Some (state', retry', changed, acts) ->
  writes acts = [].
Proof.
  intros Hn. revert state retry state' retry' changed acts. induction Hn as [|e effects He _ IH];
    intros state retry state' retry' changed acts; simpl; [by intros [= _ _ _ <-]|].
  intros ([[[s1 r1] c1] a1] & H1 & ([[[s2 r2] c2] a2] & H2 & [= _ _ _ <-])%bind_Some)%bind_Some.
  rewrite writes_app, (IH _ _ _ _ _ _ H2). apply effect_writes in H1 as [_ ->]; done.
Qed.

Lemma turn_writes p t p' acts :
  network_turn t -> turn available p t = Some (p', acts) ->
  length (writes acts) <= 1 /\
  snoozed (pump_state p') =
    match writes acts with (m, Written) :: _ => m | _ => snoozed (pump_state p) end.
Proof.
  intros Hn Ht. pose proof (turn_accounted available p t p' acts Hn Ht) as (Hd & _).
  assert (length (writes acts) <= 1) as Hone.
  { revert Ht. unfold turn. destruct (log_lines _ _) as [logs lines].
    intros ([s1 tr] & Hr & ([[[s2 r2] changed] a2] & He & [= _ <-])%bind_Some)%bind_Some.
    rewrite !writes_app, (quiet_writes (Logged <$> lines)) by apply quiet_logged.
    assert (forall b : bool, writes (if b then [Published (snapshot s2 (turn_publish t))
      (turn_publish t)] else []) = []) as -> by (by intros []).
    rewrite app_nil_r. simpl.
    assert (snooze_event (turn_event t) \/ ~ snooze_event (turn_event t)) as [Hs|Hs]
      by (destruct (turn_event t); simpl; auto).
    - destruct (snooze_proposal_handler _ _ _ _ Hs Hr) as (_ & _ & [[_ Heff]|(_ & a & Heff & _)]);
        rewrite Heff in He; cbn [run_effects] in He; [injection He as _ _ _ <-; simpl; lia|].
      apply bind_Some in He as ([[[s3 r3] c3] a3] & He & [= _ _ _ <-]).
      rewrite app_nil_r. apply effect_writes in He as [He _]. done.
    - apply reduce_notifies in Hr; [|done]. by rewrite (notify_writes _ _ _ _ _ _ _ _ Hr He); simpl; lia. }
  split; [done|]. rewrite Hd, disk_writes.
  destruct (writes acts) as [|[m o] [|w ws]]; simpl in *; [done|by destruct o|lia].
Qed.
End OneWrite.

(** ** One transaction *)

Section Transaction.
Context `{C : JsonCodec} `{!JsonLaws C} (state_error : string).

(** Every state a transaction goes through reads as the old state or as the new one;
    the last one as what was reported. *)
Lemma update_states faults temp path change fs states r s :
  temp <> path -> Persistence.keeps change -> state_ok s ->
  load state_error no_faults path fs = Ok s ->
  update state_error faults temp path change fs = (states, r) ->
  exists s', match r with Ok _ => change s = Ok s' | Err _ => s' = s end /\ state_ok s' /\
    load state_error no_faults path (final fs states) = Ok s' /\
    Forall (fun fs' => load state_error no_faults path fs' = Ok s \/
                       load state_error no_faults path fs' = Ok s') states.
Proof.
  intros Hne Hk Hok Hl Hu. pose proof (update_effect _ _ _ _ _ _ _ _ _ Hne Hk Hok Hl Hu) as Hr.
  assert (exists s', match r with Ok _ => change s = Ok s' | Err _ => s' = s end /\ state_ok s' /\
    load state_error no_faults path (final fs states) = Ok s') as (s' & H1 & H2 & H3)
    by (destruct r; [done|by exists s]).
  exists s'. split_and!; [done..|]. revert Hu. unfold update.
  destruct (load state_error faults path fs) as [s0|e0] eqn:Hl0; simpl;
    [|intros [= <- _]; repeat constructor; auto].
  assert (s0 = s) as -> by (apply load_no_fault in Hl0; congruence).
  destruct (change s) as [s1|e] eqn:Hc; [|intros [= <- _]; repeat constructor; auto].
  intros Hs. destruct r as [[]|e].
  - injection H1 as <-. destruct (Hk s s1 Hok Hc) as [Hok1 Hp1].
    apply save_crash_safe in Hs as (Hall & _ & _); [|done]. eapply list.Forall_impl; [exact Hall|].
    intros fs' [[Ho|Ho] _]; [left; rewrite <-Hl; by apply load_same|right; by apply load_saved].
  - apply save_error in Hs; [|done]. eapply list.Forall_impl; [exact Hs|].
    intros fs' Ho. left. rewrite <-Hl. by apply load_same.
Qed.
End Transaction.

(** ** The placements *)

(** What a native window can report: an [i32] position and a [u32] size. *)
Definition view_ok (v : View) : Prop :=
  forall n, view_native v = Some n ->
    (forall x y, nat_position n = Some (x, y) ->
       -2147483648 <= x <= 2147483647 /\ -2147483648 <= y <= 2147483647)%Z /\
    (0 <= (nat_size n).1 <= 4294967295 /\ 0 <= (nat_size n).2 <= 4294967295)%Z.

Record manager_ok (m : Manager) : Prop := {
  manager_normal : forall g, last_normal m = Some g -> geometry_ok g;
  manager_pending : forall g, pending_show m = Some g -> geometry_ok g;
}.

Lemma observe_ok m v : view_ok v -> manager_ok m -> manager_ok (observe_winit_window m v).
Proof.
  intros Hv [Hn Hp]. unfold observe_winit_window.
  destruct (view_native v ≫= normal_bounds) as [g|] eqn:Hg; [|done].
  split; [|done]. intros g' [= <-]. apply bind_Some in Hg as (n & Hview & Hb).
  destruct (Hv n Hview) as [Hxy Hwh]. revert Hb. unfold normal_bounds. destruct (_ || _); [done|].
  intros ([x y] & Hpos & Hs)%bind_Some. destruct (Hxy x y Hpos). revert Hs.
  destruct (nat_size n) as [w h]. destruct (_ && _); [|done].
  intros [= <-]. simpl in *. split; simpl; lia.
Qed.

Lemma capture_ok m v m' placement :
  view_ok v -> manager_ok m -> capture_placement m v = (m', placement) ->
  manager_ok m' /\ last_persisted m' = last_persisted m /\
  forall g, placement = Some g -> geometry_ok g.
Proof.
  intros Hv Hm. unfold capture_placement. destruct (native_display_state v) as [b b'].
  set (m1 := if is_normal_window_state b b' then observe_winit_window m v else m).
  intros [= <- <-]. assert (manager_ok m1) as Hok.
  { subst m1. destruct (is_normal_window_state b b'); [by apply observe_ok|done]. }
  split_and!; [done| |].
  - subst m1. destruct (is_normal_window_state b b'); [|done]. unfold observe_winit_window.
    by destruct (view_native v ≫= normal_bounds).
  - intros g (g0 & Hg & ->)%fmap_Some. by destruct (manager_normal _ Hok _ Hg).
Qed.

(** The store is only asked for the placement [asks] names, and its answer decides what
    counts as persisted. *)
Definition placed (store : WindowGeometry -> Result unit) (m : Manager) (op : Op)
    : option WindowGeometry :=
  match op with
  | OpHide v | OpSave v =>
      match asks m v with
      | Some g => if is_ok (store g) then Some g else last_persisted m
      | None => last_persisted m
      end
  | _ => last_persisted m
  end.

Lemma persist_placed store m v m' placement m'' r :
  capture_placement m v = (m', placement) -> last_persisted m' = last_persisted m ->
  persist store m' placement = (m'', r) ->
  last_persisted m'' =
    match asks m v with
    | Some g => if is_ok (store g) then Some g else last_persisted m
    | None => last_persisted m
    end /\ last_normal m'' = last_normal m' /\ pending_show m'' = pending_show m'.
Proof.
  intros Hc Hp. unfold asks, persist. rewrite Hc. destruct placement as [p|]; simpl;
    [|by intros [= <- _]].
  case_bool_decide; [by intros [= <- _]|]. destruct (store p); by intros [= <- _].
Qed.

Lemma apply_op_placed store native_show native_hide m op :
  manager_ok m -> (forall v, op_view op = Some v -> view_ok v) ->
  let m' := apply_op store native_show native_hide m op in
  manager_ok m' /\ last_persisted m' = placed store m op.
Proof.
  intros Hm Hv. destruct op as [|v|v|v event]; simpl in *.
  - unfold show. destruct (pending_show m) as [p|] eqn:Hp.
    + destruct (with_context _ _); (split; [split|done]); simpl; intros g.
      1,3: intros [= <-]; by destruct (manager_pending _ Hm _ Hp).
      all: apply (manager_pending _ Hm).
    + by destruct (with_context _ _).
  - specialize (Hv v eq_refl). unfold hide.
    destruct (capture_placement m v) as [m1 placement] eqn:Hc.
    destruct (capture_ok _ _ _ _ Hv Hm Hc) as (Hm1 & Hl1 & Hg).
    destruct (persist store m1 placement) as [m2 r] eqn:Hs.
    destruct (persist_placed _ _ _ _ _ _ _ Hc Hl1 Hs) as (H1 & H2 & H3).
    assert (manager_ok (set_pending placement m2)) as Hok.
    { split; [simpl; rewrite H2; apply (manager_normal _ Hm1)|done]. }
    by destruct (with_context _ _).
  - specialize (Hv v eq_refl). unfold save_geometry.
    destruct (capture_placement m v) as [m1 placement] eqn:Hc.
    destruct (capture_ok _ _ _ _ Hv Hm Hc) as (Hm1 & Hl1 & Hg).
    destruct (persist store m1 placement) as [m2 r] eqn:Hs.
    destruct (persist_placed _ _ _ _ _ _ _ Hc Hl1 Hs) as (H1 & H2 & H3).
    split; [|done]. split; simpl; [rewrite H2; apply Hm1|rewrite H3; apply Hm1].
  - specialize (Hv v eq_refl).
    assert (manager_ok (observe_winit_window m v) /\
      last_persisted (observe_winit_window m v) = last_persisted m) as Hobs.
    { split; [by apply observe_ok|]. unfold observe_winit_window.
      by destruct (view_native v ≫= normal_bounds). }
    unfold handle_winit_event. destruct Hm as [H1 H2].
    destruct event, (view_visible v), (pending_show m) as [p|] eqn:Hp; simpl;
      first [exact Hobs | split; [split; simpl; intros; simplify_eq; auto|done]].
Qed.

Lemma asks_ok m v g : view_ok v -> manager_ok m -> asks m v = Some g -> geometry_ok g.
Proof.
  intros Hv Hm. unfold asks. destruct (capture_placement m v) as [m1 placement] eqn:Hc.
  destruct (capture_ok _ _ _ _ Hv Hm Hc) as (_ & _ & Hg).
  intros (p & -> & Hp)%bind_Some. case_bool_decide; [done|]. injection Hp as <-. by apply Hg.
Qed.

(** ** The file and the running application agree *)

(** Fields of the file that the application does not know. *)
Definition unknown (s : StateFile) : Extra * Extra * Extra :=
  (sf_extra s, pref_extra (sf_preferences s), sections_extra (pref_sections (sf_preferences s))).

Section Durable.
Context `{C : JsonCodec} `{!JsonLaws C} `{R : Rfc3339} `{!Rfc3339Laws R}.
Variables (state_error time_error : string) (debug_str : string -> string).
Variable available : bool.
Variable path : string.
(** The values of well-formed states are read back as they are printed. *)
Hypothesis printed : forall s, state_ok s -> printable (state_value s).

(** A state with what the session shows. *)
Record holds (s : Session) (extra : Extra * Extra * Extra) (state : StateFile) : Prop := {
  holds_ok : state_ok state;
  holds_snoozes : decoded_snoozes time_error debug_str state = Ok (snoozed (pump_state (ss_pump s)));
  holds_geometry : pref_window_geometry (sf_preferences state) = last_persisted (ss_manager s);
  holds_saved : apply_preferences state = ss_saved s;
  holds_unknown : unknown state = extra;
}.

(** The next start of the application reads what the session shows. *)
Definition recorded (s : Session) (extra : Extra * Extra * Extra) (fs : FS) : Prop :=
  exists state, load state_error no_faults path fs = Ok state /\ holds s extra state.

(** What the surroundings of a step guarantee: the temporary file is not the state file,
    the tasks send events of the network, windows report integers of their types. *)
Definition step_ok (step : Faults * string * SessionStep) : Prop :=
  step.1.2 <> path /\
  match step.2 with
  | PumpTurns t => network_turn t
  | PreferencesSaved _ => True
  | Placed op _ _ => forall v, op_view op = Some v -> view_ok v
  end.

Lemma keeps_ok change :
  (forall s s', state_ok s -> change s = Ok s' -> state_ok s') -> Persistence.keeps change.
Proof. intros H s s' Hok Hc. split; [|apply printed]; by eapply H. Qed.

Lemma snoozes_keep m : Persistence.keeps (fun s => replace_snoozes s m).
Proof. apply keeps_ok. intros s s'. by apply replace_snoozes_ok. Qed.

Lemma preferences_keep window : Persistence.keeps (preferences_changed window).
Proof. apply keeps_ok. intros s s' [H1 H2 H3 H4 H5 H6] [= <-]. by split. Qed.

Lemma geometry_keep g : geometry_ok g -> Persistence.keeps (geometry_changed g).
Proof.
  intros Hg. apply keeps_ok. intros s s' [H1 H2 H3 H4 H5 H6] [= <-].
  split; try done. simpl. by intros g' [= <-].
Qed.

(** Sessions that show the same are recorded the same. *)
Lemma holds_same s s' extra state :
  snoozed (pump_state (ss_pump s')) = snoozed (pump_state (ss_pump s)) ->
  last_persisted (ss_manager s') = last_persisted (ss_manager s) -> ss_saved s' = ss_saved s ->
  holds s extra state -> holds s' extra state.
Proof. intros H1 H2 H3 [? ? ? ? ?]. split; congruence. Qed.

(** One write of a step: [change] takes what the session [s] shows to what [s'] shows if
    it is reported as done; otherwise both show the same. *)
Lemma write_recorded faults temp change s s' extra states r :
  temp <> path -> Persistence.keeps change -> recorded s extra (ss_fs s) ->
  update state_error faults temp path change (ss_fs s) = (states, r) ->
  ss_fs s' = final (ss_fs s) states ->
  (forall state state', r = Ok tt -> holds s extra state -> state_ok state' ->
     change state = Ok state' -> holds s' extra state') ->
  (forall state e, r = Err e -> holds s extra state -> holds s' extra state) ->
  recorded s' extra (ss_fs s') /\
  Forall (fun fs => recorded s extra fs \/ recorded s' extra fs) states.
Proof.
  intros Hne Hk (state & Hl & Hh) Hu Hfs Hdone Hfail.
  destruct (update_states state_error _ _ _ _ _ _ _ _ Hne Hk (holds_ok _ _ _ Hh) Hl Hu)
    as (state' & Hr & Hok & Hl' & Hall).
  assert (holds s' extra state') as Hh'.
  { destruct r as [[]|e]; [by eapply Hdone|]. subst state'. by eapply Hfail. }
  split; [exists state'; by rewrite Hfs|]. eapply list.Forall_impl; [exact Hall|].
  intros fs [H|H]; [left; by exists state|right; by exists state'].
Qed.

Lemma idle_recorded s s' extra :
  recorded s extra (ss_fs s) -> ss_fs s' = ss_fs s ->
  snoozed (pump_state (ss_pump s')) = snoozed (pump_state (ss_pump s)) ->
  last_persisted (ss_manager s') = last_persisted (ss_manager s) -> ss_saved s' = ss_saved s ->
  recorded s' extra (ss_fs s') /\
  Forall (fun fs => recorded s extra fs \/ recorded s' extra fs) [ss_fs s].
Proof.
  intros Hr Hf H1 H2 H3. split; [|constructor; [by left|constructor]].
  destruct Hr as (state & Hl & Hh). exists state. rewrite Hf. split; [done|]. by apply (holds_same s).
Qed.

Lemma pump_recorded s extra faults temp t states s' :
  temp <> path -> network_turn t -> recorded s extra (ss_fs s) ->
  session_step state_error available path s faults temp (PumpTurns t) = Some (states, s') ->
  recorded s' extra (ss_fs s') /\
  Forall (fun fs => recorded s extra fs \/ recorded s' extra fs) states.
Proof.
  intros Hne Hn Hr. cbn [session_step]. intros ([p acts] & Ht & Hstep)%bind_Some. revert Hstep.
  destruct (turn_writes _ _ _ _ _ Hn Ht) as [_ Hs].
  destruct (writes acts) as [|[m outcome] ws]; [intros [= <- <-]; by apply idle_recorded|].
  unfold persist_snoozes. destruct (update _ _ _ _ _ _) as [l r] eqn:Hu.
  destruct (reports outcome r) eqn:Hrep; [|done]. intros [= <- <-].
  eapply (write_recorded _ _ _ s _ extra l r Hne (snoozes_keep m) Hr Hu); [done|..].
  - intros state state' -> Hh Hok Hc. destruct outcome; try done.
    pose proof (replace_snoozes_handler _ _ _ Hc) as (Heq & _).
    destruct Hh as [_ _ H2 H3 H4]. split; simpl; rewrite ?Hs.
    + done.
    + by eapply decoded_replace_handler.
    + by rewrite Heq.
    + by rewrite Heq.
    + by rewrite Heq.
  - intros state e -> Hh. by apply (holds_same s); [destruct outcome|..].
Qed.

Lemma preferences_recorded s extra faults temp window states s' :
  temp <> path -> recorded s extra (ss_fs s) ->
  session_step state_error available path s faults temp (PreferencesSaved window) =
    Some (states, s') ->
  recorded s' extra (ss_fs s') /\
  Forall (fun fs => recorded s extra fs \/ recorded s' extra fs) states.
Proof.
  intros Hne Hr. cbn [session_step]. destruct (update _ _ _ _ _ _) as [l r] eqn:Hu.
  intros [= <- <-].
  eapply (write_recorded _ _ _ s _ extra l r Hne (preferences_keep window) Hr Hu); [done|..].
  - intros state state' -> [H0 H1 H2 H3 H4] Hok [= <-]. split; simpl; try done.
    by destruct window as [[] ? ? ?].
  - intros state e -> Hh. by apply (holds_same s).
Qed.

Lemma placed_recorded s extra faults temp op native_show native_hide states s' :
  temp <> path -> (forall v, op_view op = Some v -> view_ok v) -> manager_ok (ss_manager s) ->
  recorded s extra (ss_fs s) ->
  session_step state_error available path s faults temp (Placed op native_show native_hide) =
    Some (states, s') ->
  recorded s' extra (ss_fs s') /\
  Forall (fun fs => recorded s extra fs \/ recorded s' extra fs) states.
Proof.
  intros Hne Hv Hm Hr. cbn [session_step].
  set (store := fun g => (update state_error faults temp path (geometry_changed g) (ss_fs s)).2).
  destruct (apply_op_placed store native_show native_hide (ss_manager s) op Hm Hv) as [_ Hp].
  set (m := apply_op store native_show native_hide (ss_manager s) op) in *.
  assert (forall v, op_view op = Some v -> placed store (ss_manager s) op =
      match asks (ss_manager s) v with
      | Some g => if is_ok (store g) then Some g else last_persisted (ss_manager s)
      | None => last_persisted (ss_manager s)
      end ->
    Some (match asks (ss_manager s) v with
      | Some g => (update state_error faults temp path (geometry_changed g) (ss_fs s)).1
      | None => [ss_fs s] end,
      mkSession (final (ss_fs s) match asks (ss_manager s) v with
      | Some g => (update state_error faults temp path (geometry_changed g) (ss_fs s)).1
      | None => [ss_fs s] end) (ss_pump s) m (ss_saved s)) = Some (states, s') ->
    recorded s' extra (ss_fs s') /\
    Forall (fun fs => recorded s extra fs \/ recorded s' extra fs) states) as Hwrite.
  { intros v Hview Hq. rewrite Hq in Hp. destruct (asks (ss_manager s) v) as [g|] eqn:Ha;
      [|intros [= <- <-]; by apply idle_recorded].
    pose proof (asks_ok _ _ _ (Hv v Hview) Hm Ha) as Hg. unfold store in Hp.
    destruct (update _ _ _ _ _ _) as [l r] eqn:Hu. simpl in Hp. intros [= <- <-].
    eapply (write_recorded _ _ _ s _ extra l r Hne (geometry_keep g Hg) Hr Hu); [done|..].
    - intros state state' -> [H0 H1 H2 H3 H4] Hok [= <-]. split; simpl; try done.
    - intros state e -> Hh. by apply (holds_same s). }
  destruct op as [|v|v|v event]; try (intros [= <- <-]; by apply idle_recorded).
  - by apply (Hwrite v).
  - by apply (Hwrite v).
Qed.

Lemma step_recorded s extra step states s' :
  step_ok step -> manager_ok (ss_manager s) -> recorded s extra (ss_fs s) ->
  session_step state_error available path s step.1.1 step.1.2 step.2 = Some (states, s') ->
  manager_ok (ss_manager s') /\ recorded s' extra (ss_fs s') /\
  Forall (fun fs => recorded s extra fs \/ recorded s' extra fs) states.
Proof.
  destruct step as [[faults temp] [t|window|op ns nh]]; intros [Hne Hk] Hm Hr Hs; simpl in *.
  - split; [|by eapply pump_recorded]. apply bind_Some in Hs as ([p acts] & _ & Hs). revert Hs.
    destruct (writes acts) as [|[m o] ws]; [by intros [= _ <-]|].
    destruct (persist_snoozes _ _ _ _ _ _) as [l r]. destruct (reports o r); by intros [= _ <-].
  - split; [|by eapply preferences_recorded]. revert Hs.
    destruct (update _ _ _ _ _ _). by intros [= _ <-].
  - split; [|by eapply placed_recorded]. injection Hs as _ <-. by apply apply_op_placed.
Qed.

End Durable.

(** ** An example *)

Definition demo_view : View :=
  {| view_native := Some {| nat_maximized := false; nat_fullscreen := false;
       nat_position := Some (10, 20)%Z; nat_size := (800, 600)%Z |};
     view_maximized := false; view_fullscreen := false; view_visible := true |}.

Definition demo_shown (s : Session) : gmap string OffsetDateTime * option WindowGeometry * Toggles :=
  (snoozed (pump_state (ss_pump s)), last_persisted (ss_manager s), ss_saved s).
