(* ===== verification/Durable.v ===== *)
(** * A session on the file tree

    The writers of [Session] with the store of [Store]: the event pump, the preferences
    and the window placement, each through [Store::update] on the tree of [Io], where any
    call may fail and the process may be killed at every moment. A step is a step of the
    session of [Session] with some faults. *)

From Stdlib Require Import ZArith Lia.
From stdpp Require Import base gmap strings list option.
From S2P Require Import Prelude RustStr RustPath Domain Reducer Config Protocol StateFile Persistence Runtime Geometry Io Atomic Store App Session.

Record TreeSession := mkTreeSession {
  ts_world : World;
  ts_pump : Pump;
  ts_manager : Manager;
  ts_saved : Toggles;
}.

(** What the specification sees of it. *)
Definition spec_of (s : TreeSession) : Session :=
  mkSession (files_of (w_tree (ts_world s))) (ts_pump s) (ts_manager s) (ts_saved s).

(** ** The session *)

Section TreeSession.
Context `{TempNames} `{C : JsonCodec} `{!JsonChunks C} `{R : Rfc3339}.
Variables (state_error : string) (available : bool) (path : string).

(** The closure [persist] that [run] gives to the runtime. *)
Definition store_snoozes (snoozes : gmap string OffsetDateTime) : IO anyhow unit :=
  store_update state_error path (fun s => replace_snoozes s snoozes).

(** [WindowGeometryManager::persist]. *)
Definition store_geometry (w : World) (g : WindowGeometry) : World * Result unit :=
  store_update state_error path (geometry_changed g) w.

Definition tree_step (s : TreeSession) (step : SessionStep) : option TreeSession :=
  let w := ts_world s in
  match step with
  | PumpTurns t =>
      '(p, acts) ← turn available (ts_pump s) t;
      match writes acts with
      | [] => Some (mkTreeSession w p (ts_manager s) (ts_saved s))
      | (m, outcome) :: _ =>
          let '(w, r) := store_snoozes m w in
          if reports outcome r then Some (mkTreeSession w p (ts_manager s) (ts_saved s)) else None
      end
  | PreferencesSaved window =>
      let '(w, r) := store_update state_error path (preferences_changed window) w in
      Some (mkTreeSession w (ts_pump s) (ts_manager s)
              (match r with Ok _ => window | Err _ => ts_saved s end))
  | Placed op native_show native_hide =>
      let m := apply_op (fun g => (store_geometry w g).2) native_show native_hide
                 (ts_manager s) op in
      let w :=
        match op with
        | OpHide v | OpSave v =>
            match asks (ts_manager s) v with Some g => (store_geometry w g).1 | None => w end
        | _ => w
        end in
      Some (mkTreeSession w (ts_pump s) m (ts_saved s))
  end.

Fixpoint tree_run (s : TreeSession) (steps : list SessionStep) : option TreeSession :=
  match steps with
  | [] => Some s
  | step :: steps => s ← tree_step s step; tree_run s steps
  end.
End TreeSession.

(** What [run] starts with, from the state it loaded. *)
Definition tree_start (config : Config) (w : World) (loaded : StateFile)
    (snoozes : gmap string OffsetDateTime) : TreeSession :=
  mkTreeSession w (pump_start config snoozes)
    (manager_new (pref_window_geometry (sf_preferences loaded))) (apply_preferences loaded).

(** ** One step *)

(** Only the placement that is asked for is given to the store. *)
Lemma persist_ext (store store' : WindowGeometry -> Result unit) (m : Manager) (v : View) m' placement :
  (forall g, asks m v = Some g -> store g = store' g) ->
  capture_placement m v = (m', placement) -> persist store m' placement = persist store' m' placement.
Proof.
  intros Hs Hc. unfold persist. destruct placement as [p|]; [|done]. case_bool_decide as Hl; [done|].
  rewrite (Hs p); [done|]. unfold asks. rewrite Hc. simpl. by rewrite bool_decide_false.
Qed.

Lemma apply_op_ext (store store' : WindowGeometry -> Result unit) ns nh m op :
  (forall v g, op_view op = Some v -> asks m v = Some g -> store g = store' g) ->
  apply_op store ns nh m op = apply_op store' ns nh m op.
Proof.
  intros Hs. destruct op as [|v|v|v event]; simpl; try done.
  - unfold hide. destruct (capture_placement m v) as [m1 placement] eqn:Hc.
    by rewrite (persist_ext store store' m v m1 placement (fun g => Hs v g eq_refl) Hc).
  - unfold save_geometry. destruct (capture_placement m v) as [m1 placement] eqn:Hc.
    by rewrite (persist_ext store store' m v m1 placement (fun g => Hs v g eq_refl) Hc).
Qed.

Section Simulation.
Context `{TempNames} `{C : JsonCodec} `{!JsonChunks C} `{R : Rfc3339}.
Variables (state_error : string) (available : bool) (path : string).
Hypothesis Hpath : private_path path = false.

(** A step of the session on the tree, and one of the specification. *)
Definition simulated (s s' : TreeSession) (step : SessionStep) : Prop :=
  exists faults temp states fs,
    temp <> path /\ states <> [] /\
    session_step state_error available path (spec_of s) faults temp step =
      Some (states, mkSession fs (ts_pump s') (ts_manager s') (ts_saved s')) /\
    fs = final (files_of (w_tree (ts_world s))) states /\
    refines path (ts_world s) (ts_world s') states /\ calm path (ts_world s').

Lemma refines_refl w : refines path w w [files_of (w_tree w)].
Proof. by exists []. Qed.

Lemma update_simulated w w' r change :
  calm path w -> store_update state_error path change w = (w', r) ->
  exists faults temp states, temp <> path /\ states <> [] /\
    update state_error faults temp path change (files_of (w_tree w)) = (states, r) /\
    refines path w w' states /\ calm path w'.
Proof.
  intros Hcalm Hu.
  destruct (store_update_spec _ _ _ Hpath Hcalm _ _ _ Hu) as (faults & temp & states & Hne & Hup & Hr).
  destruct (update_two_versions _ _ _ _ _ _ _ _ Hne Hup) as (Hst & _).
  by exists faults, temp, states.
Qed.

(** The store answers an operation of the geometry manager as the specification does. *)
Lemma placed_simulated s op ns nh :
  calm path (ts_world s) ->
  simulated s
    (mkTreeSession
       (match op with
        | OpHide v | OpSave v =>
            match asks (ts_manager s) v with
            | Some g => (store_geometry state_error path (ts_world s) g).1
            | None => ts_world s
            end
        | _ => ts_world s
        end) (ts_pump s)
       (apply_op (fun g => (store_geometry state_error path (ts_world s) g).2) ns nh
          (ts_manager s) op) (ts_saved s)) (Placed op ns nh).
Proof.
  intros Hcalm. set (fs := files_of (w_tree (ts_world s))).
  assert (exists faults temp, temp <> path /\ forall v g, op_view op = Some v ->
    asks (ts_manager s) v = Some g -> exists states, states <> [] /\
      update state_error faults temp path (geometry_changed g) fs =
        (states, (store_geometry state_error path (ts_world s) g).2) /\
      refines path (ts_world s) (store_geometry state_error path (ts_world s) g).1 states /\
      calm path (store_geometry state_error path (ts_world s) g).1) as (faults & temp & Hne & Hup).
  { destruct (op_view op ≫= asks (ts_manager s)) as [g|] eqn:Ha.
    - apply bind_Some in Ha as (v & Hv & Ha). unfold store_geometry.
      destruct (store_update state_error path (geometry_changed g) (ts_world s)) as [w' r] eqn:Hu.
      destruct (update_simulated _ _ _ _ Hcalm Hu) as (faults & temp & states & H1 & H2 & H3 & H4).
      exists faults, temp. split; [done|]. intros v' g' Hv' Ha'.
      assert (g' = g) as -> by congruence. rewrite Hu. by exists states.
    - exists no_faults, (path +:+ "~"). split; [apply path_tilde|]. intros v g Hv Hg.
      rewrite Hv in Ha. simpl in Ha. congruence. }
  assert (apply_op (fun g => (update state_error faults temp path (geometry_changed g) fs).2) ns nh
      (ts_manager s) op =
    apply_op (fun g => (store_geometry state_error path (ts_world s) g).2) ns nh
      (ts_manager s) op) as Hop.
  { apply apply_op_ext. intros v g Hv Hg. destruct (Hup v g Hv Hg) as (states & _ & -> & _). done. }
  assert (forall states w', states <> [] ->
    session_step state_error available path (spec_of s) faults temp (Placed op ns nh) =
      Some (states, mkSession (final fs states) (ts_pump s)
        (apply_op (fun g => (update state_error faults temp path (geometry_changed g) fs).2) ns nh
          (ts_manager s) op) (ts_saved s)) ->
    refines path (ts_world s) w' states -> calm path w' ->
    simulated s (mkTreeSession w' (ts_pump s)
      (apply_op (fun g => (store_geometry state_error path (ts_world s) g).2) ns nh
        (ts_manager s) op) (ts_saved s)) (Placed op ns nh)) as Hend.
  { intros states w' Hst Hs Hr Hc. exists faults, temp, states, (final fs states).
    simpl ts_pump. simpl ts_manager. simpl ts_saved. rewrite <-Hop. by split_and!. }
  destruct op as [|v|v|v event];
    [by apply (Hend [fs] _); [done|done|apply refines_refl|]| | |
     by apply (Hend [fs] _); [done|done|apply refines_refl|]].
  all: destruct (asks (ts_manager s) v) as [g|] eqn:Ha;
    [destruct (Hup v g eq_refl Ha) as (states & H1 & H2 & H3 & H4);
     apply (Hend states); [done| |done..]; simpl; rewrite Ha; fold fs; by rewrite H2
    |apply (Hend [fs]); [done| |apply refines_refl|done]; simpl; by rewrite Ha].
Qed.

Lemma step_simulated s s' step :
  calm path (ts_world s) -> tree_step state_error available path s step = Some s' ->
  simulated s s' step.
Proof.
  intros Hcalm. unfold simulated.
  assert (exists temp, temp <> path) as [temp0 Htemp0].
  { exists (path +:+ "~"). apply path_tilde. }
  pose proof (refines_refl (ts_world s)) as Hrefl.
  destruct step as [t|window|op ns nh]; simpl.
  - intros ([p acts] & Ht & Hw)%bind_Some. setoid_rewrite Ht. simpl.
    destruct (writes acts) as [|[m outcome] ws].
    + injection Hw as <-.
      exists no_faults, temp0, [files_of (w_tree (ts_world s))], (files_of (w_tree (ts_world s))).
      eauto 10.
    + unfold store_snoozes in Hw. destruct (store_update _ _ _ _) as [w' r] eqn:Hu.
      destruct (reports outcome r) eqn:Hrep; [|done]. injection Hw as <-.
      destruct (update_simulated _ _ _ _ Hcalm Hu) as (faults & temp & states & H1 & H2 & H3 & H4).
      exists faults, temp, states, (final (files_of (w_tree (ts_world s))) states).
      unfold persist_snoozes. rewrite H3, Hrep. eauto 10.
  - destruct (store_update _ _ _ _) as [w' r] eqn:Hu. intros [= <-].
    destruct (update_simulated _ _ _ _ Hcalm Hu) as (faults & temp & states & H1 & H2 & H3 & H4).
    exists faults, temp, states, (final (files_of (w_tree (ts_world s))) states).
    rewrite H3. eauto 10.
  - intros [= <-]. by apply placed_simulated.
Qed.
End Simulation.

(** ** Whole sessions *)

Section Disk.
Context `{TempNames} `{C : JsonCodec} `{!JsonLaws C} `{!JsonChunks C}.
Context `{R : Rfc3339} `{!Rfc3339Laws R}.
Variables (state_error time_error : string) (debug_str : string -> string).
Variables (available : bool) (path : string) (extra : Extra * Extra * Extra).
Hypothesis Hpath : private_path path = false.
Hypothesis printed : forall s, state_ok s -> printable (state_value s).
Abbreviation reads s t :=
  (recorded state_error time_error debug_str path (spec_of s) extra (files_of t)).
Abbreviation run := (tree_run state_error available path).

Definition tree_step_ok (step : SessionStep) : Prop :=
  match step with
  | PumpTurns t => network_turn t
  | PreferencesSaved _ => True
  | Placed op _ _ => forall v, op_view op = Some v -> view_ok v
  end.

(** What is recorded depends on what is shown and on the state file. *)
Lemma recorded_same s s' fs fs' :
  ss_pump s' = ss_pump s -> ss_manager s' = ss_manager s -> ss_saved s' = ss_saved s ->
  fs' !! path = fs !! path ->
  recorded state_error time_error debug_str path s extra fs ->
  recorded state_error time_error debug_str path s' extra fs'.
Proof.
  intros H1 H2 H3 Hfs (state & Hl & Hh). exists state.
  split; [by rewrite (load_same _ _ _ _ Hfs)|]. by apply (holds_same time_error debug_str s); [rewrite ?H1, ?H2, ?H3..|].
Qed.

Lemma tree_step_recorded s step s' :
  calm path (ts_world s) -> tree_step_ok step -> manager_ok (ts_manager s) ->
  reads s (w_tree (ts_world s)) -> tree_step state_error available path s step = Some s' ->
  calm path (ts_world s') /\ manager_ok (ts_manager s') /\ reads s' (w_tree (ts_world s')) /\
  exists l, w_past (ts_world s') = l ++ w_past (ts_world s) /\
    Forall (fun t => reads s t \/ reads s' t) (w_tree (ts_world s') :: l).
Proof.
  intros Hcalm Hok Hm Hr Hs.
  destruct (step_simulated _ _ _ Hpath _ _ _ Hcalm Hs)
    as (faults & temp & states & fs & Hne & Hst & Hspec & -> & Href & Hcalm').
  destruct (step_recorded state_error time_error debug_str available path printed (spec_of s) extra
    (faults, temp, step) _ _ (conj Hne Hok) Hm Hr Hspec) as (Hm' & Hr' & Hall). simpl in Hm', Hr'.
  pose proof (refines_final _ _ _ _ (files_of (w_tree (ts_world s))) Hst Href) as Hfin.
  split; [done|]. split; [done|]. split; [by eapply recorded_same; [..|exact Hr']|].
  pose proof Href as (l & Hpast & _). exists l. split; [done|]. apply list.Forall_forall. intros t Ht.
  destruct (refines_moment _ _ _ _ _ _ Href Hpast Ht) as (fs & Hin & Hfs).
  rewrite list.Forall_forall in Hall. destruct (Hall fs Hin) as [Hb|Ha]; [left|right].
  - by eapply recorded_same; [..|exact Hb].
  - by eapply recorded_same; [..|exact Ha].
Qed.

Lemma tree_run_recorded s steps s' :
  calm path (ts_world s) -> Forall tree_step_ok steps -> manager_ok (ts_manager s) ->
  reads s (w_tree (ts_world s)) -> run s steps = Some s' ->
  reads s' (w_tree (ts_world s')) /\
  exists l, w_past (ts_world s') = l ++ w_past (ts_world s) /\
    Forall (fun t => exists k sk, run s (take k steps) = Some sk /\ reads sk t)
      (w_tree (ts_world s') :: l).
Proof.
  intros Hcalm Hok. revert s Hcalm. induction Hok as [|step steps Hok _ IH]; intros s Hcalm Hm Hr.
  { intros [= <-]. split; [done|]. exists []. split; [done|]. constructor; [by exists 0, s|constructor]. }
  cbn [tree_run]. intros (s1 & H1 & Hrun)%bind_Some.
  destruct (tree_step_recorded _ _ _ Hcalm Hok Hm Hr H1) as (Hcalm1 & Hm1 & Hr1 & l1 & Hp1 & Hall1).
  destruct (IH _ Hcalm1 Hm1 Hr1 Hrun) as (Hr2 & l2 & Hp2 & Hall2). split; [done|].
  exists (l2 ++ l1). split; [by rewrite Hp2, Hp1, app_assoc|].
  rewrite app_comm_cons. apply Forall_app. split.
  - eapply list.Forall_impl; [exact Hall2|]. intros t (k & sk & Hk & Ht).
    exists (S k), sk. cbn [take tree_run]. by rewrite H1.
  - apply list.Forall_cons in Hall1 as [_ Hall1].
    eapply list.Forall_impl; [exact Hall1|]. intros t [Ht|Ht].
    + by exists 0, s.
    + exists 1, s1. cbn [take tree_run]. by rewrite take_0, H1.
Qed.
End Disk.

(** At the start the application shows what it loaded. *)
Lemma start_recorded `{C : JsonCodec} `{R : Rfc3339} state_error time_error debug_str path config w
    loaded snoozes :
  load state_error no_faults path (files_of (w_tree w)) = Ok loaded -> state_ok loaded ->
  decoded_snoozes time_error debug_str loaded = Ok snoozes ->
  manager_ok (ts_manager (tree_start config w loaded snoozes)) /\
  recorded state_error time_error debug_str path (spec_of (tree_start config w loaded snoozes))
    (unknown loaded) (files_of (w_tree w)).
Proof.
  intros Hl Hok Hd. split; [|exists loaded; split; [done|by split]].
  split; simpl; [|by apply state_geometry].
  intros g (g0 & Hg & ->)%fmap_Some. by destruct (state_geometry _ Hok _ Hg).
Qed.

(** ** Properties *)

(** C2: What the application shows is what is on disk. However turns of the event pump,
    changes of the preferences and moves of the window follow each other, and whichever
    system calls of their writes fail, the state file reads back as the snoozes in force,
    the placement last persisted and the preferences last saved, with every unknown field
    kept; and a crash at any moment of the session leaves what it showed after some of its
    steps. *)
Theorem session_on_disk `{TempNames} `{C : JsonCodec} `{!JsonLaws C} `{!JsonChunks C}
    `{R : Rfc3339} `{!Rfc3339Laws R} (state_error time_error : string)
    (debug_str : string -> string) (available : bool) (path : string) (config : Config)
    (w : World) (loaded : StateFile) (snoozes : gmap string OffsetDateTime)
    (steps : list SessionStep) (s : TreeSession) :
  (forall s, state_ok s -> printable (state_value s)) ->
  private_path path = false -> calm path w ->
  load state_error no_faults path (files_of (w_tree w)) = Ok loaded -> state_ok loaded ->
  decoded_snoozes time_error debug_str loaded = Ok snoozes -> Forall tree_step_ok steps ->
  let start := tree_start config w loaded snoozes in
  let reads s t := recorded state_error time_error debug_str path (spec_of s) (unknown loaded)
                     (files_of t) in
  tree_run state_error available path start steps = Some s ->
  reads s (w_tree (ts_world s)) /\
  exists l, w_past (ts_world s) = l ++ w_past w /\
    Forall (fun t => exists k sk,
      tree_run state_error available path start (take k steps) = Some sk /\ reads sk t)
      (w_tree (ts_world s) :: l).
Proof.
  intros Hp Hpath Hcalm Hl Hok Hd Hsteps start reads Hrun.
  destruct (start_recorded state_error time_error debug_str path config w loaded snoozes Hl Hok Hd)
    as [Hm Hr].
  by apply (tree_run_recorded state_error time_error debug_str available path (unknown loaded) Hpath Hp
    start steps s).
Qed.

(** A server connects and reports an incident, which is snoozed; the window is hidden; a
    change of the preferences meets a full disk, the next one does not. *)
Definition demo_tree_steps : list SessionStep :=
  (PumpTurns <$> take 3 demo_turns) ++
  [Placed (OpHide demo_view) (Ok tt) (Ok tt);
   PreferencesSaved demo_toggles; PreferencesSaved demo_toggles].
Definition demo_disk_home : World :=
  world_of [("/home", NDir 493)] (replicate 17 Fine ++ [Fails false "disk full" (Some "01")]).
Definition demo_tree_session : option TreeSession :=
  tree_run (C := coded) (R := decimal_rfc3339) "" true "/home/state"
    (tree_start demo_config demo_disk_home StateFile_default ∅) demo_tree_steps.

Lemma demo_tree_shown :
  (fun s => demo_shown (spec_of s)) <$> demo_tree_session =
    Some ({[ "prod.disk" := 8000000000%Z ]},
          Some {| geo_x := 10; geo_y := 20; geo_width := 800; geo_height := 600;
                  geo_maximized := false |}, demo_toggles).
Proof. vm_compute. reflexivity. Qed.

Lemma demo_disk_home_calm : calm "/home/state" demo_disk_home.
Proof. split; [done|]. by repeat constructor. Qed.

Lemma demo_tree_steps_ok : Forall tree_step_ok demo_tree_steps.
Proof.
  repeat (apply list.Forall_cons; split; [simpl; try done|]); [|constructor].
  intros v [= <-] n [= <-]. simpl. split; [|lia]. intros x y [= <- <-]. lia.
Qed.

Lemma session_on_disk_witness :
  exists s state,
    demo_tree_session = Some s /\
    load (C := coded) "" no_faults "/home/state" (files_of (w_tree (ts_world s))) = Ok state /\
    decoded_snoozes (H := decimal_rfc3339) "" id state = Ok {[ "prod.disk" := 8000000000%Z ]} /\
    pref_window_geometry (sf_preferences state) =
      Some {| geo_x := 10; geo_y := 20; geo_width := 800; geo_height := 600;
              geo_maximized := false |} /\
    apply_preferences state = demo_toggles.
Proof.
  pose proof demo_tree_shown as Hshown.
  destruct demo_tree_session as [s|] eqn:Hrun; [|discriminate Hshown].
  destruct (session_on_disk (C := coded) (R := decimal_rfc3339) "" "" id true "/home/state"
    demo_config demo_disk_home StateFile_default ∅ demo_tree_steps s)
    as [(state & Hl & [_ H1 H2 H3 _]) _];
    [intros; exact I|reflexivity|apply demo_disk_home_calm|vm_compute; reflexivity
    |apply StateFile_default_ok|reflexivity|apply demo_tree_steps_ok|exact Hrun|].
  injection Hshown as E1 E2 E3. exists s, state.
  split; [reflexivity|]. split; [exact Hl|]. simpl in H1, H2, H3. rewrite H1, E1.
  split; [reflexivity|]. split; congruence.
Defined.
