(* ===== verification/Run.v ===== *)
(** * A run of the application

    [run] of [src/cmd/montray-ui/src/app.rs] from the start to the return, the handle of
    the runtime thread ([runtime.rs]) that it owns, and the replacement of the process
    after it. The startup code runs on the file tree; what the toolkit and the operating
    system answer is given. *)

From Stdlib Require Import ZArith Lia.
From stdpp Require Import base gmap strings list option pretty.
From S2P Require Import Prelude RustStr Output RustPath Domain Reducer Config Protocol Client StateFile Persistence Runtime Tray Geometry Shutdown Io Atomic ImportState Store Cli Desktop Setup Reinstall Migration App Session.

(** ** The handle of the runtime *)

(** What the closure of the runtime thread owns. *)
Record Job := {
  job_config : Config;
  job_snoozes : gmap string OffsetDateTime;
}.

Record RuntimeHandle := {
  handle_shutdown : bool;      (* the value of the watch channel *)
  handle_thread : option Job;  (* the thread, until it is joined *)
}.

Inductive RunAct :=
| Ui (e : UiEffect)
| WindowCreated
| TrayCreated
| AutostartShown (enabled : bool)
| PreferencesApplied (window : Toggles)
| SignalHandlerInstalled
| IconsLoaded
| RuntimeStarted (job : Job)
| ShutdownSent
| RuntimeJoined (job : Job)
| Replaced (program : string) (arguments : list string).

Section Handle.
(** Endpoint allocation and the creation of the thread. *)
Context (bind : nat -> Result unit) (local_port : nat -> Result N) (spawned : Result unit).

Definition handle_start (config : Config) (snoozes : gmap string OffsetDateTime)
    : Result RuntimeHandle :=
  let '(config, r) := resolve_tunnel_addresses bind local_port config in
  _ ← r;
  _ ← with_context "failed to start async runtime thread" spawned;
  Ok {| handle_shutdown := false;
        handle_thread := Some {| job_config := config; job_snoozes := snoozes |} |}.

Definition handle_drop (h : RuntimeHandle) : RuntimeHandle * list RunAct :=
  ({| handle_shutdown := true; handle_thread := handle_thread h |}, [ShutdownSent]).

(** [panicked]: how the thread ended. The handle is consumed, so that [Drop] runs too. *)
Definition handle_shutdown_join (panicked : bool) (h : RuntimeHandle) : RuntimeHandle * list RunAct :=
  let h' := {| handle_shutdown := true; handle_thread := None |} in
  let joined :=
    match handle_thread h with
    | None => []
    | Some job =>
        [Ui (Log LDebug "waiting for async runtime thread to stop"); RuntimeJoined job] ++
        (if panicked then [Ui (Log LError "async runtime thread panicked during shutdown")] else [])
    end in
  let '(h', dropped) := handle_drop h' in
  (h', [Ui (Log LDebug "requesting async runtime shutdown"); ShutdownSent] ++ joined ++ dropped).

(** [run] of the runtime thread: Tokio is built, driven until the pump ends, dropped. *)
Definition runtime_run `{Rfc3339} (built : Result unit) (available : bool) (job : Job)
    (now : OffsetDateTime) (turns : list Turn) : option (list (LogLevel * string) * list Act) :=
  match built with
  | Err e =>
      Some ([(LDebug, "async runtime thread started");
             (LError, "failed to create async runtime: " +:+ alternate e)], [])
  | Ok _ =>
      '(_, acts) ← run_async available (job_config job) (job_snoozes job) now turns;
      Some ([(LDebug, "async runtime thread started"); (LInfo, "async runtime stopped")], acts)
  end.
End Handle.

(** ** Startup *)

(** State, trace and errors. *)
Definition RunM (A : Type) : Type := World -> World * list RunAct * Result A.
#[global] Instance run_ret : MRet RunM := fun A a w => (w, [], Ok a).
#[global] Instance run_bind : MBind RunM := fun A B f m w =>
  let '(w, acts, r) := m w in
  match r with
  | Err e => (w, acts, Err e)
  | Ok a => let '(w, acts', r) := f a w in (w, acts ++ acts', r)
  end.
Definition on_files {A} (m : IO anyhow A) : RunM A := fun w => let '(w, r) := m w in (w, [], r).
Definition answered {A} (r : Result A) : RunM A := fun w => (w, [], r).
Definition the_world : RunM World := fun w => (w, [], Ok w).
Definition act (a : RunAct) : RunM unit := fun w => (w, [a], Ok tt).
Definition log (level : LogLevel) (text : string) : RunM unit := act (Ui (Log level text)).

(** What the toolkit and the operating system answer. *)
Record Answers := {
  ans_home : option string;                (* dirs::home_dir() *)
  ans_window : Result unit;                (* MainWindow::new() *)
  ans_tray : Result unit;                  (* MontrayTray::new() *)
  ans_linux : bool;
  ans_signals : Result unit;               (* install_termination_handler *)
  ans_decode : string -> Result RgbaImage;
  ans_bind : nat -> Result unit;
  ans_port : nat -> Result N;
  ans_thread : Result unit;
  ans_show : Result unit;                  (* the first native show *)
  ans_panicked : bool;                     (* the runtime thread *)
  ans_exe : Result string;                 (* current_exe() *)
  ans_args : list string;                  (* args_os() *)
  ans_exec : option anyhow;                (* why the process could not be replaced *)
}.

Record Started := {
  st_handle : RuntimeHandle;
  st_app : App;
}.

Section Run.
Context `{TempNames} `{C : JsonCodec} `{R : Rfc3339} (env : SetupEnv) (assets : IconAssets).
Context (state_error time_error : string) (debug_str : string -> string) (ans : Answers).

(** The check mark of the tray; an error is logged. *)
Definition show_autostart : RunM bool := fun w =>
  if ans_linux ans then
    let '(w, r) := autostart_enabled env w in
    match r with
    | Ok enabled => (w, [AutostartShown enabled], Ok enabled)
    | Err e => (w, [Ui (Log LError ("failed to read autostart state: " +:+ alternate e))], Ok false)
    end
  else (w, [], Ok false).

(** What is ready before the runtime is started. *)
Record Prepared := {
  pre_config : Config;
  pre_snoozes : gmap string OffsetDateTime;
  pre_geometry : Manager;
  pre_autostart : bool;
}.

Definition prepare (start_hidden : bool) (config_path : string) : RunM Prepared :=
  config ← on_files (load_startup_config env config_path);
  _ ← log LInfo ("starting with config " +:+ to_string_lossy config_path +:+ " (" +:+
        pretty (length (cfg_servers (ws_client config))) +:+ " servers, window " +:+
        (if start_hidden then "hidden" else "visible") +:+ ")");
  state_path ← on_files (default_state_path (ans_home ans));
  _ ← log LDebug ("loading persisted state from " +:+ to_string_lossy state_path);
  persisted ← on_files (store_load state_error state_path);
  snoozes ← answered (decoded_snoozes time_error debug_str persisted);
  _ ← answered (with_context "failed to create native window" (ans_window ans));
  _ ← act WindowCreated;
  _ ← answered (with_context "failed to create system tray icon" (ans_tray ans));
  _ ← act TrayCreated;
  autostart ← show_autostart;
  _ ← log LInfo "UI and system tray initialized";
  let geometry := manager_new (pref_window_geometry (sf_preferences persisted)) in
  _ ← act (PreferencesApplied (apply_preferences persisted));
  _ ← answered (ans_signals ans);
  _ ← act SignalHandlerInstalled;
  _ ← answered (TrayIcons_load (ans_decode ans) assets);
  _ ← act IconsLoaded;
  mret {| pre_config := config; pre_snoozes := snoozes; pre_geometry := geometry;
          pre_autostart := autostart |}.

Definition start_up (start_hidden : bool) (config_path : string) : RunM Started :=
  p ← prepare start_hidden config_path;
  runtime ← answered (handle_start (ans_bind ans) (ans_port ans) (ans_thread ans)
                        (pre_config p) (pre_snoozes p));
  _ ← match handle_thread runtime with Some job => act (RuntimeStarted job) | None => mret tt end;
  _ ← log LDebug "application runtime started";
  files ← the_world;
  mret {| st_handle := runtime;
          st_app := {| app_world := files; app_geometry := pre_geometry p;
                       app_autostart := pre_autostart p; app_restart := false; app_quit := false;
                       app_signalled := false; app_posted := 0; app_commands := [] |} |}.

(** The first show of the window. *)
Definition show_first (start_hidden : bool) (a : App) : App * list RunAct * Result unit :=
  if start_hidden then (a, [], Ok tt)
  else
    let '(m, requests, r) := show (ans_show ans) (app_geometry a) in
    (set_geometry m a, Ui ∘ Native <$> requests, r).

(** [RuntimeShutdown] of the event loop is the shutdown of the handle. *)
Definition performed (h : RuntimeHandle) (e : UiEffect) : list RunAct :=
  match e with
  | RuntimeShutdown => (handle_shutdown_join (ans_panicked ans) h).2
  | e => [Ui e]
  end.

(** [run]; nothing is returned if the process exited at once. [late] are the signals that
    arrive after the event loop, between the acts of the teardown. *)
Definition run (start_hidden : bool) (config_path : string) (events : list (Ambient * UiEvent))
    (last : Ambient) (event_loop_result : Result unit) (late : list (nat * Ambient)) (w : World)
    : list RunAct * option (Result RunOutcome) :=
  match start_up start_hidden config_path w with
  | (_, acts, Err e) => (acts, Some (Err e))
  | (_, acts, Ok started) =>
      let '(a, shown, r) := show_first start_hidden (st_app started) in
      match r with
      | Err e => (acts ++ shown ++ (handle_drop (st_handle started)).2, Some (Err e))
      | Ok _ =>
          let '(acts', r) := run_loop env config_path (performed (st_handle started)) events last
                               event_loop_result late a in
          (acts ++ shown ++ acts', r)
      end
  end.

(** ** The replacement of the process *)

Definition restart_command (executable : string) (arguments : list string) : string * list string :=
  (executable, arguments).

(** [exec] returns only with an error. *)
Definition restart_current_process : list RunAct * option (Result unit) :=
  match with_context "failed to locate current executable" (ans_exe ans) with
  | Err e => ([], Some (Err e))
  | Ok executable =>
      let '(program, arguments) := restart_command executable (drop 1 (ans_args ans)) in
      let restarting := Ui (Log LInfo "restarting application") in
      match ans_exec ans with
      | None => ([restarting; Replaced program arguments], None)
      | Some e => ([restarting], Some (Err ("failed to replace current process" :: e)))
      end
  end.

(** The end of [execute] in graphical mode. *)
Definition run_and_restart (start_hidden : bool) (config_path : string)
    (events : list (Ambient * UiEvent)) (last : Ambient) (event_loop_result : Result unit)
    (late : list (nat * Ambient)) (w : World) : list RunAct * option (Result unit) :=
  let '(acts, r) := run start_hidden config_path events last event_loop_result late w in
  match r with
  | None => (acts, None)
  | Some (Err e) => (acts, Some (Err e))
  | Some (Ok ExitOutcome) => (acts, Some (Ok tt))
  | Some (Ok RestartOutcome) =>
      let '(acts', r) := restart_current_process in (acts ++ acts', r)
  end.
End Run.

(** ** Reasoning *)

Lemma run_bind_inv {A B} (m : RunM A) (f : A -> RunM B) w w' acts r :
  (m ≫= f) w = (w', acts, r) ->
  (exists e, m w = (w', acts, Err e) /\ r = Err e) \/
  exists a w1 acts1 acts2, m w = (w1, acts1, Ok a) /\ f a w1 = (w', acts2, r) /\ acts = acts1 ++ acts2.
Proof.
  unfold mbind, run_bind. destruct (m w) as [[w1 acts1] [a|e]].
  - destruct (f a w1) as [[w2 acts2] r2] eqn:Hf. intros [= <- <- <-]. right. by eauto 10.
  - intros [= <- <- <-]. left. eauto.
Qed.

(** Every act satisfies [P]. *)
Definition emits (P : RunAct -> Prop) {A} (m : RunM A) : Prop := forall w, Forall P (m w).1.2.

Section Emits.
Context (P : RunAct -> Prop).
Lemma emits_bind {A B} (m : RunM A) (f : A -> RunM B) :
  emits P m -> (forall a, emits P (f a)) -> emits P (m ≫= f).
Proof.
  intros Hm Hf w. unfold mbind, run_bind. specialize (Hm w).
  destruct (m w) as [[w1 acts1] [a|e]]; [|done]. specialize (Hf a w1).
  destruct (f a w1) as [[w2 acts2] r2]. simpl in *. by apply Forall_app.
Qed.
Lemma emits_files {A} (m : IO anyhow A) : emits P (on_files m).
Proof. intros w. unfold on_files. destruct (m w). constructor. Qed.
Lemma emits_answered {A} (r : Result A) : emits P (answered r).
Proof. constructor. Qed.
Lemma emits_ret {A} (a : A) : emits P (mret a).
Proof. constructor. Qed.
Lemma emits_act a : P a -> emits P (act a).
Proof. intros Ha w. by repeat constructor. Qed.
End Emits.

Create HintDb emits.
#[export] Hint Resolve emits_files emits_answered emits_ret emits_act : emits.

(** An act of the runtime thread or the process. *)
Definition of_runtime (a : RunAct) : bool :=
  match a with
  | RuntimeStarted _ | ShutdownSent | RuntimeJoined _ | Replaced _ _ => true
  | _ => false
  end.

Section RunLemmas.
Context `{TempNames} `{C : JsonCodec} `{R : Rfc3339} (env : SetupEnv) (assets : IconAssets).
Context (state_error time_error : string) (debug_str : string -> string) (ans : Answers).
Abbreviation prepare := (prepare env assets state_error time_error debug_str ans).
Abbreviation start_up := (start_up env assets state_error time_error debug_str ans).

Lemma prepare_quiet hidden config_path : emits (fun a => of_runtime a = false) (prepare hidden config_path).
Proof.
  unfold Run.prepare, log. repeat (apply emits_bind; [|intros ?]); auto with emits.
  intros w. unfold show_autostart. destruct (ans_linux ans); [|constructor].
  destruct (autostart_enabled env w) as [w1 [b|e]]; by repeat constructor.
Qed.

Lemma prepare_config hidden config_path w w' acts p :
  prepare hidden config_path w = (w', acts, Ok p) ->
  validate (env_debug_str env) (pre_config p) = Ok tt.
Proof.
  unfold Run.prepare. intros Hrun.
  apply run_bind_inv in Hrun as [(e & _ & [=])|(config & w1 & a1 & a2 & H1 & Hrun & _)].
  assert (validate (env_debug_str env) config = Ok tt) as Hv.
  { unfold on_files in H1. destruct (load_startup_config env config_path w) as [w2 r2] eqn:H2.
    injection H1 as -> _ ->. revert H2. unfold load_startup_config, mbind at 1, io_bind.
    destruct (ensure_config env config_path w) as [w3 [b|e]]; [|done].
    intros (? & ? & _ & _ & Hv)%load_config_text. done. }
  enough (pre_config p = config) as -> by done. clear H1 Hv. revert Hrun.
  repeat (intros Hrun; apply run_bind_inv in Hrun as [(e & _ & [=])|(? & ? & ? & ? & _ & Hrun & _)];
          revert Hrun; cbv beta zeta).
  by intros [= _ _ <-].
Qed.

Lemma start_up_spec hidden config_path w w' acts r :
  (forall i port, ans_port ans i = Ok port -> (0 < port <= 65535)%N) ->
  start_up hidden config_path w = (w', acts, r) ->
  match r with
  | Err _ => Forall (fun a => of_runtime a = false) acts
  | Ok started => exists job before, acts = before ++ [RuntimeStarted job;
        Ui (Log LDebug "application runtime started")] /\
      Forall (fun a => of_runtime a = false) before /\
      st_handle started = {| handle_shutdown := false; handle_thread := Some job |} /\
      validate (env_debug_str env) (job_config job) = Ok tt
  end.
Proof.
  intros Hport. unfold Run.start_up. intros Hrun.
  pose proof (prepare_quiet hidden config_path w) as Hq.
  apply run_bind_inv in Hrun as [(e & H1 & ->)|(p & w1 & a1 & a2 & H1 & Hrun & ->)];
    rewrite H1 in Hq; simpl in Hq; [done|].
  apply prepare_config in H1.
  apply run_bind_inv in Hrun as [(e & [= _ <- _] & ->)|(h & w2 & b1 & b2 & [= _ <- Hh] & Hrun & ->)];
    [by rewrite app_nil_r|].
  revert Hh. unfold handle_start.
  destruct (resolve_tunnel_addresses _ _ _) as [config r1] eqn:Hres.
  intros ([] & -> & ([] & _ & [= <-])%bind_Ok)%bind_Ok. revert Hrun. simpl.
  unfold mbind, run_bind, act, log, the_world, mret, run_ret. simpl. intros [= <- <- <-].
  eexists _, a1. split; [done|]. split; [done|]. split; [done|]. simpl.
  by eapply resolve_tunnel_addresses_spec.
Qed.

(** The acts after the start of the runtime: it is joined before anything else happens to
    the process; or, because the window could not be shown, it was only told to stop; or
    the process exited at once. *)
Definition wound_down {A} (job : Job) (r : option (Result A)) (after : list RunAct) : Prop :=
  (exists mid tail, after = mid ++ RuntimeJoined job :: tail /\ ShutdownSent ∈ mid /\
     (forall p l, Replaced p l ∉ mid)) \/
  (is_ok (ans_show ans) = false /\ ShutdownSent ∈ after /\ (forall p l, Replaced p l ∉ after) /\
     exists e, r = Some (Err e)) \/
  (r = None /\ (forall p l, Replaced p l ∉ after) /\ exists code, Ui (ForcedExit code) ∈ after).

Definition not_started (a : RunAct) : Prop := forall job, a <> RuntimeStarted job.

(** Neither the start of the runtime nor the end of the process. *)
Definition tame (a : RunAct) : Prop :=
  match a with RuntimeStarted _ | Replaced _ _ => False | _ => True end.

Lemma quiet_tame acts : Forall (fun a => of_runtime a = false) acts -> Forall tame acts.
Proof. intros Hq. eapply list.Forall_impl; [exact Hq|]. by intros []. Qed.
Lemma tame_not_started acts : Forall tame acts -> Forall not_started acts.
Proof. intros Hq. eapply list.Forall_impl; [exact Hq|]. by intros a Ha job ->. Qed.
Lemma tame_not_replaced acts p l : Forall tame acts -> Replaced p l ∉ acts.
Proof. rewrite list.Forall_forall. intros Hq Hin. by specialize (Hq _ Hin). Qed.

Lemma shown_quiet hidden a : Forall (fun a => of_runtime a = false) (show_first ans hidden a).1.2.
Proof.
  unfold show_first. destruct hidden; [constructor|].
  destruct (show _ _) as [[m requests] r]. simpl. apply Forall_fmap, list.Forall_forall. by intros.
Qed.

Lemma shown_error hidden a e :
  (show_first ans hidden a).2 = Err e -> is_ok (ans_show ans) = false.
Proof.
  unfold show_first, show. destruct hidden; [done|]. destruct (pending_show (app_geometry a));
    destruct (ans_show ans); done.
Qed.

Ltac tame := repeat first
  [ exact I | assumption | apply List.Forall_nil
  | apply list.Forall_cons; split | apply list.Forall_app; split ].

(** The acts of the shutdown of a handle. *)
Lemma joined_acts job :
  exists tail, performed ans {| handle_shutdown := false; handle_thread := Some job |} RuntimeShutdown =
    [Ui (Log LDebug "requesting async runtime shutdown"); ShutdownSent;
     Ui (Log LDebug "waiting for async runtime thread to stop")] ++ RuntimeJoined job :: tail /\
    Forall tame tail.
Proof.
  simpl. destruct (ans_panicked ans); eexists; (split; [reflexivity|]); by repeat constructor.
Qed.

Lemma performed_tame job e :
  Forall tame (performed ans {| handle_shutdown := false; handle_thread := Some job |} e).
Proof.
  destruct (joined_acts job) as (tail & Hj & Ht). destruct e; try (by repeat constructor).
  rewrite Hj. tame.
Qed.

(** The end of a run, after the window was shown. *)
Lemma run_loop_wound_down config_path events last event_loop_result late a job shown :
  Forall tame shown ->
  let '(acts, r) := run_loop env config_path
    (performed ans {| handle_shutdown := false; handle_thread := Some job |}) events last
    event_loop_result late a in
  Forall tame acts /\ wound_down job r (shown ++ acts).
Proof.
  intros Hshown. set (h := {| handle_shutdown := false; handle_thread := Some job |}).
  pose proof (run_loop_ends env config_path (performed ans h) events last event_loop_result late a)
    as Hend.
  destruct (run_loop _ _ _ _ _ _ _ _) as [acts r]. destruct Hend as [Hend Hfrom].
  assert (Forall tame acts) as Htame.
  { apply list.Forall_forall. intros x [e He]%Hfrom. pose proof (performed_tame job e) as Ht.
    rewrite list.Forall_forall in Ht. by apply Ht. }
  split; [done|]. destruct r as [r|].
  - destruct Hend as (before & mid & out & Hb & Hm & -> & Hi). left.
    destruct (joined_acts job) as (tail & Hj & _). fold h in Hj. rewrite Hj in Hi.
    rewrite <-app_assoc, (app_assoc (mid ≫= _)) in Hi. cbn [app] in Hi.
    apply inserted_split in Hi as (o1 & o2 & -> & H1 & _).
    exists (shown ++ (before ≫= performed ans h) ++ o1), o2.
    split; [by rewrite <-!app_assoc|]. split.
    + rewrite !elem_of_app. right; right. eapply inserted_elem; [exact H1|]. set_solver.
    + intros p l. apply tame_not_replaced. rewrite !list.Forall_app in Htame |- *. tauto.
  - destruct Hend as [code Hc]. right; right. split; [done|]. split.
    + intros p l. apply tame_not_replaced. by apply list.Forall_app.
    + exists code. apply elem_of_app. right. apply Hc. by left.
Qed.

Lemma run_acts hidden config_path events last event_loop_result late w acts r :
  (forall i port, ans_port ans i = Ok port -> (0 < port <= 65535)%N) ->
  run env assets state_error time_error debug_str ans hidden config_path events last
    event_loop_result late w = (acts, r) ->
  (Forall tame acts /\ exists e, r = Some (Err e)) \/
  exists job before after, acts = before ++ RuntimeStarted job :: after /\
    Forall (fun a => of_runtime a = false) before /\ Forall tame after /\
    validate (env_debug_str env) (job_config job) = Ok tt /\ wound_down job r after.
Proof.
  intros Hport. unfold run.
  destruct (start_up hidden config_path w) as [[w1 acts1] r1] eqn:Hstart.
  apply start_up_spec in Hstart; [|done]. destruct r1 as [started|e].
  2: { intros [= <- <-]. left. split; [by apply quiet_tame|eauto]. }
  destruct Hstart as (job & before & -> & Hbefore & Hh & Hv).
  pose proof (quiet_tame _ (shown_quiet hidden (st_app started))) as Hshown.
  pose proof (fun e => shown_error hidden (st_app started) e) as Herr.
  destruct (show_first ans hidden (st_app started)) as [[a shown] [[]|e]]; simpl in Hshown, Herr;
    rewrite Hh.
  - assert (Forall tame (Ui (Log LDebug "application runtime started") :: shown)) as Hs by tame.
    pose proof (run_loop_wound_down config_path events last event_loop_result late a job _ Hs) as Hend.
    destruct (run_loop _ _ _ _ _ _ _ _) as [acts1 r1]. destruct Hend as [Ht Hw].
    intros [= <- <-]. right. eexists job, before, _. split; [by rewrite <-!app_assoc|].
    split; [done|]. split; [|done]. tame.
  - intros [= <- <-]. right. exists job, before,
      (Ui (Log LDebug "application runtime started") :: shown ++ [ShutdownSent]).
    assert (Forall tame (Ui (Log LDebug "application runtime started") :: shown ++ [ShutdownSent]))
      as Hafter by tame.
    split; [by rewrite <-!app_assoc|]. split; [done|]. split; [done|]. split; [done|].
    right; left. split; [by eapply Herr|]. split; [set_solver|].
    split; [intros; by apply tame_not_replaced|eauto].
Qed.

Lemma run_not_replaced hidden config_path events last event_loop_result late w acts r p l :
  (forall i port, ans_port ans i = Ok port -> (0 < port <= 65535)%N) ->
  run env assets state_error time_error debug_str ans hidden config_path events last
    event_loop_result late w = (acts, r) -> Replaced p l ∉ acts.
Proof.
  intros Hport [[Ht _]|(job & before & after & -> & Hb%quiet_tame & Ha & _)]%run_acts;
    [by apply tame_not_replaced| |done].
  rewrite not_elem_of_app, not_elem_of_cons. split; [by apply tame_not_replaced|].
  split; [done|by apply tame_not_replaced].
Qed.

(** What comes after a return with success does not matter. *)
Lemma wound_down_after {A B} job (o : A) (r : option (Result B)) after acts :
  wound_down job (Some (Ok o)) after -> wound_down job r (after ++ acts).
Proof.
  intros [(mid & tail & -> & H1 & H2)|[(_ & _ & _ & e & [=])|([=] & _)]].
  left. exists mid, (tail ++ acts). by rewrite <-app_assoc.
Qed.

(** The result of the run, as the process reports it. *)
Definition reported (r : option (Result RunOutcome)) : option (Result unit) :=
  match r with
  | None => None
  | Some (Err e) => Some (Err e)
  | Some (Ok _) => Some (Ok tt)
  end.

Lemma wound_down_reported job r after : wound_down job r after -> wound_down job (reported r) after.
Proof.
  intros [H1|[(H1 & H2 & H3 & e & ->)|(-> & Hx)]]; [by left|right; left; eauto|by right; right].
Qed.
End RunLemmas.

Lemma restart_acts ans acts r :
  restart_current_process ans = (acts, r) ->
  Forall not_started acts /\ (forall p l, Replaced p l ∈ acts ->
    ans_exe ans = Ok p /\ l = drop 1 (ans_args ans) /\ r = None).
Proof.
  unfold restart_current_process, restart_command. destruct (ans_exe ans) as [exe|e]; simpl.
  - destruct (ans_exec ans); intros [= <- <-]; (split; [by repeat constructor|]); set_solver.
  - intros [= <- <-]. split; [constructor|]. set_solver.
Qed.

(** ** What a start reads *)

Section Restore.
Context `{TempNames} `{C : JsonCodec} `{R : Rfc3339} (env : SetupEnv) (assets : IconAssets).
Context (state_error time_error : string) (debug_str : string -> string) (ans : Answers).
Context (path data : string) (mode : N).
Abbreviation here t := (t !! path = Some (NFile data mode)).

Lemma stored_state (t : Tree) state :
  here t -> load state_error no_faults path (files_of t) = Ok state -> parse_state state_error data = Ok state.
Proof.
  intros Ht. unfold load, files_of. simpl. rewrite lookup_omap, Ht. simpl.
  by destruct (parse_state state_error data).
Qed.

(** Both models of the store read the same. *)
Lemma store_load_stored w w' state :
  here (w_tree w) -> store_load state_error path w = (w', Ok state) ->
  parse_state state_error data = Ok state.
Proof.
  intros Ht. unfold store_load, mbind, io_bind, try_io, lift.
  destruct (read_bytes path w) as [w1 r1] eqn:H1.
  pose proof (read_source _ _ _ _ _ _ Ht H1) as Hr. destruct r1 as [text|e].
  - subst text. destruct (parse_state state_error data); [by intros [= _ <-]|done].
  - by rewrite bool_decide_false.
Qed.

Lemma existing_state home w :
  path = path_join home STATE_FILENAME -> here (w_tree w) ->
  default_state_path (Some home) w = (w, Ok path).
Proof.
  intros -> Ht. unfold default_state_path, mbind, io_bind, lift, tree. simpl.
  assert (path_exists (w_tree w) (path_join home STATE_FILENAME) = true) as ->; [|done].
  unfold path_exists. rewrite resolve_not_link by (by rewrite Ht). rewrite Ht.
  by apply bool_decide_true.
Qed.

Lemma startup_keeps config_path w w' config :
  here (w_tree w) -> load_startup_config env config_path w = (w', Ok config) -> here (w_tree w').
Proof.
  intros Ht Hl. assert (moments (w_past w) anything (unchanged nowhere (w_tree w)) whatever w) as Hw
    by (apply moments_begin; [apply unchanged_start|apply script_anything]).
  destruct (keeps_startup env config_path (w_past w) (w_tree w) _ _ _ Hw Hl) as [Hu _].
  by apply Hu; [|intros []].
Qed.

(** What was prepared, and shown, is what the file holds. *)
Lemma prepare_restores home hidden config_path w w' acts p state :
  ans_home ans = Some home -> path = path_join home STATE_FILENAME -> here (w_tree w) ->
  parse_state state_error data = Ok state ->
  prepare env assets state_error time_error debug_str ans hidden config_path w = (w', acts, Ok p) ->
  decoded_snoozes time_error debug_str state = Ok (pre_snoozes p) /\
  pre_geometry p = manager_new (pref_window_geometry (sf_preferences state)) /\
  PreferencesApplied (apply_preferences state) ∈ acts.
Proof.
  intros Hhome Hpath Ht Hp. unfold prepare. rewrite Hhome. intros Hrun.
  apply run_bind_inv in Hrun as [(e & _ & [=])|(config & w1 & a1 & a2 & H1 & Hrun & ->)].
  assert (here (w_tree w1)) as Ht1.
  { unfold on_files in H1. destruct (load_startup_config _ _ w) as [w2 r2] eqn:H2.
    injection H1 as -> _ ->. by eapply startup_keeps. }
  apply run_bind_inv in Hrun as [(e & _ & [=])|(? & ? & ? & a3 & [= <- <- <-] & Hrun & ->)].
  apply run_bind_inv in Hrun as [(e & _ & [=])|(state_path & w2 & ? & a4 & H2 & Hrun & ->)].
  assert (w2 = w1 /\ state_path = path) as [-> ->].
  { unfold on_files in H2. rewrite (existing_state home w1 Hpath Ht1) in H2. by injection H2. }
  apply run_bind_inv in Hrun as [(e & _ & [=])|(? & ? & ? & a5 & [= <- <- <-] & Hrun & ->)].
  apply run_bind_inv in Hrun as [(e & _ & [=])|(persisted & w3 & ? & a6 & H3 & Hrun & ->)].
  assert (persisted = state) as ->.
  { unfold on_files in H3. destruct (store_load _ _ w1) as [w4 r4] eqn:H4.
    injection H3 as -> _ ->. apply store_load_stored in H4; [|done]. congruence. }
  apply run_bind_inv in Hrun as [(e & _ & [=])|(snoozes & ? & ? & a7 & [= <- <- Hs] & Hrun & ->)].
  do 6 (apply run_bind_inv in Hrun as [(e & _ & [=])|(? & ? & ? & ? & _ & Hrun & ->)]).
  cbv zeta in Hrun.
  apply run_bind_inv in Hrun as [(e & _ & [=])|(? & ? & ? & ? & [= _ <- _] & Hrun & ->)].
  do 4 (apply run_bind_inv in Hrun as [(e & _ & [=])|(? & ? & ? & ? & _ & Hrun & ->)]).
  injection Hrun as _ _ <-. split; [exact Hs|]. split; [done|].
  rewrite !elem_of_app. repeat (first [left; by left | right]).
Qed.

Lemma start_up_restores home hidden config_path w w' acts started state :
  ans_home ans = Some home -> path = path_join home STATE_FILENAME -> here (w_tree w) ->
  parse_state state_error data = Ok state ->
  start_up env assets state_error time_error debug_str ans hidden config_path w =
    (w', acts, Ok started) ->
  exists job, handle_thread (st_handle started) = Some job /\
    decoded_snoozes time_error debug_str state = Ok (job_snoozes job) /\
    app_geometry (st_app started) = manager_new (pref_window_geometry (sf_preferences state)) /\
    PreferencesApplied (apply_preferences state) ∈ acts.
Proof.
  intros Hhome Hpath Ht Hp. unfold start_up. intros Hrun.
  apply run_bind_inv in Hrun as [(e & _ & [=])|(p & w1 & a1 & a2 & H1 & Hrun & ->)].
  destruct (prepare_restores _ _ _ _ _ _ _ _ Hhome Hpath Ht Hp H1) as (Hs & Hg & Hin).
  apply run_bind_inv in Hrun as [(e & _ & [=])|(h & ? & ? & ? & [= _ <- Hh] & Hrun & ->)].
  revert Hh. unfold handle_start. destruct (resolve_tunnel_addresses _ _ _) as [config r1].
  intros ([] & -> & ([] & _ & [= <-])%bind_Ok)%bind_Ok. revert Hrun. simpl.
  unfold mbind, run_bind, act, log, the_world, mret, run_ret. simpl. intros [= <- <- <-].
  eexists. split; [done|]. split; [done|]. split; [done|]. apply elem_of_app. by left.
Qed.

(** Nothing else can stop a start. *)
Lemma start_up_succeeds home hidden config_path w w1 config state snoozes :
  ans_home ans = Some home -> path = path_join home STATE_FILENAME -> here (w_tree w) ->
  parse_state state_error data = Ok state ->
  decoded_snoozes time_error debug_str state = Ok snoozes ->
  load_startup_config env config_path w = (w1, Ok config) -> w_script w1 = [] ->
  is_ok (ans_window ans) = true -> is_ok (ans_tray ans) = true -> is_ok (ans_signals ans) = true ->
  is_ok (TrayIcons_load (ans_decode ans) assets) = true ->
  is_ok (handle_start (ans_bind ans) (ans_port ans) (ans_thread ans) config snoozes) = true ->
  is_ok (start_up env assets state_error time_error debug_str ans hidden config_path w).2 = true.
Proof.
  intros Hhome Hpath Ht Hp Hd Hl Hs Hwin Htray Hsig Hicons Hh.
  pose proof (startup_keeps _ _ _ _ Ht Hl) as Ht1.
  unfold start_up, prepare, mbind, run_bind, on_files. rewrite Hl, Hhome. simpl.
  rewrite (existing_state home w1 Hpath Ht1). simpl. unfold store_load, mbind, io_bind, try_io.
  rewrite (calm_read path data mode w1 Hs Ht1), Hp. simpl. rewrite Hd. simpl.
  destruct (ans_window ans); [|done]. simpl. destruct (ans_tray ans); [|done]. simpl.
  assert (forall w, exists w' l b, show_autostart env ans w = (w', l, Ok b)) as Ha.
  { intros w0. unfold show_autostart. destruct (ans_linux ans); [|by eexists _, _, _].
    destruct (autostart_enabled env w0) as [? []]; by eexists _, _, _. }
  match goal with |- context [show_autostart env ans ?w0] => destruct (Ha w0) as (? & ? & ? & ->) end.
  simpl. destruct (ans_signals ans); [|done]. simpl.
  destruct (TrayIcons_load _ _); [|done]. simpl.
  destruct (handle_start _ _ _ config snoozes) as [[f [job|]]|]; done.
Qed.
End Restore.

(** ** Properties *)

(** C10: The runtime thread does not outlive the run. Whatever the toolkit, the operating
    system, the disk and the events do: the runtime is started at most once, with a
    validated configuration for which every server has a task, from whose states the
    shutdown of the network drains; once it was started, it is told to stop and joined before [run] returns and before the process is
    replaced by a new one, so that there are never two; the only exceptions are a window
    that cannot be shown, where the runtime is told to stop but not waited for, and a
    second termination signal, in the event loop or between the acts of the teardown. A process that is replaced gets the same executable and
    arguments. *)
Theorem run_owns_runtime `{TempNames} `{C : JsonCodec} `{R : Rfc3339} (env : SetupEnv)
    (assets : IconAssets) (state_error time_error : string) (debug_str : string -> string)
    (client : ClientEnv) (from_str : string -> Result Envelope)
    (value_error timestamp_error : string) (utf8_error : bytes -> string)
    (ans : Answers) (start_hidden : bool) (config_path : string)
    (events : list (Ambient * UiEvent)) (last : Ambient) (event_loop_result : Result unit)
    (late : list (nat * Ambient)) (w : World) (acts : list RunAct) (r : option (Result unit)) :
  (forall i port, ans_port ans i = Ok port -> (0 < port <= 65535)%N) ->
  run_and_restart env assets state_error time_error debug_str ans start_hidden config_path events
    last event_loop_result late w = (acts, r) ->
  ((Forall not_started acts /\ exists e, r = Some (Err e)) \/
   exists job before after, acts = before ++ RuntimeStarted job :: after /\
     Forall (fun a => of_runtime a = false) before /\ Forall not_started after /\
     validate (env_debug_str env) (job_config job) = Ok tt /\
     (exists tasks, network_tasks (job_config job) = Some tasks /\
        length tasks = length (cfg_servers (ws_client (job_config job))) /\
        Forall (reached client from_str value_error timestamp_error utf8_error) tasks) /\
     wound_down ans job r after) /\
  (forall program arguments, Replaced program arguments ∈ acts ->
     ans_exe ans = Ok program /\ arguments = drop 1 (ans_args ans) /\ r = None).
Proof.
  intros Hport. unfold run_and_restart.
  destruct (run _ _ _ _ _ _ _ _ _ _ _ _ w) as [acts1 r1] eqn:Hrun.
  pose proof (fun p l => run_not_replaced _ _ _ _ _ _ _ _ _ _ _ _ _ _ _ p l Hport Hrun) as Hnone.
  apply run_acts in Hrun; [|done].
  intros Hr. assert ((acts = acts1 /\ r = reported r1) \/ exists acts2,
    r1 = Some (Ok RestartOutcome) /\ restart_current_process ans = (acts2, r) /\ acts = acts1 ++ acts2)
    as Hcase.
  { destruct r1 as [[[]|e]|]; [left|right|left|left]; try (by injection Hr as <- <-).
    destruct (restart_current_process ans) as [acts2 r2]. injection Hr as <- <-. eauto. }
  clear Hr. split.
  - destruct Hrun as [[Ht (e & ->)]|(job & before & after & -> & Hb & Ht & Hv & Hw)].
    { left. destruct Hcase as [[-> ->]|(acts2 & [=] & _)].
      split; [by apply tame_not_started|by exists e]. }
    right. pose proof (network_tasks_reached client from_str value_error timestamp_error utf8_error _ _ Hv)
      as Htasks.
    apply tame_not_started in Ht. destruct Hcase as [[-> ->]|(acts2 & -> & Hr2 & ->)].
    + exists job, before, after. split_and!; eauto using wound_down_reported.
    + destruct (restart_acts ans _ _ Hr2) as [Hn _]. exists job, before, (after ++ acts2).
      split; [by rewrite <-app_assoc|]. split; [done|]. split; [by apply list.Forall_app|].
      split_and!; eauto using wound_down_after.
  - intros p l Hin. destruct Hcase as [[-> _]|(acts2 & _ & Hr2 & ->)]; [by destruct (Hnone p l)|].
    apply elem_of_app in Hin as [Hin|Hin]; [by destruct (Hnone p l)|].
    by apply (restart_acts ans _ _ Hr2).
Qed.

Definition demo_answers : Answers :=
  {| ans_home := Some "/h"; ans_window := Ok tt; ans_tray := Ok tt; ans_linux := true;
     ans_signals := Ok tt; ans_decode := fun _ => Ok (solid 1 0); ans_bind := fun _ => Ok tt;
     ans_port := fun _ => Ok 40001%N; ans_thread := Ok tt; ans_show := Ok tt;
     ans_panicked := false; ans_exe := Ok "/b/montray-ui";
     ans_args := ["montray-ui"; "--start-hidden"]; ans_exec := None |}.
Definition no_assets : IconAssets :=
  {| UNKNOWN_ICON := ""; OK_ICON := ""; INTERNAL_ERROR_ICON := ""; WARNING_ICON := "";
     ERROR_ICON := ""; TRANSPARENT_ICON := "" |}.
Definition demo_home : World :=
  world_of [("/c", NDir 493); ("/c/montray.yml", NFile "ok" 420); ("/h", NDir 493)] [].

Definition demo_process : list RunAct * option (Result unit) :=
  run_and_restart (C := blank_codec) (R := decimal_rfc3339) demo_env no_assets "" "" id demo_answers
    true "/c/montray.yml" [(demo_ambient, OpenWindow); (demo_ambient, RestartClicked)] demo_ambient
    (Ok tt) [] demo_home.

Definition is_replaced (a : RunAct) : bool := match a with Replaced _ _ => true | _ => false end.

Lemma run_owns_runtime_witness :
  demo_process.2 = None /\ exists job, RuntimeJoined job ∈ demo_process.1 /\
    Replaced "/b/montray-ui" ["--start-hidden"] ∈ demo_process.1.
Proof.
  assert (demo_process.2 = None /\ existsb is_replaced demo_process.1 = true) as [Hr He]
    by (vm_compute; done).
  destruct demo_process as [acts r] eqn:Hrun. simpl in Hr, He |- *. subst r.
  apply existsb_exists in He as (a & Hin%list_elem_of_In & Ha). destruct a as [| | | | | | | | | |p l]; try done.
  destruct (run_owns_runtime (C := blank_codec) (R := decimal_rfc3339) demo_env no_assets "" "" id
    Client.demo_env (fun _ => Err []) "" "" (fun _ => "") demo_answers true "/c/montray.yml"
    [(demo_ambient, OpenWindow); (demo_ambient, RestartClicked)] demo_ambient (Ok tt) [] demo_home
    acts None) as [Hc Hrep]; [by intros i port [= <-]|exact Hrun|].
  destruct (Hrep p l Hin) as ([= <-] & -> & _). split; [reflexivity|].
  destruct Hc as [[_ [e [=]]]|(job & before & after & Hacts & Hb & _ & _ & _ & Hw)]. exists job.
  split; [|exact Hin].
  destruct Hw as [(mid & tail & -> & _)|[([=] & _)|(_ & Hno & _)]].
  - rewrite Hacts, elem_of_app, elem_of_cons, elem_of_app. right. right. right. by left.
  - exfalso. rewrite Hacts, elem_of_app, elem_of_cons in Hin.
    destruct Hin as [Hin|[[=]|Hin]]; [|by apply Hno in Hin].
    rewrite list.Forall_forall in Hb. by specialize (Hb _ Hin).
Defined.

(** If the window cannot be shown, [run] returns while the runtime thread, and with it any
    tunnel process, may still run. *)
Definition is_joined (a : RunAct) : bool := match a with RuntimeJoined _ => true | _ => false end.
Definition hidden_answers : Answers :=
  {| ans_home := Some "/h"; ans_window := Ok tt; ans_tray := Ok tt; ans_linux := true;
     ans_signals := Ok tt; ans_decode := fun _ => Ok (solid 1 0); ans_bind := fun _ => Ok tt;
     ans_port := fun _ => Ok 40001%N; ans_thread := Ok tt; ans_show := Err ["no display"];
     ans_panicked := false; ans_exe := Ok "/b/montray-ui"; ans_args := []; ans_exec := None |}.

Example show_failure_detaches :
  let '(acts, r) := run (C := blank_codec) (R := decimal_rfc3339) demo_env no_assets "" "" id
    hidden_answers false "/c/montray.yml" [] demo_ambient (Ok tt) [] demo_home in
  r = Some (Err ["failed to show native window"; "no display"]) /\
  existsb (fun a => match a with RuntimeStarted _ => true | _ => false end) acts = true /\
  existsb is_joined acts = false.
Proof. vm_compute. repeat split. Qed.
