(* ===== verification/Crash.v ===== *)
(** * A crash and the next start

    The session of [Durable] and the start of [Run] together: the process is killed at any
    moment of a session, and the application started again on the tree that this leaves. *)

From Stdlib Require Import ZArith Lia.
From stdpp Require Import base gmap strings list option.
From S2P Require Import Prelude RustStr Output RustPath Domain Reducer Config Protocol StateFile Persistence Runtime Tray Geometry Io Atomic ImportState Store Cli Desktop Setup App Session Durable Run.

(** A world after a crash: the tree is what is left, and the calls to come have their own
    outcomes. *)
Definition rebooted (t : Tree) (script : list Outcome) : World :=
  {| w_tree := t; w_script := script; w_out := ""; w_past := [] |}.

(** C3: A crash loses nothing that was shown as done. At whatever moment of a session the
    process is killed, between or inside its writes and whichever of them fail, a later
    start on the tree that is left gives the runtime the snoozes, and the window the
    placement and the preferences, that the application showed after some of the steps of
    the session; and in a working environment this start succeeds. *)
Theorem crash_restart `{TempNames} `{C : JsonCodec} `{!JsonLaws C} `{!JsonChunks C}
    `{R : Rfc3339} `{!Rfc3339Laws R} (env : SetupEnv) (assets : IconAssets)
    (state_error time_error : string) (debug_str : string -> string) (ans : Answers)
    (available : bool) (home : string) (config : Config) (w : World) (loaded : StateFile)
    (snoozes : gmap string OffsetDateTime) (steps : list SessionStep) (s : TreeSession)
    (l : list Tree) (t : Tree) (data : string) (mode : N) (script : list Outcome)
    (start_hidden : bool) (config_path : string) :
  let path := path_join home STATE_FILENAME in
  let start := tree_start config w loaded snoozes in
  let again := start_up env assets state_error time_error debug_str ans start_hidden config_path
                 (rebooted t script) in
  (forall s, state_ok s -> printable (state_value s)) ->
  private_path path = false -> calm path w ->
  load state_error no_faults path (files_of (w_tree w)) = Ok loaded -> state_ok loaded ->
  decoded_snoozes time_error debug_str loaded = Ok snoozes -> Forall tree_step_ok steps ->
  tree_run state_error available path start steps = Some s ->
  w_past (ts_world s) = l ++ w_past w -> t ∈ w_tree (ts_world s) :: l ->
  t !! path = Some (NFile data mode) -> ans_home ans = Some home ->
  exists k sk,
    tree_run state_error available path start (take k steps) = Some sk /\
    (forall w' acts started, again = (w', acts, Ok started) ->
       exists job, handle_thread (st_handle started) = Some job /\
         job_snoozes job = snoozed (pump_state (ts_pump sk)) /\
         app_geometry (st_app started) = manager_new (last_persisted (ts_manager sk)) /\
         PreferencesApplied (ts_saved sk) ∈ acts) /\
    (forall w1 config', load_startup_config env config_path (rebooted t script) = (w1, Ok config') ->
       w_script w1 = [] ->
       is_ok (ans_window ans) = true -> is_ok (ans_tray ans) = true ->
       is_ok (ans_signals ans) = true -> is_ok (TrayIcons_load (ans_decode ans) assets) = true ->
       is_ok (handle_start (ans_bind ans) (ans_port ans) (ans_thread ans) config'
                (snoozed (pump_state (ts_pump sk)))) = true ->
       is_ok again.2 = true).
Proof.
  intros path start again Hp Hpath Hcalm Hl Hok Hd Hsteps Hrun Hpast Ht Hfile Hhome.
  destruct (start_recorded state_error time_error debug_str path config w loaded snoozes Hl Hok Hd)
    as [Hm Hr].
  destruct (tree_run_recorded state_error time_error debug_str available path (unknown loaded) Hpath
    Hp start steps s Hcalm Hsteps Hm Hr Hrun) as (_ & l' & Hpast' & Hall).
  assert (l' = l) as -> by (eapply app_inv_tail; by rewrite <-Hpast).
  rewrite list.Forall_forall in Hall. destruct (Hall t Ht) as (k & sk & Hk & state & Hls & Hh).
  destruct Hh as [_ Hds Hg Hs _]. apply (stored_state state_error path data mode) in Hls; [|done].
  simpl in Hds, Hg, Hs. exists k, sk. split; [done|]. split.
  - intros w' acts started Hstart.
    destruct (start_up_restores _ _ _ _ _ _ path data mode home _ _ (rebooted t script) _ _ _ _
      Hhome eq_refl Hfile Hls Hstart) as (job & Hj & Hdj & Hgj & Hin).
    exists job. split; [done|]. split; [congruence|]. by rewrite <-Hg, <-Hs.
  - intros. by eapply (start_up_succeeds _ _ _ _ _ _ path data mode home).
Qed.

(** The disk fills up while the preferences are written, and the process is killed then. *)
Definition crash_world : World :=
  world_of [("/c", NDir 493); ("/c/montray.yml", NFile "ok" 420); ("/h", NDir 493)]
    (replicate 17 Fine ++ [Fails false "disk full" (Some "01")]).
Definition crash_session : option TreeSession :=
  tree_run (C := coded) (R := decimal_rfc3339) "" true "/h/.montray-state.json"
    (tree_start demo_config crash_world StateFile_default ∅) (take 5 demo_tree_steps).
Definition crash_trees : list Tree :=
  default [] ((fun s => w_past (ts_world s)) <$> crash_session).
Definition crash_start : World * list RunAct * Result Started :=
  start_up (C := coded) (R := decimal_rfc3339) demo_env no_assets "" "" id demo_answers false
    "/c/montray.yml" (rebooted (default ∅ (crash_trees !! 1)) []).

Lemma crash_world_calm : calm "/h/.montray-state.json" crash_world.
Proof. split; [done|]. by repeat constructor. Qed.
Lemma crash_session_done : bool_decide (is_Some crash_session) = true.
Proof. vm_compute. reflexivity. Qed.
Lemma crash_tree_file :
  (fun f => f_mode f) <$> files_of (default ∅ (crash_trees !! 1)) !! "/h/.montray-state.json" =
    Some owner_only.
Proof. vm_compute. reflexivity. Qed.
Lemma crash_tree_there : bool_decide (is_Some (crash_trees !! 1)) = true.
Proof. vm_compute. reflexivity. Qed.
Lemma crash_start_ok : is_ok crash_start.2 = true.
Proof. vm_compute. reflexivity. Qed.

Lemma files_of_file (t : Tree) path f :
  files_of t !! path = Some f -> exists data mode, t !! path = Some (NFile data mode).
Proof.
  unfold files_of. rewrite lookup_omap. intros (n & Hn & Hf)%bind_Some.
  destruct n as [data mode| |]; [|discriminate..]. by exists data, mode.
Qed.

Lemma crash_restart_witness :
  exists s w' acts started k sk job,
    crash_session = Some s /\ crash_start = (w', acts, Ok started) /\
    tree_run (C := coded) (R := decimal_rfc3339) "" true "/h/.montray-state.json"
      (tree_start demo_config crash_world StateFile_default ∅)
      (take k (take 5 demo_tree_steps)) = Some sk /\
    handle_thread (st_handle started) = Some job /\
    job_snoozes job = snoozed (pump_state (ts_pump sk)).
Proof.
  destruct (bool_decide_eq_true_1 _ crash_session_done) as [s Hrun].
  destruct (bool_decide_eq_true_1 _ crash_tree_there) as [t Ht].
  pose proof crash_tree_file as Hfile. rewrite Ht in Hfile. cbn [default from_option id] in Hfile.
  apply fmap_Some in Hfile as (f & Hf & _). apply files_of_file in Hf as (data & mode & Hf).
  destruct crash_start as [[w' acts] r] eqn:Hstart.
  pose proof crash_start_ok as Hok. rewrite Hstart in Hok. destruct r as [started|e]; [|discriminate Hok].
  unfold crash_start in Hstart. rewrite Ht in Hstart. cbn [default from_option id] in Hstart.
  unfold crash_trees in Ht. rewrite Hrun in Ht. cbn [fmap option_fmap option_map default from_option id] in Ht.
  pose proof (crash_restart (C := coded) (R := decimal_rfc3339) demo_env no_assets "" "" id demo_answers
    true "/h" demo_config crash_world StateFile_default ∅ (take 5 demo_tree_steps) s
    (w_past (ts_world s)) t data mode [] false "/c/montray.yml") as Hcrash.
  cbv zeta in Hcrash.
  assert (path_join "/h" STATE_FILENAME = "/h/.montray-state.json") as Hjoin by reflexivity.
  rewrite Hjoin in Hcrash.
  destruct Hcrash as (k & sk & Hk & Hagain & _).
  - intros. exact I.
  - reflexivity.
  - exact crash_world_calm.
  - vm_compute. reflexivity.
  - apply StateFile_default_ok.
  - reflexivity.
  - apply Forall_take, demo_tree_steps_ok.
  - exact Hrun.
  - symmetry. apply app_nil_r.
  - right. by eapply list_elem_of_lookup_2.
  - exact Hf.
  - reflexivity.
  - destruct (Hagain w' acts started Hstart) as (job & Hj & Hs & _). exists s, w', acts, started, k, sk, job. split; [exact Hrun|]. split; [reflexivity|].
    split; [exact Hk|]. split; [exact Hj|exact Hs].
Defined.
